(* ===== verification/_CoqProject ===== *)
-Q . S2P
Prelude.v
Wire.v
RoomIds.v
Fifo.v
RequestCache.v
Samples.v
Execute.v
ExecuteLive.v
ExecuteSpec.v
ExecuteRetries.v
Driver.v
DriverSpec.v
GrpcServer.v
GrpcSession.v
GrpcServerSpec.v
GrpcClient.v
EndToEnd.v
Stack.v
StackSpec.v
Process.v
ProcessSpec.v
ProcessLive.v
DriverAcks.v
SfuShard.v
SfuEvents.v
SfuLoop.v
SfuShardSpec.v
SfuCommandSpec.v
SfuWorkerSpec.v
SfuSamples.v
SfuEventsSpec.v
SfuLoopSpec.v
SfuSession.v
SfuSessionSpec.v
Delivery.v
DeliverySpec.v
Answers.v
SfuPipeline.v
Params.v
Templates.v
RoomServer.v
RoomServerSpec.v
Bodies.v
Router.v
WsServer.v
WsServerSpec.v
Transport.v
Tls.v
Shutdown.v
Cli.v
CliSpec.v
Startup.v
SfuProcess.v
TestSupport.v
Tests.v
RoomServerTests.v
