(* ===== verification/Prelude.v ===== *)
(** * Verification of the AppRTC server

    The repository builds three programs around two Sans-I/O crates that are not
    part of it, the signaling state machine ([Collider]) and the media engine
    ([Sfu]):

    - [apprtc]: the HTTP server.  It renders the pages and answers the room API,
      and asks the signaling service for every decision over gRPC.
    - [signaling]: owns the [Collider].  One event loop applies the commands of
      the browsers' WebSockets, of AppRTC's requests and of the SFU workers'
      sessions, and routes what the state machine says.
    - [sfu]: a media worker.  Shards own one engine each and apply the commands
      that a session with the signaling service relays; engine events go back
      the same way until they are acknowledged.

    ** How the model reads

    Definitions follow the source function by function and keep its names.
    Fallible code returns [result]; code that changes a state is
    [stateful S E A], which keeps the state reached on failure; [let?], [ensure?],
    [let!] and [check!] are the [?] operator and the early returns.  64-bit
    counters wrap ([wrap64], [fetch_add], [fetch_sub]) as the atomics do.  What a
    [select!] can be woken by is an inductive type of events, and a loop is a
    function of the events it sees, so theorems hold for every schedule.  Where
    tasks interleave on shared state the model is a step relation over labels.

    Code outside the repository is a type class, and what is relied on is a class of
    laws: room ids ([RoomIdLib], [RoomIdLaws]), generated enums ([ProtoEnums]), the
    state machine ([ColliderLib], [ColliderLaws], [AckLaws]), the media engine
    ([SfuLib], [SfuLaws]), SDP and JSON ([SdpLib], [SignalJson], [JsonText]), the
    hasher ([DefaultHasher]), the order of hash maps ([HashOrder]), URLs ([UrlLib],
    [UrlParts]), the template engine ([MiniJinja], and what the handlers see of it,
    [TemplateEngine]), files ([PageFiles], [Files], [LogFiles]), certificates
    ([TlsLib]), sockets ([Network]), the accept key ([AcceptKey]), the network
    ([SignalingChannel]), media traffic ([SfuMediaLib]), the matching of paths
    ([PathMatcher]). Samples.v, SfuSamples.v and the last sections of the
    specification files instantiate each of them with concrete functions, on which
    the witnesses compute.

    ** Files

    - Prelude: results, stateful computations and their triples, machine
      integers, decimal text, channels, fuel, tactics.  Wire: the messages of the
      gRPC protocol ([v2]), of the state machine ([collider], [ssfu]) and the
      classes of outside code.
    - RoomIds: [src/src/room_id.rs].
    - Fifo: the reference list of a bounded first-in first-out cache, and the map
      with its queue that represents it in both programs.
    - RequestCache, Execute (with ExecuteLive, ExecuteSpec, ExecuteRetries): the
      idempotent execution of [src/src/grpc_server.rs].  [RequestCache] is the cache;
      [Execute.step] moves one task of [execute] by one critical section or
      await, cancellation included; [execute] is the sequential reading.
    - Driver (DriverSpec): the event loop of [src/src/signaling_server.rs].
      [Driver] is the state of [run], [handle_command], [drain_outputs] and
      [drain_authority_responses] are the functions of the same names,
      [event_loop] and [graceful_stop] the two parts of [run].
    - GrpcServer, GrpcSession (GrpcServerSpec): the RPC handlers, the translation
      of SFU messages, and the task of one SFU session.
    - GrpcClient: the trait [RoomAuthority] as a class and its gRPC instance
      ([src/src/grpc_client.rs]).  EndToEnd: client and server composed.
    - Stack (StackSpec): the service of [src/src/grpc_server.rs] with the event
      loop behind it, as [main] of [src/src/bin/signaling.rs] connects them;
      [Stack.exec] is [execute] whose reply channel leads through
      [Driver.loop_body] ([turn], [drained]), for requests one after the other.
      Process (ProcessSpec, ProcessLive): the same with concurrent requests; [process_step]
      moves one task of [execute], the loop by one turn, or its graceful stop.
    - Delivery (DeliverySpec, DriverAcks): a worker connected to that process.
      [dstep] moves the worker's session, a stream that may lose what it carries,
      a session task or the event loop.  Answers: the way of the commands on it.
    - SfuShard, SfuEvents, SfuLoop (SfuShardSpec, SfuCommandSpec, SfuWorkerSpec,
      SfuEventsSpec, SfuLoopSpec): commands, command cache, metrics, dispatch,
      events and the whole [media_loop] of [src/src/sfu_server.rs]; each turn comes
      with what the other shards do meanwhile and with how its sends end, and a send
      with no end waits for room ([SfuEvents.SendEnd]).  SfuSession
      (SfuSessionSpec): [run_session] and the reconnection.  SfuPipeline: the
      queues between the session and the shards.
    - Params: [src/src/config.rs] and [src/src/params.rs].  Templates:
      [src/src/templates.rs] and [src/src/dashboard.rs].
    - RoomServer (RoomServerSpec): the handlers of [src/src/room_server.rs], over
      any [RoomAuthority]; the gRPC instance discharges what they rely on
      ([StableAdmissions]).  Bodies: the JSON of its answers.  Router: its table of
      routes.
    - WsServer (WsServerSpec): [src/src/ws_server.rs].  Transport: its sessions and
      the event loop together.  Tls: [TlsListener] of [src/src/tls.rs].
    - Shutdown: the stop of [src/src/bin/signaling.rs].  Cli (CliSpec): the
      configurations built by [src/src/bin/apprtc.rs] and [src/src/bin/sfu.rs], the
      certificates of [src/src/tls.rs], the gRPC endpoints.  Startup: what the three
      [main]s open before they serve; the gRPC server reads the certificate files a
      second time ([grpc_start]).  SfuProcess: [main] of [src/src/bin/sfu.rs] and
      its redirect server.
    - TestSupport, Tests, RoomServerTests: the repository's own unit tests, and
      their mock authority, replayed on the definitions above.

    ** What the theorems show

    - Requests (C1 to C5, C7, C16, C19, C36): one execution per request id in
      every interleaving; concurrent duplicates get one answer; a request makes
      the event loop handle one command and is answered with its reply, also
      when many are under way; every request can be answered without a timeout,
      unless only the state machine's reply is missing, even while the loop stops; a
      repeated RPC gets the same response and touches nothing; every branch of
      [execute]; and that a dropped owner leaves its key in flight for ever.
    - RPC (C6, C26, C37): AppRTC and the signaling service together are a direct
      call of the authority; invalid requests are never executed.
    - Event loop (C8, C10, C17, C27): replies are correlated, texts arrive in order,
      sockets do not outlive their sessions, and every run ends.
    - Workers (C9, C11 to C14, C18, C20, C21, C32 to C35): every numbered event
      reaches the event loop or is sent again; commands are answered in order, at
      most once; the projection is the engine's membership, a shard's loop answers
      each command once and reports only on members, and ends, waits, or is held at
      a full event channel; snapshots are applied exactly, retries change nothing,
      metrics are exact whatever the shards do, events survive reconnections and
      are understood by the other side; and the circular wait between a session and
      a shard.
    - SFU sessions of the signaling service (C15).
    - Browsers (C22, C38, C39): heads are bounded and parsed back, a session
      reports its life in order.
    - HTTP (C23 to C25, C28, C40): joining, leaving, routing, escaping, an origin
      that does not depend on the request, and what the request's URL decides.
    - Operation (C29 to C31): stopping, starting, and the TLS listener.
    - Tests: the lemmas that end in [tests_pass] evaluate the assertions of the
      unit tests, for every clock and draw where a test takes what it gets.

    ** Fuel

    Loops that end when a queue of the state machine or of the engine is empty
    take fuel and return [None] without it.  Their results are stated as
    [settles]: from some amount of fuel on, the answer is this one.  The bound
    comes from the laws that such a queue is finite ([ColliderLaws],
    [SfuPollLaws]); [Stack.drained] takes exactly that bound.  Rendering a [u64]
    takes twenty rounds, as many as it has digits; drawing a non-zero id takes two,
    as a counter is zero at most once in a row; joining takes the eight attempts of
    the source.

    ** Not modelled

    The inside of libraries: sockets, TLS, HTTP/2 and WebSocket framing, timers,
    the runtime, static files, argument parsing, the page templates' own
    language.  The [Collider] and the engine are other crates, and so are the
    generated messages, of which the documented fields are modelled.  What is
    logged and printed has no effect on anything modelled.  The certificate
    verifiers that accept everything are callbacks of the TLS library; what is
    modelled is when they are installed.  A drain of the event loop is one step
    for the sessions that read its channels: room they make while it runs is not
    seen, so that a text the program drops may be followed there by one that finds
    room, before the drain ends and removes the connection.  The unit tests that check answers of the
    state machine need the real one and are not replayed.  Memory and time are unbounded. *)

From stdpp Require Export base tactics gmap strings list numbers.

(** [naive_solver] may clear a hypothesis twice; that is not worth a warning. *)
#[export] Set Warnings "-clear-no-such-hyp".

(** ** Error values

    Rust's [Result<A, E>].  The [?] operator is the notation [let?]. *)

Inductive result (A E : Type) : Type :=
  | Ok (a : A)
  | Err (e : E).

Arguments Ok {A E} a.
Arguments Err {A E} e.

Declare Scope rust_scope.
Delimit Scope rust_scope with rust.
Open Scope rust_scope.

Notation "'let?' x := c 'in' k" :=
  (match c with Ok x => k | Err err => Err err end)
  (at level 10, x name, c at level 100, k at level 200) : rust_scope.

Notation "'ensure?' b 'else' e 'in' k" :=
  (if b then k else Err e)
  (at level 10, b at level 100, e at level 100, k at level 200) : rust_scope.

(** Code that changes a state of type [S] and may fail.  Failing keeps the state
    reached so far. *)
Definition stateful (S E A : Type) : Type := S → S * result A E.

(** A computation that neither reads nor changes the state. *)
Definition lift {S E A} (r : result A E) : stateful S E A := λ s, (s, r).

Definition st_bind {S E A B} (m : stateful S E A) (k : A → stateful S E B) : stateful S E B :=
  λ s, match m s with
       | (s', Ok a) => k a s'
       | (s', Err e) => (s', Err e)
       end.

Notation "'let!' x := m 'in' k" := (st_bind m (λ x, k))
  (at level 10, x name, m at level 100, k at level 200) : rust_scope.

Notation "'check!' b 'else' e 'in' k" :=
  (if b then k else lift (Err e))
  (at level 10, b at level 100, e at level 100, k at level 200) : rust_scope.

(** [Option::ok_or]. *)
Definition ok_or {A E} (o : option A) (e : E) : result A E :=
  match o with Some a => Ok a | None => Err e end.

Definition map_err {A E F} (f : E → F) (r : result A E) : result A F :=
  match r with Ok a => Ok a | Err e => Err (f e) end.

Definition result_ok {A E} (r : result A E) : option A :=
  match r with Ok a => Some a | Err _ => None end.

Definition is_ok {A E} (r : result A E) : bool :=
  match r with Ok _ => true | Err _ => false end.

(** [opt_default d o] is [Option::unwrap_or]. *)
Definition opt_default {A} (d : A) (o : option A) : A :=
  match o with Some a => a | None => d end.

#[export] Instance result_eq_dec {A E} `{EqDecision A, EqDecision E} :
  EqDecision (result A E).
Proof. solve_decision. Defined.

(** ** Machine integers

    A [u64] is an [N] below [2^64]; wrap-around is written out.  [usize] is
    64 bits wide, as on the targets the crate is built for. *)

Definition u64_modulus : N := 18446744073709551616.
Definition u64_max : N := 18446744073709551615.

Definition is_u64 (n : N) : Prop := (n < u64_modulus)%N.

(** [u64::try_from(usize).unwrap_or(u64::MAX)]. *)
Definition u64_of_usize (n : N) : N := if (n <? u64_modulus)%N then n else u64_max.

Definition wrap64 (n : N) : N := (n mod u64_modulus)%N.

(** [AtomicU64::fetch_add]: the value read and the value stored. *)
Definition fetch_add (counter delta : N) : N * N :=
  (counter, wrap64 (counter + delta)).

(** [AtomicU64::fetch_sub], which wraps below zero. *)
Definition fetch_sub (counter delta : N) : N * N :=
  (counter, wrap64 (counter + (u64_modulus - wrap64 delta))).

(** [loop { let v = counter.fetch_add(1); if v != 0 { break v } }], the counter
    being the state; [None] when the fuel runs out first. *)
Fixpoint fetch_nonzero (fuel : nat) (counter : N) : option (N * N) :=
  match fuel with
  | O => None
  | S fuel' =>
      let '(value, next) := fetch_add counter 1 in
      if (value =? 0)%N then fetch_nonzero fuel' next else Some (value, next)
  end.

(** ** Strings

    A Rust [str] is its UTF-8 bytes. *)

Definition is_empty (s : string) : bool :=
  match s with EmptyString => true | _ => false end.

Definition byte_value (c : Ascii.ascii) : N := Ascii.N_of_ascii c.

(** [u8::is_ascii_digit]. *)
Definition is_ascii_digit (c : Ascii.ascii) : bool :=
  ((48 <=? byte_value c) && (byte_value c <=? 57))%N.

(** [str::bytes().all(p)]. *)
Fixpoint string_forallb (p : Ascii.ascii → bool) (s : string) : bool :=
  match s with
  | EmptyString => true
  | String c s' => p c && string_forallb p s'
  end.

(** [str::strip_prefix]. *)
Fixpoint strip_prefix (prefix s : string) : option string :=
  match prefix, s with
  | EmptyString, _ => Some s
  | String a p', String b s' => if Ascii.eqb a b then strip_prefix p' s' else None
  | String _ _, EmptyString => None
  end.

Definition starts_with (prefix s : string) : bool :=
  match strip_prefix prefix s with Some _ => true | None => false end.

(** The double-quote character as a string, for literals that contain it. *)
Definition dquote : string := String (Ascii.ascii_of_N 34) EmptyString.

(** *** Decimal rendering and parsing of [u64]

    [u64::to_string] divides by ten until the quotient is zero; twenty rounds
    are enough for any 64-bit value. *)

Definition digit_char (d : N) : Ascii.ascii := Ascii.ascii_of_N (48 + d).

Fixpoint show_digits (fuel : nat) (n : N) (acc : string) : string :=
  match fuel with
  | O => acc
  | S fuel' =>
      let acc' := String (digit_char (n mod 10)) acc in
      if (n <? 10)%N then acc' else show_digits fuel' (n / 10) acc'
  end.

Definition show_u64 (n : N) : string := show_digits 20 n EmptyString.

(** The digit loop of [str::parse::<u64>]: [checked_mul] by ten, then
    [checked_add] of the digit. *)
Fixpoint parse_digits (s : string) (acc : N) : option N :=
  match s with
  | EmptyString => Some acc
  | String c s' =>
      if is_ascii_digit c then
        let shifted := (acc * 10)%N in
        if (u64_max <? shifted)%N then None
        else
          let next := (shifted + (byte_value c - 48))%N in
          if (u64_max <? next)%N then None else parse_digits s' next
      else None
  end.

(** [str::parse::<u64>]: an empty string, or a lone sign, is an error, and one
    leading [+] is accepted. *)
Definition parse_u64 (s : string) : option N :=
  match s with
  | EmptyString => None
  | String c s' =>
      if Ascii.eqb c (Ascii.ascii_of_N 43) then
        match s' with EmptyString => None | _ => parse_digits s' 0 end
      else parse_digits s 0
  end.

(** ** Bounded channels

    A tokio [mpsc] channel seen from the sender: what is queued, the capacity
    and whether the receiver still exists.  Tasks share a channel by its id in
    a channel store, so that two holders of one sender see one queue. *)

Record channel (A : Type) : Type := mk_channel {
  chan_queue : list A;
  chan_capacity : nat;
  chan_open : bool;
}.

Arguments mk_channel {A} _ _ _.
Arguments chan_queue {A} _.
Arguments chan_capacity {A} _.
Arguments chan_open {A} _.

Definition chan_id : Type := nat.

(** [Sender::try_send]: fails when the queue is full or the receiver gone. *)
Definition chan_try_send {A} (c : channel A) (a : A) : result (channel A) unit :=
  if chan_open c && (length (chan_queue c) <? chan_capacity c)%nat
  then Ok (mk_channel (chan_queue c ++ [a]) (chan_capacity c) (chan_open c))
  else Err tt.

(** The same through a store; an id the store does not know is a channel whose
    receiver has been dropped. *)
Definition try_send {A} (store : gmap chan_id (channel A)) (c : chan_id) (a : A)
  : gmap chan_id (channel A) * result unit unit :=
  match store !! c with
  | Some ch =>
      match chan_try_send ch a with
      | Ok ch' => (<[c := ch']> store, Ok tt)
      | Err e => (store, Err e)
      end
  | None => (store, Err tt)
  end.

(** ** Automation *)

(** Case analysis on the scrutinee of a [match] or an [if]. *)
Ltac case_step :=
  match goal with
  | |- context [match ?x with _ => _ end] => destruct x eqn:?
  | H : context [match ?x with _ => _ end] |- _ => destruct x eqn:?
  end.

Ltac crush_cases := repeat (case_step; simplify_eq/=); try done.

(** Turn boolean comparisons in the context into propositions. *)
Ltac bool_to_prop :=
  repeat match goal with
  | H : _ && _ = true |- _ => apply andb_true_iff in H as [? ?]
  | H : _ || _ = false |- _ => apply orb_false_iff in H as [? ?]
  | H : _ && _ = false |- _ => apply andb_false_iff in H
  | H : _ || _ = true |- _ => apply orb_true_iff in H
  | H : negb _ = true |- _ => apply negb_true_iff in H
  | H : negb _ = false |- _ => apply negb_false_iff in H
  | H : (_ <? _)%N = true |- _ => apply N.ltb_lt in H
  | H : (_ <? _)%N = false |- _ => apply N.ltb_ge in H
  | H : (_ <=? _)%N = true |- _ => apply N.leb_le in H
  | H : (_ <=? _)%N = false |- _ => apply N.leb_gt in H
  | H : (_ =? _)%N = true |- _ => apply N.eqb_eq in H
  | H : (_ =? _)%N = false |- _ => apply N.eqb_neq in H
  | H : (_ =? _)%nat = true |- _ => apply Nat.eqb_eq in H
  | H : (_ =? _)%nat = false |- _ => apply Nat.eqb_neq in H
  | H : (_ <? _)%nat = true |- _ => apply Nat.ltb_lt in H
  | H : (_ <? _)%nat = false |- _ => apply Nat.ltb_ge in H
  | H : String.eqb _ _ = true |- _ => apply String.eqb_eq in H
  | H : String.eqb _ _ = false |- _ => apply String.eqb_neq in H
  end.

Lemma NoDup_snoc {A} (l : list A) x : NoDup (l ++ [x]) ↔ NoDup l ∧ x ∉ l.
Proof.
  rewrite list.NoDup_app. split.
  - intros (? & Hx & _). split; [done|]. intros ?. by eapply Hx; [|left].
  - intros [? Hx]. split_and!; [done| |apply NoDup_singleton].
    by intros y Hy ->%list_elem_of_singleton.
Qed.

Create HintDb apprtc.

(** ** Fuel

    [f] yields [r] whatever the fuel, from some point on. *)
Definition settles {A} (f : nat → option A) (r : A) : Prop :=
  ∃ n, ∀ fuel, (n ≤ fuel)%nat → f fuel = Some r.

Lemma settles_ret {A} (r : A) : settles (λ _, Some r) r.
Proof. by exists 0%nat. Qed.

Lemma settles_bind {A B} (f : nat → option A) (g : nat → A → option B) a b :
  settles f a → settles (λ n, g n a) b →
  settles (λ n, match f n with Some x => g n x | None => None end) b.
Proof.
  intros [n Hf] [m Hg]. exists (n + m)%nat. intros fuel Hle. rewrite Hf by lia. apply Hg. lia.
Qed.

Lemma settles_unique {A} (f : nat → option A) r n r' :
  (∀ m k x, f m = Some x → (m ≤ k)%nat → f k = Some x) → settles f r → f n = Some r' → r' = r.
Proof.
  intros Hmono [m Hm] Hn. apply (Hmono _ (n + m)%nat) in Hn; [|lia].
  rewrite Hm in Hn by lia. by simplify_eq.
Qed.

(** ** Reasoning about stateful code

    [triple Pre m Post Fail]: from a state in [Pre], [m] succeeds in [Post] or
    fails in [Fail]. *)

Definition triple {S E A} (Pre : S → Prop) (m : stateful S E A) (Post : A → S → Prop)
    (Fail : E → S → Prop) : Prop :=
  ∀ s, Pre s → match m s with (s', Ok a) => Post a s' | (s', Err e) => Fail e s' end.

Lemma triple_bind {S E A B} Pre Mid Post Fail (m : stateful S E A) (k : A → stateful S E B) :
  triple Pre m Mid Fail → (∀ a, triple (Mid a) (k a) Post Fail) → triple Pre (st_bind m k) Post Fail.
Proof.
  intros Hm Hk s Hs. unfold st_bind. specialize (Hm s Hs). destruct (m s) as [s' [a|e]]; [|done].
  by apply Hk.
Qed.

Lemma triple_lift {S E A} (Pre : S → Prop) (r : result A E) (Post : A → S → Prop) Fail :
  (∀ s, Pre s → match r with Ok a => Post a s | Err e => Fail e s end) →
  triple Pre (lift r) Post Fail.
Proof. intros H s Hs. specialize (H s Hs). unfold lift. by destruct r. Qed.

Lemma triple_weaken {S E A} (Pre Pre' : S → Prop) (m : stateful S E A) (Post Post' : A → S → Prop)
    (Fail Fail' : E → S → Prop) :
  triple Pre' m Post' Fail' → (∀ s, Pre s → Pre' s) → (∀ a s, Post' a s → Post a s) →
  (∀ e s, Fail' e s → Fail e s) → triple Pre m Post Fail.
Proof.
  intros Hm H1 H2 H3 s Hs. specialize (Hm s (H1 s Hs)). destruct (m s) as [s' [a|e]]; auto.
Qed.

Lemma st_bind_lift {S E A B} (r : result A E) (k : A → stateful S E B) s :
  st_bind (lift r) k s = match r with Ok a => k a s | Err e => (s, Err e) end.
Proof. by destruct r. Qed.

(** A failure that could only come from [o]. *)
Lemma triple_ok_or {S E A B} (Pre : S → Prop) (o : option A) (e : E) (k : A → stateful S E B) Post Fail :
  (∀ s, Pre s → o = None → Fail e s) → (∀ a, o = Some a → triple Pre (k a) Post Fail) →
  triple Pre (st_bind (lift (ok_or o e)) k) Post Fail.
Proof.
  intros Hn Hs s Hp. unfold st_bind, lift. destruct o as [a|]; cbn; [|by apply Hn].
  by apply Hs.
Qed.

(** ** Machine integers: lemmas *)

Lemma wrap64_small n : is_u64 n → wrap64 n = n.
Proof. apply N.mod_small. Qed.

Lemma wrap64_u64 n : is_u64 (wrap64 n).
Proof. by apply N.mod_lt. Qed.

Lemma wrap64_mod_add a k : wrap64 (a + k * u64_modulus) = wrap64 a.
Proof. unfold wrap64. by rewrite N.Div0.mod_add. Qed.

Lemma fetch_add_u64 c d : is_u64 (fetch_add c d).2.
Proof. apply wrap64_u64. Qed.

Lemma fetch_sub_u64 c d : is_u64 (fetch_sub c d).2.
Proof. apply wrap64_u64. Qed.

Lemma fetch_sub_le c d : is_u64 c → (d <= c)%N → (fetch_sub c d).2 = (c - d)%N.
Proof.
  intros Hc Hd. unfold fetch_sub, is_u64 in *; cbn.
  rewrite (wrap64_small d) by (unfold is_u64; lia).
  replace (c + (u64_modulus - d))%N with ((c - d) + 1 * u64_modulus)%N by lia.
  rewrite wrap64_mod_add. apply wrap64_small. unfold is_u64. lia.
Qed.

Lemma fetch_add_small c d : is_u64 (c + d) → (fetch_add c d).2 = (c + d)%N.
Proof. intros. by apply wrap64_small. Qed.

(** Two rounds are enough: the counter is zero at most once in a row. *)
Lemma fetch_nonzero_spec fuel counter :
  is_u64 counter → (2 <= fuel)%nat →
  fetch_nonzero fuel counter =
    Some (if (counter =? 0)%N then (1, 2) else (counter, wrap64 (counter + 1)))%N.
Proof.
  intros Hc Hf. destruct fuel as [|[|fuel]]; [lia..|]. cbn [fetch_nonzero fetch_add].
  destruct (N.eqb_spec counter 0) as [->|]; reflexivity.
Qed.

#[export] Hint Resolve wrap64_u64 fetch_add_u64 fetch_sub_u64 : apprtc.

(** ** Decimal rendering and parsing: lemmas *)

Lemma byte_value_digit d : (d < 10)%N → byte_value (digit_char d) = (48 + d)%N.
Proof.
  intros Hd. unfold byte_value, digit_char. apply Ascii.N_ascii_embedding. lia.
Qed.

Lemma is_ascii_digit_char d : (d < 10)%N → is_ascii_digit (digit_char d) = true.
Proof.
  intros Hd. unfold is_ascii_digit. rewrite byte_value_digit by done.
  apply andb_true_iff. split; apply N.leb_le; lia.
Qed.

Lemma digit_char_value c :
  is_ascii_digit c = true →
  digit_char (byte_value c - 48) = c ∧ (byte_value c - 48 < 10)%N.
Proof.
  intros Hc. unfold is_ascii_digit in Hc. bool_to_prop. split; [|lia].
  unfold digit_char, byte_value in *.
  replace (48 + (Ascii.N_of_ascii c - 48))%N with (Ascii.N_of_ascii c) by lia.
  apply Ascii.ascii_N_embedding.
Qed.

Lemma parse_digits_cons d s acc :
  (d < 10)%N → (acc * 10 + d <= u64_max)%N →
  parse_digits (String (digit_char d) s) acc = parse_digits s (acc * 10 + d).
Proof.
  intros Hd Hle. cbn [parse_digits].
  rewrite is_ascii_digit_char, byte_value_digit by done.
  replace (48 + d - 48)%N with d by lia.
  repeat (case_match; bool_to_prop; [lia|]). done.
Qed.

(** Parsing what was rendered resumes at the accumulated value. *)
Lemma parse_show_digits fuel n acc :
  (n < 10 ^ N.of_nat fuel)%N → (n <= u64_max)%N →
  parse_digits (show_digits fuel n acc) 0 = parse_digits acc n.
Proof.
  revert n acc. induction fuel as [|fuel IH]; intros n acc Hn Hmax; [by replace n with 0%N by (cbn in Hn; lia)|].
  assert (Hdm := N.div_mod n 10 ltac:(lia)).
  assert (Hlt := N.mod_lt n 10 ltac:(lia)).
  cbn [show_digits]. destruct (n <? 10)%N eqn:Hlow; bool_to_prop.
  - rewrite N.mod_small by done. by rewrite parse_digits_cons by lia.
  - rewrite IH.
    + rewrite parse_digits_cons by lia. f_equal. lia.
    + apply N.Div0.div_lt_upper_bound. rewrite <- N.pow_succ_r'. by rewrite <- Nat2N.inj_succ.
    + etrans; [|exact Hmax]. apply N.Div0.div_le_upper_bound. lia.
Qed.

(** Rendering what was parsed gives the digits back, when the value parsed so
    far is not zero. *)
Lemma show_parse_digits s acc n fuel t :
  (0 < acc)%N → parse_digits s acc = Some n →
  show_digits (fuel + String.length s) n t = show_digits fuel acc (s +:+ t).
Proof.
  revert acc fuel. induction s as [|c s IH]; intros acc fuel Hacc Hp; cbn in Hp.
  - simplify_eq. cbn. by rewrite Nat.add_0_r.
  - destruct (is_ascii_digit c) eqn:Hc; [|done].
    repeat (case_match; [done|]). bool_to_prop.
    destruct (digit_char_value c Hc) as [Hch Hlt].
    cbn [String.length]. rewrite Nat.add_succ_r, <- Nat.add_succ_l.
    apply (IH _ (S fuel)) in Hp as ->; [|lia]. cbn [show_digits].
    replace (_ <? 10)%N with false by (symmetry; apply N.ltb_ge; lia).
    rewrite N.add_comm, N.Div0.mod_add, N.div_add, N.mod_small, N.div_small by lia.
    by rewrite Hch.
Qed.

Lemma parse_digits_bound s acc n :
  parse_digits s acc = Some n → (n < (acc + 1) * 10 ^ N.of_nat (String.length s))%N.
Proof.
  revert acc. induction s as [|c s IH]; intros acc Hp; cbn in Hp.
  - simplify_eq. cbn. lia.
  - destruct (is_ascii_digit c) eqn:Hc; [|done].
    repeat (case_match; [done|]). apply IH in Hp.
    destruct (digit_char_value c Hc) as [_ Hlt].
    cbn [String.length]. rewrite Nat2N.inj_succ, N.pow_succ_r'.
    eapply N.lt_le_trans; [exact Hp|]. rewrite N.mul_assoc.
    apply N.mul_le_mono_r. lia.
Qed.

Lemma parse_digits_u64 s acc n :
  (acc <= u64_max)%N → parse_digits s acc = Some n → (n <= u64_max)%N.
Proof.
  revert acc. induction s as [|c s IH]; intros acc Hacc Hp; cbn in Hp; [by simplify_eq|].
  repeat (case_match; try done). bool_to_prop. by eapply IH.
Qed.

(** Enough fuel is enough. *)
Lemma show_digits_fuel f1 f2 n acc :
  (0 < f1)%nat → (0 < f2)%nat →
  (n < 10 ^ N.of_nat f1)%N → (n < 10 ^ N.of_nat f2)%N →
  show_digits f1 n acc = show_digits f2 n acc.
Proof.
  revert f2 n acc. induction f1 as [|f1 IH]; intros f2 n acc H1 H2 Hf1 Hf2; [lia|].
  destruct f2 as [|f2]; [lia|]. cbn [show_digits].
  destruct (n <? 10)%N eqn:Hlow; [done|]. bool_to_prop.
  rewrite !Nat2N.inj_succ, !N.pow_succ_r' in *.
  assert (n / 10 < 10 ^ N.of_nat f1)%N by (apply N.Div0.div_lt_upper_bound; lia).
  assert (n / 10 < 10 ^ N.of_nat f2)%N by (apply N.Div0.div_lt_upper_bound; lia).
  assert (1 <= n / 10)%N by (apply N.div_le_lower_bound; lia).
  destruct f1; [cbn in *; lia|]. destruct f2; [cbn in *; lia|].
  apply IH; lia.
Qed.

Lemma u64_max_digits n : (n <= u64_max)%N → (n < 10 ^ N.of_nat 20)%N.
Proof. unfold u64_max. change (10 ^ N.of_nat 20)%N with 100000000000000000000%N. lia. Qed.

Lemma parse_digits_show_u64 n : (n <= u64_max)%N → parse_digits (show_u64 n) 0 = Some n.
Proof. intros Hn. unfold show_u64. rewrite parse_show_digits by (done || by apply u64_max_digits). done. Qed.

Lemma string_app_nil_r s : s +:+ "" = s.
Proof. induction s as [|c s IH]; [done|]. change (String c (s +:+ "") = String c s). by rewrite IH. Qed.

Lemma string_app_cons c a b : String c a +:+ b = String c (a +:+ b).
Proof. done. Qed.

Lemma string_app_assoc a b c : (a +:+ b) +:+ c = a +:+ (b +:+ c).
Proof. induction a as [|x a IH]; [done|]. rewrite !string_app_cons. by rewrite IH. Qed.

Lemma length_string_app a b : String.length (a +:+ b) = (String.length a + String.length b)%nat.
Proof. induction a as [|x a IH]; [done|]. rewrite string_app_cons. cbn. by rewrite IH. Qed.

Lemma string_forallb_app p a b :
  string_forallb p (a +:+ b) = string_forallb p a && string_forallb p b.
Proof.
  induction a as [|x a IH]; [done|]. rewrite string_app_cons. cbn. by rewrite IH, andb_assoc.
Qed.

(** A digit string without a leading zero is the rendering of its value. *)
Lemma show_u64_parse c s n :
  is_ascii_digit c = true → byte_value c ≠ 48%N →
  parse_digits (String c s) 0 = Some n → show_u64 n = String c s.
Proof.
  intros Hc Hz Hp. destruct (digit_char_value c Hc) as [Hch Hlt].
  assert (Hmax : (n <= u64_max)%N) by (eapply parse_digits_u64; [|exact Hp]; done).
  assert (Hpos : (0 < byte_value c - 48)%N).
  { unfold is_ascii_digit in Hc. bool_to_prop. lia. }
  rewrite <- Hch, parse_digits_cons in Hp by (unfold u64_max; lia).
  rewrite N.mul_0_l, N.add_0_l in Hp.
  pose proof (show_parse_digits _ _ _ 1 "" Hpos Hp) as Hs.
  rewrite string_app_nil_r in Hs. cbn [show_digits] in Hs.
  rewrite N.mod_small, (proj2 (N.ltb_lt _ _) Hlt), Hch in Hs by done.
  rewrite <- Hs. apply show_digits_fuel; [lia|lia|by apply u64_max_digits|].
  apply parse_digits_bound in Hp.
  rewrite Nat2N.inj_add. rewrite N.pow_add_r. cbn [N.of_nat Nat.add] in *.
  eapply N.lt_le_trans; [exact Hp|]. apply N.mul_le_mono_r. cbn. lia.
Qed.
