(* ===== verification/Wire.v ===== *)
(** * Vocabulary shared by the processes

    The messages of the generated [signaling_proto::v2] contract, the types of
    the [signaling] crate that [src/] builds and takes apart, and the interfaces
    of the two identifier codecs that live in other crates.  None of this code
    is under [src/]: the message shapes are exactly the struct literals and
    patterns [src/] writes, and everything that computes (enum numbers, UUID
    bytes, room tokens) is a field of a class, with its laws apart. *)

From S2P Require Import Prelude.
From Stdlib Require Import Strings.Byte.

(** ** Bytes *)

#[export] Instance byte_eq_dec : EqDecision Byte.byte := Byte.byte_eq_dec.

#[export] Instance byte_countable : Countable Byte.byte :=
  inj_countable Byte.to_N Byte.of_N Byte.of_to_N.

Definition bytes : Type := list Byte.byte.

(** ** Room identifiers

    [uuid::Uuid] and the predicates of [signaling::v2].  [from_bytes] is
    [Uuid::from_bytes], applied only to sixteen bytes. *)

Class RoomIdLib : Type := {
  RoomId : Type;
  room_id_eq_dec :: EqDecision RoomId;
  room_id_countable :: Countable RoomId;
  as_bytes : RoomId → bytes;
  from_bytes : bytes → RoomId;
  as_u128 : RoomId → N;
  is_room_uuid : RoomId → bool;
  parse_room_token : string → option RoomId;
  format_room_token : RoomId → string;
}.

(** A UUID is its sixteen bytes. *)
Class RoomIdLaws (L : RoomIdLib) : Prop := {
  as_bytes_length : ∀ r, length (as_bytes r) = 16%nat;
  from_as_bytes : ∀ r, from_bytes (as_bytes r) = r;
  as_from_bytes : ∀ b, length b = 16%nat → as_bytes (from_bytes b) = b;
}.

(** ** Protobuf enumerations

    A field of an enumeration type is an [i32] on the wire; [as i32] and
    [TryFrom<i32>] are generated. *)

Class ProtoEnum (E : Type) : Type := {
  as_i32 : E → Z;
  try_from_i32 : Z → option E;
  enum_default : E;
}.

Class ProtoEnumLaws (E : Type) `{ProtoEnum E} : Prop := {
  try_from_as_i32 : ∀ e : E, try_from_i32 (as_i32 e) = Some e;
}.

(** [TryFrom::try_from(i).unwrap_or_default()]. *)
Definition enum_or_default {E} `{ProtoEnum E} (i : Z) : E :=
  opt_default enum_default (try_from_i32 i).

Lemma as_i32_inj {E} `{ProtoEnumLaws E} (a b : E) : as_i32 a = as_i32 b → a = b.
Proof.
  intros Hab. pose proof (try_from_as_i32 a) as Ha. rewrite Hab, try_from_as_i32 in Ha. by simplify_eq.
Qed.

(** ** The generated contract: [signaling_proto::v2] *)

Module v2.

(** A proto3 enumeration has a zero value besides the ones the code names; the
    design document names two more variants that are never produced. *)

Inductive AppId := AppUnspecified | Apprtc | Sfu.

Inductive RoomMode :=
  | ModeUnspecified | ModeP2p | ModeUpgrading | ModeSfu | ModeFailed | ModeDowngrading.

Inductive SfuState := StateUnspecified | StateReady | StateDraining.

Inductive LeaveReason :=
  | ReasonUnspecified | ReasonUser | ReasonDisconnected | ReasonRoomClosed | ReasonDowngrade.

Inductive ErrorCode :=
  | CodeUnspecified | InvalidRequest | Full | DuplicateClient | RoomNotFound | ClientNotFound
  | Unauthorized | NoSfuAvailable | RoomTransition | WorkerUnavailable
  | StaleAssignmentEpoch | StaleLifecycle | ResourceExhausted | InvalidSignal
  | Internal.

#[export] Instance app_id_eq_dec : EqDecision AppId.
Proof. solve_decision. Defined.

#[export] Instance room_mode_eq_dec : EqDecision RoomMode.
Proof. solve_decision. Defined.

#[export] Instance error_code_eq_dec : EqDecision ErrorCode.
Proof. solve_decision. Defined.

(** The generated enumerations, and [ErrorCode::as_str_name]. *)
Class ProtoEnums : Type := {
  app_id_enum :: ProtoEnum AppId;
  room_mode_enum :: ProtoEnum RoomMode;
  sfu_state_enum :: ProtoEnum SfuState;
  leave_reason_enum :: ProtoEnum LeaveReason;
  error_code_enum :: ProtoEnum ErrorCode;
  error_code_str_name : ErrorCode → string;
}.

Class ProtoEnumsLaws (P : ProtoEnums) : Prop := {
  app_id_laws :: ProtoEnumLaws AppId;
  room_mode_laws :: ProtoEnumLaws RoomMode;
  sfu_state_laws :: ProtoEnumLaws SfuState;
  leave_reason_laws :: ProtoEnumLaws LeaveReason;
  error_code_laws :: ProtoEnumLaws ErrorCode;
}.

Record RequestContext := mk_RequestContext {
  rc_app_id : Z;
  rc_instance_id : string;
  rc_request_id : N;
}.

Record ResponseContext := mk_ResponseContext { resp_request_id : N }.

Record Error := mk_Error {
  err_code : Z;
  err_reason : string;
  err_retryable : bool;
  err_retry_after_ms : option N;
}.

(** *** Unary room operations *)

Record AdmitV1Request := mk_AdmitV1Request {
  av1_context : option RequestContext;
  av1_room_id : string;
  av1_client_id : string;
  av1_is_loopback : bool;
}.

Record RemoveV1Request := mk_RemoveV1Request {
  rv1_context : option RequestContext;
  rv1_room_id : string;
  rv1_client_id : string;
}.

Record OccupancyV1Request := mk_OccupancyV1Request {
  ov1_context : option RequestContext;
  ov1_room_id : string;
}.

Record InjectV1Request := mk_InjectV1Request {
  iv1_context : option RequestContext;
  iv1_room_id : string;
  iv1_client_id : string;
  iv1_message_json : string;
}.

Record AdmitV2Request := mk_AdmitV2Request {
  av2_context : option RequestContext;
  av2_room_id : bytes;
  av2_client_id : N;
}.

Record RemoveV2Request := mk_RemoveV2Request {
  rv2_context : option RequestContext;
  rv2_room_id : bytes;
  rv2_client_id : N;
  rv2_admission_token : string;
}.

Record OccupancyV2Request := mk_OccupancyV2Request {
  ov2_context : option RequestContext;
  ov2_room_id : bytes;
}.

Record StatusRequest := mk_StatusRequest { st_context : option RequestContext }.

Record V1Admission := mk_V1Admission {
  v1a_is_initiator : bool;
  v1a_messages : list string;
}.

Record V2Admission := mk_V2Admission {
  v2a_mode : Z;
  v2a_signal_epoch : N;
  v2a_admission_token : string;
  v2a_is_initiator : option bool;
}.

Record Occupancy := mk_Occupancy { occ_member_count : N; occ_mode : Z }.

Record Status := mk_Status {
  ws_v1_rooms : N;
  ws_v2_rooms : N;
  ws_clients : N;
  ws_browser_websocket_connections : N;
  ws_total_browser_websocket_connections : N;
  ws_browser_websocket_errors : N;
  ws_connected_sfu_instances : N;
  ws_ready_sfu_instances : N;
}.

(** A response: the echoed context and one arm of the [result] oneof, or
    [None] when the field is absent. *)
Inductive Outcome (A : Type) := Success (a : A) | Failed (e : Error).
Arguments Success {A} a.
Arguments Failed {A} e.

Record ResponseOf (A : Type) := mk_Response {
  rsp_context : option ResponseContext;
  rsp_result : option (Outcome A);
}.
Arguments mk_Response {A} _ _.
Arguments rsp_context {A} _.
Arguments rsp_result {A} _.

Definition AdmitV1Response := ResponseOf V1Admission.
Definition AdmitV2Response := ResponseOf V2Admission.
Definition OccupancyResponse := ResponseOf Occupancy.
Definition StatusResponse := ResponseOf Status.
Definition OperationResponse := ResponseOf unit.

(** *** The SFU session *)

Record SfuCapacity := mk_SfuCapacity { cap_max_rooms : N; cap_max_clients : N }.

Record RegisterSfu := mk_RegisterSfu {
  reg_context : option RequestContext;
  reg_capacity : option SfuCapacity;
}.

Record SfuRegistered := mk_SfuRegistered {
  sr_health_interval_ms : N;
  sr_resumed : bool;
}.

Definition RegisterSfuResponse := ResponseOf SfuRegistered.

Record JoinMember := mk_JoinMember {
  join_room_id : bytes;
  join_client_id : N;
  join_lifecycle_id : N;
  join_assignment_epoch : N;
}.

Record LeaveMember := mk_LeaveMember {
  leave_room_id : bytes;
  leave_client_id : N;
  leave_lifecycle_id : N;
  leave_assignment_epoch : N;
  leave_reason : Z;
}.

Record MemberProjection := mk_MemberProjection {
  mp_client_id : N;
  mp_lifecycle_id : N;
}.

Record SyncRoom := mk_SyncRoom {
  sync_room_id : bytes;
  sync_assignment_epoch : N;
  sync_members : list MemberProjection;
}.

Record SfuSignal := mk_SfuSignal {
  signal_room_id : bytes;
  signal_client_id : N;
  signal_lifecycle_id : N;
  signal_assignment_epoch : N;
  signal_message_json : string;
  signal_sdp_request_id : option N;
}.

Inductive Command :=
  | CmdSyncRoom (sync : SyncRoom)
  | CmdJoin (join : JoinMember)
  | CmdLeave (leave : LeaveMember)
  | CmdSignal (signal : SfuSignal)
  | CmdDrain (deadline_unix_ms : option N).

Record SfuCommand := mk_SfuCommand {
  cmd_request_id : N;
  cmd_command : option Command;
}.

Record MemberJoined := mk_MemberJoined {
  joined_room_id : bytes;
  joined_client_id : N;
  joined_lifecycle_id : N;
  joined_assignment_epoch : N;
}.

Record MemberLeft := mk_MemberLeft {
  left_room_id : bytes;
  left_client_id : N;
  left_lifecycle_id : N;
  left_assignment_epoch : N;
}.

Record RoomSynced := mk_RoomSynced {
  synced_room_id : bytes;
  synced_assignment_epoch : N;
}.

Inductive Payload :=
  | Acknowledged
  | PMemberJoined (m : MemberJoined)
  | PMemberLeft (m : MemberLeft)
  | PRoomSynced (r : RoomSynced).

(** [SfuCommandOk { payload }]. *)
Record SfuCommandOk := mk_SfuCommandOk { ok_payload : option Payload }.

Inductive CommandResult :=
  | ResultOk (ok : SfuCommandOk)
  | ResultError (e : Error).

Record SfuCommandResult := mk_SfuCommandResult {
  res_request_id : N;
  res_result : option CommandResult;
}.

Record SfuHealth := mk_SfuHealth {
  health_state : Z;
  health_capacity : option SfuCapacity;
  health_current_rooms : N;
  health_current_clients : N;
}.

Record SfuFailure := mk_SfuFailure {
  failure_error : option Error;
  failure_room_id : option bytes;
  failure_client_id : option N;
  failure_lifecycle_id : option N;
  failure_sdp_request_id : option N;
}.

Inductive Event :=
  | EvHealth (h : SfuHealth)
  | EvSignal (s : SfuSignal)
  | EvFailure (f : SfuFailure).

Record SfuEvent := mk_SfuEvent {
  event_request_id : N;
  event_event : option Event;
}.

Inductive ToSignaling :=
  | MsgRegister (r : RegisterSfu)
  | MsgCommandResult (r : SfuCommandResult)
  | MsgEvent (e : SfuEvent).

(** [SfuToSignaling { message }]. *)
Record SfuToSignaling := mk_SfuToSignaling { to_signaling : option ToSignaling }.

Inductive ToSfu :=
  | MsgRegistered (r : RegisterSfuResponse)
  | MsgCommand (c : SfuCommand)
  | MsgEventAck (request_id : N).

(** [SignalingToSfu { message }]. *)
Record SignalingToSfu := mk_SignalingToSfu { to_sfu : option ToSfu }.

End v2.

#[export] Existing Instances v2.app_id_enum v2.room_mode_enum v2.sfu_state_enum
  v2.leave_reason_enum v2.error_code_enum v2.app_id_laws v2.room_mode_laws v2.sfu_state_laws
  v2.leave_reason_laws v2.error_code_laws v2.app_id_eq_dec v2.room_mode_eq_dec
  v2.error_code_eq_dec.

(** ** The authority: [signaling::collider] and [signaling::sfu]

    [Instant] is a number of clock ticks. *)

Definition Instant : Type := N.
Bind Scope N_scope with Instant.

Module collider.

Inductive RoomMode := P2p | Upgrading | Sfu | Failed.

(** Collider counters, [usize] and [u64]. *)
Record Status := mk_Status {
  st_rooms : N;
  st_v2_rooms : N;
  st_clients : N;
  st_websocket_connections : N;
  st_total_websocket_connections : N;
  st_websocket_errors : N;
  st_connected_sfu_instances : N;
  st_ready_sfu_instances : N;
}.

Section with_room_id.
Context `{RoomIdLib}.

Inductive AuthorityOperation :=
  | OpAdmit (roomid clientid : string) (is_loopback : bool) (now : Instant)
  | OpRemove (roomid clientid : string)
  | OpOccupancy (roomid : string)
  | OpInject (roomid clientid msg : string) (now : Instant)
  | OpAdmitV2 (room_id : RoomId) (client_id : N) (admission_token : string) (now : Instant)
  | OpRemoveV2 (room_id : RoomId) (client_id : N) (admission_token : string)
  | OpOccupancyV2 (room_id : RoomId)
  | OpStatus.

Record AuthorityCommand := mk_AuthorityCommand {
  ac_request_id : N;
  ac_operation : AuthorityOperation;
}.

End with_room_id.

Inductive AuthorityResult :=
  | ResAdmitted (is_initiator : bool) (messages : list string)
  | ResRemoved
  | ResOccupancy (count : N)
  | ResInjected
  | ResAdmittedV2 (mode : RoomMode) (signal_epoch : N) (admission_token : string)
      (is_initiator : option bool)
  | ResRemovedV2
  | ResOccupancyV2 (count : N) (mode : RoomMode)
  | ResStatus (status : Status)
  | ResError (reason : string).

Record AuthorityResponse := mk_AuthorityResponse {
  ar_request_id : N;
  ar_result : AuthorityResult;
}.

#[export] Instance authority_result_eq_dec : EqDecision AuthorityResult.
Proof.
  assert (EqDecision RoomMode) by solve_decision.
  assert (EqDecision Status) by solve_decision.
  solve_decision.
Defined.

End collider.

Module ssfu.

Section with_room_id.
Context `{RoomIdLib}.

Record Capacity := mk_Capacity { c_max_rooms : N; c_max_clients : N }.

Inductive State := Ready | Draining.

Inductive LeaveReason := User | Disconnected | RoomClosed.

Record Error := mk_Error { e_reason : string; e_retryable : bool }.

Record JoinMember := mk_JoinMember {
  j_room_id : RoomId;
  j_client_id : N;
  j_lifecycle_id : N;
  j_assignment_epoch : N;
}.

Record LeaveMember := mk_LeaveMember {
  l_room_id : RoomId;
  l_client_id : N;
  l_lifecycle_id : N;
  l_assignment_epoch : N;
  l_reason : LeaveReason;
}.

Record Member := mk_Member { m_client_id : N; m_lifecycle_id : N }.

Record SyncRoom := mk_SyncRoom {
  s_room_id : RoomId;
  s_assignment_epoch : N;
  s_members : list Member;
}.

Record RoomSynced := mk_RoomSynced { rs_room_id : RoomId; rs_assignment_epoch : N }.

Record Signal := mk_Signal {
  g_room_id : RoomId;
  g_client_id : N;
  g_lifecycle_id : N;
  g_assignment_epoch : N;
  g_message_json : string;
  g_sdp_request_id : option N;
}.

Inductive CommandKind :=
  | KSyncRoom (s : SyncRoom)
  | KJoin (j : JoinMember)
  | KLeave (l : LeaveMember)
  | KSignal (g : Signal).

Record Command := mk_Command { k_request_id : N; k_command : CommandKind }.

Inductive CommandOk :=
  | OkAcknowledged
  | OkMemberJoined (j : JoinMember)
  | OkMemberLeft (l : LeaveMember)
  | OkRoomSynced (s : RoomSynced).

Record CommandResult := mk_CommandResult {
  cr_request_id : N;
  cr_result : result CommandOk Error;
}.

Record Health := mk_Health {
  h_state : State;
  h_capacity : Capacity;
  h_current_rooms : N;
  h_current_clients : N;
}.

Inductive EventKind :=
  | KHealth (h : Health)
  | KSignalEvent (g : Signal)
  | KFailure (error : Error) (room_id : option RoomId) (client_id : option N)
      (lifecycle_id : option N) (sdp_request_id : option N).

Record Event := mk_Event { e_request_id : N; e_event : EventKind }.

Inductive Input :=
  | InRegister (connection_id : N) (instance_id : string) (request_id : N)
      (capacity : Capacity)
  | InCommandResult (connection_id : N) (instance_id : string)
      (result : CommandResult) (now : Instant)
  | InEvent (connection_id : N) (instance_id : string) (event : Event)
  | InDisconnected (connection_id : N) (instance_id : string) (now : Instant).

Inductive Output :=
  | OutRegistered (connection_id request_id health_interval_ms : N) (resumed : bool)
  | OutRegistrationError (connection_id request_id : N) (error : Error)
  | OutCommand (connection_id : N) (command : Command)
  | OutEventAck (connection_id request_id : N)
  | OutClose (connection_id : N).

End with_room_id.

End ssfu.

(** *** Browser side of the collider *)

Definition ConnectionId : Type := N.
Bind Scope N_scope with ConnectionId.

Section browser.
Context `{RoomIdLib}.

Inductive BrowserInput :=
  | BConnected (connection_id : ConnectionId)
  | BText (connection_id : ConnectionId) (text : string) (now : Instant)
  | BDisconnected (connection_id : ConnectionId) (now : Instant).

Inductive BrowserOutput :=
  | OText (connection_id : ConnectionId) (text : string)
  | OClose (connection_id : ConnectionId)
  | OSfu (output : ssfu.Output).

End browser.

(** [signaling::collider::Collider], the Sans-I/O state machine, and the
    [sansio::Protocol] methods the event loop drives it with. *)
Class ColliderLib `{RoomIdLib} : Type := {
  Collider : Type;
  collider_new : N → Collider;
  set_downgrade_dwell : N → Collider → Collider;
  handle_read : BrowserInput → Collider → Collider * result unit unit;
  handle_write : collider.AuthorityCommand → Collider → Collider * result unit unit;
  handle_sfu_input : ssfu.Input → Collider → Collider * result unit unit;
  handle_timeout : Instant → Collider → Collider * result unit unit;
  collider_close : Collider → Collider;
  poll_write : Collider → option BrowserOutput * Collider;
  poll_event : Collider → option collider.AuthorityResponse * Collider;
  poll_timeout : Collider → option Instant;
}.

(** A [poll_] method takes one item off a finite queue. *)
Class ColliderLaws `{RoomIdLib} (C : ColliderLib) : Type := {
  pending_outputs : Collider → nat;
  pending_events : Collider → nat;
  poll_write_some : ∀ c o c', poll_write c = (Some o, c') →
    (pending_outputs c' < pending_outputs c)%nat;
  poll_event_some : ∀ c o c', poll_event c = (Some o, c') →
    (pending_events c' < pending_events c)%nat;
}.

(** ** gRPC status values: [tonic::Status] *)

Inductive GrpcCode :=
  | CodeInvalidArgument | CodePermissionDenied | CodeAlreadyExists
  | CodeUnavailable | CodeDeadlineExceeded | CodeInternal.

Record GrpcStatus := mk_GrpcStatus { gs_code : GrpcCode; gs_message : string }.

Definition invalid_argument := mk_GrpcStatus CodeInvalidArgument.
Definition permission_denied := mk_GrpcStatus CodePermissionDenied.
Definition already_exists := mk_GrpcStatus CodeAlreadyExists.
Definition unavailable := mk_GrpcStatus CodeUnavailable.
Definition deadline_exceeded := mk_GrpcStatus CodeDeadlineExceeded.
Definition internal := mk_GrpcStatus CodeInternal.
