(* ===== verification/RoomIds.v ===== *)
(** * V2 room identifiers on the wire ([src/src/room_id.rs])

    Encoding a room id as the sixteen bytes of a V2 [bytes room_id] field, and
    reading such a field back, over the UUID interface of [Wire.RoomIdLib]. *)

From S2P Require Import Prelude Wire.

Section room_ids.
Context `{L : RoomIdLib}.

(** [room_id_to_bytes]. *)
Definition room_id_to_bytes (room_id : RoomId) : bytes := as_bytes room_id.

(** [<[u8; 16]>::try_from(&[u8])]: succeeds on exactly sixteen bytes. *)
Definition try_into_16 (b : bytes) : option bytes :=
  if (length b =? 16)%nat then Some b else None.

(** [room_id_from_bytes]. *)
Definition room_id_from_bytes (b : bytes) : option RoomId :=
  match try_into_16 b with
  | Some b16 =>
      let room_id := from_bytes b16 in
      if is_room_uuid room_id then Some room_id else None
  | None => None
  end.

(** ** Lemmas *)

Context {laws : RoomIdLaws L}.

Lemma room_id_from_to_bytes r :
  is_room_uuid r = true → room_id_from_bytes (room_id_to_bytes r) = Some r.
Proof.
  intros Hr. unfold room_id_from_bytes, try_into_16, room_id_to_bytes.
  rewrite as_bytes_length; cbn. by rewrite from_as_bytes, Hr.
Qed.

Lemma room_id_from_bytes_Some b r :
  room_id_from_bytes b = Some r ↔
  length b = 16%nat ∧ is_room_uuid r = true ∧ as_bytes r = b.
Proof.
  unfold room_id_from_bytes, try_into_16. split.
  - case_match eqn:Hl; [|done]. destruct (Nat.eqb_spec (length b) 16); [|done].
    simplify_eq. case_match; [|done]. intros; simplify_eq.
    split_and!; [done|done|by apply as_from_bytes].
  - intros (Hl & Hr & <-). rewrite Hl; cbn. by rewrite from_as_bytes, Hr.
Qed.

Lemma room_id_from_bytes_inj b1 b2 r :
  room_id_from_bytes b1 = Some r → room_id_from_bytes b2 = Some r → b1 = b2.
Proof.
  rewrite !room_id_from_bytes_Some. intros (_ & _ & <-) (_ & _ & <-). done.
Qed.

(** A valid room id survives the wire; the wire form is canonical; other lengths and other UUID
    versions are refused. *)
Theorem room_id_wire_roundtrip :
  (∀ r, is_room_uuid r = true → room_id_from_bytes (room_id_to_bytes r) = Some r)
  ∧ (∀ b r, room_id_from_bytes b = Some r → room_id_to_bytes r = b)
  ∧ (∀ b, length b ≠ 16%nat → room_id_from_bytes b = None)
  ∧ (∀ r, is_room_uuid r = false → room_id_from_bytes (room_id_to_bytes r) = None).
Proof.
  split_and!.
  - apply room_id_from_to_bytes.
  - intros b r (_ & _ & Hb)%room_id_from_bytes_Some. exact Hb.
  - intros b Hb. destruct (room_id_from_bytes b) eqn:E; [|done].
    by apply room_id_from_bytes_Some in E as [? _].
  - intros r Hr. unfold room_id_from_bytes, try_into_16, room_id_to_bytes.
    rewrite as_bytes_length; cbn. by rewrite from_as_bytes, Hr.
Qed.

End room_ids.

#[export] Hint Resolve room_id_from_to_bytes : apprtc.
