(* ===== verification/Fifo.v ===== *)
(** * Bounded first-in first-out caches

    Both servers keep their recent answers in a hash map with a queue of its keys
    and evict the oldest key when there is no room
    ([RequestCache::insert] of [src/src/grpc_server.rs], [cache_command] of
    [src/src/sfu_server.rs]).  Here is the reference they are compared to, an
    association list from oldest to youngest, and what follows from it for any
    keys, values and capacity. *)

From S2P Require Import Prelude.

Section fifo.
Context `{Countable K} {V : Type}.
Implicit Types (ord : list K) (m : gmap K V) (l : list (K * V)) (k : K) (v : V).

(** ** The reference

    A value for a known key replaces the old one where it stands; a new key is
    appended, and only the last [cap] pairs are kept. *)

Definition lastn {A} (n : nat) (l : list A) : list A := drop (length l - n) l.

Definition fifo_insert (cap : nat) l k v : list (K * V) :=
  if decide (k ∈ l.*1)
  then (λ p, if decide (p.1 = k) then (k, v) else p) <$> l
  else lastn cap (l ++ [(k, v)]).

Fixpoint fifo_lookup l k : option V :=
  match l with
  | [] => None
  | (k', v) :: l' => if decide (k' = k) then Some v else fifo_lookup l' k
  end.

(** Inserting [kvs] one after the other. *)
Definition fifo_run (cap : nat) (kvs : list (K * V)) : list (K * V) :=
  foldl (λ l p, fifo_insert cap l p.1 p.2) [] kvs.

(** ** The representation: a queue of keys and a map *)

Record fifo_wf (cap : nat) ord m : Prop := mk_fifo_wf {
  wf_nodup : NoDup ord;
  wf_order : ∀ k, k ∈ ord ↔ is_Some (m !! k);
  wf_bound : (length ord ≤ cap)%nat;
}.

(** The list a queue and a map stand for. *)
Definition fifo_contents ord m : list (K * V) := omap (λ k, pair k <$> m !! k) ord.

(** Overwrite, append, or drop the oldest key and append. *)
Definition fifo_push (cap : nat) ord m k v : list K * gmap K V :=
  match m !! k with
  | Some _ => (ord, <[k := v]> m)
  | None =>
      if (length ord <? cap)%nat then (ord ++ [k], <[k := v]> m)
      else match ord with
           | [] => (ord ++ [k], <[k := v]> m)
           | oldest :: rest => (rest ++ [k], <[k := v]> (delete oldest m))
           end
  end.

Lemma fifo_empty_wf cap : fifo_wf cap [] (∅ : gmap K V).
Proof.
  split; cbn; [constructor| |lia]. intros k. rewrite lookup_empty.
  split; [by intros ?%elem_of_nil|by intros [? ?]].
Qed.

Lemma fifo_new_key cap ord m k : fifo_wf cap ord m → m !! k = None → k ∉ ord.
Proof. intros [_ Hord _] Hk. rewrite Hord, Hk. by intros [? ?]. Qed.

Lemma fifo_size cap ord m : fifo_wf cap ord m → size m = length ord.
Proof.
  intros [Hnd Hord _]. rewrite <- size_dom, <- (size_list_to_set (C := gset K) ord) by done.
  f_equal. apply set_eq. intros k. by rewrite elem_of_list_to_set, elem_of_dom, Hord.
Qed.

(** The queue of a full cache has a first key, which is not the new one. *)
Lemma fifo_full cap ord m k :
  (0 < cap)%nat → fifo_wf cap ord m → m !! k = None → (cap ≤ length ord)%nat →
  ∃ oldest rest, ord = oldest :: rest ∧ length ord = cap ∧ oldest ≠ k ∧ (k ∉ rest) ∧
    (oldest ∉ rest) ∧ is_Some (m !! oldest).
Proof.
  intros Hcap Hwf Hk Hfull. pose proof (fifo_new_key _ _ _ _ Hwf Hk) as Hn.
  destruct Hwf as [Hnd Hord Hb], ord as [|o rest]; [cbn in *; lia|].
  rewrite not_elem_of_cons in Hn. apply list.NoDup_cons in Hnd as [? ?]. destruct Hn.
  exists o, rest. split_and!; [done|lia|done|done|done|]. apply Hord. left.
Qed.

Lemma fifo_push_lookup cap ord m k v : (fifo_push cap ord m k v).2 !! k = Some v.
Proof. unfold fifo_push. repeat case_match; cbn; apply lookup_insert_eq. Qed.

(** Nothing but the new pair appears. *)
Lemma fifo_push_Some cap ord m k v k' x :
  (fifo_push cap ord m k v).2 !! k' = Some x → (k' = k ∧ x = v) ∨ m !! k' = Some x.
Proof.
  unfold fifo_push. repeat case_match; cbn; rewrite lookup_insert_Some, ?lookup_delete_Some; naive_solver.
Qed.

Lemma fifo_push_None cap ord m k v k' :
  k' ≠ k → m !! k' = None → (fifo_push cap ord m k v).2 !! k' = None.
Proof.
  intros Hne Hk'. destruct ((fifo_push cap ord m k v).2 !! k') as [x|] eqn:Hx; [|done].
  apply fifo_push_Some in Hx as [[? _]|?]; congruence.
Qed.

Lemma fifo_push_wf cap ord m k v :
  (0 < cap)%nat → fifo_wf cap ord m →
  fifo_wf cap (fifo_push cap ord m k v).1 (fifo_push cap ord m k v).2.
Proof.
  intros Hcap Hwf. unfold fifo_push. destruct (m !! k) as [old|] eqn:Hk.
  { destruct Hwf as [Hnd Hord Hb]. split; cbn; [done| |done].
    intros k'. rewrite Hord, lookup_insert_is_Some'. split; [auto|]. intros [<-|?]; eauto. }
  destruct (_ <? _)%nat eqn:Hroom; bool_to_prop.
  { pose proof (fifo_new_key _ _ _ _ Hwf Hk). destruct Hwf as [Hnd Hord Hb]. split; cbn.
    - by apply NoDup_snoc.
    - intros k'. rewrite elem_of_app, Hord, list_elem_of_singleton, lookup_insert_is_Some'.
      split; intros [?|?]; auto.
    - rewrite length_app. cbn. lia. }
  destruct (fifo_full _ _ _ _ Hcap Hwf Hk Hroom) as (o & rest & -> & Hl & Hok & Hkr & Hor & _).
  destruct Hwf as [[_ Hnd]%list.NoDup_cons Hord Hb]. split; cbn.
  - by apply NoDup_snoc.
  - intros k'. rewrite elem_of_app, list_elem_of_singleton, lookup_insert_is_Some', lookup_delete_is_Some.
    specialize (Hord k'). rewrite elem_of_cons in Hord. split.
    + intros [Hr| ->]; [|auto]. right. split; [by intros ->|]. apply Hord. auto.
    + intros [<-|[Hne Hs]]; [auto|]. apply Hord in Hs as [->|]; [done|auto].
  - rewrite length_app. cbn in *. lia.
Qed.

(** ** What stays *)

(** [k] has at most [n] younger keys behind it. *)
Definition recent (n : nat) k ord : Prop :=
  ∃ pre post, ord = pre ++ k :: post ∧ (length post ≤ n)%nat.

Lemma recent_weaken n n' k ord : recent n k ord → (n ≤ n')%nat → recent n' k ord.
Proof. intros (pre & post & ? & ?) ?. exists pre, post. split; [done|lia]. Qed.

Lemma fifo_push_new_recent cap ord m k v :
  m !! k = None → recent 0 k (fifo_push cap ord m k v).1.
Proof. intros Hk. unfold fifo_push. rewrite Hk. repeat case_match; cbn; [by eexists _, []|by eexists [], []|by eexists _, []]. Qed.

(** One more insertion keeps a key with fewer than a capacity of younger ones. *)
Lemma fifo_push_recent cap ord m k v k0 n :
  fifo_wf cap ord m → k ≠ k0 → recent n k0 ord → (S n < cap)%nat →
  (fifo_push cap ord m k v).2 !! k0 = m !! k0 ∧ recent (S n) k0 (fifo_push cap ord m k v).1.
Proof.
  intros [Hnd ? ?] Hne (pre & post & -> & Hlen) Hcap. unfold fifo_push.
  destruct (m !! k) as [old|].
  { cbn. rewrite lookup_insert_ne by done. split; [done|]. exists pre, post. split; [done|lia]. }
  destruct (_ <? _)%nat eqn:Hroom.
  { cbn. rewrite lookup_insert_ne by done. split; [done|]. exists pre, (post ++ [k]).
    rewrite <- app_assoc, length_app. cbn. split; [done|lia]. }
  bool_to_prop. destruct pre as [|o pre]; [cbn in *; lia|]. cbn in Hnd |- *.
  apply list.NoDup_cons in Hnd as [Hon _].
  assert (o ≠ k0) by (intros ->; apply Hon, elem_of_app; right; left).
  rewrite lookup_insert_ne, lookup_delete_ne by done. split; [done|].
  exists pre, (post ++ [k]). rewrite <- app_assoc, length_app. cbn. split; [done|lia].
Qed.

(** ** The representation implements the reference *)

Lemma fifo_contents_cons k ord m v :
  m !! k = Some v → fifo_contents (k :: ord) m = (k, v) :: fifo_contents ord m.
Proof. intros Hk. unfold fifo_contents. cbn. by rewrite Hk. Qed.

Lemma fifo_contents_app ord1 ord2 m :
  fifo_contents (ord1 ++ ord2) m = fifo_contents ord1 m ++ fifo_contents ord2 m.
Proof. apply omap_app. Qed.

Lemma fifo_contents_ext ord m m' :
  (∀ k, k ∈ ord → m !! k = m' !! k) → fifo_contents ord m = fifo_contents ord m'.
Proof.
  induction ord as [|k ord IH]; intros Hext; [done|]. unfold fifo_contents in *. cbn.
  rewrite (Hext k) by left. rewrite IH by (intros k' ?; apply Hext; by right). done.
Qed.

(** A queue whose keys are all in the map is the list of keys of its contents. *)
Lemma fifo_contents_keys ord m :
  (∀ k, k ∈ ord → is_Some (m !! k)) → (fifo_contents ord m).*1 = ord.
Proof.
  induction ord as [|k ord IH]; intros Hord; [done|]. destruct (Hord k) as [v Hv]; [left|].
  rewrite (fifo_contents_cons _ _ _ _ Hv). cbn. f_equal. apply IH. intros k' ?. apply Hord. by right.
Qed.

Lemma fifo_lookup_contents ord m k :
  (∀ k, k ∈ ord → is_Some (m !! k)) →
  fifo_lookup (fifo_contents ord m) k = if decide (k ∈ ord) then m !! k else None.
Proof.
  induction ord as [|k' ord IH]; intros Hord; [by rewrite decide_False by apply not_elem_of_nil|].
  destruct (Hord k') as [v Hv]; [left|]. rewrite (fifo_contents_cons _ _ _ _ Hv). cbn.
  destruct (decide (k' = k)) as [->|Hne].
  - by rewrite decide_True by left.
  - rewrite IH by (intros ? ?; apply Hord; by right).
    apply decide_ext. rewrite elem_of_cons. naive_solver.
Qed.

(** The reference's lookup is the map's. *)
Lemma fifo_contents_lookup cap ord m k :
  fifo_wf cap ord m → fifo_lookup (fifo_contents ord m) k = m !! k.
Proof.
  intros [_ Hord _]. rewrite fifo_lookup_contents by (intros ? ?; by apply Hord).
  destruct (decide (k ∈ ord)) as [?|Hk]; [done|]. rewrite Hord in Hk. by destruct (m !! k); [destruct Hk|].
Qed.

Lemma fifo_contents_overwrite ord m k v :
  (∀ k, k ∈ ord → is_Some (m !! k)) →
  fifo_contents ord (<[k := v]> m) =
    (λ p, if decide (p.1 = k) then (k, v) else p) <$> fifo_contents ord m.
Proof.
  induction ord as [|k' ord IH]; intros Hord; [done|]. destruct (Hord k') as [v' Hv]; [left|].
  rewrite (fifo_contents_cons _ _ _ _ Hv), fmap_cons.
  rewrite <- IH by (intros ? ?; apply Hord; by right). cbn [fst].
  destruct (decide (k' = k)) as [->|Hne].
  - by rewrite (fifo_contents_cons _ _ _ v) by apply lookup_insert_eq.
  - by rewrite (fifo_contents_cons _ _ _ v') by (rewrite lookup_insert_ne; done).
Qed.

Lemma fifo_contents_snoc ord m k v :
  k ∉ ord → fifo_contents (ord ++ [k]) (<[k := v]> m) = fifo_contents ord m ++ [(k, v)].
Proof.
  intros Hk. rewrite fifo_contents_app. f_equal.
  - apply fifo_contents_ext. intros k' Hk'. rewrite lookup_insert_ne; [done|]. by intros ->.
  - by rewrite (fifo_contents_cons _ _ _ v) by apply lookup_insert_eq.
Qed.

Theorem fifo_push_contents cap ord m k v :
  (0 < cap)%nat → fifo_wf cap ord m →
  fifo_contents (fifo_push cap ord m k v).1 (fifo_push cap ord m k v).2 =
    fifo_insert cap (fifo_contents ord m) k v.
Proof.
  intros Hcap Hwf. assert (Hord : ∀ k, k ∈ ord → is_Some (m !! k)) by (intros ?; apply Hwf).
  unfold fifo_push, fifo_insert, lastn. rewrite fifo_contents_keys by done.
  assert (Hlen : length (fifo_contents ord m) = length ord).
  { by rewrite <- (fifo_contents_keys ord m) at 2; rewrite ?length_fmap. }
  rewrite length_app, Hlen. cbn [length]. destruct (m !! k) as [old|] eqn:Hk.
  { rewrite decide_True by (apply Hwf; eauto). by apply fifo_contents_overwrite. }
  pose proof (fifo_new_key _ _ _ _ Hwf Hk) as Hn. rewrite decide_False by done.
  destruct (_ <? _)%nat eqn:Hroom; bool_to_prop; cbn [fst snd].
  - replace (_ - cap)%nat with 0%nat by lia. by apply fifo_contents_snoc.
  - destruct (fifo_full _ _ _ _ Hcap Hwf Hk Hroom) as (o & rest & -> & Hl & _ & Hkr & Hor & [v' Hv]).
    rewrite Hl. replace (cap + 1 - cap)%nat with 1%nat by lia. cbn [fst snd].
    rewrite (fifo_contents_cons _ _ _ _ Hv), fifo_contents_snoc by done. cbn. rewrite drop_0. f_equal.
    apply fifo_contents_ext. intros k' Hk'. rewrite lookup_delete_ne; [done|]. by intros ->.
Qed.

(** With distinct keys the reference keeps the youngest pairs. *)
Lemma lastn_app {A} n (l l' : list A) : lastn n (lastn n l ++ l') = lastn n (l ++ l').
Proof.
  unfold lastn. rewrite !length_app, length_drop.
  destruct (decide (length l ≤ n)) as [Hle|Hgt].
  - replace (length l - n)%nat with 0%nat by lia. rewrite drop_0. f_equal. lia.
  - rewrite <- (drop_app_le l l') by lia. rewrite drop_drop. f_equal. lia.
Qed.

Lemma fifo_run_distinct cap kvs : NoDup kvs.*1 → fifo_run cap kvs = lastn cap kvs.
Proof.
  unfold fifo_run. enough (Hl : ∀ l, NoDup (l ++ kvs).*1 →
    foldl (λ l p, fifo_insert cap l p.1 p.2) (lastn cap l) kvs = lastn cap (l ++ kvs)).
  { intros Hnd. exact (Hl [] Hnd). }
  induction kvs as [|[k v] kvs IH]; intros l Hnd; cbn [foldl fst snd]; [by rewrite app_nil_r|].
  rewrite (cons_middle _ l kvs), app_assoc in Hnd |- *. unfold fifo_insert at 2.
  rewrite decide_False, lastn_app; [by apply IH|].
  intros Hk. rewrite !fmap_app, !list.NoDup_app in Hnd. destruct Hnd as ((_ & Hd & _) & _ & _).
  apply (Hd k); [|left]. unfold lastn in Hk. rewrite fmap_drop in Hk. by apply subseteq_drop in Hk.
Qed.
End fifo.

#[export] Hint Resolve fifo_empty_wf fifo_push_wf fifo_push_lookup : apprtc.
