(* ===== verification/RequestCache.v ===== *)
(** * Request deduplication in the signaling gRPC service
      ([src/src/grpc_server.rs], [RequestCache] and [operation_fingerprint])

    The fingerprints of operations, the cache of completed ones with its first-in
    first-out eviction, and the table of operations in flight.  [execute], which
    uses them, is in [Execute]. *)

From S2P Require Import Prelude Wire Fifo.

(** ** Fingerprints

    [operation_fingerprint] feeds a [DefaultHasher].  The hash function is
    unspecified by its documentation, so it is a class; what is hashed is here. *)

Inductive hash_item :=
  | HStr (s : string)
  | HBool (b : bool)
  | HU64 (n : N)
  | HUuid (b : bytes).

Class DefaultHasher : Type := hash_finish : list hash_item → N.

Section fingerprint.
Context `{L : RoomIdLib}.

(** What each arm of [operation_fingerprint] hashes, in order: the clock is
    left out everywhere, and the freshly drawn token in [AdmitV2]. *)
Definition fingerprint_items (op : collider.AuthorityOperation) : list hash_item :=
  match op with
  | collider.OpAdmit roomid clientid is_loopback _ =>
      [HStr "admit"; HStr roomid; HStr clientid; HBool is_loopback]
  | collider.OpRemove roomid clientid => [HStr "remove"; HStr roomid; HStr clientid]
  | collider.OpOccupancy roomid => [HStr "occupancy"; HStr roomid]
  | collider.OpInject roomid clientid msg _ =>
      [HStr "inject"; HStr roomid; HStr clientid; HStr msg]
  | collider.OpAdmitV2 room_id client_id _ _ =>
      [HStr "admit_v2"; HUuid (as_bytes room_id); HU64 client_id]
  | collider.OpRemoveV2 room_id client_id admission_token =>
      [HStr "remove_v2"; HUuid (as_bytes room_id); HU64 client_id; HStr admission_token]
  | collider.OpOccupancyV2 room_id => [HStr "occupancy_v2"; HUuid (as_bytes room_id)]
  | collider.OpStatus => [HStr "status"]
  end.

(** [operation_fingerprint]. *)
Definition operation_fingerprint `{DefaultHasher} (op : collider.AuthorityOperation) : N :=
  hash_finish (fingerprint_items op).

(** The operations a retry may not tell apart: equal up to the clock and, for a
    V2 admission, the token drawn for this attempt. *)
Definition same_operation (a b : collider.AuthorityOperation) : Prop :=
  match a, b with
  | collider.OpAdmit r c l _, collider.OpAdmit r' c' l' _ => r = r' ∧ c = c' ∧ l = l'
  | collider.OpInject r c m _, collider.OpInject r' c' m' _ => r = r' ∧ c = c' ∧ m = m'
  | collider.OpAdmitV2 r c _ _, collider.OpAdmitV2 r' c' _ _ => r = r' ∧ c = c'
  | _, _ => a = b
  end.
End fingerprint.

(** ** The cache *)

Definition REQUEST_CACHE_CAPACITY : N := 4096.

Record RequestKey := mk_RequestKey { key_instance_id : string; key_request_id : N }.

#[export] Instance request_key_eq_dec : EqDecision RequestKey.
Proof. solve_decision. Defined.

#[export] Instance request_key_countable : Countable RequestKey :=
  inj_countable' (λ k, (key_instance_id k, key_request_id k))
    (λ p, mk_RequestKey p.1 p.2) (λ k, match k with mk_RequestKey _ _ => eq_refl end).

Record CachedResult := mk_CachedResult {
  cached_fingerprint : N;
  cached_result : collider.AuthorityResult;
}.

(** [watch::Sender<bool>]: the id of a watch channel. *)
Definition watch_id : Type := nat.

Record InFlightRequest := mk_InFlight {
  in_flight_fingerprint : N;
  in_flight_completed : watch_id;
}.

Record RequestCache := mk_Cache {
  entries : gmap RequestKey CachedResult;
  in_flight : gmap RequestKey InFlightRequest;
  order : list RequestKey;
}.

Definition empty_cache : RequestCache := mk_Cache ∅ ∅ [].

(** The eviction loop of [RequestCache::insert].  [None] is the loop that never
    ends: too many entries and nothing left to pop. *)
Fixpoint evict (ord : list RequestKey) (ents : gmap RequestKey CachedResult)
  : option (list RequestKey * gmap RequestKey CachedResult) :=
  if (REQUEST_CACHE_CAPACITY <? N.of_nat (size ents))%N then
    match ord with
    | [] => None
    | oldest :: rest => evict rest (delete oldest ents)
    end
  else Some (ord, ents).

(** [RequestCache::insert]. *)
Definition cache_insert (c : RequestCache) (key : RequestKey) (value : CachedResult)
  : option RequestCache :=
  let ord := match entries c !! key with None => order c ++ [key] | Some _ => order c end in
  match evict ord (<[key := value]> (entries c)) with
  | Some (ord', ents') => Some (mk_Cache ents' (in_flight c) ord')
  | None => None
  end.

(** *** The cache is a bounded first-in first-out cache *)

Definition capacity : nat := N.to_nat REQUEST_CACHE_CAPACITY.

Lemma capacity_eq : N.of_nat capacity = REQUEST_CACHE_CAPACITY.
Proof. apply N2Nat.id. Qed.

Lemma capacity_pos : (0 < capacity)%nat.
Proof. pose proof capacity_eq. unfold REQUEST_CACHE_CAPACITY in *. lia. Qed.

#[local] Opaque capacity.

(** The queue lists the cached keys once each, and there are at most
    [REQUEST_CACHE_CAPACITY] of them. *)
Definition cache_wf (c : RequestCache) : Prop := fifo_wf capacity (order c) (entries c).

Lemma empty_cache_wf : cache_wf empty_cache.
Proof. apply fifo_empty_wf. Qed.

Lemma cache_wf_size c : cache_wf c → (N.of_nat (size (entries c)) <= REQUEST_CACHE_CAPACITY)%N.
Proof. intros Hwf. rewrite (fifo_size _ _ _ Hwf), <- capacity_eq. pose proof (wf_bound _ _ _ Hwf). lia. Qed.

(** The eviction loop stops at once within the bound. *)
Lemma evict_stop ord ents :
  (N.of_nat (size ents) <= REQUEST_CACHE_CAPACITY)%N → evict ord ents = Some (ord, ents).
Proof. intros Hs. destruct ord; cbn [evict]; by rewrite (proj2 (N.ltb_ge _ _)). Qed.

(** [cache_insert] on a well-formed cache: the loop ends after at most one turn. *)
Lemma cache_insert_eq c k v :
  cache_wf c →
  cache_insert c k v = Some
    (let p := fifo_push capacity (order c) (entries c) k v in mk_Cache p.2 (in_flight c) p.1).
Proof.
  intros Hwf. pose proof (fifo_size _ _ _ Hwf) as Hsize. pose proof (cache_wf_size _ Hwf).
  pose proof capacity_eq. unfold cache_insert, fifo_push.
  destruct (entries c !! k) as [old|] eqn:Hk.
  { by rewrite evict_stop by (rewrite map_size_insert_Some by eauto; done). }
  assert (Hs : size (<[k:=v]> (entries c)) = S (size (entries c))) by by apply map_size_insert_None.
  destruct (_ <? capacity)%nat eqn:Hroom; bool_to_prop.
  { by rewrite evict_stop by lia. }
  destruct (fifo_full _ _ _ _ capacity_pos Hwf Hk Hroom) as (o & rest & Ho & Hl & Hok & _ & _ & Hos).
  rewrite Ho in *. cbn [app evict]. rewrite (proj2 (N.ltb_lt _ _)) by lia.
  rewrite delete_insert_ne by done. rewrite evict_stop; [done|].
  rewrite map_size_insert_None by (rewrite lookup_delete_ne; done).
  rewrite map_size_delete_Some by done. pose proof capacity_pos. lia.
Qed.

(** Insertion keeps the cache well formed, stores the value, and leaves the
    in-flight table alone. *)
Lemma cache_insert_wf c k v c' :
  cache_wf c → cache_insert c k v = Some c' →
  cache_wf c' ∧ entries c' !! k = Some v ∧ in_flight c' = in_flight c.
Proof.
  intros Hwf Hi. rewrite (cache_insert_eq _ _ _ Hwf) in Hi. simplify_eq/=.
  split_and!; [|apply fifo_push_lookup|done]. apply fifo_push_wf; [apply capacity_pos|done].
Qed.

(** The eviction loop always ends on a well-formed cache. *)
Lemma cache_insert_total c k v : cache_wf c → is_Some (cache_insert c k v).
Proof. intros Hwf. rewrite (cache_insert_eq _ _ _ Hwf). eauto. Qed.

(** Only the inserted pair is new. *)
Lemma cache_insert_entries c k v c' k' x :
  cache_wf c → cache_insert c k v = Some c' → entries c' !! k' = Some x →
  (k' = k ∧ x = v) ∨ entries c !! k' = Some x.
Proof.
  intros Hwf Hi. rewrite (cache_insert_eq _ _ _ Hwf) in Hi. simplify_eq/=. apply fifo_push_Some.
Qed.

(** An absent key other than the inserted one stays absent. *)
Lemma cache_insert_entries_None c k v c' k' :
  cache_wf c → cache_insert c k v = Some c' → k' ≠ k →
  entries c !! k' = None → entries c' !! k' = None.
Proof.
  intros Hwf Hi Hne Hk'. rewrite (cache_insert_eq _ _ _ Hwf) in Hi. simplify_eq/=.
  by apply fifo_push_None.
Qed.

(** A recent key survives one more insertion, which is more recent still. *)
Lemma cache_insert_recent c k v c' k0 n :
  cache_wf c → cache_insert c k v = Some c' → k ≠ k0 →
  recent n k0 (order c) → (S n < capacity)%nat →
  entries c' !! k0 = entries c !! k0 ∧ recent (S n) k0 (order c').
Proof.
  intros Hwf Hi Hne Hr Hn. rewrite (cache_insert_eq _ _ _ Hwf) in Hi. simplify_eq/=.
  by apply fifo_push_recent.
Qed.

Lemma cache_insert_new_recent c k v c' :
  cache_wf c → entries c !! k = None → cache_insert c k v = Some c' → recent 0 k (order c').
Proof.
  intros Hwf Hk Hi. rewrite (cache_insert_eq _ _ _ Hwf) in Hi. simplify_eq/=.
  by apply fifo_push_new_recent.
Qed.

(** Completing the operations [kvs] in order. *)
Fixpoint insert_all (kvs : list (RequestKey * CachedResult)) (c : RequestCache) : option RequestCache :=
  match kvs with
  | [] => Some c
  | (k, v) :: kvs' => match cache_insert c k v with Some c' => insert_all kvs' c' | None => None end
  end.

(** Any insertions, repeated keys included, do to the cache what they do to the
    reference. *)
Lemma insert_all_contents kvs c :
  cache_wf c → ∃ c', insert_all kvs c = Some c' ∧ cache_wf c' ∧ in_flight c' = in_flight c ∧
    fifo_contents (order c') (entries c') =
      foldl (λ l p, fifo_insert capacity l p.1 p.2) (fifo_contents (order c) (entries c)) kvs.
Proof.
  revert c. induction kvs as [|[k v] kvs IH]; intros c Hwf; [by exists c|]. cbn [insert_all foldl fst snd].
  destruct (cache_insert_total c k v Hwf) as [c1 H1]. rewrite H1.
  destruct (cache_insert_wf _ _ _ _ Hwf H1) as (Hwf1 & _ & Hf1).
  destruct (IH c1 Hwf1) as (c' & -> & ? & ? & Hc'). exists c'. split_and!; [done|done|congruence|].
  rewrite Hc'. rewrite (cache_insert_eq _ _ _ Hwf) in H1. simplify_eq/=.
  by rewrite fifo_push_contents by (done || apply capacity_pos).
Qed.

Lemma cache_wf_in_flight c m : cache_wf c → cache_wf (mk_Cache (entries c) m (order c)).
Proof. done. Qed.

#[export] Hint Resolve empty_cache_wf cache_wf_in_flight cache_insert_total : apprtc.
