(* ===== verification/Samples.v ===== *)
(** * Concrete instances of the foreign interfaces

    One computable instance of every interface that stands for code outside
    [src/], so that the witnesses evaluate the model on concrete inputs.  A UUID
    is its sixteen bytes and a room UUID is one of version 8 and the RFC variant;
    the enumeration numbers are sample values, the model never fixes them. *)

From S2P Require Import Prelude Wire RequestCache.
From Stdlib Require Import Strings.Byte.

(** ** UUIDs as sixteen bytes *)

Definition uuid : Type := { b : bytes | length b = 16%nat }.

#[export] Instance uuid_eq_dec : EqDecision uuid := _.

#[export] Instance uuid_countable : Countable uuid := _.

Definition uuid_of (b : bytes) (fallback : uuid) : uuid :=
  match decide (length b = 16%nat) with
  | left Hb => b ↾ Hb
  | right _ => fallback
  end.

Definition uuid_nil : uuid := replicate 16 Byte.x00 ↾ eq_refl.

Definition uuid_value (u : uuid) : N :=
  foldl (λ acc b, acc * 256 + Byte.to_N b)%N 0%N (`u).

(** Version nibble 8 and variant bits 10. *)
Definition uuid_is_v8 (u : uuid) : bool :=
  match (`u) !! 6%nat, (`u) !! 8%nat with
  | Some version, Some variant =>
      (Byte.to_N version / 16 =? 8)%N && (Byte.to_N variant / 64 =? 2)%N
  | _, _ => false
  end.

(** Tokens: the raw bytes as a string. *)
Definition uuid_token (u : uuid) : string := String.string_of_list_byte (`u).

Definition uuid_parse (s : string) : option uuid :=
  let b := String.list_byte_of_string s in
  if (length b =? 16)%nat && uuid_is_v8 (uuid_of b uuid_nil)
  then Some (uuid_of b uuid_nil) else None.

#[export] Instance sample_room_id : RoomIdLib := {
  RoomId := uuid;
  as_bytes u := `u;
  from_bytes b := uuid_of b uuid_nil;
  as_u128 := uuid_value;
  is_room_uuid := uuid_is_v8;
  parse_room_token := uuid_parse;
  format_room_token := uuid_token;
}.

#[export] Instance sample_room_id_laws : RoomIdLaws sample_room_id.
Proof.
  split; cbn.
  - intros [b Hb]. exact Hb.
  - intros [b Hb]. unfold uuid_of. cbn. case_decide; [|done]. by apply (sig_eq_pi _).
  - intros b Hb. unfold uuid_of. by case_decide.
Qed.

(** A version-8 room id with [seed] as its last byte. *)
Definition sample_room (seed : Byte.byte) : uuid :=
  ([Byte.x00; Byte.x00; Byte.x00; Byte.x00; Byte.x00; Byte.x00; Byte.x80; Byte.x00;
    Byte.x80; Byte.x00; Byte.x00; Byte.x00; Byte.x00; Byte.x00; Byte.x00; seed] : bytes)
  ↾ eq_refl.

(** ** Enumerations *)

Definition sample_enum {E} (all : list E) (default : E) (to_Z : E → Z) : ProtoEnum E := {|
  as_i32 := to_Z;
  try_from_i32 i := list_find (λ e, to_Z e = i) all ≫= λ p, Some p.2;
  enum_default := default;
|}.

#[export] Instance sample_enums : v2.ProtoEnums := {
  v2.app_id_enum := sample_enum [v2.AppUnspecified; v2.Apprtc; v2.Sfu] v2.AppUnspecified
    (λ e, match e with v2.AppUnspecified => 0 | v2.Apprtc => 1 | v2.Sfu => 2 end)%Z;
  v2.room_mode_enum :=
    sample_enum
      [v2.ModeUnspecified; v2.ModeP2p; v2.ModeUpgrading; v2.ModeSfu; v2.ModeFailed; v2.ModeDowngrading]
      v2.ModeUnspecified
      (λ e, match e with v2.ModeUnspecified => 0 | v2.ModeP2p => 1 | v2.ModeUpgrading => 2 | v2.ModeSfu => 3
                       | v2.ModeDowngrading => 4 | v2.ModeFailed => 5 end)%Z;
  v2.sfu_state_enum := sample_enum
    [v2.StateUnspecified; v2.StateReady; v2.StateDraining] v2.StateUnspecified
    (λ e, match e with v2.StateUnspecified => 0 | v2.StateReady => 1 | v2.StateDraining => 2 end)%Z;
  v2.leave_reason_enum :=
    sample_enum
      [v2.ReasonUnspecified; v2.ReasonUser; v2.ReasonDisconnected; v2.ReasonRoomClosed; v2.ReasonDowngrade]
      v2.ReasonUnspecified
      (λ e, match e with v2.ReasonUnspecified => 0 | v2.ReasonUser => 1 | v2.ReasonDisconnected => 2
                       | v2.ReasonRoomClosed => 3 | v2.ReasonDowngrade => 4 end)%Z;
  v2.error_code_enum :=
    sample_enum
      [v2.CodeUnspecified; v2.InvalidRequest; v2.Full; v2.DuplicateClient; v2.RoomNotFound; v2.ClientNotFound;
       v2.Unauthorized; v2.NoSfuAvailable; v2.RoomTransition; v2.WorkerUnavailable;
       v2.StaleAssignmentEpoch; v2.StaleLifecycle; v2.ResourceExhausted; v2.InvalidSignal;
       v2.Internal]
      v2.CodeUnspecified
      (λ e, match e with
            | v2.CodeUnspecified => 0 | v2.InvalidRequest => 1 | v2.Full => 2 | v2.DuplicateClient => 3
            | v2.RoomNotFound => 4 | v2.ClientNotFound => 5 | v2.Unauthorized => 6
            | v2.NoSfuAvailable => 7 | v2.RoomTransition => 8 | v2.WorkerUnavailable => 9
            | v2.StaleAssignmentEpoch => 10 | v2.StaleLifecycle => 11
            | v2.ResourceExhausted => 12 | v2.InvalidSignal => 13 | v2.Internal => 14
            end)%Z;
  v2.error_code_str_name _ := "ERROR_CODE";
}.

#[export] Instance sample_enums_laws : v2.ProtoEnumsLaws sample_enums.
Proof. split; split; intros []; reflexivity. Qed.

(** ** A hasher without collisions *)

#[export] Instance hash_item_eq_dec : EqDecision hash_item.
Proof. solve_decision. Defined.

#[export] Instance hash_item_countable : Countable hash_item :=
  inj_countable'
    (λ i, match i with
          | HStr s => inl (inl s) | HBool b => inl (inr b)
          | HU64 n => inr (inl n) | HUuid b => inr (inr b) end)
    (λ i, match i with
          | inl (inl s) => HStr s | inl (inr b) => HBool b
          | inr (inl n) => HU64 n | inr (inr b) => HUuid b end)
    (λ i, match i with HStr _ | HBool _ | HU64 _ | HUuid _ => eq_refl end).

#[export] Instance sample_hasher : DefaultHasher := λ items, Npos (encode items).

Lemma sample_hasher_inj x y : hash_finish x = hash_finish y → x = y.
Proof. unfold hash_finish, sample_hasher. intros [= Hxy]. by apply (inj encode). Qed.

(** ** A collider

    Two queues: a text is echoed to its sender (the text [bad] is a protocol
    error), a disconnect notifies the next connection, an authority command is
    answered, an SFU registration is acknowledged.  It has no deadline. *)

Record SampleCollider := mk_SampleCollider {
  sc_outputs : list BrowserOutput;
  sc_events : list collider.AuthorityResponse;
}.

Definition sc_push (o : BrowserOutput) (c : SampleCollider) : SampleCollider :=
  mk_SampleCollider (sc_outputs c ++ [o]) (sc_events c).

#[export] Instance sample_collider : ColliderLib := {
  Collider := SampleCollider;
  collider_new _ := mk_SampleCollider [] [];
  set_downgrade_dwell _ c := c;
  handle_read i c :=
    match i with
    | BConnected _ => (c, Ok tt)
    | BText connection_id text _ =>
        if String.eqb text "bad" then (c, Err tt) else (sc_push (OText connection_id text) c, Ok tt)
    | BDisconnected connection_id _ => (sc_push (OText (connection_id + 1) "peer left") c, Ok tt)
    end;
  handle_write cmd c :=
    (mk_SampleCollider (sc_outputs c)
       (sc_events c ++ [collider.mk_AuthorityResponse (collider.ac_request_id cmd) collider.ResRemoved]),
     Ok tt);
  handle_sfu_input i c :=
    match i with
    | ssfu.InRegister connection_id _ request_id _ =>
        (sc_push (OSfu (ssfu.OutRegistered connection_id request_id 30000 false)) c, Ok tt)
    | ssfu.InEvent connection_id _ event =>
        (sc_push (OSfu (ssfu.OutEventAck connection_id (ssfu.e_request_id event))) c, Ok tt)
    | _ => (c, Ok tt)
    end;
  handle_timeout _ c := (c, Ok tt);
  collider_close c := c;
  poll_write c :=
    match sc_outputs c with
    | [] => (None, c)
    | o :: os => (Some o, mk_SampleCollider os (sc_events c))
    end;
  poll_event c :=
    match sc_events c with
    | [] => (None, c)
    | e :: es => (Some e, mk_SampleCollider (sc_outputs c) es)
    end;
  poll_timeout _ := None;
}.

#[export] Instance sample_collider_laws : ColliderLaws sample_collider.
Proof.
  refine {| pending_outputs (c : @Collider _ sample_collider) := length (sc_outputs c);
            pending_events (c : @Collider _ sample_collider) := length (sc_events c) |}.
  - intros [os es] o c'. cbn. destruct os; [done|]. intros [= <- <-]. cbn. lia.
  - intros [os es] o c'. cbn. destruct es; [done|]. intros [= <- <-]. cbn. lia.
Defined.
