(* ===== verification/Execute.v ===== *)
(** * [GrpcSignalingService::execute] ([src/src/grpc_server.rs])

    The deduplicating execution of an authority operation.  The critical
    sections are the functions [lookup_section] and [finish_section]; the tasks
    that run them interleave in the transition system [step], one label per
    atomic action of one task. *)

From S2P Require Import Prelude Wire Fifo RequestCache.

(** Case analysis on [step_spec] below: one goal per kind of label. *)
Ltac step_cases H :=
  destruct H as [t key op Ht|t k op Ht|t k op w Ht Hw|t k op Ht|t k op id acc Ht|t k op id r Ht
                |t k op r s' Ht Hf|t task Ht Hd].

Section execute.
Context `{L : RoomIdLib, DefaultHasher}.
Abbreviation Op := collider.AuthorityOperation.

(** ** The critical sections *)

(** How the loop body of [execute] leaves the first critical section: with an
    answer, with a watch channel to wait for, or owning the key. *)
Inductive Lookup_result :=
  | Answer (r : result collider.AuthorityResult GrpcStatus)
  | WaitFor (completed : watch_id)
  | Own.

(** The block that computes [wait_for], under the cache lock.  [fresh] is the
    watch channel created for a new in-flight entry. *)
Definition lookup_section (c : RequestCache) (key : RequestKey) (fp : N) (fresh : watch_id)
  : Lookup_result * RequestCache :=
  match entries c !! key with
  | Some cached =>
      if (cached_fingerprint cached =? fp)%N then (Answer (Ok (cached_result cached)), c)
      else (Answer (Err (already_exists "request_id was already used for a different operation")), c)
  | None =>
      match in_flight c !! key with
      | Some busy =>
          if (in_flight_fingerprint busy =? fp)%N then (WaitFor (in_flight_completed busy), c)
          else (Answer (Err (already_exists "request_id is in use for a different operation")), c)
      | None =>
          (Own, mk_Cache (entries c) (<[key := mk_InFlight fp fresh]> (in_flight c)) (order c))
      end
  end.

(** What comes back for a command handed to the driver: the driver stopped
    before it took the command, the reply timed out, its sender was dropped, or
    it arrived. *)
Inductive Reply :=
  | NotSent
  | TimedOut
  | Dropped
  | Replied (response : collider.AuthorityResponse).

(** The [async] block of [execute]: what the caller gets for a reply. *)
Definition settle (authority_request_id : N) (r : Reply)
  : result collider.AuthorityResult GrpcStatus :=
  match r with
  | NotSent => Err (unavailable "signaling authority stopped")
  | TimedOut => Err (deadline_exceeded "signaling authority timed out")
  | Dropped => Err (unavailable "signaling authority stopped")
  | Replied response =>
      if (collider.ar_request_id response =? authority_request_id)%N
      then Ok (collider.ar_result response)
      else Err (internal "authority response correlation failed")
  end.

(** The block after the [async] block, under the cache lock: the watch channel
    to complete, if the entry was still there, and the new cache. *)
Definition finish_section (c : RequestCache) (key : RequestKey) (fp : N)
    (r : result collider.AuthorityResult GrpcStatus) : option (option watch_id * RequestCache) :=
  let removed := in_flight c !! key in
  let c1 := mk_Cache (entries c) (delete key (in_flight c)) (order c) in
  let c2 := match r with
            | Ok a => cache_insert c1 key (mk_CachedResult fp a)
            | Err _ => Some c1
            end in
  match c2 with
  | Some c2 => Some (in_flight_completed <$> removed, c2)
  | None => None
  end.

(** [next_authority_request_id.fetch_add(1).max(1)]. *)
Definition allocate_id (counter : N) : N * N :=
  let '(value, next) := fetch_add counter 1 in (N.max value 1, next).

(** ** Tasks and the service state *)

Inductive Pc :=
  | AtLookup
  | AtWait (completed : watch_id)
  | AtAllocate
  | AtSend (authority_request_id : N)
  | AtReply (authority_request_id : N)
  | AtFinish (r : result collider.AuthorityResult GrpcStatus)
  | AtDone (r : result collider.AuthorityResult GrpcStatus).

Record Task := mk_Task { task_key : RequestKey; task_op : Op; task_pc : Pc }.

(** [sent] is the history of commands handed to the driver, with their keys. *)
Record Service := mk_Service {
  request_cache : RequestCache;
  watches : gmap watch_id bool;
  next_authority_request_id : N;
  tasks : gmap nat Task;
  sent : list (RequestKey * collider.AuthorityCommand);
}.

(** [GrpcSignalingService::new]. *)
Definition new_service : Service := mk_Service empty_cache ∅ 1 ∅ [].

Definition set_pc (s : Service) (t : nat) (task : Task) (pc : Pc) : gmap nat Task :=
  <[t := mk_Task (task_key task) (task_op task) pc]> (tasks s).

Inductive Label :=
  | Arrive (t : nat) (key : RequestKey) (op : Op)
  | Lookup (t : nat)
  | Wake (t : nat)
  | Allocate (t : nat)
  | Send (t : nat) (accepted : bool)
  | Receive (t : nat) (r : Reply)
  | Finish (t : nat)
  | Cancel (t : nat).

(** The loop body up to [wait_for], then the break or the wait. *)
Definition step_lookup (s : Service) (t : nat) (task : Task) : Service :=
  let w := fresh (dom (watches s)) in
  let '(out, c) := lookup_section (request_cache s) (task_key task)
                     (operation_fingerprint (task_op task)) w in
  match out with
  | Answer r => mk_Service c (watches s) (next_authority_request_id s)
                  (set_pc s t task (AtDone r)) (sent s)
  | WaitFor w' => mk_Service c (watches s) (next_authority_request_id s)
                    (set_pc s t task (AtWait w')) (sent s)
  | Own => mk_Service c (<[w := false]> (watches s)) (next_authority_request_id s)
             (set_pc s t task AtAllocate) (sent s)
  end.

(** The authority request id is drawn before the command waits for room in the
    queue, so that ids can be sent in another order than they were drawn. *)
Definition step_allocate (s : Service) (t : nat) (task : Task) : Service :=
  let '(id, next) := allocate_id (next_authority_request_id s) in
  mk_Service (request_cache s) (watches s) next (set_pc s t task (AtSend id)) (sent s).

(** The command is handed over, or cannot be any more. *)
Definition step_send (s : Service) (t : nat) (task : Task) (id : N) (accepted : bool) : Service :=
  if accepted
  then mk_Service (request_cache s) (watches s) (next_authority_request_id s) (set_pc s t task (AtReply id))
         (sent s ++ [(task_key task, collider.mk_AuthorityCommand id (task_op task))])
  else mk_Service (request_cache s) (watches s) (next_authority_request_id s)
         (set_pc s t task (AtFinish (settle id NotSent))) (sent s).

(** Completing the watch channel is [in_flight.completed.send(true)]. *)
Definition complete (ws : gmap watch_id bool) (w : option watch_id) : gmap watch_id bool :=
  match w with Some w => <[w := true]> ws | None => ws end.

Definition step_finish (s : Service) (t : nat) (task : Task)
    (r : result collider.AuthorityResult GrpcStatus) : option Service :=
  match finish_section (request_cache s) (task_key task)
          (operation_fingerprint (task_op task)) r with
  | Some (w, c) => Some (mk_Service c (complete (watches s) w) (next_authority_request_id s)
                           (set_pc s t task (AtDone r)) (sent s))
  | None => None
  end.

(** One atomic action; [None] when the label is not enabled. *)
Definition step (l : Label) (s : Service) : option Service :=
  match l with
  | Arrive t key op =>
      match tasks s !! t with
      | None => Some (mk_Service (request_cache s) (watches s) (next_authority_request_id s)
                        (<[t := mk_Task key op AtLookup]> (tasks s)) (sent s))
      | Some _ => None
      end
  | Lookup t =>
      match tasks s !! t with
      | Some (mk_Task _ _ AtLookup as task) => Some (step_lookup s t task)
      | _ => None
      end
  | Wake t =>
      match tasks s !! t with
      | Some (mk_Task _ _ (AtWait w) as task) =>
          match watches s !! w with
          | Some true => Some (mk_Service (request_cache s) (watches s)
                                 (next_authority_request_id s) (set_pc s t task AtLookup) (sent s))
          | _ => None
          end
      | _ => None
      end
  | Allocate t =>
      match tasks s !! t with
      | Some (mk_Task _ _ AtAllocate as task) => Some (step_allocate s t task)
      | _ => None
      end
  | Send t accepted =>
      match tasks s !! t with
      | Some (mk_Task _ _ (AtSend id) as task) => Some (step_send s t task id accepted)
      | _ => None
      end
  | Receive t r =>
      match tasks s !! t with
      | Some (mk_Task _ _ (AtReply id) as task) =>
          Some (mk_Service (request_cache s) (watches s) (next_authority_request_id s)
                  (set_pc s t task (AtFinish (settle id r))) (sent s))
      | _ => None
      end
  | Finish t =>
      match tasks s !! t with
      | Some (mk_Task _ _ (AtFinish r) as task) => step_finish s t task r
      | _ => None
      end
  | Cancel t =>
      match tasks s !! t with
      | Some (mk_Task _ _ (AtDone _)) | None => None
      | Some _ => Some (mk_Service (request_cache s) (watches s) (next_authority_request_id s)
                          (delete t (tasks s)) (sent s))
      end
  end.

(** Labels in sequence. *)
Fixpoint steps (ls : list Label) (s : Service) : option Service :=
  match ls with
  | [] => Some s
  | l :: ls' => match step l s with Some s' => steps ls' s' | None => None end
  end.

(** [execute] as one caller sees it when no other task interferes: the same
    actions in program order.  [None] means it waits for another task. *)
Definition execute (authority : collider.AuthorityCommand → Reply) (s : Service) (t : nat)
    (key : RequestKey) (op : Op) : option (Service * result collider.AuthorityResult GrpcStatus) :=
  s1 ← step (Arrive t key op) s;
  s2 ← step (Lookup t) s1;
  match task_pc <$> tasks s2 !! t with
  | Some (AtDone r) => Some (s2, r)
  | Some AtAllocate =>
      let id := (allocate_id (next_authority_request_id s2)).1 in
      let reply := authority (collider.mk_AuthorityCommand id op) in
      s3 ← step (Allocate t) s2;
      s4 ← match reply with
           | NotSent => step (Send t false) s3
           | _ => step (Send t true) s3 ≫= step (Receive t reply)
           end;
      s5 ← step (Finish t) s4;
      Some (s5, settle id reply)
  | _ => None
  end.

(** ** Reachability *)

(** The states reached by labels that satisfy [allowed]. *)
Inductive reachable (allowed : Label → Prop) (s0 : Service) : Service → Prop :=
  | reachable_refl : reachable allowed s0 s0
  | reachable_step s l s' :
      reachable allowed s0 s → allowed l → step l s = Some s' → reachable allowed s0 s'.

Definition any_label (_ : Label) : Prop := True.

Definition is_cancel (l : Label) : bool := match l with Cancel _ => true | _ => false end.

Definition no_cancel (l : Label) : Prop := is_cancel l = false.

(** The task has registered its key and not yet finished. *)
Definition owning (pc : Pc) : bool :=
  match pc with AtAllocate | AtSend _ | AtReply _ | AtFinish _ => true | _ => false end.

Definition owns (s : Service) (t : nat) (k : RequestKey) : Prop :=
  ∃ task, tasks s !! t = Some task ∧ task_key task = k ∧ owning (task_pc task) = true.

(** ** The safety invariant *)

Record safe (s : Service) : Prop := mk_safe {
  safe_cache : cache_wf (request_cache s);
  safe_owner : ∀ t k, owns s t k → is_Some (in_flight (request_cache s) !! k);
  safe_unique : ∀ t1 t2 k, owns s t1 k → owns s t2 k → t1 = t2;
  safe_disjoint : ∀ k, is_Some (in_flight (request_cache s) !! k) →
    entries (request_cache s) !! k = None;
}.

Lemma new_service_safe : safe new_service.
Proof.
  split; cbn; [apply empty_cache_wf| | |]; unfold owns; cbn.
  - intros t k (task & Ht & _). by rewrite lookup_empty in Ht.
  - intros t1 t2 k (task & Ht & _). by rewrite lookup_empty in Ht.
  - intros k [? Hk]. by rewrite lookup_empty in Hk.
Qed.

(** Owners after one task's program counter has changed. *)
Lemma owns_set_pc c ws n ss s t task pc u k :
  tasks s !! t = Some task →
  owns (mk_Service c ws n (set_pc s t task pc) ss) u k ↔
  (u = t ∧ k = task_key task ∧ owning pc = true) ∨ (u ≠ t ∧ owns s u k).
Proof.
  intros Ht. unfold owns, set_pc; cbn. destruct (decide (u = t)) as [->|Hne].
  - rewrite lookup_insert_eq. naive_solver.
  - rewrite lookup_insert_ne by done. naive_solver.
Qed.

Lemma owns_task s t k task :
  tasks s !! t = Some task → owns s t k ↔ k = task_key task ∧ owning (task_pc task) = true.
Proof. intros Ht. unfold owns. rewrite Ht. naive_solver. Qed.

(** A label that changes neither the cache nor who owns what keeps [safe]. *)
Lemma safe_same_owners s s' :
  request_cache s' = request_cache s → (∀ u k, owns s' u k → owns s u k) → safe s → safe s'.
Proof.
  intros Hc Ho [Hwf Hown Huniq Hdis]. split; rewrite ?Hc; eauto.
Qed.

Lemma lookup_section_spec c key fp w :
  match lookup_section c key fp w with
  | (Own, c') => entries c !! key = None ∧ in_flight c !! key = None ∧
      c' = mk_Cache (entries c) (<[key := mk_InFlight fp w]> (in_flight c)) (order c)
  | (WaitFor w', c') => c' = c ∧ ∃ busy, in_flight c !! key = Some busy ∧ in_flight_completed busy = w'
  | (Answer _, c') => c' = c
  end.
Proof. unfold lookup_section. repeat case_match; simplify_eq; eauto. Qed.

Lemma safe_step_lookup s t k op :
  tasks s !! t = Some (mk_Task k op AtLookup) → safe s →
  safe (step_lookup s t (mk_Task k op AtLookup)).
Proof.
  intros Ht Hsafe. unfold step_lookup; cbn.
  pose proof (lookup_section_spec (request_cache s) k (operation_fingerprint op)
                (fresh (dom (watches s)))) as Hspec.
  destruct (lookup_section _ _ _ _) as [[r|w|] c].
  - subst c. apply (safe_same_owners s); [done| |exact Hsafe].
    intros u k'. rewrite owns_set_pc by done. naive_solver.
  - destruct Hspec as [-> _]. apply (safe_same_owners s); [done| |exact Hsafe].
    intros u k'. rewrite owns_set_pc by done. naive_solver.
  - destruct Hspec as (Hent & Hfly & ->). destruct Hsafe as [Hwf Hown Huniq Hdis].
    split; cbn [request_cache entries in_flight].
    + by apply cache_wf_in_flight.
    + intros u k'. rewrite owns_set_pc, lookup_insert_is_Some' by done. naive_solver.
    + intros t1 t2 k'. rewrite !owns_set_pc by done.
      intros [(-> & -> & _)|[Hne1 Ho1]] [(-> & Hk & _)|[Hne2 Ho2]]; [done| | |by eapply Huniq].
      * apply Hown in Ho2 as [? Ho2]. cbn in Ho2. congruence.
      * subst k'. apply Hown in Ho1 as [? Ho1]. cbn in Ho1. congruence.
    + intros k'. rewrite lookup_insert_is_Some'. intros [<-|?]; auto.
Qed.

Lemma finish_section_spec c key fp r :
  cache_wf c →
  ∃ c', finish_section c key fp r = Some (in_flight_completed <$> in_flight c !! key, c') ∧
    cache_wf c' ∧ in_flight c' = delete key (in_flight c) ∧
    match r with
    | Ok a => entries c' !! key = Some (mk_CachedResult fp a) ∧
        cache_insert (mk_Cache (entries c) (delete key (in_flight c)) (order c)) key
          (mk_CachedResult fp a) = Some c'
    | Err _ => entries c' = entries c
    end.
Proof.
  intros Hwf. unfold finish_section. destruct r as [a|e]; cbn.
  - destruct (cache_insert_total (mk_Cache (entries c) (delete key (in_flight c)) (order c)) key
                (mk_CachedResult fp a)) as [c' Hc']; [by apply cache_wf_in_flight|].
    rewrite Hc'. exists c'.
    destruct (cache_insert_wf _ _ _ _ (cache_wf_in_flight _ _ Hwf) Hc') as (? & ? & ?).
    split_and!; eauto.
  - eexists. split_and!; eauto.
Qed.

Lemma safe_step_finish s t k op r s' :
  tasks s !! t = Some (mk_Task k op (AtFinish r)) → safe s →
  step_finish s t (mk_Task k op (AtFinish r)) r = Some s' → safe s'.
Proof.
  intros Ht [Hwf Hown Huniq Hdis] Hstep. unfold step_finish in Hstep; cbn in Hstep.
  destruct (finish_section_spec (request_cache s) k (operation_fingerprint op) r Hwf)
    as (c' & Hf & Hwf' & Hfly & Hent).
  rewrite Hf in Hstep. simplify_eq.
  assert (Howns : owns s t k) by (eexists; eauto).
  split; cbn [request_cache]; [done| | |]; rewrite ?Hfly.
  - intros u k'. rewrite owns_set_pc by done. intros [(_ & _ & ?)|[Hne Ho]]; [done|].
    rewrite lookup_delete_is_Some. split; [|by eapply Hown]. intros <-. by apply Hne, (Huniq _ _ k).
  - intros t1 t2 k'. rewrite !owns_set_pc by done. naive_solver.
  - intros k'. rewrite lookup_delete_is_Some. intros [Hne Hs].
    apply Hdis in Hs. destruct r as [a|e]; [|by rewrite Hent].
    destruct Hent as [_ Hins].
    eapply cache_insert_entries_None; [|exact Hins|done|done]. by apply cache_wf_in_flight.
Qed.

(** Owners after a task is started or dropped. *)
Lemma owns_arrive c ws n ss s t key op u k :
  tasks s !! t = None →
  owns (mk_Service c ws n (<[t := mk_Task key op AtLookup]> (tasks s)) ss) u k ↔ owns s u k.
Proof.
  intros Ht. unfold owns; cbn. destruct (decide (u = t)) as [->|Hne].
  - rewrite lookup_insert_eq, Ht. naive_solver.
  - by rewrite lookup_insert_ne.
Qed.

Lemma owns_cancel c ws n ss s t u k :
  owns (mk_Service c ws n (delete t (tasks s)) ss) u k ↔ u ≠ t ∧ owns s u k.
Proof.
  unfold owns; cbn. destruct (decide (u = t)) as [->|Hne].
  - rewrite lookup_delete_eq. naive_solver.
  - rewrite lookup_delete_ne by done. naive_solver.
Qed.

(** Inversion of [step]: one case per kind of label. *)
Inductive step_spec (s : Service) : Label → Service → Prop :=
  | spec_arrive t key op :
      tasks s !! t = None →
      step_spec s (Arrive t key op)
        (mk_Service (request_cache s) (watches s) (next_authority_request_id s)
           (<[t := mk_Task key op AtLookup]> (tasks s)) (sent s))
  | spec_lookup t k op :
      tasks s !! t = Some (mk_Task k op AtLookup) →
      step_spec s (Lookup t) (step_lookup s t (mk_Task k op AtLookup))
  | spec_wake t k op w :
      tasks s !! t = Some (mk_Task k op (AtWait w)) → watches s !! w = Some true →
      step_spec s (Wake t)
        (mk_Service (request_cache s) (watches s) (next_authority_request_id s)
           (set_pc s t (mk_Task k op (AtWait w)) AtLookup) (sent s))
  | spec_allocate t k op :
      tasks s !! t = Some (mk_Task k op AtAllocate) →
      step_spec s (Allocate t) (step_allocate s t (mk_Task k op AtAllocate))
  | spec_send t k op id accepted :
      tasks s !! t = Some (mk_Task k op (AtSend id)) →
      step_spec s (Send t accepted) (step_send s t (mk_Task k op (AtSend id)) id accepted)
  | spec_receive t k op id r :
      tasks s !! t = Some (mk_Task k op (AtReply id)) →
      step_spec s (Receive t r)
        (mk_Service (request_cache s) (watches s) (next_authority_request_id s)
           (set_pc s t (mk_Task k op (AtReply id)) (AtFinish (settle id r))) (sent s))
  | spec_finish t k op r s' :
      tasks s !! t = Some (mk_Task k op (AtFinish r)) →
      step_finish s t (mk_Task k op (AtFinish r)) r = Some s' →
      step_spec s (Finish t) s'
  | spec_cancel t task :
      tasks s !! t = Some task → (∀ r, task_pc task ≠ AtDone r) →
      step_spec s (Cancel t)
        (mk_Service (request_cache s) (watches s) (next_authority_request_id s)
           (delete t (tasks s)) (sent s)).

Lemma step_inv l s s' : step l s = Some s' → step_spec s l s'.
Proof.
  intros Hstep. destruct l; cbn -[step_allocate] in Hstep; repeat (case_match; simplify_eq);
    first [by eapply spec_arrive | by eapply spec_lookup | by eapply spec_wake | by eapply spec_allocate
          | by eapply spec_send | by eapply spec_receive | eapply spec_finish; eassumption
          | eapply spec_cancel; [eassumption|done]].
Qed.

Lemma safe_step l s s' : step l s = Some s' → safe s → safe s'.
Proof.
  intros Hstep%step_inv Hsafe. step_cases Hstep.
  - apply (safe_same_owners s); [done| |exact Hsafe]. intros u k'. by rewrite owns_arrive.
  - by apply safe_step_lookup.
  - apply (safe_same_owners s); [done| |exact Hsafe]. intros u k'. rewrite owns_set_pc by done. naive_solver.
  - apply (safe_same_owners s); [done| |exact Hsafe]. intros u k'. unfold step_allocate; cbn.
    rewrite owns_set_pc by done. intros [(-> & -> & _)|[_ ?]]; [by eapply owns_task|done].
  - destruct acc; (apply (safe_same_owners s); [done| |exact Hsafe]); intros u k';
      unfold step_send; cbn; rewrite owns_set_pc by done;
      (intros [(-> & -> & _)|[_ ?]]; [by eapply owns_task|done]).
  - apply (safe_same_owners s); [done| |exact Hsafe]. intros u k'. rewrite owns_set_pc by done.
    intros [(-> & -> & _)|[_ ?]]; [by eapply owns_task|done].
  - by eapply safe_step_finish.
  - apply (safe_same_owners s); [done| |exact Hsafe]. intros u k'. rewrite owns_cancel. naive_solver.
Qed.

Lemma safe_steps ls s s' : steps ls s = Some s' → safe s → safe s'.
Proof.
  revert s. induction ls as [|l ls IH]; intros s; cbn; [by intros [= ->]|].
  destruct (step l s) eqn:Hl; [|done]. eauto using safe_step.
Qed.

Lemma reachable_safe allowed s0 s : safe s0 → reachable allowed s0 s → safe s.
Proof. intros H0. induction 1; eauto using safe_step. Qed.
End execute.
