(* ===== verification/ExecuteLive.v ===== *)
(** * Progress of [execute]: the watch channels lose no wake-up

    As long as no task is dropped half-way, every in-flight key has an owner and
    every waiter either has been signalled or waits for that owner, so any
    unfinished task can still be run to its answer.  A dropped owner breaks
    exactly this ([ExecuteSpec.cancelled_owner_wedges_key]). *)

From S2P Require Import Prelude Wire RequestCache Execute.

Section live.
Context `{L : RoomIdLib, DefaultHasher}.

Definition task_at (s : Service) (t : nat) : option Pc := task_pc <$> tasks s !! t.

(** A waiter has been signalled, or waits for the entry of its own key, whose
    watch channel exists. *)
Record waits (s : Service) : Prop := mk_waits {
  waits_watch : ∀ k busy, in_flight (request_cache s) !! k = Some busy →
    is_Some (watches s !! in_flight_completed busy);
  waits_task : ∀ t task w, tasks s !! t = Some task → task_pc task = AtWait w →
    watches s !! w = Some true ∨
    ∃ busy, in_flight (request_cache s) !! task_key task = Some busy ∧ in_flight_completed busy = w;
}.

(** Every key in flight has a task working on it. *)
Definition all_owned (s : Service) : Prop :=
  ∀ k busy, in_flight (request_cache s) !! k = Some busy → ∃ t, owns s t k.

Lemma new_service_waits : waits new_service.
Proof. split; cbn; intros *; by rewrite lookup_empty. Qed.

Lemma new_service_owned : all_owned new_service.
Proof. intros k busy. cbn. by rewrite lookup_empty. Qed.

(** Who waits on what after one task's program counter has changed. *)
Lemma waiting_set_pc s t task pc (Q : RequestKey → watch_id → Prop) :
  (∀ w, pc = AtWait w → Q (task_key task) w) →
  (∀ u task' w, tasks s !! u = Some task' → task_pc task' = AtWait w → Q (task_key task') w) →
  ∀ u task' w, set_pc s t task pc !! u = Some task' → task_pc task' = AtWait w → Q (task_key task') w.
Proof.
  intros Hpc Hall u task' w. unfold set_pc. destruct (decide (u = t)) as [->|Hne].
  - rewrite lookup_insert_eq. intros ? ?. simplify_eq/=. auto.
  - rewrite lookup_insert_ne by done. eauto.
Qed.

(** *** Waiters, in any interleaving *)

(** What a waiter on [w] for the key [k] can count on. *)
Definition signalled (m : gmap RequestKey InFlightRequest) (ws : gmap watch_id bool)
    (k : RequestKey) (w : watch_id) : Prop :=
  ws !! w = Some true ∨ ∃ busy, m !! k = Some busy ∧ in_flight_completed busy = w.

(** Labels that keep the cache and the watches. *)
Lemma waits_same s n ss t task pc :
  (∀ w, pc ≠ AtWait w) → waits s →
  waits (mk_Service (request_cache s) (watches s) n (set_pc s t task pc) ss).
Proof.
  intros Hpc [Hw Hwait]. split; cbn; [done|].
  apply (waiting_set_pc s t task pc (signalled (in_flight (request_cache s)) (watches s))); [by intros w Hp%Hpc|done].
Qed.

Lemma waits_step_lookup s t k op :
  waits s → waits (step_lookup s t (mk_Task k op AtLookup)).
Proof.
  intros Hwaits. unfold step_lookup; cbn.
  pose proof (lookup_section_spec (request_cache s) k (operation_fingerprint op)
                (fresh (dom (watches s)))) as Hspec.
  destruct (lookup_section _ _ _ _) as [[r|w|] c].
  - subst c. by apply waits_same.
  - destruct Hspec as (-> & busy & Hbusy & <-). destruct Hwaits as [Hw Hwait]. split; cbn; [done|].
    apply (waiting_set_pc s t _ _ (signalled (in_flight (request_cache s)) (watches s))); [|done].
    cbn. intros w [= <-]. right. eauto.
  - destruct Hspec as (Hent & Hfly & ->). destruct Hwaits as [Hw Hwait].
    set (w := fresh (dom (watches s))).
    assert (Hfresh : watches s !! w = None) by (apply not_elem_of_dom, is_fresh).
    split; cbn.
    + intros k' busy'. rewrite lookup_insert_Some, lookup_insert_is_Some'.
      intros [[<- <-]|[Hne Hk']]; eauto.
    + apply (waiting_set_pc s t _ _
        (signalled (<[k := mk_InFlight (operation_fingerprint op) w]> (in_flight (request_cache s)))
           (<[w := false]> (watches s)))); [done|].
      intros u task' w' Hu Hpc. destruct (Hwait _ _ _ Hu Hpc) as [Ht'|(busy & Hb & Hc)].
      * left. rewrite lookup_insert_ne; [done|congruence].
      * right. exists busy. rewrite lookup_insert_ne; [done|congruence].
Qed.

Lemma waits_step_finish s t k op r s' :
  safe s → waits s → step_finish s t (mk_Task k op (AtFinish r)) r = Some s' →
  is_Some (in_flight (request_cache s) !! k) → waits s'.
Proof.
  intros Hsafe [Hw Hwait] Hstep [busy0 Hbusy0]. unfold step_finish in Hstep; cbn in Hstep.
  destruct (finish_section_spec (request_cache s) k (operation_fingerprint op) r (safe_cache _ Hsafe))
    as (c' & Hf & Hwf' & Hfly & _).
  rewrite Hf, Hbusy0 in Hstep. simplify_eq/=. split; cbn; rewrite ?Hfly.
  - intros k' busy. rewrite lookup_delete_Some, lookup_insert_is_Some'. intros [Hne Hk']. eauto.
  - apply (waiting_set_pc s t _ _ (signalled (delete k (in_flight (request_cache s)))
      (<[in_flight_completed busy0 := true]> (watches s)))); [done|].
    unfold signalled; cbn. intros u task' w' Hu Hpc. rewrite lookup_insert_Some.
    destruct (decide (in_flight_completed busy0 = w')) as [?|Hne]; [auto|].
    destruct (Hwait _ _ _ Hu Hpc) as [?|(busy & Hb & Hc)]; [auto|].
    right. exists busy. rewrite lookup_delete_Some. split_and!; [congruence|done|done].
Qed.

Lemma waits_step l s s' : step l s = Some s' → safe s → waits s → waits s'.
Proof.
  intros Hstep%step_inv Hsafe Hwaits.
  step_cases Hstep.
  - destruct Hwaits as [Hw Hwait]. split; cbn; [done|].
    intros u task w. rewrite lookup_insert_Some. intros [[<- <-]|[Hne Hu]]; [done|eauto].
  - by apply waits_step_lookup.
  - by apply waits_same.
  - by apply waits_same.
  - unfold step_send; cbn. destruct acc; by apply waits_same.
  - by apply waits_same.
  - eapply waits_step_finish; [done..|]. apply (safe_owner _ Hsafe t). by eexists.
  - destruct Hwaits as [Hw Hwait]. split; cbn; [done|].
    intros u task' w. rewrite lookup_delete_Some. intros [_ Hu]. eauto.
Qed.

Lemma reachable_waits allowed s : reachable allowed new_service s → waits s.
Proof.
  induction 1; [apply new_service_waits|].
  eapply waits_step; [done| |done]. by eapply reachable_safe; [apply new_service_safe|].
Qed.

(** *** Owners, without cancellations *)

Lemma owned_same c ws n ss s t task pc :
  tasks s !! t = Some task → owning pc = owning (task_pc task) → in_flight c = in_flight (request_cache s) →
  all_owned s → all_owned (mk_Service c ws n (set_pc s t task pc) ss).
Proof.
  intros Ht Hown Hc Ho k busy. cbn. rewrite Hc. intros Hk. destruct (Ho _ _ Hk) as [u Hu].
  exists u. rewrite owns_set_pc by done. destruct (decide (u = t)) as [->|?]; [left|by right].
  apply (owns_task _ _ _ _ Ht) in Hu as [-> Hu]. split_and!; [done..|by rewrite Hown].
Qed.

Lemma owned_step l s s' : step l s = Some s' → no_cancel l → safe s → all_owned s → all_owned s'.
Proof.
  intros Hstep%step_inv Hl Hsafe Ho.
  step_cases Hstep.
  - intros k busy Hk. destruct (Ho _ _ Hk) as [u Hu]. exists u. by rewrite owns_arrive.
  - unfold step_lookup; cbn.
    pose proof (lookup_section_spec (request_cache s) k (operation_fingerprint op)
                  (fresh (dom (watches s)))) as Hspec.
    destruct (lookup_section _ _ _ _) as [[r|w|] c]; [by subst c; apply owned_same|by destruct Hspec as [-> _]; apply owned_same|].
    destruct Hspec as (_ & _ & ->). intros k' busy'. cbn. rewrite lookup_insert_Some. intros [[<- _]|[Hne Hk']].
    + exists t. rewrite owns_set_pc by done. auto.
    + destruct (Ho _ _ Hk') as [u Hu]. exists u. rewrite owns_set_pc by done. right.
      split; [|done]. intros ->. by apply (owns_task _ _ _ _ Ht) in Hu as [_ ?].
  - by apply owned_same.
  - by apply owned_same.
  - unfold step_send; cbn. destruct acc; by apply owned_same.
  - by apply owned_same.
  - unfold step_finish in Hf; cbn in Hf.
    destruct (finish_section_spec (request_cache s) k (operation_fingerprint op) r (safe_cache _ Hsafe))
      as (c' & Hfs & _ & Hfly & _).
    rewrite Hfs in Hf. simplify_eq. intros k' busy. cbn. rewrite Hfly, lookup_delete_Some.
    intros [Hne Hk']. destruct (Ho _ _ Hk') as [u Hu]. exists u. rewrite owns_set_pc by done. right.
    split; [|done]. intros ->. by apply (owns_task _ _ _ _ Ht) in Hu as [-> _].
  - done.
Qed.

Record live (s : Service) : Prop := mk_live {
  live_owned : all_owned s;
  live_waits : waits s;
}.

Lemma live_step l s s' : step l s = Some s' → no_cancel l → safe s → live s → live s'.
Proof. intros ? ? ? [? ?]. split; eauto using owned_step, waits_step. Qed.

Lemma reachable_live s :
  reachable no_cancel new_service s → safe s ∧ live s.
Proof.
  induction 1 as [|s l s' _ [IHs IHl] Hl Hstep].
  - split; [apply new_service_safe|]. split; [apply new_service_owned|apply new_service_waits].
  - eauto using safe_step, live_step.
Qed.

(** ** Running a task to its answer *)

Lemma steps_app ls1 ls2 s s1 s2 :
  steps ls1 s = Some s1 → steps ls2 s1 = Some s2 → steps (ls1 ++ ls2) s = Some s2.
Proof.
  revert s. induction ls1 as [|l ls1 IH]; intros s; cbn; [by intros [= ->]|].
  destruct (step l s); [|done]. apply IH.
Qed.

Lemma steps_inv ls s s' :
  steps ls s = Some s' → Forall no_cancel ls → safe s → live s → safe s' ∧ live s'.
Proof.
  revert s. induction ls as [|l ls IH]; intros s; cbn; [by intros [= ->]|].
  destruct (step l s) eqn:Hl; [|done]. intros ? [? ?]%list.Forall_cons ? ?.
  eauto using safe_step, live_step.
Qed.

(** A task about to finish can. *)
Lemma finish_enabled s t k op r :
  tasks s !! t = Some (mk_Task k op (AtFinish r)) → safe s →
  ∃ s', step (Finish t) s = Some s' ∧ tasks s' = set_pc s t (mk_Task k op (AtFinish r)) (AtDone r) ∧
    in_flight (request_cache s') !! k = None ∧
    ∀ busy, in_flight (request_cache s) !! k = Some busy →
      watches s' !! in_flight_completed busy = Some true.
Proof.
  intros Ht Hsafe. cbn. rewrite Ht. unfold step_finish; cbn.
  destruct (finish_section_spec (request_cache s) k (operation_fingerprint op) r (safe_cache _ Hsafe))
    as (c' & Hf & _ & Hfly & _).
  rewrite Hf. eexists. split_and!; [done|done| |]; cbn.
  - by rewrite Hfly, lookup_delete_eq.
  - intros busy ->. cbn. by rewrite lookup_insert_eq.
Qed.

(** An owner can be run to completion, whatever the reply, without touching the
    other tasks. *)
Lemma finish_owner s t k :
  owns s t k → safe s →
  ∃ ls s', steps ls s = Some s' ∧ Forall no_cancel ls ∧
    (∃ r, task_at s' t = Some (AtDone r)) ∧ in_flight (request_cache s') !! k = None ∧
    (∀ busy, in_flight (request_cache s) !! k = Some busy →
      watches s' !! in_flight_completed busy = Some true) ∧
    (∀ u, u ≠ t → tasks s' !! u = tasks s !! u).
Proof.
  intros ([k' op pc] & Ht & Hk & Hpc) Hsafe; cbn in Hk, Hpc; subst k'.
  assert (Hfin : ∀ s1 ls r, steps ls s = Some s1 → Forall no_cancel ls →
    tasks s1 !! t = Some (mk_Task k op (AtFinish r)) →
    request_cache s1 = request_cache s → (∀ u, u ≠ t → tasks s1 !! u = tasks s !! u) →
    ∃ ls s', steps ls s = Some s' ∧ Forall no_cancel ls ∧
      (∃ r, task_at s' t = Some (AtDone r)) ∧ in_flight (request_cache s') !! k = None ∧
      (∀ busy, in_flight (request_cache s) !! k = Some busy →
        watches s' !! in_flight_completed busy = Some true) ∧
      (∀ u, u ≠ t → tasks s' !! u = tasks s !! u)).
  { intros s1 ls r Hls Hnc Ht1 Hc Hoth.
    destruct (finish_enabled _ _ _ _ _ Ht1 (safe_steps _ _ _ Hls Hsafe)) as (s2 & Hf & Htasks & Hfly & Hwatch).
    exists (ls ++ [Finish t]), s2. split_and!.
    - eapply steps_app; [done|]. cbn [steps]. by rewrite Hf.
    - apply list.Forall_app; split; [done|by constructor].
    - unfold task_at. rewrite Htasks. unfold set_pc. rewrite lookup_insert_eq. eauto.
    - done.
    - by rewrite <- Hc.
    - intros u Hu. rewrite Htasks. unfold set_pc. rewrite lookup_insert_ne by done. auto. }
  destruct pc as [|w| |id|id|r|r]; try done.
  - eapply (Hfin _ [Allocate t; Send t false]).
    + cbn. rewrite Ht. cbn. unfold set_pc. rewrite lookup_insert_eq. reflexivity.
    + by repeat constructor.
    + cbn. unfold set_pc. by rewrite lookup_insert_eq.
    + done.
    + intros u Hu. cbn. unfold set_pc. cbn. by rewrite !lookup_insert_ne.
  - eapply (Hfin _ [Send t false]); [cbn; rewrite Ht; reflexivity|by constructor| | |].
    + cbn. unfold set_pc. by rewrite lookup_insert_eq.
    + done.
    + intros u Hu. cbn. unfold set_pc. by rewrite lookup_insert_ne.
  - eapply (Hfin _ [Receive t TimedOut]); [cbn; rewrite Ht; reflexivity|by constructor| | |].
    + cbn. unfold set_pc. by rewrite lookup_insert_eq.
    + done.
    + intros u Hu. cbn. unfold set_pc. by rewrite lookup_insert_ne.
  - by eapply (Hfin s []).
Qed.
End live.
