(* ===== verification/ExecuteSpec.v ===== *)
(** * What request deduplication promises

    The contract of [execute] and its cache: the fingerprint tells operations
    apart exactly up to what a retry may change, one task per key runs at a time,
    a cached operation is not sent again, every task can be answered unless an
    owner is dropped, and the sequential reading [execute] is a run of the
    transition system. *)

From S2P Require Import Prelude Wire Samples Fifo RequestCache Execute ExecuteLive.

Section spec.
Context `{L : RoomIdLib, D : DefaultHasher}.

(** ** Fingerprints *)

Lemma as_bytes_inj {laws : RoomIdLaws L} a b : as_bytes a = as_bytes b → a = b.
Proof. intros Hab. by rewrite <- (from_as_bytes a), <- (from_as_bytes b), Hab. Qed.

Lemma fingerprint_items_same {laws : RoomIdLaws L} a b :
  fingerprint_items a = fingerprint_items b ↔ same_operation a b.
Proof.
  split.
  - destruct a, b; cbn; intros; simplify_eq; auto;
      repeat match goal with E : as_bytes _ = as_bytes _ |- _ => apply as_bytes_inj in E as -> end; auto.
  - destruct a, b; cbn; try naive_solver; intros; simplify_eq; done.
Qed.

Lemma same_operation_fingerprint a b :
  same_operation a b → operation_fingerprint a = operation_fingerprint b.
Proof.
  intros Hab. unfold operation_fingerprint. f_equal.
  destruct a, b; cbn in *; destruct_and?; by simplify_eq/=.
Qed.

(** Fingerprints agree on two operations that differ only in what the code leaves out of them,
    and, for a hasher without collisions, only then. *)
Theorem fingerprint_exact {laws : RoomIdLaws L} a b :
  (same_operation a b → operation_fingerprint a = operation_fingerprint b) ∧
  ((∀ x y, hash_finish x = hash_finish y → x = y) →
   operation_fingerprint a = operation_fingerprint b → same_operation a b).
Proof.
  split; [apply same_operation_fingerprint|].
  intros Hinj Hab. by apply fingerprint_items_same, Hinj.
Qed.

#[local] Opaque capacity.

(** ** Single flight *)

(** C1: In any interleaving of requests, cancellations included, at most one task at a time owns
    a request key, an owned key is not cached, the cache never holds more than its capacity, and
    a task about to finish always can. *)
Theorem single_flight s :
  reachable any_label new_service s →
  (∀ t1 t2 k, owns s t1 k → owns s t2 k → t1 = t2) ∧
  (∀ t k, owns s t k → entries (request_cache s) !! k = None) ∧
  (N.of_nat (size (entries (request_cache s))) <= REQUEST_CACHE_CAPACITY)%N ∧
  (∀ t task r, tasks s !! t = Some task → task_pc task = AtFinish r →
     is_Some (step (Finish t) s)).
Proof.
  intros Hr%(reachable_safe _ _ _ new_service_safe).
  split_and!.
  - apply (safe_unique _ Hr).
  - intros t k Ho. by eapply (safe_disjoint _ Hr), safe_owner.
  - apply cache_wf_size, Hr.
  - intros t [k op pc] r Ht Hpc; cbn in Hpc; subst.
    destruct (finish_enabled _ _ _ _ _ Ht Hr) as (s' & Hs & _). eauto.
Qed.

(** ** A cached operation is not sent again *)

Definition sent_for (k : RequestKey) (s : Service) : list (RequestKey * collider.AuthorityCommand) :=
  filter (λ p, p.1 = k) (sent s).

(** The states a run goes through, the first and the last included. *)
Fixpoint trace (ls : list Label) (s : Service) : list Service :=
  s :: match ls with
       | [] => []
       | l :: ls' => match step l s with Some s' => trace ls' s' | None => [] end
       end.

Lemma cache_insert_other c k v c' k' x :
  cache_wf c → cache_insert c k v = Some c' → k' ≠ k → entries c !! k' = Some x →
  entries c' !! k' = Some x ∨ entries c' !! k' = None.
Proof.
  intros Hwf Hi Hne Hk'. rewrite (cache_insert_eq _ _ _ Hwf) in Hi. simplify_eq/=.
  rewrite <- Hk'. unfold fifo_push.
  repeat case_match; cbn; rewrite ?lookup_insert_ne by done; auto.
  rewrite lookup_delete. case_decide; auto.
Qed.

Lemma step_cached l s s' k c :
  step l s = Some s' → safe s → entries (request_cache s) !! k = Some c →
  sent_for k s' = sent_for k s ∧
  (entries (request_cache s') !! k = Some c ∨ entries (request_cache s') !! k = None).
Proof.
  intros Hstep%step_inv Hsafe Hk.
  assert (Hnot : ∀ t, ¬ owns s t k).
  { intros t Ho. apply (safe_owner _ Hsafe), (safe_disjoint _ Hsafe) in Ho. congruence. }
  destruct Hstep as [t key op Ht|t k' op Ht|t k' op w Ht Hw|t k' op Ht|t k' op id acc Ht|t k' op id r Ht|t k' op r s' Ht Hf|t task Ht Hd];
    auto.
  - unfold step_lookup; cbn.
    pose proof (lookup_section_spec (request_cache s) k' (operation_fingerprint op)
                  (fresh (dom (watches s)))) as Hspec.
    destruct (lookup_section _ _ _ _) as [[r|w|] c']; cbn; [by subst c'; auto| |].
    + destruct Hspec as [-> _]. auto.
    + destruct Hspec as (_ & _ & ->). auto.
  - assert (k' ≠ k) by (intros ->; apply (Hnot t); eexists; eauto).
    unfold step_send; cbn. destruct acc; [|auto]. split; [|auto].
    unfold sent_for; cbn. rewrite list.filter_app, filter_cons_False by done. by rewrite filter_nil, app_nil_r.
  - assert (k' ≠ k) by (intros ->; apply (Hnot t); eexists; eauto).
    unfold step_finish in Hf; cbn in Hf.
    destruct (finish_section_spec (request_cache s) k' (operation_fingerprint op) r (safe_cache _ Hsafe))
      as (c' & Hfs & _ & _ & Hent).
    rewrite Hfs in Hf. simplify_eq. split; [done|]. cbn.
    destruct r as [a|e]; [|rewrite Hent; auto].
    destruct Hent as [_ Hi]. eapply cache_insert_other; [|exact Hi|done|done].
    by apply cache_wf_in_flight, Hsafe.
Qed.

Lemma steps_cached ls s s' k c :
  steps ls s = Some s' → safe s → entries (request_cache s) !! k = Some c →
  Forall (λ x, is_Some (entries (request_cache x) !! k)) (trace ls s) →
  sent_for k s' = sent_for k s ∧ entries (request_cache s') !! k = Some c.
Proof.
  revert s. induction ls as [|l ls IH]; intros s; cbn; [by intros [= ->]|].
  destruct (step l s) as [s1|] eqn:Hl; [|done]. intros Hls Hs Hk Hall.
  apply list.Forall_cons in Hall as [_ Hall].
  destruct (step_cached _ _ _ _ _ Hl Hs Hk) as [Hsent Hk1].
  assert (Hs1 : is_Some (entries (request_cache s1) !! k)) by (destruct ls; cbn in Hall; by apply list.Forall_cons in Hall as [? _]).
  destruct Hk1 as [Hk1|Hk1]; [|by rewrite Hk1 in Hs1; destruct Hs1].
  destruct (IH s1 Hls (safe_step _ _ _ Hl Hs) Hk1 Hall) as [-> ?]. done.
Qed.

(** As long as a key is cached, in any interleaving nothing is sent for it, and every lookup of
    it is answered at once: replayed for the same operation, refused for another. *)
Theorem cached_operation_not_resent s ls s' k c :
  reachable any_label new_service s → entries (request_cache s) !! k = Some c →
  steps ls s = Some s' → Forall (λ x, is_Some (entries (request_cache x) !! k)) (trace ls s) →
  sent_for k s' = sent_for k s ∧ entries (request_cache s') !! k = Some c ∧
  (∀ t op, tasks s' !! t = Some (mk_Task k op AtLookup) →
     ∃ s'', step (Lookup t) s' = Some s'' ∧
       task_at s'' t = Some (AtDone
         (if (cached_fingerprint c =? operation_fingerprint op)%N then Ok (cached_result c)
          else Err (already_exists "request_id was already used for a different operation")))).
Proof.
  intros Hr%(reachable_safe _ _ _ new_service_safe) Hk Hls Hall.
  destruct (steps_cached _ _ _ _ _ Hls Hr Hk Hall) as [Hsent Hk'].
  split_and!; [done..|]. intros t op Ht. cbn. rewrite Ht. eexists; split; [done|].
  unfold step_lookup, lookup_section; cbn. rewrite Hk'.
  destruct (_ =? _)%N; unfold task_at; cbn; unfold set_pc; by rewrite lookup_insert_eq.
Qed.

(** ** Every task can be answered *)

Lemma answer_from_lookup s t k op :
  safe s → live s → tasks s !! t = Some (mk_Task k op AtLookup) →
  in_flight (request_cache s) !! k = None →
  ∃ ls s', steps ls s = Some s' ∧ Forall no_cancel ls ∧ ∃ r, task_at s' t = Some (AtDone r).
Proof.
  intros Hs Hl Ht Hfly.
  assert (Hstep : step (Lookup t) s = Some (step_lookup s t (mk_Task k op AtLookup))) by (cbn; by rewrite Ht).
  destruct (entries (request_cache s) !! k) as [c|] eqn:Hk.
  - exists [Lookup t], (step_lookup s t (mk_Task k op AtLookup)). cbn [steps]. rewrite Hstep.
    split_and!; [done|by constructor|]. unfold step_lookup, lookup_section; cbn. rewrite Hk.
    destruct (_ =? _)%N; unfold task_at; cbn; unfold set_pc; rewrite lookup_insert_eq; eauto.
  - assert (Ho : owns (step_lookup s t (mk_Task k op AtLookup)) t k).
    { unfold step_lookup, lookup_section; cbn. rewrite Hk, Hfly. eexists. cbn. unfold set_pc.
      rewrite lookup_insert_eq. done. }
    destruct (finish_owner _ _ _ Ho (safe_step _ _ _ Hstep Hs)) as (ls & s' & Hls & Hnc & Hr & _).
    exists (Lookup t :: ls), s'. cbn [steps]. rewrite Hstep. split_and!; [done|by constructor|done].
Qed.

(** Free the key first, then look up. *)
Lemma answer_at_lookup s t k op :
  safe s → live s → tasks s !! t = Some (mk_Task k op AtLookup) →
  ∃ ls s', steps ls s = Some s' ∧ Forall no_cancel ls ∧ ∃ r, task_at s' t = Some (AtDone r).
Proof.
  intros Hs Hl Ht. destruct (in_flight (request_cache s) !! k) as [busy|] eqn:Hfly.
  - destruct (live_owned _ Hl _ _ Hfly) as [u Hu].
    assert (u ≠ t) by (intros ->; by apply (owns_task _ _ _ _ Ht) in Hu as [_ ?]).
    destruct (finish_owner _ _ _ Hu Hs) as (ls1 & s1 & Hls1 & Hnc1 & _ & Hfree & _ & Hoth).
    destruct (steps_inv _ _ _ Hls1 Hnc1 Hs Hl) as [Hs1 Hl1].
    rewrite <- Hoth in Ht by done.
    destruct (answer_from_lookup _ _ _ _ Hs1 Hl1 Ht Hfree) as (ls2 & s2 & Hls2 & Hnc2 & Hr).
    exists (ls1 ++ ls2), s2. split_and!; [by eapply steps_app|by apply list.Forall_app|done].
  - by eapply answer_from_lookup.
Qed.

(** A waiter can be woken. *)
Lemma wake_waiter s t k op w :
  safe s → live s → tasks s !! t = Some (mk_Task k op (AtWait w)) →
  ∃ ls s', steps ls s = Some s' ∧ Forall no_cancel ls ∧
    tasks s' !! t = Some (mk_Task k op AtLookup).
Proof.
  intros Hs Hl Ht.
  assert (Hwake : ∀ s1, tasks s1 !! t = Some (mk_Task k op (AtWait w)) → watches s1 !! w = Some true →
    ∃ s2, step (Wake t) s1 = Some s2 ∧ tasks s2 !! t = Some (mk_Task k op AtLookup)).
  { intros s1 Ht1 Hw1. cbn. rewrite Ht1, Hw1. eexists; split; [done|]. cbn. unfold set_pc.
    by rewrite lookup_insert_eq. }
  destruct (waits_task _ (live_waits _ Hl) _ _ _ Ht eq_refl) as [Hw|(busy & Hb & Hc)].
  - destruct (Hwake s Ht Hw) as (s2 & H2 & Ht2). exists [Wake t], s2. cbn [steps]. rewrite H2.
    split_and!; [done|by constructor|done].
  - cbn in Hb. destruct (live_owned _ Hl _ _ Hb) as [u Hu].
    assert (u ≠ t) by (intros ->; by apply (owns_task _ _ _ _ Ht) in Hu as [_ ?]).
    destruct (finish_owner _ _ _ Hu Hs) as (ls1 & s1 & Hls1 & Hnc1 & _ & _ & Hwatch & Hoth).
    apply Hwatch in Hb. rewrite Hc in Hb. rewrite <- Hoth in Ht by done.
    destruct (Hwake s1 Ht Hb) as (s2 & H2 & Ht2).
    exists (ls1 ++ [Wake t]), s2. split_and!; [|apply list.Forall_app; split; [done|by constructor]|done].
    eapply steps_app; [done|]. cbn [steps]. by rewrite H2.
Qed.

(** Without cancellations, from every reachable state each request can be brought to its answer
    by steps of the tasks themselves. *)
Theorem every_request_answerable s t :
  reachable no_cancel new_service s → is_Some (tasks s !! t) →
  ∃ ls s', steps ls s = Some s' ∧ Forall no_cancel ls ∧ ∃ r, task_at s' t = Some (AtDone r).
Proof.
  intros [Hs Hl]%reachable_live [[k op pc] Ht].
  assert (Howner : owning pc = true → ∃ ls s', steps ls s = Some s' ∧ Forall no_cancel ls ∧
    ∃ r, task_at s' t = Some (AtDone r)).
  { intros Hpc. assert (Ho : owns s t k) by (eexists; eauto).
    destruct (finish_owner _ _ _ Ho Hs) as (ls & s' & ? & ? & ? & _). eauto 6. }
  destruct pc as [|w| | | | |r]; auto.
  - by eapply answer_at_lookup.
  - destruct (wake_waiter _ _ _ _ _ Hs Hl Ht) as (ls1 & s1 & Hls1 & Hnc1 & Ht1).
    destruct (steps_inv _ _ _ Hls1 Hnc1 Hs Hl) as [Hs1 Hl1].
    destruct (answer_at_lookup _ _ _ _ Hs1 Hl1 Ht1) as (ls2 & s2 & Hls2 & Hnc2 & Hr).
    exists (ls1 ++ ls2), s2. split_and!; [by eapply steps_app|by apply list.Forall_app|done].
  - exists [], s. split_and!; [done|by constructor|]. unfold task_at. rewrite Ht. eauto.
Qed.

(** ** A dropped owner wedges its key *)

(** Every in-flight key has its own watch channel, not yet completed. *)
Record watched (s : Service) : Prop := mk_watched {
  watched_pending : ∀ k busy, in_flight (request_cache s) !! k = Some busy →
    watches s !! in_flight_completed busy = Some false;
  watched_inj : ∀ k1 k2 b1 b2, in_flight (request_cache s) !! k1 = Some b1 →
    in_flight (request_cache s) !! k2 = Some b2 →
    in_flight_completed b1 = in_flight_completed b2 → k1 = k2;
}.

Lemma watched_step l s s' : step l s = Some s' → safe s → watched s → watched s'.
Proof.
  intros Hstep%step_inv Hsafe [Hp Hi].
  step_cases Hstep;
    try by split.
  - unfold step_lookup; cbn.
    pose proof (lookup_section_spec (request_cache s) k (operation_fingerprint op)
                  (fresh (dom (watches s)))) as Hspec.
    destruct (lookup_section _ _ _ _) as [[r|w|] c']; [by subst c'; split|by destruct Hspec as [-> _]; split|].
    destruct Hspec as (Hent & Hfly & ->). set (w := fresh (dom (watches s))).
    assert (Hfresh : watches s !! w = None) by (apply not_elem_of_dom, is_fresh).
    split; cbn.
    + intros k' busy. rewrite lookup_insert_Some. intros [[<- <-]|[Hne Hk']]; cbn; [by rewrite lookup_insert_eq|].
      apply Hp in Hk'. rewrite lookup_insert_ne; [done|congruence].
    + intros k1 k2 b1 b2. rewrite !lookup_insert_Some.
      intros [[<- <-]|[Hne1 H1]] [[<- <-]|[Hne2 H2]] Heq; [done| | |by eapply Hi]; cbn in Heq.
      * apply Hp in H2. congruence.
      * apply Hp in H1. congruence.
  - unfold step_send; cbn. destruct acc; by split.
  - unfold step_finish in Hf; cbn in Hf.
    destruct (finish_section_spec (request_cache s) k (operation_fingerprint op) r (safe_cache _ Hsafe))
      as (c' & Hfs & _ & Hfly & _).
    rewrite Hfs in Hf. simplify_eq. split; cbn; rewrite Hfly.
    + intros k' busy. rewrite lookup_delete_Some. intros [Hne Hk']. pose proof (Hp _ _ Hk') as Hk'w.
      destruct (in_flight (request_cache s) !! k) as [b0|] eqn:Hb0; cbn; [|done].
      rewrite lookup_insert_ne; [done|]. intros Heq. by apply Hne, (Hi _ _ b0 busy).
    + intros k1 k2 b1 b2. rewrite !lookup_delete_Some. intros [_ ?] [_ ?]. by eapply Hi.
Qed.

Lemma new_service_watched : watched new_service.
Proof. split; cbn; intros *; by rewrite lookup_empty. Qed.

Lemma reachable_watched s : reachable any_label new_service s → watched s.
Proof.
  induction 1; [apply new_service_watched|].
  eapply watched_step; [done| |done]. by eapply reachable_safe; [apply new_service_safe|].
Qed.

(** The key is marked in flight, but no task is working on it. *)
Definition wedged (k : RequestKey) (busy : InFlightRequest) (s : Service) : Prop :=
  in_flight (request_cache s) !! k = Some busy ∧ (∀ t, ¬ owns s t k).

Lemma wedged_step l s s' k busy :
  step l s = Some s' → safe s → wedged k busy s → wedged k busy s' ∧ sent_for k s' = sent_for k s.
Proof.
  intros Hstep%step_inv Hsafe [Hk Hno].
  destruct Hstep as [t key op Ht|t k' op Ht|t k' op w Ht Hw|t k' op Ht|t k' op id acc Ht|t k' op id r Ht|t k' op r s' Ht Hf|t task Ht Hd].
  - split; [split; [done|]|done]. intros u. by rewrite owns_arrive.
  - unfold step_lookup; cbn.
    pose proof (lookup_section_spec (request_cache s) k' (operation_fingerprint op)
                  (fresh (dom (watches s)))) as Hspec.
    destruct (lookup_section _ _ _ _) as [[r|w|] c']; (split; [|done]).
    + subst c'. split; [done|]. intros u. rewrite owns_set_pc by done. naive_solver.
    + destruct Hspec as [-> _]. split; [done|]. intros u. rewrite owns_set_pc by done. naive_solver.
    + destruct Hspec as (_ & Hfly & ->). assert (k' ≠ k) by congruence.
      split; [cbn; by rewrite lookup_insert_ne|]. intros u. rewrite owns_set_pc by done. naive_solver.
  - split; [split; [done|]|done]. intros u. rewrite owns_set_pc by done. naive_solver.
  - assert (k' ≠ k) by (intros ->; apply (Hno t); eexists; eauto).
    split; [split; [done|]|done]. intros u. unfold step_allocate. cbn. rewrite owns_set_pc by done. naive_solver.
  - assert (k' ≠ k) by (intros ->; apply (Hno t); eexists; eauto).
    unfold step_send; cbn. destruct acc; (split; [split; [done|]|]);
      try (intros u; rewrite owns_set_pc by done; naive_solver); [|done].
    unfold sent_for; cbn. rewrite list.filter_app, filter_cons_False by done. by rewrite filter_nil, app_nil_r.
  - assert (k' ≠ k) by (intros ->; apply (Hno t); eexists; eauto).
    split; [split; [done|]|done]. intros u. rewrite owns_set_pc by done. naive_solver.
  - assert (k' ≠ k) by (intros ->; apply (Hno t); eexists; eauto).
    unfold step_finish in Hf; cbn in Hf.
    destruct (finish_section_spec (request_cache s) k' (operation_fingerprint op) r (safe_cache _ Hsafe))
      as (c' & Hfs & _ & Hfly & _).
    rewrite Hfs in Hf. simplify_eq. split; [|done]. split; cbn; [by rewrite Hfly, lookup_delete_ne|].
    intros u. rewrite owns_set_pc by done. naive_solver.
  - split; [split; [done|]|done]. intros u. rewrite owns_cancel. naive_solver.
Qed.

(** An in-flight entry carries the fingerprint of its owner's operation. *)
Definition flown (s : Service) : Prop :=
  ∀ t task busy, tasks s !! t = Some task → owning (task_pc task) = true →
    in_flight (request_cache s) !! task_key task = Some busy →
    in_flight_fingerprint busy = operation_fingerprint (task_op task).

(** A task that owned its key already, or does not now, goes on. *)
Lemma flown_set_pc c ws n ss s t task pc :
  flown s → tasks s !! t = Some task → in_flight c = in_flight (request_cache s) →
  (owning pc = true → owning (task_pc task) = true) →
  flown (mk_Service c ws n (set_pc s t task pc) ss).
Proof.
  intros Hf Ht Hc Hpc u task' busy. cbn. unfold set_pc. rewrite Hc, lookup_insert_Some.
  intros [[<- <-]|[_ Hu]]; cbn; [intros ?%Hpc; by apply (Hf t)|by apply (Hf u)].
Qed.

Lemma flown_step l s s' : step l s = Some s' → safe s → flown s → flown s'.
Proof.
  intros Hstep%step_inv Hsafe Hf0. step_cases Hstep; try (by eapply flown_set_pc).
  - intros u task busy. cbn. rewrite lookup_insert_Some. intros [[<- <-]|[_ Hu]]; [done|by apply (Hf0 u)].
  - unfold step_lookup; cbn.
    pose proof (lookup_section_spec (request_cache s) k (operation_fingerprint op)
                  (fresh (dom (watches s)))) as Hspec.
    destruct (lookup_section _ _ _ _) as [[r|w|] c'].
    + subst c'. by eapply flown_set_pc.
    + destruct Hspec as [-> _]. by eapply flown_set_pc.
    + destruct Hspec as (_ & Hfly & ->). intros u task busy. cbn. unfold set_pc. rewrite !lookup_insert_Some.
      intros [[<- <-]|[Hne Hu]] Hown; cbn.
      * intros [[_ <-]|[? _]]; done.
      * intros [[Hk _]|[_ Hb]]; [|by apply (Hf0 u)].
        destruct (safe_owner _ Hsafe u (task_key task)) as [? ?]; [by exists task|congruence].
  - unfold step_send; cbn. destruct acc; by eapply flown_set_pc.
  - unfold step_finish in Hf; cbn in Hf.
    destruct (finish_section_spec (request_cache s) k (operation_fingerprint op) r (safe_cache _ Hsafe))
      as (c' & Hfs & _ & Hfly & _).
    rewrite Hfs in Hf. simplify_eq. intros u task busy. cbn. unfold set_pc. rewrite Hfly, lookup_insert_Some.
    intros [[<- <-]|[_ Hu]]; [done|]. rewrite lookup_delete_Some. intros ? [_ ?]. by apply (Hf0 u).
  - intros u task' busy. cbn. rewrite lookup_delete_Some. intros [_ Hu]. by apply (Hf0 u).
Qed.

Lemma reachable_flown s : reachable any_label new_service s → flown s.
Proof.
  induction 1; [by intros t task busy; cbn; rewrite lookup_empty|].
  eapply flown_step; [done| |done]. by eapply reachable_safe; [apply new_service_safe|].
Qed.

(** C36: When the task that owns a key is dropped, the key stays in flight for ever: no later
    request under it is executed; a request whose operation has the fingerprint of the dropped
    one's waits for ever and any other is refused. *)
Theorem cancelled_owner_wedges_key s t k s1 s2 :
  reachable any_label new_service s → owns s t k → step (Cancel t) s = Some s1 →
  reachable any_label s1 s2 →
  ∃ busy owner, in_flight (request_cache s2) !! k = Some busy ∧
    tasks s !! t = Some owner ∧
    in_flight_fingerprint busy = operation_fingerprint (task_op owner) ∧
    entries (request_cache s2) !! k = None ∧
    sent_for k s2 = sent_for k s ∧
    (∀ u op, tasks s2 !! u = Some (mk_Task k op (AtWait (in_flight_completed busy))) →
       step (Wake u) s2 = None) ∧
    (∀ u op, tasks s2 !! u = Some (mk_Task k op AtLookup) →
       ∃ s3, step (Lookup u) s2 = Some s3 ∧
         task_at s3 u = Some
           (if (operation_fingerprint (task_op owner) =? operation_fingerprint op)%N
            then AtWait (in_flight_completed busy)
            else AtDone (Err (already_exists "request_id is in use for a different operation")))).
Proof.
  intros Hr Ho Hc Hr2.
  assert (Hs : safe s) by (by eapply reachable_safe; [apply new_service_safe|]).
  destruct (safe_owner _ Hs _ _ Ho) as [busy Hb].
  assert (Hs1 : safe s1 ∧ watched s1).
  { split; [by eapply safe_step|]. eapply watched_step; [done..|]. by apply reachable_watched. }
  assert (Hw1 : wedged k busy s1 ∧ sent_for k s1 = sent_for k s).
  { apply step_inv in Hc. inversion Hc; subst. split; [split; [done|]|done].
    intros u. rewrite owns_cancel. intros [Hne Hu]. by apply Hne, (safe_unique _ Hs _ _ k). }
  assert (Hw2 : safe s2 ∧ watched s2 ∧ wedged k busy s2 ∧ sent_for k s2 = sent_for k s).
  { induction Hr2 as [|s2 l s3 _ IH _ Hstep]; [naive_solver|].
    destruct IH as (? & ? & Hwd & <-). destruct (wedged_step _ _ _ _ _ Hstep ltac:(done) Hwd) as [? <-].
    split_and!; eauto using safe_step, watched_step. }
  destruct Hw2 as (Hs2 & [Hp _] & [Hb2 _] & Hsent). destruct Ho as (owner & Hown & Hkey & Hpc). exists busy, owner.
  assert (Hfp : in_flight_fingerprint busy = operation_fingerprint (task_op owner))
    by (apply (reachable_flown _ Hr t); [done|done|by rewrite Hkey]).
  assert (Hent : entries (request_cache s2) !! k = None) by (apply (safe_disjoint _ Hs2); eauto).
  split_and!; [done..| |].
  - intros u op Hu. cbn. by rewrite Hu, (Hp _ _ Hb2).
  - intros u op Hu. cbn. rewrite Hu. eexists; split; [done|].
    unfold step_lookup, lookup_section; cbn. rewrite Hent, Hb2, Hfp.
    destruct (_ =? _)%N; unfold task_at; cbn; unfold set_pc; by rewrite lookup_insert_eq.
Qed.

(** ** [execute] in program order *)

(** What one call of [execute] does to the rest of the service. *)
Record executed (s s' : Service) (t : nat) (k : RequestKey) (op : collider.AuthorityOperation)
    (new : list collider.AuthorityCommand)
    (r : result collider.AuthorityResult GrpcStatus) : Prop := mk_executed {
  executed_run : ∃ ls, steps ls s = Some s' ∧ Forall no_cancel ls;
  executed_task : tasks s' = <[t := mk_Task k op (AtDone r)]> (tasks s);
  executed_sent : sent s' = sent s ++ ((λ c, (k, c)) <$> new);
}.

Lemma execute_answer authority s t k op r c :
  tasks s !! t = None →
  (∀ w, lookup_section (request_cache s) k (operation_fingerprint op) w = (Answer r, c)) →
  ∃ s', execute authority s t k op = Some (s', r) ∧ executed s s' t k op [] r ∧ request_cache s' = c.
Proof.
  intros Ht Hl. unfold execute. cbn [step]. rewrite Ht. cbn [mbind option_bind tasks].
  rewrite lookup_insert_eq. cbn [mbind option_bind]. unfold step_lookup; cbn. rewrite Hl. cbn.
  unfold set_pc; cbn. rewrite insert_insert_eq, lookup_insert_eq. cbn.
  eexists. split_and!; [done| |done]. split; cbn; [|done|by rewrite app_nil_r].
  exists [Arrive t k op; Lookup t]. split; [|by repeat constructor]. cbn. rewrite Ht. cbn.
  rewrite lookup_insert_eq. unfold step_lookup; cbn. rewrite Hl. unfold set_pc; cbn.
  by rewrite insert_insert_eq.
Qed.

Lemma execute_own authority s t k op :
  safe s → tasks s !! t = None →
  entries (request_cache s) !! k = None → in_flight (request_cache s) !! k = None →
  let id := N.max (next_authority_request_id s) 1 in
  let cmd := collider.mk_AuthorityCommand id op in
  let r := settle id (authority cmd) in
  ∃ s', execute authority s t k op = Some (s', r) ∧
    executed s s' t k op (match authority cmd with NotSent => [] | _ => [cmd] end) r ∧
    safe s' ∧ in_flight (request_cache s') = in_flight (request_cache s) ∧
    match r with
    | Ok a => entries (request_cache s') !! k = Some (mk_CachedResult (operation_fingerprint op) a)
    | Err _ => entries (request_cache s') = entries (request_cache s)
    end ∧
    match r with
    | Ok a => cache_insert (request_cache s) k (mk_CachedResult (operation_fingerprint op) a) =
                Some (request_cache s')
    | Err _ => request_cache s' = request_cache s
    end.
Proof.
  intros Hsafe Ht Hent Hfly id cmd r.
  set (labels := [Arrive t k op; Lookup t; Allocate t] ++
    match authority cmd with NotSent => [Send t false] | reply => [Send t true; Receive t reply] end).
  assert (Hrun : ∃ s3, steps labels s = Some s3 ∧
    tasks s3 = <[t := mk_Task k op (AtFinish r)]> (tasks s) ∧
    sent s3 = sent s ++ ((λ c, (k, c)) <$> match authority cmd with NotSent => [] | _ => [cmd] end) ∧
    entries (request_cache s3) = entries (request_cache s) ∧
    order (request_cache s3) = order (request_cache s) ∧
    delete k (in_flight (request_cache s3)) = in_flight (request_cache s) ∧
    execute authority s t k op =
      match step (Finish t) s3 with Some s4 => Some (s4, r) | None => None end).
  { unfold labels, execute. set (fin := step (Finish t)). clearbody fin. cbn [step steps app]. rewrite Ht. cbn [mbind option_bind tasks].
    rewrite lookup_insert_eq. cbn [mbind option_bind]. unfold step_lookup, lookup_section; cbn.
    rewrite Hent, Hfly. cbn. unfold set_pc; cbn. rewrite insert_insert_eq, lookup_insert_eq. cbn.
    fold id. fold cmd.
    destruct (authority cmd) as [| | |resp] eqn:Hauth; unfold r; rewrite ?Hauth;
      do 5 (cbn; unfold set_pc; rewrite ?lookup_insert_eq, ?insert_insert_eq); cbn;
      eexists; (split_and!; [reflexivity|..]); cbn;
      rewrite ?insert_insert_eq, ?app_nil_r, ?delete_insert_id by done; reflexivity. }
  destruct Hrun as (s3 & Hls & Htasks & Hsent & He & Hord & Hf & Hex).
  assert (Hsafe3 : safe s3) by (by eapply safe_steps).
  assert (Ht3 : tasks s3 !! t = Some (mk_Task k op (AtFinish r))) by by rewrite Htasks, lookup_insert_eq.
  cbn [step] in Hex. rewrite Ht3 in Hex.
  destruct (finish_section_spec (request_cache s3) k (operation_fingerprint op) r (safe_cache _ Hsafe3))
    as (c' & Hfs & Hwf' & Hfly' & Hent').
  assert (Hstep : step (Finish t) s3 = step_finish s3 t (mk_Task k op (AtFinish r)) r) by (cbn; by rewrite Ht3).
  unfold step_finish in Hex, Hstep; cbn [task_key task_op] in Hex, Hstep. rewrite Hfs in Hex, Hstep.
  eexists. split_and!; [exact Hex| |by eapply safe_step| | |].
  - split; cbn; [|unfold set_pc; cbn; by rewrite Htasks, insert_insert_eq|done].
    exists (labels ++ [Finish t]). split.
    + eapply steps_app; [exact Hls|]. cbn [steps]. by rewrite Hstep.
    + unfold labels. destruct (authority cmd); by repeat constructor.
  - cbn. by rewrite Hfly'.
  - cbn. destruct r; [by destruct Hent'|by rewrite Hent'].
  - cbn. assert (Hc : mk_Cache (entries (request_cache s3)) (delete k (in_flight (request_cache s3)))
      (order (request_cache s3)) = request_cache s) by (rewrite He, Hf, Hord; by destruct (request_cache s)).
    destruct r; [rewrite Hc in Hent'; by destruct Hent' as [_ <-]|].
    unfold finish_section in Hfs. cbn in Hfs. rewrite Hc in Hfs. by injection Hfs as <-.
Qed.

(** C19: Every branch of [execute] for a caller that nobody interferes with: replay, the two
    conflicts, waiting for the owner, and the fresh execution with each outcome of the
    authority, spelled out: only a reply under the command's own id is answered and cached,
    under the fingerprint of the operation; a stopped authority, a timeout and a reply under
    another id are answered with their errors and leave the cache as it was. *)
Theorem execute_branches authority s t k op :
  reachable any_label new_service s → tasks s !! t = None →
  let fp := operation_fingerprint op in
  let id := N.max (next_authority_request_id s) 1 in
  let cmd := collider.mk_AuthorityCommand id op in
  match entries (request_cache s) !! k, in_flight (request_cache s) !! k with
  | Some c, _ =>
      let r := if (cached_fingerprint c =? fp)%N then Ok (cached_result c)
               else Err (already_exists "request_id was already used for a different operation") in
      ∃ s', execute authority s t k op = Some (s', r) ∧ executed s s' t k op [] r ∧
        request_cache s' = request_cache s
  | None, Some busy =>
      if (in_flight_fingerprint busy =? fp)%N
      then execute authority s t k op = None ∧
        ∃ s', steps [Arrive t k op; Lookup t] s = Some s' ∧
          task_at s' t = Some (AtWait (in_flight_completed busy)) ∧
          request_cache s' = request_cache s ∧ sent s' = sent s
      else let r := Err (already_exists "request_id is in use for a different operation") in
        ∃ s', execute authority s t k op = Some (s', r) ∧ executed s s' t k op [] r ∧
          request_cache s' = request_cache s
  | None, None =>
      let fails e := ∃ s', execute authority s t k op = Some (s', Err e) ∧
        executed s s' t k op (match authority cmd with NotSent => [] | _ => [cmd] end) (Err e) ∧
        request_cache s' = request_cache s in
      match authority cmd with
      | NotSent | Dropped => fails (unavailable "signaling authority stopped")
      | TimedOut => fails (deadline_exceeded "signaling authority timed out")
      | Replied response =>
          if (collider.ar_request_id response =? id)%N
          then let a := collider.ar_result response in
            ∃ s', execute authority s t k op = Some (s', Ok a) ∧ executed s s' t k op [cmd] (Ok a) ∧
              cache_insert (request_cache s) k (mk_CachedResult fp a) = Some (request_cache s') ∧
              entries (request_cache s') !! k = Some (mk_CachedResult fp a)
          else fails (internal "authority response correlation failed")
      end
  end.
Proof.
  intros Hr%(reachable_safe _ _ _ new_service_safe) Ht fp id cmd.
  destruct (entries (request_cache s) !! k) as [c|] eqn:Hent.
  { apply execute_answer; [done|]. intros w. unfold lookup_section. rewrite Hent. fold fp. by destruct (_ =? fp)%N. }
  destruct (in_flight (request_cache s) !! k) as [busy|] eqn:Hfly.
  - destruct (in_flight_fingerprint busy =? fp)%N eqn:Hfp.
    + unfold execute. cbn [step steps]. rewrite Ht. cbn [mbind option_bind tasks].
      rewrite lookup_insert_eq. cbn [mbind option_bind]. unfold step_lookup, lookup_section; cbn.
      rewrite Hent, Hfly. fold fp. rewrite Hfp. cbn. unfold set_pc, task_at; cbn. rewrite lookup_insert_eq.
      split; [done|]. eexists. split_and!; [reflexivity| |done|done]. cbn. by rewrite lookup_insert_eq.
    + apply execute_answer; [done|]. intros w. unfold lookup_section. rewrite Hent, Hfly. fold fp. by rewrite Hfp.
  - destruct (execute_own authority s t k op Hr Ht Hent Hfly) as (s' & He & Hx & _ & _ & Hc & Hins).
    fold id cmd in He, Hx, Hc, Hins.
    destruct (authority cmd) as [| | |response]; cbn [settle] in *; [by exists s'..|].
    destruct (_ =? id)%N; by exists s'.
Qed.

(** Once [execute] has succeeded for a request id, a repetition of the same operation under that
    id gets the same answer, whatever the authority would now say, and hands nothing more to it.
    *)
Theorem execute_idempotent auth1 auth2 s t1 t2 k op1 op2 a s1 :
  reachable any_label new_service s → tasks s !! t1 = None → t1 ≠ t2 → tasks s !! t2 = None →
  same_operation op1 op2 → execute auth1 s t1 k op1 = Some (s1, Ok a) →
  ∃ s2, execute auth2 s1 t2 k op2 = Some (s2, Ok a) ∧
    sent s2 = sent s1 ∧ request_cache s2 = request_cache s1.
Proof.
  intros Hr%(reachable_safe _ _ _ new_service_safe) Ht1 Hne Ht2 Hsame He.
  assert (Hc : entries (request_cache s1) !! k = Some (mk_CachedResult (operation_fingerprint op1) a)
               ∧ tasks s1 = <[t1 := mk_Task k op1 (AtDone (Ok a))]> (tasks s)).
  { destruct (entries (request_cache s) !! k) as [c|] eqn:Hent; [|destruct (in_flight (request_cache s) !! k) as [busy|] eqn:Hfly].
    - destruct (execute_answer auth1 s t1 k op1
        (if (cached_fingerprint c =? operation_fingerprint op1)%N then Ok (cached_result c)
         else Err (already_exists "request_id was already used for a different operation")) (request_cache s) Ht1)
        as (s' & He' & Hx & Hc').
      { intros w. unfold lookup_section. rewrite Hent. by destruct (_ =? _)%N. }
      rewrite He' in He. destruct (_ =? _)%N eqn:Hfp; simplify_eq. bool_to_prop.
      split; [|apply (executed_task _ _ _ _ _ _ _ Hx)]. rewrite Hc', Hent, <- Hfp. by destruct c.
    - unfold execute in He. cbn [step] in He. rewrite Ht1 in He. cbn [mbind option_bind tasks] in He.
      rewrite lookup_insert_eq in He. cbn [mbind option_bind] in He. unfold step_lookup, lookup_section in He; cbn in He.
      rewrite Hent, Hfly in He. destruct (_ =? _)%N; cbn in He; unfold set_pc in He; cbn in He;
        rewrite insert_insert_eq, lookup_insert_eq in He; done.
    - destruct (execute_own auth1 s t1 k op1 Hr Ht1 Hent Hfly) as (s' & He' & Hx & _ & _ & Hc & _).
      rewrite He' in He. injection He as -> Hs. rewrite Hs in Hc, Hx.
      split; [done|apply (executed_task _ _ _ _ _ _ _ Hx)]. }
  destruct Hc as [Hc Htasks].
  destruct (execute_answer auth2 s1 t2 k op2 (Ok a) (request_cache s1)) as (s2 & He2 & Hx & Hc2).
  - by rewrite Htasks, lookup_insert_ne.
  - intros w. unfold lookup_section. rewrite Hc. cbn.
    by rewrite (same_operation_fingerprint _ _ Hsame), N.eqb_refl.
  - exists s2. split_and!; [done| |done]. rewrite (executed_sent _ _ _ _ _ _ _ Hx). by rewrite app_nil_r.
Qed.

(** Runs are reachable. *)
Lemma steps_reachable allowed ls s0 s s' :
  reachable allowed s0 s → steps ls s = Some s' → Forall allowed ls → reachable allowed s0 s'.
Proof.
  revert s. induction ls as [|l ls IH]; intros s Hr; cbn; [by intros [= <-]|].
  destruct (step l s) as [s1|] eqn:Hl; [|done]. intros Hs [? ?]%list.Forall_cons.
  eapply IH; [|done..]. by eapply reachable_step.
Qed.
End spec.

(** ** Witnesses *)

Definition run (ls : list Label) : Service := opt_default new_service (steps ls new_service).

(** The labels are enabled one after the other. *)
Definition runs (ls : list Label) : bool :=
  match steps ls new_service with Some _ => true | None => false end.

Lemma runs_steps ls : runs ls = true → steps ls new_service = Some (run ls).
Proof. unfold runs, run. by destruct (steps ls new_service). Qed.

Lemma run_reachable allowed ls : runs ls = true → Forall allowed ls → reachable allowed new_service (run ls).
Proof. intros Hs%runs_steps Hall. eapply steps_reachable; [constructor|done..]. Qed.

Lemma steps_split ls1 ls2 s s2 :
  steps (ls1 ++ ls2) s = Some s2 → ∃ s1, steps ls1 s = Some s1 ∧ steps ls2 s1 = Some s2.
Proof.
  revert s. induction ls1 as [|l ls1 IH]; intros s; cbn; [eauto|].
  destruct (step l s); [apply IH|done].
Qed.

Lemma run_steps ls1 ls2 : runs (ls1 ++ ls2) = true → steps ls2 (run ls1) = Some (run (ls1 ++ ls2)).
Proof.
  intros (s1 & H1 & H2)%runs_steps%steps_split. unfold run at 1. by rewrite H1.
Qed.

Lemma owns_intro s t k :
  (λ task, (task_key task, owning (task_pc task))) <$> tasks s !! t = Some (k, true) → owns s t k.
Proof. intros (task & Ht & [= -> Ho])%fmap_Some. by exists task. Qed.

Definition sample_key : RequestKey := mk_RequestKey "apprtc-1" 7.
Definition sample_op (token : string) (now : Instant) : collider.AuthorityOperation :=
  collider.OpAdmitV2 (sample_room Byte.x2a) 101 token now.
Definition sample_result : collider.AuthorityResult :=
  collider.ResAdmittedV2 collider.P2p 0 "t0" (Some true).
Definition sample_reply (c : collider.AuthorityCommand) : Reply :=
  Replied (collider.mk_AuthorityResponse (collider.ac_request_id c) sample_result).

(** One task from arrival to its answer. *)
Definition sample_ls (t : nat) : list Label :=
  [Arrive t sample_key (sample_op "t0" 5); Lookup t; Allocate t; Send t true;
   Receive t (Replied (collider.mk_AuthorityResponse 1 sample_result)); Finish t].

Lemma fingerprint_exact_witness :
  operation_fingerprint (sample_op "a" 1) = operation_fingerprint (sample_op "b" 2) ∧
  ¬ operation_fingerprint (sample_op "a" 1) = operation_fingerprint collider.OpStatus.
Proof.
  split.
  - apply (proj1 (fingerprint_exact (laws := sample_room_id_laws) (sample_op "a" 1) (sample_op "b" 2))).
    by split.
  - intros Heq. by apply (proj2 (fingerprint_exact (laws := sample_room_id_laws) (sample_op "a" 1)
      collider.OpStatus) sample_hasher_inj) in Heq.
Defined.

Definition two_tasks : list Label :=
  [Arrive 0 sample_key (sample_op "a" 1); Lookup 0; Arrive 1 sample_key (sample_op "b" 2); Lookup 1].

Lemma single_flight_witness :
  let s := run two_tasks in
  owns s 0 sample_key ∧ entries (request_cache s) !! sample_key = None ∧ ¬ owns s 1 sample_key.
Proof.
  intros s.
  assert (Hr : reachable any_label new_service s).
  { apply run_reachable; [vm_compute; reflexivity|by repeat constructor]. }
  destruct (single_flight s Hr) as (Huniq & Hent & _).
  assert (Ho : owns s 0 sample_key) by (apply owns_intro; vm_compute; reflexivity).
  split_and!; [exact Ho|exact (Hent _ _ Ho)|].
  intros H1. discriminate (Huniq _ _ _ Ho H1).
Defined.

Definition retry_ls : list Label := [Arrive 1 sample_key (sample_op "b" 9); Lookup 1].

Lemma cached_operation_not_resent_witness :
  sent_for sample_key (run (sample_ls 0 ++ retry_ls)) = sent_for sample_key (run (sample_ls 0)).
Proof.
  apply (cached_operation_not_resent (run (sample_ls 0)) retry_ls
    _ sample_key (mk_CachedResult (operation_fingerprint (sample_op "t0" 5)) sample_result)).
  - apply run_reachable; [vm_compute; reflexivity|by repeat constructor].
  - vm_compute. reflexivity.
  - apply run_steps. vm_compute. reflexivity.
  - repeat constructor; vm_compute; eauto.
Defined.

Lemma every_request_answerable_witness :
  ∃ ls s', steps ls (run two_tasks) = Some s' ∧
    Forall no_cancel ls ∧ ∃ r, task_at s' 1 = Some (AtDone r).
Proof.
  apply every_request_answerable.
  - apply run_reachable; [vm_compute; reflexivity|by repeat constructor].
  - assert (Hp : task_at (run two_tasks) 1 = Some (AtWait 0)) by (vm_compute; reflexivity).
    unfold task_at in Hp. apply fmap_Some in Hp as (task & Ht & _). exists task. exact Ht.
Defined.

Definition owner_ls : list Label := [Arrive 0 sample_key (sample_op "a" 1); Lookup 0].

Lemma cancelled_owner_wedges_key_witness :
  let s2 := run ((owner_ls ++ [Cancel 0]) ++ retry_ls) in
  task_at s2 1 = Some (AtWait 0) ∧ step (Wake 1) s2 = None.
Proof.
  intros s2. assert (Hp : task_at s2 1 = Some (AtWait 0)) by (vm_compute; reflexivity).
  split; [exact Hp|].
  assert (Hc : step (Cancel 0) (run owner_ls) = Some (run (owner_ls ++ [Cancel 0]))).
  { assert (H : steps [Cancel 0] (run owner_ls) = Some (run (owner_ls ++ [Cancel 0])))
      by (apply run_steps; vm_compute; reflexivity).
    cbn [steps] in H. destruct (step (Cancel 0) (run owner_ls)); exact H. }
  assert (Hr2 : reachable any_label (run (owner_ls ++ [Cancel 0])) s2).
  { apply (steps_reachable any_label retry_ls (run (owner_ls ++ [Cancel 0])) (run (owner_ls ++ [Cancel 0])));
      [constructor|apply run_steps; vm_compute; reflexivity|by repeat constructor]. }
  destruct (cancelled_owner_wedges_key (run owner_ls) 0 sample_key
    (run (owner_ls ++ [Cancel 0])) s2) as (busy & owner & Hb & _ & _ & _ & _ & Hw & _).
  - apply run_reachable; [vm_compute; reflexivity|by repeat constructor].
  - apply owns_intro. vm_compute. reflexivity.
  - exact Hc.
  - exact Hr2.
  - assert (Hbusy : in_flight (request_cache s2) !! sample_key =
      Some (mk_InFlight (operation_fingerprint (sample_op "a" 1)) 0)) by (vm_compute; reflexivity).
    rewrite Hbusy in Hb. injection Hb as <-.
    assert (Hk : task_key <$> tasks s2 !! 1 = Some sample_key) by (vm_compute; reflexivity).
    apply fmap_Some in Hk as (task & Ht & Hk). unfold task_at in Hp. rewrite Ht in Hp.
    destruct task as [k op pc]. cbn in Hp, Hk. injection Hp as ->. subst k. exact (Hw 1 op Ht).
Defined.

Lemma execute_branches_witness :
  ∃ s', execute sample_reply new_service 0 sample_key (sample_op "a" 1) = Some (s', Ok sample_result).
Proof.
  destruct (execute_branches sample_reply new_service 0 sample_key (sample_op "a" 1)
    (reachable_refl _ _) eq_refl) as (s' & He & _).
  exists s'. exact He.
Defined.

Lemma execute_idempotent_witness :
  ∃ s1 s2, execute sample_reply new_service 0 sample_key (sample_op "a" 1) = Some (s1, Ok sample_result) ∧
    execute (λ _, TimedOut) s1 1 sample_key (sample_op "b" 2) = Some (s2, Ok sample_result) ∧
    sent s2 = sent s1.
Proof.
  assert (Hr : snd <$> execute sample_reply new_service 0 sample_key (sample_op "a" 1) =
    Some (Ok sample_result)) by (vm_compute; reflexivity).
  apply fmap_Some in Hr as ([s1 r] & He & Hr). cbn in Hr. subst r.
  destruct (execute_idempotent sample_reply (λ _, TimedOut) new_service 0 1 sample_key
    (sample_op "a" 1) (sample_op "b" 2) sample_result _ (reachable_refl _ _) eq_refl ltac:(done) eq_refl
    (conj eq_refl eq_refl) He) as (s2 & H2 & Hs & _).
  exists s1, s2. split_and!; [exact He|exact H2|exact Hs].
Defined.
