(* ===== verification/ExecuteRetries.v ===== *)
(** * Concurrent duplicates of a request ([src/src/grpc_server.rs], [execute])

    Requests under one key arrive while the first is being executed, before it and
    after it.  Once the owner has stored its answer, every one of them gets this
    answer, as long as fewer operations complete than the cache holds. *)

From S2P Require Import Prelude Wire Samples Fifo RequestCache Execute ExecuteLive ExecuteSpec.

#[local] Opaque capacity.

Section retries.
Context `{L : RoomIdLib, DefaultHasher}.
Abbreviation Op := collider.AuthorityOperation.

Definition is_finish (l : Label) : bool := match l with Finish _ => true | _ => false end.

(** How many operations complete along [ls]. *)
Definition completions (ls : list Label) : nat :=
  foldr (λ l n, if is_finish l then S n else n) 0%nat ls.

(** What a request for [op] gets while the answer [a] of [op0] is cached. *)
Definition duplicate_answer (op0 : Op) (a : collider.AuthorityResult) (op : Op)
  : result collider.AuthorityResult GrpcStatus :=
  if (operation_fingerprint op0 =? operation_fingerprint op)%N then Ok a
  else Err (already_exists "request_id was already used for a different operation").

(** The answer [a] of [op0] is cached under [k] and survives [n] more
    completions, and tasks outside [before] were answered with it. *)
Record kept (before : nat → Prop) (k : RequestKey) (op0 : Op) (a : collider.AuthorityResult)
    (n : nat) (s : Service) : Prop := mk_kept {
  kept_cached : entries (request_cache s) !! k = Some (mk_CachedResult (operation_fingerprint op0) a);
  kept_recent : ∃ m, recent m k (order (request_cache s)) ∧ (m + n < capacity)%nat;
  kept_answers : ∀ u op r, ¬ before u → tasks s !! u = Some (mk_Task k op (AtDone r)) →
    r = duplicate_answer op0 a op;
}.

Lemma kept_same before k op0 a n s s' :
  kept before k op0 a n s → request_cache s' = request_cache s →
  (∀ u op r, tasks s' !! u = Some (mk_Task k op (AtDone r)) →
    tasks s !! u = Some (mk_Task k op (AtDone r)) ∨ r = duplicate_answer op0 a op) →
  kept before k op0 a n s'.
Proof.
  intros [Hk Hr Ha] Hc Ht. split; rewrite ?Hc; [done..|].
  intros u op r Hu [Hold| ->]%Ht; [by eapply Ha|done].
Qed.

(** Changing one task's program counter, to an answer only if it is the cached
    one or the task's key is another. *)
Lemma set_pc_done s t task pc k (Q : Op → result collider.AuthorityResult GrpcStatus → Prop) :
  (∀ r, task_key task = k → pc = AtDone r → Q (task_op task) r) →
  ∀ u op r, set_pc s t task pc !! u = Some (mk_Task k op (AtDone r)) →
    tasks s !! u = Some (mk_Task k op (AtDone r)) ∨ Q op r.
Proof.
  intros HQ u op r. unfold set_pc. rewrite lookup_insert_Some. intros [[<- Heq]|[_ ?]]; [|by left].
  simplify_eq. right. by apply HQ.
Qed.

Lemma kept_lookup before k op0 a n s t k' op :
  kept before k op0 a n s → kept before k op0 a n (step_lookup s t (mk_Task k' op AtLookup)).
Proof.
  intros Hkept. unfold step_lookup; cbn.
  destruct (decide (k' = k)) as [->|Hne].
  - unfold lookup_section. rewrite (kept_cached _ _ _ _ _ _ Hkept). cbn [cached_fingerprint cached_result].
    destruct (_ =? _)%N eqn:Hfp; (eapply kept_same; [exact Hkept|done|]);
      (apply set_pc_done; intros r _ [= <-]; unfold duplicate_answer; cbn; by rewrite Hfp).
  - pose proof (lookup_section_spec (request_cache s) k' (operation_fingerprint op)
                  (fresh (dom (watches s)))) as Hspec.
    destruct (lookup_section _ _ _ _) as [[r|w|] c].
    + subst c. eapply kept_same; [exact Hkept|done|]. by apply set_pc_done.
    + destruct Hspec as [-> _]. eapply kept_same; [exact Hkept|done|]. by apply set_pc_done.
    + destruct Hspec as (_ & _ & ->). destruct Hkept as [Hk Hr Ha]. split; [done..|].
      intros u op' r Hu [Hold|[]]%(set_pc_done _ _ _ _ _ (λ _ _, False)); [by eapply Ha|done].
Qed.

Lemma kept_finish before k op0 a n s t k' op r s' :
  safe s → k' ≠ k → kept before k op0 a (S n) s →
  step_finish s t (mk_Task k' op (AtFinish r)) r = Some s' → kept before k op0 a n s'.
Proof.
  intros Hsafe Hne [Hk (m & Hr & Hm) Ha] Hf. unfold step_finish in Hf; cbn in Hf.
  destruct (finish_section_spec (request_cache s) k' (operation_fingerprint op) r (safe_cache _ Hsafe))
    as (c' & Hfs & _ & _ & Hent).
  rewrite Hfs in Hf. unfold finish_section in Hfs. simplify_eq.
  assert (Hans : ∀ u op' r', ¬ before u →
    set_pc s t (mk_Task k' op (AtFinish r)) (AtDone r) !! u = Some (mk_Task k op' (AtDone r')) →
    r' = duplicate_answer op0 a op').
  { intros u op' r' Hu [Hold|[]]%(set_pc_done _ _ _ _ _ (λ _ _, False)); [by eapply Ha|done]. }
  destruct r as [b|e]; cbn in Hent, Hfs.
  - destruct Hent as [_ Hins].
    destruct (cache_insert_recent _ _ _ _ k m (cache_wf_in_flight _ _ (safe_cache _ Hsafe)) Hins)
      as [Hk' Hr']; [done|done|lia|].
    split; cbn; [by rewrite Hk'|exists (S m); split; [done|lia]|done].
  - simplify_eq/=. split; cbn; [done|exists m; split; [done|lia]|done].
Qed.

Lemma kept_step before k op0 a n l s s' :
  step l s = Some s' → safe s → kept before k op0 a (completions [l] + n) s → kept before k op0 a n s'.
Proof.
  intros Hstep%step_inv Hsafe Hkept.
  assert (Hnot : ∀ t, ¬ owns s t k).
  { intros t Ho. apply (safe_owner _ Hsafe), (safe_disjoint _ Hsafe) in Ho.
    rewrite (kept_cached _ _ _ _ _ _ Hkept) in Ho. done. }
  destruct Hstep as [t key op Ht|t k' op Ht|t k' op w Ht Hw|t k' op Ht|t k' op id acc Ht|t k' op id r Ht|t k' op r s' Ht Hf|t task Ht Hd];
    cbn in Hkept.
  - eapply kept_same; [exact Hkept|done|]. cbn. intros u op' r. rewrite lookup_insert_Some.
    intros [[_ ?]|[_ ?]]; [by simplify_eq|by left].
  - by apply kept_lookup.
  - eapply kept_same; [exact Hkept|done|]. by apply set_pc_done.
  - eapply kept_same; [exact Hkept|done|]. by apply set_pc_done.
  - unfold step_send; cbn. destruct acc; (eapply kept_same; [exact Hkept|done|]); by apply set_pc_done.
  - eapply kept_same; [exact Hkept|done|]. by apply set_pc_done.
  - eapply kept_finish; [done| |exact Hkept|exact Hf]. intros ->. apply (Hnot t). by eexists.
  - eapply kept_same; [exact Hkept|done|]. cbn. intros u op' r. rewrite lookup_delete_Some.
    intros [_ ?]. by left.
Qed.

Lemma kept_steps before k op0 a ls n s s' :
  steps ls s = Some s' → safe s → kept before k op0 a (completions ls + n) s →
  safe s' ∧ kept before k op0 a n s' ∧ sent_for k s' = sent_for k s.
Proof.
  revert s. induction ls as [|l ls IH]; intros s; cbn [steps]; [by intros [= ->]|].
  destruct (step l s) as [s1|] eqn:Hl; [|done]. intros Hls Hs Hkept.
  replace (completions (l :: ls) + n)%nat with (completions [l] + (completions ls + n))%nat in Hkept
    by (unfold completions; cbn; destruct (is_finish l); cbn; lia).
  destruct (step_cached _ _ _ _ _ Hl Hs (kept_cached _ _ _ _ _ _ Hkept)) as [<- _].
  eauto using kept_step, safe_step.
Qed.

(** An answered task stays as it is. *)
Lemma done_step l s s' t r : step l s = Some s' → task_at s t = Some (AtDone r) → task_at s' t = Some (AtDone r).
Proof.
  unfold task_at. intros Hstep%step_inv Hr.
  assert (Hset : ∀ t' task pc, tasks s !! t' = Some task → (∀ r, task_pc task ≠ AtDone r) →
    task_pc <$> set_pc s t' task pc !! t = Some (AtDone r)).
  { intros t' task pc Ht Hd. unfold set_pc. rewrite lookup_insert_ne; [done|]. intros ->.
    rewrite Ht in Hr. cbn in Hr. simplify_eq. by eapply Hd. }
  destruct Hstep as [t' key op Ht|t' k' op Ht|t' k' op w Ht Hw|t' k' op Ht|t' k' op id acc Ht|t' k' op id r' Ht|t' k' op r' s' Ht Hf|t' task Ht Hd];
    try by eapply Hset.
  - cbn. rewrite lookup_insert_ne; [done|]. intros ->. by rewrite Ht in Hr.
  - unfold step_lookup. destruct (lookup_section _ _ _ _) as [[] ?]; by eapply Hset.
  - unfold step_send. destruct acc; by eapply Hset.
  - unfold step_finish in Hf. destruct (finish_section _ _ _ _) as [[]|]; simplify_eq. by eapply Hset.
  - cbn. rewrite lookup_delete_ne; [done|]. intros ->. rewrite Ht in Hr. cbn in Hr. simplify_eq. by eapply Hd.
Qed.

Lemma done_steps ls s s' t r :
  steps ls s = Some s' → task_at s t = Some (AtDone r) → task_at s' t = Some (AtDone r).
Proof.
  revert s. induction ls as [|l ls IH]; intros s; cbn; [by intros [= ->]|].
  destruct (step l s) as [s1|] eqn:Hl; [|done]. eauto using done_step.
Qed.

(** The state right after the owner of [k] stored its answer. *)
Lemma finish_kept s t k op a s1 :
  safe s → tasks s !! t = Some (mk_Task k op (AtFinish (Ok a))) → step (Finish t) s = Some s1 →
  task_at s1 t = Some (AtDone (Ok a)) ∧ sent s1 = sent s ∧
  ∀ n, (n < capacity)%nat →
    kept (λ u, u = t ∨ ∃ r, task_at s u = Some (AtDone r)) k op a n s1.
Proof.
  intros Hsafe Ht Hf. cbn in Hf. rewrite Ht in Hf. unfold step_finish in Hf; cbn -[finish_section] in Hf.
  assert (Ho : owns s t k) by by eexists.
  pose proof (safe_disjoint _ Hsafe _ (safe_owner _ Hsafe _ _ Ho)) as Hnone.
  destruct (finish_section_spec (request_cache s) k (operation_fingerprint op) (Ok a) (safe_cache _ Hsafe))
    as (c' & Hfs & _ & _ & Hk & Hins).
  rewrite Hfs in Hf. simplify_eq. unfold task_at; cbn. split_and!; [by unfold set_pc; rewrite lookup_insert_eq|done|].
  intros n Hn. split; cbn; [done| |].
  - exists 0%nat. split; [|done].
    eapply cache_insert_new_recent; [| |exact Hins]; [by apply cache_wf_in_flight, Hsafe|done].
  - intros u op' r Hu. unfold set_pc. rewrite lookup_insert_Some. intros [[<- _]|[_ Hold]].
    + destruct Hu. by left.
    + destruct Hu. right. exists r. by rewrite Hold.
Qed.

(** C2: Once the owner of a request id has stored its answer, and as long as fewer operations
    complete than the cache holds, nothing more is sent for that id, whatever is interleaved:
    every other task of the id that was not done before is answered with that answer (a conflict
    when it asks for something else), or can be, and no task owns the id again. *)
Theorem concurrent_duplicates_agree s t k op a s1 ls s2 :
  reachable any_label new_service s →
  tasks s !! t = Some (mk_Task k op (AtFinish (Ok a))) →
  step (Finish t) s = Some s1 → steps ls s1 = Some s2 → (completions ls < capacity)%nat →
  task_at s2 t = Some (AtDone (Ok a)) ∧
  sent_for k s2 = sent_for k s ∧
  ∀ u op' pc, u ≠ t → (∀ r, task_at s u ≠ Some (AtDone r)) →
    tasks s2 !! u = Some (mk_Task k op' pc) →
    match pc with
    | AtDone r => r = duplicate_answer op a op'
    | AtLookup => ∃ s3, step (Lookup u) s2 = Some s3 ∧
        task_at s3 u = Some (AtDone (duplicate_answer op a op'))
    | AtWait _ => ∃ s3, step (Wake u) s2 = Some s3 ∧ task_at s3 u = Some AtLookup
    | AtAllocate | AtSend _ | AtReply _ | AtFinish _ => False
    end.
Proof.
  intros Hr Ht Hf Hls Hlen.
  assert (Hs : safe s) by (eapply reachable_safe; [apply new_service_safe|done]).
  assert (Hr1 : reachable any_label new_service s1) by by eapply reachable_step.
  assert (Hw : waits s2) by (eapply reachable_waits, (steps_reachable any_label); [done..|by apply Forall_true]).
  destruct (finish_kept _ _ _ _ _ _ Hs Ht Hf) as (Hdone & Hsent & Hkept).
  destruct (kept_steps _ _ _ _ ls 0 _ _ Hls (safe_step _ _ _ Hf Hs) (Hkept (completions ls + 0)%nat ltac:(lia)))
    as (Hs2 & [Hk _ Ha] & Hsent2).
  split_and!; [by eapply done_steps|by rewrite Hsent2; unfold sent_for; rewrite Hsent|].
  intros u op' pc Hne Hnew Hu.
  assert (Hnot : ∀ u, ¬ owns s2 u k).
  { intros u' Ho. apply (safe_owner _ Hs2), (safe_disjoint _ Hs2) in Ho. congruence. }
  destruct pc as [|w| |id|id|r|r]; try (apply (Hnot u); by eexists).
  - cbn. rewrite Hu. eexists; split; [done|]. unfold step_lookup, lookup_section, duplicate_answer; cbn.
    rewrite Hk. cbn [cached_fingerprint cached_result].
    destruct (_ =? _)%N; unfold task_at; cbn; unfold set_pc; by rewrite lookup_insert_eq.
  - destruct (waits_task _ Hw _ _ _ Hu eq_refl) as [Htrue|(busy & Hb & _)].
    + cbn. rewrite Hu, Htrue. eexists; split; [done|]. unfold task_at; cbn. unfold set_pc.
      by rewrite lookup_insert_eq.
    + cbn in Hb. rewrite (safe_disjoint _ Hs2) in Hk; [done|by eexists].
  - eapply Ha; [|exact Hu]. intros [?|[r' Hr']]; [done|by eapply Hnew].
Qed.
End retries.

(** ** Witness *)

Section witness.
#[local] Existing Instance sample_room_id.
#[local] Existing Instance sample_enums.
#[local] Existing Instance sample_hasher.

(** A duplicate waits for the owner. *)
Definition duplicate_ls : list Label :=
  [Arrive 0 sample_key (sample_op "t0" 5); Lookup 0; Arrive 1 sample_key (sample_op "t1" 9); Lookup 1;
   Allocate 0; Send 0 true; Receive 0 (Replied (collider.mk_AuthorityResponse 1 sample_result))].

Lemma task_intro s t k pc fp :
  (λ task, (task_key task, task_pc task, operation_fingerprint (task_op task))) <$> tasks s !! t =
    Some (k, pc, fp) →
  ∃ op, tasks s !! t = Some (mk_Task k op pc) ∧ operation_fingerprint op = fp.
Proof. intros ([k' op pc'] & Ht & [= -> -> Ho])%fmap_Some. by exists op. Qed.

(** After the owner has finished it is woken, and a third request comes. *)
Definition after_ls : list Label := [Arrive 2 sample_key (sample_op "t2" 11); Wake 1; Lookup 1].

Lemma concurrent_duplicates_agree_witness :
  let s2 := run ((duplicate_ls ++ [Finish 0]) ++ after_ls) in
  task_at s2 1 = Some (AtDone (Ok sample_result)) ∧
  sent_for sample_key s2 = sent_for sample_key (run duplicate_ls) ∧
  ∃ s3, step (Lookup 2) s2 = Some s3 ∧ task_at s3 2 = Some (AtDone (Ok sample_result)).
Proof.
  intros s2.
  assert (Hf : step (Finish 0) (run duplicate_ls) = Some (run (duplicate_ls ++ [Finish 0]))).
  { assert (H : steps [Finish 0] (run duplicate_ls) = Some (run (duplicate_ls ++ [Finish 0])))
      by (apply run_steps; vm_compute; reflexivity).
    cbn [steps] in H. destruct (step (Finish 0) (run duplicate_ls)); exact H. }
  destruct (task_intro (run duplicate_ls) 0 sample_key (AtFinish (Ok sample_result))
    (operation_fingerprint (sample_op "t0" 5))) as (op0 & Ht & Hfp0); [vm_compute; reflexivity|].
  destruct (task_intro s2 2 sample_key AtLookup (operation_fingerprint (sample_op "t2" 11)))
    as (op2 & Ht2 & Hfp2); [vm_compute; reflexivity|].
  destruct (concurrent_duplicates_agree (run duplicate_ls) 0 sample_key op0 sample_result
    (run (duplicate_ls ++ [Finish 0])) after_ls s2) as (_ & Hsent & Hall).
  - apply run_reachable; [vm_compute; reflexivity|by repeat constructor].
  - exact Ht.
  - exact Hf.
  - apply run_steps. vm_compute. reflexivity.
  - pose proof capacity_eq. unfold REQUEST_CACHE_CAPACITY in *. cbn. lia.
  - split_and!; [vm_compute; reflexivity|exact Hsent|].
    destruct (Hall 2%nat op2 AtLookup) as (s3 & H3 & Hd); [done|intros r; vm_compute; discriminate|exact Ht2|].
    exists s3. split; [exact H3|]. rewrite Hd. unfold duplicate_answer. rewrite Hfp0, Hfp2. reflexivity.
Defined.
End witness.
