(* ===== verification/Driver.v ===== *)
(** * The signaling event loop ([src/src/signaling_server.rs])

    One task owns the [Collider]; it applies commands one at a time, fires the
    state machine's deadlines and routes its outputs to the sessions' channels.
    Sessions share their channels with the loop through a channel store. *)

From stdpp Require Import sorting.
From S2P Require Import Prelude Wire.

(** [SocketOutput] of [ws_server.rs]. *)
Inductive SocketOutput := SText (text : string) | SClose.

Definition COMMAND_CAPACITY : nat := 1024.

(** A one-shot reply channel. *)
Definition oneshot_id : Type := nat.

Section driver.
Context `{C : ColliderLib}.

(** [DriverCommand]. *)
Inductive DriverCommand :=
  | Connected (connection_id : ConnectionId) (output : chan_id)
  | Text (connection_id : ConnectionId) (text : string) (now : Instant)
  | Authority (command : collider.AuthorityCommand) (response : oneshot_id)
  | SfuConnected (input : ssfu.Input) (output : chan_id)
  | SfuInput (input : ssfu.Input)
  | Disconnected (connection_id : ConnectionId) (now : Instant).

(** The loop's variables, the channels its senders lead to, and the replies
    sent so far. *)
Record Driver := mk_Driver {
  d_collider : Collider;
  sockets : gmap ConnectionId chan_id;
  sfu_sessions : gmap N chan_id;
  pending_authority : gmap N oneshot_id;
  socket_store : gmap chan_id (channel SocketOutput);
  sfu_store : gmap chan_id (channel ssfu.Output);
  replies : list (oneshot_id * collider.AuthorityResponse);
}.

Definition with_collider (d : Driver) (c : Collider) : Driver :=
  mk_Driver c (sockets d) (sfu_sessions d) (pending_authority d) (socket_store d) (sfu_store d)
    (replies d).

Definition with_sockets (d : Driver) (m : gmap ConnectionId chan_id) : Driver :=
  mk_Driver (d_collider d) m (sfu_sessions d) (pending_authority d) (socket_store d) (sfu_store d)
    (replies d).

Definition with_sfu_sessions (d : Driver) (m : gmap N chan_id) : Driver :=
  mk_Driver (d_collider d) (sockets d) m (pending_authority d) (socket_store d) (sfu_store d)
    (replies d).

Definition with_pending (d : Driver) (m : gmap N oneshot_id) : Driver :=
  mk_Driver (d_collider d) (sockets d) (sfu_sessions d) m (socket_store d) (sfu_store d) (replies d).

Definition with_replies (d : Driver) (r : list (oneshot_id * collider.AuthorityResponse)) : Driver :=
  mk_Driver (d_collider d) (sockets d) (sfu_sessions d) (pending_authority d) (socket_store d)
    (sfu_store d) r.

(** [socket.try_send(out)] on the sender with id [ch].  A drain does not await
    anything, and the session at the other end of the channel reads between
    drains here; in the program it may also make room during one. *)
Definition send_socket (d : Driver) (ch : chan_id) (out : SocketOutput) : Driver * bool :=
  let '(store, r) := try_send (socket_store d) ch out in
  (mk_Driver (d_collider d) (sockets d) (sfu_sessions d) (pending_authority d) store (sfu_store d)
     (replies d), is_ok r).

Definition send_sfu (d : Driver) (ch : chan_id) (out : ssfu.Output) : Driver * bool :=
  let '(store, r) := try_send (sfu_store d) ch out in
  (mk_Driver (d_collider d) (sockets d) (sfu_sessions d) (pending_authority d) (socket_store d) store
     (replies d), is_ok r).

(** The connection an SFU input registers; [handle_command] ignores any other
    input in [SfuConnected]. *)
Definition register_connection_id (input : ssfu.Input) : option N :=
  match input with ssfu.InRegister connection_id _ _ _ => Some connection_id | _ => None end.

(** [sfu_output_connection_id]. *)
Definition sfu_output_connection_id (output : ssfu.Output) : N :=
  match output with
  | ssfu.OutRegistered connection_id _ _ _
  | ssfu.OutRegistrationError connection_id _ _
  | ssfu.OutCommand connection_id _
  | ssfu.OutEventAck connection_id _
  | ssfu.OutClose connection_id => connection_id
  end.

(** [handle_command]. *)
Definition handle_command (d : Driver) (command : DriverCommand) : Driver :=
  match command with
  | Connected connection_id output =>
      let d := with_sockets d (<[connection_id := output]> (sockets d)) in
      let '(c, r) := handle_read (BConnected connection_id) (d_collider d) in
      let d := with_collider d c in
      if is_ok r then d else with_sockets d (delete connection_id (sockets d))
  | Text connection_id text now =>
      let '(c, r) := handle_read (BText connection_id text now) (d_collider d) in
      let d := with_collider d c in
      if is_ok r then d
      else match sockets d !! connection_id with
           | Some socket => (send_socket (with_sockets d (delete connection_id (sockets d))) socket SClose).1
           | None => d
           end
  | Authority command response =>
      let request_id := collider.ac_request_id command in
      let d := with_pending d (<[request_id := response]> (pending_authority d)) in
      let '(c, r) := handle_write command (d_collider d) in
      let d := with_collider d c in
      if is_ok r then d
      else match pending_authority d !! request_id with
           | Some response =>
               with_replies (with_pending d (delete request_id (pending_authority d)))
                 (replies d ++ [(response, collider.mk_AuthorityResponse request_id
                                             (collider.ResError "INTERNAL"))])
           | None => d
           end
  | SfuConnected input output =>
      match register_connection_id input with
      | None => d
      | Some connection_id =>
          let d := with_sfu_sessions d (<[connection_id := output]> (sfu_sessions d)) in
          let '(c, r) := handle_sfu_input input (d_collider d) in
          let d := with_collider d c in
          if is_ok r then d else with_sfu_sessions d (delete connection_id (sfu_sessions d))
      end
  | SfuInput input => with_collider d (handle_sfu_input input (d_collider d)).1
  | Disconnected connection_id now =>
      let d := with_sockets d (delete connection_id (sockets d)) in
      with_collider d (handle_read (BDisconnected connection_id now) (d_collider d)).1
  end.

(** ** Draining the outputs *)

(** The body of the [while let] of [drain_outputs]: where one output goes, and
    the connection it adds to [disconnected]. *)
Definition route_output (d : Driver) (output : BrowserOutput) : Driver * list ConnectionId :=
  match output with
  | OText connection_id text =>
      match sockets d !! connection_id with
      | Some socket =>
          let '(d', sent) := send_socket d socket (SText text) in
          (d', if sent then [] else [connection_id])
      | None => (d, [])
      end
  | OClose connection_id =>
      let d' := match sockets d !! connection_id with
                | Some socket => (send_socket (with_sockets d (delete connection_id (sockets d))) socket SClose).1
                | None => d
                end in
      (d', [connection_id])
  | OSfu output =>
      let connection_id := sfu_output_connection_id output in
      match sfu_sessions d !! connection_id with
      | Some session =>
          let '(d', sent) := send_sfu d session output in
          (if sent then d' else with_sfu_sessions d' (delete connection_id (sfu_sessions d')), [])
      | None => (d, [])
      end
  end.

(** The [while let Some(output) = collider.poll_write()] loop; [None] when the
    fuel runs out first. *)
Fixpoint drain_writes (fuel : nat) (d : Driver) (disconnected : list ConnectionId)
  : option (Driver * list ConnectionId) :=
  match fuel with
  | O => None
  | S fuel' =>
      match poll_write (d_collider d) with
      | (Some output, c) =>
          let '(d', gone) := route_output (with_collider d c) output in
          drain_writes fuel' d' (disconnected ++ gone)
      | (None, c) => Some (with_collider d c, disconnected)
      end
  end.

(** [sort_unstable], then [Vec::dedup]. *)
Fixpoint dedup (l : list ConnectionId) : list ConnectionId :=
  match l with
  | x :: (y :: _) as l' => if (x =? y)%N then dedup l' else x :: dedup l'
  | _ => l
  end.

Definition sort_dedup (l : list ConnectionId) : list ConnectionId := dedup (merge_sort N.le l).

(** The [for connection_id in disconnected] loop; [clock] gives the reading of
    [Instant::now()] for each connection. *)
Definition disconnect_one (clock : ConnectionId → Instant) (d : Driver) (connection_id : ConnectionId)
  : Driver :=
  let d := with_sockets d (delete connection_id (sockets d)) in
  with_collider d (handle_read (BDisconnected connection_id (clock connection_id)) (d_collider d)).1.

(** [drain_outputs]. *)
Definition drain_outputs (fuel : nat) (clock : ConnectionId → Instant) (d : Driver) : option Driver :=
  match drain_writes fuel d [] with
  | Some (d', disconnected) => Some (foldl (disconnect_one clock) d' (sort_dedup disconnected))
  | None => None
  end.

(** [drain_authority_responses]. *)
Fixpoint drain_authority_responses (fuel : nat) (d : Driver) : option Driver :=
  match fuel with
  | O => None
  | S fuel' =>
      match poll_event (d_collider d) with
      | (Some response, c) =>
          let d := with_collider d c in
          let request_id := collider.ar_request_id response in
          match pending_authority d !! request_id with
          | Some sender =>
              drain_authority_responses fuel'
                (with_replies (with_pending d (delete request_id (pending_authority d)))
                   (replies d ++ [(sender, response)]))
          | None => drain_authority_responses fuel' d
          end
      | (None, c) => Some (with_collider d c)
      end
  end.

(** ** The loop *)

(** What ends one wait of [run]: the stop signal, the command channel (closed
    when [None]), or the state machine's deadline at a clock reading. *)
Inductive Wakeup :=
  | Stop
  | Command (command : option DriverCommand)
  | Deadline (now : Instant).

(** [drain_outputs] then [drain_authority_responses]. *)
Definition drain (fuel : nat) (clock : ConnectionId → Instant) (d : Driver) : option Driver :=
  match drain_outputs fuel clock d with
  | Some d' => drain_authority_responses fuel d'
  | None => None
  end.

(** One turn of the loop; the flag is false when it breaks.  A deadline can only
    fire when [poll_timeout] armed one. *)
Definition loop_body (fuel : nat) (clock : ConnectionId → Instant) (d : Driver) (w : Wakeup)
  : option (Driver * bool) :=
  match w with
  | Stop => Some (d, false)
  | Command None => Some (d, false)
  | Command (Some command) =>
      match drain fuel clock (handle_command d command) with
      | Some d' => Some (d', true)
      | None => None
      end
  | Deadline now =>
      match poll_timeout (d_collider d) with
      | None => Some (d, true)
      | Some _ =>
          let '(c, r) := handle_timeout now (d_collider d) in
          let d := with_collider d c in
          if is_ok r then
            match drain fuel clock d with Some d' => Some (d', true) | None => None end
          else Some (d, false)
      end
  end.

Fixpoint event_loop (fuel : nat) (clock : ConnectionId → Instant) (d : Driver) (ws : list Wakeup)
  : option Driver :=
  match ws with
  | [] => Some d
  | w :: ws' =>
      match loop_body fuel clock d w with
      | Some (d', true) => event_loop fuel clock d' ws'
      | Some (d', false) => Some d'
      | None => None
      end
  end.

(** The graceful stop: the commands already queued, then [close], then the last
    drains. *)
Definition graceful_stop (fuel : nat) (clock : ConnectionId → Instant) (d : Driver)
    (queued : list DriverCommand) : option Driver :=
  let d := foldl handle_command d queued in
  drain fuel clock (with_collider d (collider_close (d_collider d))).

(** [Collider::new] and [set_downgrade_dwell], and the empty tables. *)
Definition new_driver (register_timeout downgrade_dwell : N)
    (socks : gmap chan_id (channel SocketOutput)) (sfus : gmap chan_id (channel ssfu.Output)) : Driver :=
  mk_Driver (set_downgrade_dwell downgrade_dwell (collider_new register_timeout)) ∅ ∅ ∅ socks sfus [].

(** [run]. *)
Definition run (fuel : nat) (clock : ConnectionId → Instant) (register_timeout downgrade_dwell : N)
    (socks : gmap chan_id (channel SocketOutput)) (sfus : gmap chan_id (channel ssfu.Output))
    (ws : list Wakeup) (queued : list DriverCommand) : option Driver :=
  match event_loop fuel clock (new_driver register_timeout downgrade_dwell socks sfus) ws with
  | Some d => graceful_stop fuel clock d queued
  | None => None
  end.
End driver.
