(* ===== verification/DriverSpec.v ===== *)
(** * What the event loop promises

    Its loops end, every authority command is answered at most once and on its
    own reply channel, a socket receives the state machine's texts in order, and
    a connection that is gone is reported to the state machine exactly once. *)

From stdpp Require Import sorting.
From S2P Require Import Prelude Wire RequestCache Samples Driver.

Section driver_spec.
Context `{C : ColliderLib}.

(** ** Nothing but [with_collider] touches the state machine *)

Lemma send_socket_collider d ch o : d_collider (send_socket d ch o).1 = d_collider d.
Proof. unfold send_socket. by destruct (try_send _ _ _). Qed.

Lemma route_output_collider d o : d_collider (route_output d o).1 = d_collider d.
Proof.
  destruct o as [i t|i|out]; cbn.
  - case_match; [|done]. destruct (send_socket d _ _) as [d' b] eqn:E. cbn.
    change d' with (d', b).1. rewrite <- E. apply send_socket_collider.
  - case_match; [|done]. by rewrite send_socket_collider.
  - case_match; [|done]. unfold send_sfu. destruct (try_send _ _ _) as [st r]. cbn. by destruct (is_ok r).
Qed.

(** Routing does not read the state machine. *)
Lemma route_output_with_collider d c o :
  route_output (with_collider d c) o = (with_collider (route_output d o).1 c, (route_output d o).2).
Proof.
  destruct o as [i t|i|out]; cbn; (case_match; [|done]).
  - unfold send_socket; cbn. destruct (try_send _ _ _) as [st r]. by cbn.
  - unfold send_socket; cbn. by destruct (try_send _ _ _) as [st r].
  - unfold send_sfu; cbn. destruct (try_send _ _ _) as [st r]. cbn. by destruct (is_ok r).
Qed.

(** ** Termination *)

Section termination.
Context {laws : ColliderLaws C}.

Lemma drain_writes_settles d acc : ∃ r, settles (λ fuel, drain_writes fuel d acc) r.
Proof.
  remember (pending_outputs (d_collider d)) as n eqn:Hn.
  revert d acc Hn. induction (lt_wf n) as [n _ IH]. intros d acc Hn.
  destruct (poll_write (d_collider d)) as [[o|] c] eqn:Hp.
  - assert (Hlt : (pending_outputs c < n)%nat) by (subst n; by eapply poll_write_some).
    destruct (route_output (with_collider d c) o) as [d' gone] eqn:Hr.
    assert (Hc : d_collider d' = c).
    { change d' with (d', gone).1. rewrite <- Hr, route_output_collider. done. }
    destruct (IH (pending_outputs c) Hlt d' (acc ++ gone)) as (r & k & Hk); [by rewrite Hc|].
    exists r, (S k). intros [|fuel] Hle; [lia|]. cbn. rewrite Hp, Hr. apply Hk. lia.
  - exists (with_collider d c, acc), 1%nat. intros [|fuel] Hle; [lia|]. cbn. by rewrite Hp.
Qed.

Lemma drain_outputs_settles clock d : ∃ r, settles (λ fuel, drain_outputs fuel clock d) r.
Proof.
  destruct (drain_writes_settles d []) as [[d' gone] Hr]. eexists.
  eapply (settles_bind _ (λ _ p, let '(d', g) := p in
    Some (foldl (disconnect_one clock) d' (sort_dedup g)))); [exact Hr|apply settles_ret].
Qed.

Lemma drain_authority_settles d : ∃ r, settles (λ fuel, drain_authority_responses fuel d) r.
Proof.
  remember (pending_events (d_collider d)) as n eqn:Hn.
  revert d Hn. induction (lt_wf n) as [n _ IH]. intros d Hn.
  destruct (poll_event (d_collider d)) as [[o|] c] eqn:Hp.
  - assert (Hlt : (pending_events c < n)%nat) by (subst n; by eapply poll_event_some).
    destruct (pending_authority d !! collider.ar_request_id o) as [s|] eqn:Hs.
    + destruct (IH _ Hlt (with_replies (with_pending (with_collider d c)
        (delete (collider.ar_request_id o) (pending_authority d))) (replies d ++ [(s, o)]))) as (r & k & Hk); [done|].
      exists r, (S k). intros [|fuel] Hle; [lia|]. cbn. rewrite Hp. cbn. rewrite Hs. apply Hk. lia.
    + destruct (IH _ Hlt (with_collider d c)) as (r & k & Hk); [done|].
      exists r, (S k). intros [|fuel] Hle; [lia|]. cbn. rewrite Hp. cbn. rewrite Hs. apply Hk. lia.
  - exists (with_collider d c), 1%nat. intros [|fuel] Hle; [lia|]. cbn. by rewrite Hp.
Qed.

Lemma drain_settles clock d : ∃ r, settles (λ fuel, drain fuel clock d) r.
Proof.
  destruct (drain_outputs_settles clock d) as [d1 H1].
  destruct (drain_authority_settles d1) as [d2 H2].
  exists d2. by eapply (settles_bind _ drain_authority_responses).
Qed.

Lemma loop_body_settles clock d w : ∃ r, settles (λ fuel, loop_body fuel clock d w) r.
Proof.
  destruct w as [|[cmd|]|now]; cbn; try (eexists; apply settles_ret).
  - destruct (drain_settles clock (handle_command d cmd)) as [d' Hd]. eexists.
    eapply (settles_bind _ (λ _ x, Some (x, true))); [exact Hd|apply settles_ret].
  - destruct (poll_timeout (d_collider d)); [|eexists; apply settles_ret].
    destruct (handle_timeout now (d_collider d)) as [c r]. destruct (is_ok r); [|eexists; apply settles_ret].
    destruct (drain_settles clock (with_collider d c)) as [d' Hd]. eexists.
    eapply (settles_bind _ (λ _ x, Some (x, true))); [exact Hd|apply settles_ret].
Qed.

Lemma event_loop_settles clock d ws : ∃ r, settles (λ fuel, event_loop fuel clock d ws) r.
Proof.
  revert d. induction ws as [|w ws IH]; intros d; cbn; [eexists; apply settles_ret|].
  destruct (loop_body_settles clock d w) as [[d1 b] H1].
  destruct b.
  - destruct (IH d1) as [r Hr]. exists r.
    eapply (settles_bind _ (λ n p, let '(d', b) := p in if b : bool then event_loop n clock d' ws else Some d'));
      [exact H1|exact Hr].
  - exists d1. eapply (settles_bind _ (λ n p, let '(d', b) := p in if b : bool then event_loop n clock d' ws else Some d'));
      [exact H1|apply settles_ret].
Qed.

(** C17: For every sequence of wake-ups and queued commands the event loop, its drains and its
    graceful stop come to an end. *)
Theorem run_terminates clock register_timeout dwell socks sfus ws queued :
  ∃ d, settles (λ fuel, run fuel clock register_timeout dwell socks sfus ws queued) d.
Proof.
  destruct (event_loop_settles clock (new_driver register_timeout dwell socks sfus) ws) as [d1 H1].
  destruct (drain_settles clock (with_collider (foldl handle_command d1 queued)
    (collider_close (d_collider (foldl handle_command d1 queued))))) as [d2 H2].
  exists d2. by eapply (settles_bind _ (λ n d, graceful_stop n clock d queued)).
Qed.
End termination.

(** ** Replies *)

(** The pending table and the replies, which only authority commands change. *)
Definition ledger (d : Driver) := (pending_authority d, replies d).

Lemma send_socket_ledger d ch o : ledger (send_socket d ch o).1 = ledger d.
Proof. unfold send_socket. by destruct (try_send _ _ _). Qed.

Lemma route_output_ledger d o : ledger (route_output d o).1 = ledger d.
Proof.
  destruct o as [i t|i|out]; cbn; (case_match; [|done]).
  - unfold send_socket. by destruct (try_send _ _ _) as [st r].
  - unfold send_socket. by destruct (try_send _ _ _) as [st r].
  - unfold send_sfu. destruct (try_send _ _ _) as [st r]. cbn. by destruct (is_ok r).
Qed.

Lemma drain_writes_ledger fuel d acc d' gone :
  drain_writes fuel d acc = Some (d', gone) → ledger d' = ledger d.
Proof.
  revert d acc. induction fuel as [|fuel IH]; intros d acc; cbn; [done|].
  destruct (poll_write _) as [[o|] c]; [|by intros [= <- <-]].
  destruct (route_output (with_collider d c) o) as [d1 g] eqn:Hr. intros ->%IH.
  change d1 with (d1, g).1. by rewrite <- Hr, route_output_ledger.
Qed.

Lemma drain_outputs_ledger fuel clock d d' : drain_outputs fuel clock d = Some d' → ledger d' = ledger d.
Proof.
  unfold drain_outputs. destruct (drain_writes fuel d []) as [[d1 g]|] eqn:Hd; [|done].
  intros [= <-]. apply drain_writes_ledger in Hd. rewrite <- Hd. generalize (sort_dedup g) as l.
  clear. intros l. revert d1. induction l as [|x l IH]; intros d1; cbn; [done|]. by rewrite IH.
Qed.

(** The ledger agrees with the authority commands [h] handled so far. *)
Record ledger_inv (h : list (N * oneshot_id)) (l : gmap N oneshot_id * list (oneshot_id * collider.AuthorityResponse)) : Prop := {
  ledger_pending : ∀ rid o, l.1 !! rid = Some o → (rid, o) ∈ h ∧ o ∉ l.2.*1;
  ledger_replied : ∀ o r, (o, r) ∈ l.2 → (collider.ar_request_id r, o) ∈ h;
  ledger_once : NoDup l.2.*1;
}.

Lemma same_oneshot (h : list (N * oneshot_id)) a b o :
  NoDup h.*2 → (a, o) ∈ h → (b, o) ∈ h → a = b.
Proof.
  intros Hnd Ha Hb. induction h as [|[x y] h IH]; [by apply elem_of_nil in Ha|].
  cbn in Hnd. apply list.NoDup_cons in Hnd as [Hy Hnd].
  apply elem_of_cons in Ha as [Ha|Ha], Hb as [Hb|Hb]; simplify_eq; auto; exfalso; apply Hy;
    apply list_elem_of_fmap; by eexists (_, _).
Qed.

(** Answering a pending request. *)
Lemma ledger_answer h p rs rid o r :
  NoDup h.*2 → ledger_inv h (p, rs) → p !! rid = Some o → collider.ar_request_id r = rid →
  ledger_inv h (delete rid p, rs ++ [(o, r)]).
Proof.
  intros Hnd [Hp Hr Ho] Hrid Heq. cbn in *. destruct (Hp _ _ Hrid) as [Hin Hno]. split; cbn.
  - intros rid' o'. rewrite lookup_delete_Some. intros [Hne Hp']. destruct (Hp _ _ Hp') as [Hin' Hno'].
    split; [done|]. rewrite fmap_app, elem_of_app. intros [?|Ho']; [done|].
    cbn in Ho'. apply list_elem_of_singleton in Ho' as ->. apply Hne. by eapply same_oneshot.
  - intros o' r'. rewrite elem_of_app, list_elem_of_singleton. intros [?|[= -> ->]]; [auto|by rewrite Heq].
  - rewrite fmap_app. by apply NoDup_snoc.
Qed.

Definition authority_of (command : DriverCommand) : list (N * oneshot_id) :=
  match command with
  | Authority cmd o => [(collider.ac_request_id cmd, o)]
  | _ => []
  end.

Lemma handle_command_ledger d command h :
  NoDup (h ++ authority_of command).*2 → ledger_inv h (ledger d) →
  ledger_inv (h ++ authority_of command) (ledger (handle_command d command)).
Proof.
  intros Hnd Hinv. destruct command as [i o|i t now|cmd o|input o|input|i now]; cbn in *;
    rewrite ?app_nil_r in *.
  - destruct (handle_read _ _) as [c r]. by destruct (is_ok r).
  - destruct (handle_read _ _) as [c r]. destruct (is_ok r); [done|]. cbn.
    case_match; [|done]. rewrite send_socket_ledger. done.
  - assert (Hnew : ledger_inv (h ++ [(collider.ac_request_id cmd, o)])
      (<[collider.ac_request_id cmd:=o]> (pending_authority d), replies d)).
    { destruct Hinv as [Hp Hr Ho]. cbn in *. rewrite fmap_app in Hnd. cbn in Hnd.
      apply NoDup_snoc in Hnd as [Hnd Hfresh]. split; cbn; [| |done].
      - intros rid' o'. rewrite elem_of_app, list_elem_of_singleton, lookup_insert_Some.
        intros [[<- <-]|[Hne Hp']]; [split; [auto|]|destruct (Hp _ _ Hp'); auto].
        intros Hin. apply list_elem_of_fmap in Hin as ([o' r'] & -> & Hin). apply Hfresh.
        apply list_elem_of_fmap. exists (collider.ar_request_id r', o'). split; [done|]. by apply Hr.
      - intros o' r' Hin. rewrite elem_of_app. left. by apply Hr. }
    destruct (handle_write _ _) as [c r]. destruct (is_ok r); [done|]. cbn.
    rewrite lookup_insert_eq. by apply ledger_answer; [| |apply lookup_insert_eq|].
  - case_match; [|done]. destruct (handle_sfu_input _ _) as [c r]. by destruct (is_ok r).
  - done.
  - done.
Qed.

Lemma drain_authority_ledger fuel d d' h :
  NoDup h.*2 → ledger_inv h (ledger d) → drain_authority_responses fuel d = Some d' →
  ledger_inv h (ledger d').
Proof.
  intros Hnd. revert d. induction fuel as [|fuel IH]; intros d Hinv; cbn; [done|].
  destruct (poll_event _) as [[r|] c]; [|by intros [= <-]]. cbn.
  destruct (pending_authority d !! _) as [o|] eqn:Ho; apply IH; [|done].
  by eapply ledger_answer.
Qed.

Lemma drain_ledger fuel clock d d' h :
  NoDup h.*2 → ledger_inv h (ledger d) → drain fuel clock d = Some d' → ledger_inv h (ledger d').
Proof.
  intros Hnd Hinv. unfold drain. destruct (drain_outputs fuel clock d) as [d1|] eqn:Hd; [|done].
  apply drain_authority_ledger; [done|]. by rewrite (drain_outputs_ledger _ _ _ _ Hd).
Qed.

Definition authority_of_wakeup (w : Wakeup) : list (N * oneshot_id) :=
  match w with Command (Some command) => authority_of command | _ => [] end.

Lemma ledger_inv_weaken h1 h2 l : ledger_inv h1 l → ledger_inv (h1 ++ h2) l.
Proof.
  intros [Hp Hr Ho]. split; [| |done].
  - intros rid o [? ?]%Hp. rewrite elem_of_app. auto.
  - intros o r ?%Hr. rewrite elem_of_app. auto.
Qed.

Lemma NoDup_prefix {A} (l k : list A) : NoDup (l ++ k) → NoDup l.
Proof. by intros [? _]%list.NoDup_app. Qed.

Lemma loop_body_ledger fuel clock d w d' b h :
  NoDup (h ++ authority_of_wakeup w).*2 → ledger_inv h (ledger d) →
  loop_body fuel clock d w = Some (d', b) → ledger_inv (h ++ authority_of_wakeup w) (ledger d').
Proof.
  intros Hnd Hinv. destruct w as [|[cmd|]|now]; cbn in *.
  - intros [= <- <-]. by apply ledger_inv_weaken.
  - destruct (drain _ _ _) as [d1|] eqn:Hd; [|done]. intros [= <- <-].
    eapply drain_ledger; [done| |exact Hd]. by apply handle_command_ledger.
  - intros [= <- <-]. by apply ledger_inv_weaken.
  - rewrite !app_nil_r in *. case_match; [|by intros [= <- <-]].
    destruct (handle_timeout _ _) as [c r]. destruct (is_ok r); [|by intros [= <- <-]].
    destruct (drain _ _ _) as [d1|] eqn:Hd; [|done]. intros [= <- <-]. by eapply drain_ledger in Hd.
Qed.

Lemma event_loop_ledger fuel clock d ws d' h :
  NoDup (h ++ (ws ≫= authority_of_wakeup)).*2 → ledger_inv h (ledger d) →
  event_loop fuel clock d ws = Some d' → ledger_inv (h ++ (ws ≫= authority_of_wakeup)) (ledger d').
Proof.
  revert d h. induction ws as [|w ws IH]; intros d h; cbn.
  - rewrite app_nil_r. by intros ? ? [= <-].
  - rewrite app_assoc. intros Hnd Hinv. destruct (loop_body fuel clock d w) as [[d1 []]|] eqn:Hb; [| |done].
    + apply IH; [done|]. eapply loop_body_ledger; [|done..].
      rewrite fmap_app in Hnd. by eapply NoDup_prefix.
    + intros [= <-]. apply ledger_inv_weaken. eapply loop_body_ledger; [|done..].
      rewrite fmap_app in Hnd. by eapply NoDup_prefix.
Qed.

Lemma foldl_handle_command_ledger cmds d h :
  NoDup (h ++ (cmds ≫= authority_of)).*2 → ledger_inv h (ledger d) →
  ledger_inv (h ++ (cmds ≫= authority_of)) (ledger (foldl handle_command d cmds)).
Proof.
  revert d h. induction cmds as [|c cmds IH]; intros d h; cbn; [by rewrite app_nil_r|].
  rewrite app_assoc. intros Hnd Hinv. apply IH; [done|]. apply handle_command_ledger; [|done].
  rewrite fmap_app in Hnd. by eapply NoDup_prefix.
Qed.

(** C8: Over a whole run of the event loop, each one-shot reply channel is used at most once,
    with the response to the request it was registered for, and a request still pending has not
    been answered. *)
Theorem replies_correlated fuel clock register_timeout dwell socks sfus ws queued d :
  let h := (ws ≫= authority_of_wakeup) ++ (queued ≫= authority_of) in
  NoDup h.*2 →
  run fuel clock register_timeout dwell socks sfus ws queued = Some d →
  NoDup (replies d).*1 ∧
  (∀ o r, (o, r) ∈ replies d → (collider.ar_request_id r, o) ∈ h) ∧
  (∀ rid o, pending_authority d !! rid = Some o → (rid, o) ∈ h ∧ o ∉ (replies d).*1).
Proof.
  intros h Hnd. unfold run.
  destruct (event_loop _ _ _ _) as [d1|] eqn:Hl; [|done]. unfold graceful_stop. intros Hd.
  eapply (event_loop_ledger _ _ _ _ _ []) in Hl; cbn [app] in *.
  - eapply drain_ledger in Hd; [destruct Hd as [Hp Hr Ho]; split_and!; [exact Ho|exact Hr|exact Hp]|exact Hnd|].
    by apply foldl_handle_command_ledger.
  - unfold h in Hnd. rewrite fmap_app in Hnd. by eapply NoDup_prefix.
  - split; cbn; [by intros ? ?; rewrite lookup_empty|by intros ? ? ?%elem_of_nil|constructor].
Qed.

(** ** Routing *)

(** The outputs the state machine yields until it has none, in order. *)
Fixpoint polled (fuel : nat) (c : Collider) : option (list BrowserOutput * Collider) :=
  match fuel with
  | O => None
  | S fuel' =>
      match poll_write c with
      | (Some o, c') => '(os, c'') ← polled fuel' c'; Some (o :: os, c'')
      | (None, c') => Some ([], c')
      end
  end.

(** Routing a list of outputs, with the connections found dead. *)
Fixpoint route_all (d : Driver) (os : list BrowserOutput) : Driver * list ConnectionId :=
  match os with
  | [] => (d, [])
  | o :: os' =>
      let '(d1, g1) := route_output d o in
      let '(d2, g2) := route_all d1 os' in (d2, g1 ++ g2)
  end.

Lemma with_collider_twice d a b : with_collider (with_collider d a) b = with_collider d b.
Proof. done. Qed.

Lemma route_all_with_collider d c os :
  route_all (with_collider d c) os = (with_collider (route_all d os).1 c, (route_all d os).2).
Proof.
  revert d. induction os as [|o os IH]; intros d; cbn; [done|].
  rewrite route_output_with_collider. destruct (route_output d o) as [d1 g1]. cbn.
  rewrite IH. by destruct (route_all d1 os) as [d2 g2].
Qed.

(** The drain loop is polling, then routing. *)
Lemma drain_writes_polled fuel d acc :
  drain_writes fuel d acc =
    match polled fuel (d_collider d) with
    | Some (os, c) => Some (with_collider (route_all d os).1 c, acc ++ (route_all d os).2)
    | None => None
    end.
Proof.
  revert d acc. induction fuel as [|fuel IH]; intros d acc; cbn; [done|].
  destruct (poll_write (d_collider d)) as [[o|] c]; [|by rewrite app_nil_r].
  destruct (route_output (with_collider d c) o) as [d1 g1] eqn:Hr.
  assert (Hc : d_collider d1 = c).
  { change d1 with (d1, g1).1. by rewrite <- Hr, route_output_collider. }
  rewrite IH, Hc. destruct (polled fuel c) as [[os c']|]; cbn; [|done].
  rewrite route_output_with_collider in Hr. destruct (route_output d o) as [d1' g1'].
  cbn in Hr. injection Hr as <- <-. rewrite route_all_with_collider.
  destruct (route_all d1' os) as [d2 g2]. cbn. by rewrite app_assoc.
Qed.

(** *** Deduplicating a sorted vector *)

Lemma dedup_cons a b l :
  dedup (a :: b :: l) = if (a =? b)%N then dedup (b :: l) else a :: dedup (b :: l).
Proof. done. Qed.

Lemma elem_of_dedup x l : x ∈ dedup l ↔ x ∈ l.
Proof.
  induction l as [|a [|b l] IH]; [done|done|]. rewrite dedup_cons.
  destruct (N.eqb_spec a b) as [->|].
  - rewrite IH, !elem_of_cons. naive_solver.
  - by rewrite elem_of_cons, IH, (elem_of_cons (b :: l)).
Qed.

Lemma dedup_NoDup l : StronglySorted N.le l → NoDup (dedup l).
Proof.
  induction l as [|a [|b l] IH]; intros Hs; [constructor|apply NoDup_singleton|].
  rewrite dedup_cons. apply StronglySorted_inv in Hs as [Hs Ha].
  destruct (N.eqb_spec a b) as [->|Hne]; [auto|].
  apply list.NoDup_cons. split; [|auto]. rewrite elem_of_dedup, elem_of_cons.
  apply StronglySorted_inv in Hs as [_ Hb]. rewrite list.Forall_forall in Ha, Hb.
  intros [->|Hin]; [done|]. pose proof (Hb a Hin). pose proof (Ha b ltac:(left)). lia.
Qed.

Lemma sort_dedup_spec l : NoDup (sort_dedup l) ∧ ∀ x, x ∈ sort_dedup l ↔ x ∈ l.
Proof.
  unfold sort_dedup. split.
  - apply dedup_NoDup, StronglySorted_merge_sort; [apply _|]. intros a b. lia.
  - intros x. by rewrite elem_of_dedup, merge_sort_Permutation.
Qed.

Definition report (clock : ConnectionId → Instant) (c : Collider) (i : ConnectionId) : Collider :=
  (handle_read (BDisconnected i (clock i)) c).1.

Lemma foldl_disconnect clock l d :
  let d' := foldl (disconnect_one clock) d l in
  d_collider d' = foldl (report clock) (d_collider d) l ∧
  socket_store d' = socket_store d ∧
  ∀ i, sockets d' !! i = if decide (i ∈ l) then None else sockets d !! i.
Proof.
  cbn. revert d. induction l as [|x l IH]; intros d; cbn.
  - split_and!; [done..|]. intros i. case_decide as Hi; [by apply elem_of_nil in Hi|done].
  - destruct (IH (disconnect_one clock d x)) as (Hc & Hst & Hso). split_and!; [done..|].
    intros i. rewrite Hso. cbn. destruct (decide (i = x)) as [->|Hne].
    + rewrite lookup_delete_eq. rewrite (decide_True _ _ (proj2 (elem_of_cons _ _ _) (or_introl eq_refl))).
      by case_decide.
    + rewrite lookup_delete_ne by done. repeat case_decide; rewrite ?elem_of_cons in *; naive_solver.
Qed.

(** A drain reports each connection it closed or found full to the state machine exactly once,
    in increasing order, after all outputs have been routed, and no longer knows its socket. *)
Theorem disconnects_reported_once fuel clock d os c :
  polled fuel (d_collider d) = Some (os, c) →
  ∃ d' gone, drain_outputs fuel clock d = Some d' ∧ NoDup gone ∧
    (∀ i, i ∈ gone ↔ i ∈ (route_all d os).2) ∧
    (∀ i, i ∈ gone → sockets d' !! i = None) ∧
    d_collider d' = foldl (report clock) c gone.
Proof.
  intros Hp. unfold drain_outputs. rewrite drain_writes_polled, Hp. cbn [app].
  destruct (sort_dedup_spec (route_all d os).2) as [Hnd Hin].
  destruct (foldl_disconnect clock (sort_dedup (route_all d os).2)
    (with_collider (route_all d os).1 c)) as (Hc & _ & Hso).
  eexists _, _. split_and!; [done|exact Hnd|exact Hin| |exact Hc].
  intros i Hi. rewrite Hso. by case_decide.
Qed.

(** *** What one socket receives *)

Definition texts_for (i : ConnectionId) (os : list BrowserOutput) : list string :=
  os ≫= λ o, match o with OText j t => if (j =? i)%N then [t] else [] | _ => [] end.

Definition closes (i : ConnectionId) (o : BrowserOutput) : bool :=
  match o with OClose j => (j =? i)%N | _ => false end.

(** Connection [i] has a channel of its own, with [q] queued. *)
Record wired (d : Driver) (i : ConnectionId) (ch : chan_id) (q : list SocketOutput) (cap : nat) : Prop := {
  wired_socket : sockets d !! i = Some ch;
  wired_alone : ∀ j, sockets d !! j = Some ch → j = i;
  wired_queue : socket_store d !! ch = Some (mk_channel q cap true);
}.

Lemma send_socket_store d ch o :
  (send_socket d ch o).1 =
    mk_Driver (d_collider d) (sockets d) (sfu_sessions d) (pending_authority d)
      (try_send (socket_store d) ch o).1 (sfu_store d) (replies d).
Proof. unfold send_socket. by destruct (try_send _ _ _). Qed.

Lemma try_send_other {A} (st : gmap chan_id (channel A)) c o c' :
  c' ≠ c → (try_send st c o).1 !! c' = st !! c'.
Proof.
  intros Hne. unfold try_send. destruct (st !! c) as [ch|]; [|done].
  destruct (chan_try_send ch o); cbn; [|done]. by rewrite lookup_insert_ne.
Qed.

Lemma try_send_open {A} (st : gmap chan_id (channel A)) c (o : A) q cap :
  st !! c = Some (mk_channel q cap true) →
  try_send st c o = if (length q <? cap)%nat
    then (<[c := mk_channel (q ++ [o]) cap true]> st, Ok tt) else (st, Err tt).
Proof.
  intros Hc. unfold try_send, chan_try_send. rewrite Hc. cbn [chan_open chan_queue chan_capacity andb].
  by destruct (_ <? _)%nat.
Qed.

(** An output for another connection leaves [i]'s channel alone. *)
Lemma route_output_other d i ch q cap o :
  wired d i ch q cap → closes i o = false → texts_for i [o] = [] →
  wired (route_output d o).1 i ch q cap ∧ i ∉ (route_output d o).2.
Proof.
  intros [Hs Ha Hq] Hc Ht. destruct o as [j t|j|out]; cbn in *; rewrite ?app_nil_r in *.
  - destruct (N.eqb_spec j i) as [->|Hne]; [done|].
    destruct (sockets d !! j) as [ch'|] eqn:Hj; [|split; [by split|by apply not_elem_of_nil]].
    assert (ch ≠ ch') by (intros ->; by apply Hne, Ha).
    pose proof (try_send_other (socket_store d) ch' (SText t) ch) as Hst.
    unfold send_socket. destruct (try_send _ _ _) as [st r]. cbn in *. split.
    + split; cbn; [done|done|]. by rewrite Hst.
    + destruct (is_ok r); [by apply not_elem_of_nil|]. rewrite list_elem_of_singleton. congruence.
  - bool_to_prop. rewrite list_elem_of_singleton. split; [|congruence].
    destruct (sockets d !! j) as [ch'|] eqn:Hj; [|by split].
    assert (ch ≠ ch') by (intros ->; by apply Hc, Ha).
    rewrite send_socket_store. split; cbn.
    + by rewrite lookup_delete_ne.
    + intros k [_ Hk]%lookup_delete_Some. by apply Ha.
    + by rewrite try_send_other.
  - destruct (sfu_sessions d !! _) as [ch'|]; [|split; [by split|by apply not_elem_of_nil]].
    unfold send_sfu. destruct (try_send _ _ _) as [st r]. cbn.
    destruct (is_ok r); (split; [by split|by apply not_elem_of_nil]).
Qed.

Lemma take_cons_room {A} (a : A) l n : (0 < n)%nat → take n (a :: l) = a :: take (n - 1) l.
Proof. destruct n; [lia|]. cbn. by rewrite Nat.sub_0_r. Qed.

Lemma route_all_wired d i ch q cap os :
  wired d i ch q cap → (length q ≤ cap)%nat → forallb (λ o, negb (closes i o)) os = true →
  let room := (cap - length q)%nat in
  wired (route_all d os).1 i ch (q ++ take room (SText <$> texts_for i os)) cap ∧
  (i ∈ (route_all d os).2 ↔ (room < length (texts_for i os))%nat).
Proof.
  cbn. revert d q. induction os as [|o os IH]; intros d q Hw Hq Hc; cbn in Hc.
  { cbn. rewrite take_nil, app_nil_r. split; [done|]. rewrite elem_of_nil. lia. }
  apply andb_true_iff in Hc as [Ho Hc]. bool_to_prop. cbn [route_all].
  destruct (decide (texts_for i [o] = [])) as [Ht|Ht].
  - destruct (route_output_other _ _ _ _ _ _ Hw Ho Ht) as [Hw' Hg].
    destruct (route_output d o) as [d1 g1]. cbn in *.
    destruct (IH d1 q Hw' Hq Hc) as [Hw2 Hg2]. destruct (route_all d1 os) as [d2 g2]. cbn in *.
    unfold texts_for in *. cbn in *. rewrite app_nil_r in Ht. rewrite Ht. cbn. split; [done|].
    rewrite elem_of_app. naive_solver.
  - destruct o as [j t|j|out]; cbn in Ht; rewrite ?app_nil_r in Ht; [|done..].
    destruct (N.eqb_spec j i) as [->|]; [|done]. destruct Hw as [Hs Ha Hst].
    assert (Heq : texts_for i (OText i t :: os) = t :: texts_for i os).
    { unfold texts_for; cbn. by rewrite N.eqb_refl. }
    rewrite Heq. cbn [route_output]. rewrite Hs. unfold send_socket.
    rewrite (try_send_open _ _ _ _ _ Hst). destruct (length q <? cap)%nat eqn:Hroom; bool_to_prop.
    + cbn [is_ok].
      destruct (IH (mk_Driver (d_collider d) (sockets d) (sfu_sessions d) (pending_authority d)
        (<[ch:=mk_channel (q ++ [SText t]) cap true]> (socket_store d)) (sfu_store d) (replies d))
        (q ++ [SText t])) as [Hw2 Hg2].
      { split; cbn; [done|done|]. by rewrite lookup_insert_eq. }
      { rewrite length_app. cbn. lia. }
      { done. }
      destruct (route_all _ os) as [d2 g2]. cbn [fst snd] in *.
      rewrite length_app in Hw2, Hg2. cbn [length] in *. split.
      * rewrite fmap_cons, take_cons_room by lia. rewrite <- app_assoc in Hw2. cbn [app] in Hw2.
        by replace (cap - length q - 1)%nat with (cap - (length q + 1))%nat by lia.
      * cbn [app]. rewrite Hg2. lia.
    + cbn [is_ok].
      destruct (IH (mk_Driver (d_collider d) (sockets d) (sfu_sessions d) (pending_authority d)
        (socket_store d) (sfu_store d) (replies d)) q) as [Hw2 Hg2]; [by split|done|done|].
      destruct (route_all _ os) as [d2 g2]. cbn [fst snd] in *.
      replace (cap - length q)%nat with 0%nat in * by lia. cbn [take] in *. split; [done|].
      rewrite elem_of_app, list_elem_of_singleton. cbn. split; [lia|auto].
Qed.

(** C10: One drain in which the state machine does not close a browser's connection hands the
    browser's channel the texts addressed to it, in order and complete, as long as there is
    room; the first text that finds the channel full removes the connection. The channel is read
    between drains. *)
Theorem texts_delivered fuel clock d os c i ch q cap :
  polled fuel (d_collider d) = Some (os, c) →
  wired d i ch q cap → (length q ≤ cap)%nat → forallb (λ o, negb (closes i o)) os = true →
  let texts := texts_for i os in
  let room := (cap - length q)%nat in
  ∃ d', drain_outputs fuel clock d = Some d' ∧
    socket_store d' !! ch = Some (mk_channel (q ++ take room (SText <$> texts)) cap true) ∧
    sockets d' !! i = if decide (length texts ≤ room)%nat then Some ch else None.
Proof.
  cbn. intros Hp Hw Hq Hc. unfold drain_outputs. rewrite drain_writes_polled, Hp. cbn [app].
  destruct (route_all_wired d i ch q cap os Hw Hq Hc) as [[Hs Ha Hst] Hg].
  destruct (sort_dedup_spec (route_all d os).2) as [_ Hin].
  destruct (foldl_disconnect clock (sort_dedup (route_all d os).2)
    (with_collider (route_all d os).1 c)) as (_ & Hst' & Hso).
  assert (Hgone : i ∈ sort_dedup (route_all d os).2 ↔ (cap - length q < length (texts_for i os))%nat)
    by (by rewrite Hin).
  eexists. split_and!; [done|by rewrite Hst'|]. rewrite Hso.
  destruct (decide (i ∈ _)) as [Hd|Hd]; rewrite Hgone in Hd; case_decide; [lia|done|done|lia].
Qed.
End driver_spec.

(** ** Witnesses *)

Section witnesses.
#[local] Existing Instance sample_room_id.
#[local] Existing Instance sample_collider.

Definition sample_clock (_ : ConnectionId) : Instant := 5%N.

Definition sample_sockets : gmap chan_id (channel SocketOutput) :=
  {[ 0%nat := mk_channel [] 2 true; 1%nat := mk_channel [] 2 true ]}.

(** Two sockets; the first says [hi] and loops it back, then both authority
    requests. *)
Definition sample_wakeups : list Wakeup :=
  [Command (Some (Connected 1 0%nat)); Command (Some (Connected 2 1%nat));
   Command (Some (Text 1 "hi" 3));
   Command (Some (Authority (collider.mk_AuthorityCommand 9 collider.OpStatus) 4%nat)); Stop].

Definition sample_queued : list DriverCommand :=
  [Authority (collider.mk_AuthorityCommand 10 collider.OpStatus) 5%nat].

Lemma run_terminates_witness :
  ∃ d, settles (λ fuel, run fuel sample_clock 30 60 sample_sockets ∅ sample_wakeups sample_queued) d.
Proof. exact (run_terminates _ _ _ _ _ _ _). Defined.

Lemma replies_correlated_witness :
  ∃ d, run 10 sample_clock 30 60 sample_sockets ∅ sample_wakeups sample_queued = Some d ∧
    replies d = [(4%nat, collider.mk_AuthorityResponse 9 collider.ResRemoved);
                 (5%nat, collider.mk_AuthorityResponse 10 collider.ResRemoved)] ∧
    NoDup (replies d).*1.
Proof.
  assert (Hr : replies <$> run 10 sample_clock 30 60 sample_sockets ∅ sample_wakeups sample_queued =
    Some [(4%nat, collider.mk_AuthorityResponse 9 collider.ResRemoved);
          (5%nat, collider.mk_AuthorityResponse 10 collider.ResRemoved)]) by (vm_compute; reflexivity).
  apply fmap_Some in Hr as (d & Hd & Hr). exists d. split_and!; [exact Hd|by rewrite Hr|].
  refine (proj1 (replies_correlated 10 sample_clock 30 60 sample_sockets ∅ sample_wakeups
    sample_queued d _ Hd)).
  change (NoDup [4%nat; 5%nat]). apply list.NoDup_cons. split; [by rewrite list_elem_of_singleton|apply NoDup_singleton].
Defined.

(** Connection 1 has three texts queued for a channel of two. *)
Definition overflowing : Driver :=
  mk_Driver (mk_SampleCollider [OText 1 "a"; OText 2 "x"; OText 1 "b"; OText 1 "c"] [])
    {[ 1%N := 0%nat; 2%N := 1%nat ]} ∅ ∅ sample_sockets ∅ [].

Lemma disconnects_reported_once_witness :
  ∃ d' gone, drain_outputs 10 sample_clock overflowing = Some d' ∧ NoDup gone ∧
    (∀ i, i ∈ gone ↔ i ∈ (route_all overflowing (sc_outputs (d_collider overflowing))).2) ∧
    (∀ i, i ∈ gone → sockets d' !! i = None) ∧
    d_collider d' = foldl (report sample_clock) (mk_SampleCollider [] []) gone.
Proof. apply (disconnects_reported_once 10 sample_clock overflowing). reflexivity. Defined.

Lemma texts_delivered_witness :
  ∃ d', drain_outputs 10 sample_clock overflowing = Some d' ∧
    socket_store d' !! 0%nat = Some (mk_channel [SText "a"; SText "b"] 2 true) ∧
    sockets d' !! 1%N = None.
Proof.
  apply (texts_delivered 10 sample_clock overflowing
    [OText 1 "a"; OText 2 "x"; OText 1 "b"; OText 1 "c"] (mk_SampleCollider [] []) 1 0%nat [] 2).
  - reflexivity.
  - split; [reflexivity| |reflexivity]. intros j Hj.
    unfold overflowing in Hj; cbn in Hj.
    rewrite lookup_insert_Some in Hj. destruct Hj as [[<- _]|[_ Hj]]; [done|].
    rewrite lookup_singleton_Some in Hj. destruct Hj as [_ Hj]. discriminate Hj.
  - cbn. lia.
  - reflexivity.
Defined.

(** What the state machine says about a peer that was just found dead is still
    queued when the drain is over. *)
Example peer_notice_left_queued :
  (λ d, texts_for 2 (sc_outputs (d_collider d))) <$> drain_outputs 10 sample_clock overflowing
    = Some ["peer left"].
Proof. vm_compute. reflexivity. Qed.
End witnesses.
