(* ===== verification/GrpcServer.v ===== *)
(** * The gRPC service of the signaling process ([src/src/grpc_server.rs])

    Request validation, the eight unary handlers over an [execute] they are
    given, the domain error table, and the translation between the wire messages
    of an SFU session and the inputs and outputs of the state machine. *)

From S2P Require Import Prelude Wire RoomIds.
From Stdlib Require Import Strings.Byte.

(** ** Admission tokens *)

(** One lower-case hexadecimal digit. *)
Definition hex_digit (n : N) : Ascii.ascii :=
  Ascii.ascii_of_N (if (n <? 10)%N then 48 + n else 87 + n).

(** The format string [{byte:02x}]. *)
Definition show_hex2 (b : Byte.byte) : string :=
  String (hex_digit (Byte.to_N b / 16)) (String (hex_digit (Byte.to_N b mod 16)) EmptyString).

(** [new_admission_token], of the 32 random bytes. *)
Definition new_admission_token (random : bytes) : string :=
  foldl (λ token b, token +:+ show_hex2 b) EmptyString random.

Section grpc_server.
Context `{L : RoomIdLib, P : v2.ProtoEnums}.

(** ** Contexts and errors *)

(** [GrpcSignalingService::app_context]. *)
Definition app_context (context : option v2.RequestContext) : result v2.RequestContext GrpcStatus :=
  let? context := ok_or context (invalid_argument "missing context") in
  if negb (v2.rc_app_id context =? as_i32 v2.Apprtc)%Z
  then Err (permission_denied "AppRTC RPC requires APP_ID_APPRTC")
  else if is_empty (v2.rc_instance_id context)
  then Err (invalid_argument "instance_id must not be empty")
  else if (v2.rc_request_id context =? 0)%N
  then Err (invalid_argument "request_id must be nonzero")
  else Ok context.

(** [sfu_context]. *)
Definition sfu_context (context : option v2.RequestContext) : result v2.RequestContext GrpcStatus :=
  let? context := ok_or context (invalid_argument "missing context") in
  if negb (v2.rc_app_id context =? as_i32 v2.Sfu)%Z
  then Err (permission_denied "SFU session requires APP_ID_SFU")
  else if is_empty (v2.rc_instance_id context)
  then Err (invalid_argument "instance_id must not be empty")
  else if (v2.rc_request_id context =? 0)%N
  then Err (invalid_argument "request_id must be nonzero")
  else Ok context.

(** [response_context]. *)
Definition response_context (request_id : N) : option v2.ResponseContext :=
  Some (v2.mk_ResponseContext request_id).

Definition domain_error_code (reason : string) : v2.ErrorCode :=
  if String.eqb reason "FULL" then v2.Full
  else if String.eqb reason "DUPLICATE_CLIENT" then v2.DuplicateClient
  else if String.eqb reason "ROOM_NOT_FOUND" then v2.RoomNotFound
  else if String.eqb reason "CLIENT_NOT_FOUND" then v2.ClientNotFound
  else if String.eqb reason "UNAUTHORIZED" then v2.Unauthorized
  else if String.eqb reason "NO_SFU_AVAILABLE" then v2.NoSfuAvailable
  else if String.eqb reason "ROOM_TRANSITION" then v2.RoomTransition
  else if String.eqb reason "WORKER_UNAVAILABLE" then v2.WorkerUnavailable
  else if String.eqb reason "STALE_ASSIGNMENT" then v2.StaleAssignmentEpoch
  else if String.eqb reason "STALE_LIFECYCLE" then v2.StaleLifecycle
  else if String.eqb reason "RESOURCE_EXHAUSTED" then v2.ResourceExhausted
  else v2.InvalidRequest.

(** [domain_error]. *)
Definition domain_error (reason : string) : v2.Error :=
  v2.mk_Error (as_i32 (domain_error_code reason)) reason false None.

(** [parse_wire_room_id]. *)
Definition parse_wire_room_id (b : bytes) : result RoomId GrpcStatus :=
  ok_or (room_id_from_bytes b) (invalid_argument "room_id must be the 16 bytes of a UUIDv8").

(** [proto_room_mode]. *)
Definition proto_room_mode (mode : collider.RoomMode) : v2.RoomMode :=
  match mode with
  | collider.P2p => v2.ModeP2p
  | collider.Upgrading => v2.ModeUpgrading
  | collider.Sfu => v2.ModeSfu
  | collider.Failed => v2.ModeFailed
  end.

Definition unexpected_response : GrpcStatus := internal "unexpected authority response".

(** [operation_response]. *)
Definition operation_response (request_id : N) (r : collider.AuthorityResult)
  : result v2.OperationResponse GrpcStatus :=
  let? r := match r with
            | collider.ResRemoved | collider.ResRemovedV2 | collider.ResInjected =>
                Ok (v2.Success tt)
            | collider.ResError reason => Ok (v2.Failed (domain_error reason))
            | _ => Err unexpected_response
            end in
  Ok (v2.mk_Response (response_context request_id) (Some r)).

(** ** The unary handlers

    [exec] is [GrpcSignalingService::execute] over the service state [S]; [now]
    and [random] are what [Instant::now()] and the random generator return. *)

Section handlers.
Context {S : Type} (exec : v2.RequestContext → collider.AuthorityOperation →
                           stateful S GrpcStatus collider.AuthorityResult).

(** What the handlers that return a payload do with the authority's result. *)
Definition respond {A} (request_id : N) (r : option (v2.Outcome A)) : result (v2.ResponseOf A) GrpcStatus :=
  let? r := ok_or r unexpected_response in
  Ok (v2.mk_Response (response_context request_id) (Some r)).

(** [admit_v1]. *)
Definition admit_v1 (now : Instant) (request : v2.AdmitV1Request)
  : stateful S GrpcStatus v2.AdmitV1Response :=
  let! context := lift (app_context (v2.av1_context request)) in
  if is_empty (v2.av1_room_id request) || is_empty (v2.av1_client_id request)
  then lift (Err (invalid_argument "room_id and client_id must not be empty"))
  else
    let! r := exec context (collider.OpAdmit (v2.av1_room_id request) (v2.av1_client_id request)
                              (v2.av1_is_loopback request) now) in
    lift (respond (v2.rc_request_id context)
      match r with
      | collider.ResAdmitted is_initiator messages =>
          Some (v2.Success (v2.mk_V1Admission is_initiator messages))
      | collider.ResError reason => Some (v2.Failed (domain_error reason))
      | _ => None
      end).

(** [remove_v1]. *)
Definition remove_v1 (request : v2.RemoveV1Request) : stateful S GrpcStatus v2.OperationResponse :=
  let! context := lift (app_context (v2.rv1_context request)) in
  if is_empty (v2.rv1_room_id request) || is_empty (v2.rv1_client_id request)
  then lift (Err (invalid_argument "room_id and client_id must not be empty"))
  else
    let! r := exec context (collider.OpRemove (v2.rv1_room_id request) (v2.rv1_client_id request)) in
    lift (operation_response (v2.rc_request_id context) r).

(** [occupancy_v1]. *)
Definition occupancy_v1 (request : v2.OccupancyV1Request) : stateful S GrpcStatus v2.OccupancyResponse :=
  let! context := lift (app_context (v2.ov1_context request)) in
  if is_empty (v2.ov1_room_id request)
  then lift (Err (invalid_argument "room_id must not be empty"))
  else
    let! r := exec context (collider.OpOccupancy (v2.ov1_room_id request)) in
    lift (respond (v2.rc_request_id context)
      match r with
      | collider.ResOccupancy count =>
          Some (v2.Success (v2.mk_Occupancy (u64_of_usize count) (as_i32 v2.ModeP2p)))
      | collider.ResError reason => Some (v2.Failed (domain_error reason))
      | _ => None
      end).

(** [inject_v1]. *)
Definition inject_v1 (now : Instant) (request : v2.InjectV1Request)
  : stateful S GrpcStatus v2.OperationResponse :=
  let! context := lift (app_context (v2.iv1_context request)) in
  if is_empty (v2.iv1_room_id request) || is_empty (v2.iv1_client_id request)
     || is_empty (v2.iv1_message_json request)
  then lift (Err (invalid_argument "room_id, client_id, and message_json must not be empty"))
  else
    let! r := exec context (collider.OpInject (v2.iv1_room_id request) (v2.iv1_client_id request)
                              (v2.iv1_message_json request) now) in
    lift (operation_response (v2.rc_request_id context) r).

(** [get_status]. *)
Definition get_status (request : v2.StatusRequest) : stateful S GrpcStatus v2.StatusResponse :=
  let! context := lift (app_context (v2.st_context request)) in
  let! r := exec context collider.OpStatus in
  lift (respond (v2.rc_request_id context)
    match r with
    | collider.ResStatus status =>
        Some (v2.Success
          (v2.mk_Status
             (u64_of_usize (collider.st_rooms status))
             (u64_of_usize (collider.st_v2_rooms status))
             (u64_of_usize (collider.st_clients status))
             (u64_of_usize (collider.st_websocket_connections status))
             (collider.st_total_websocket_connections status)
             (collider.st_websocket_errors status)
             (u64_of_usize (collider.st_connected_sfu_instances status))
             (u64_of_usize (collider.st_ready_sfu_instances status))))
    | collider.ResError reason => Some (v2.Failed (domain_error reason))
    | _ => None
    end).

(** [admit_v2]. *)
Definition admit_v2 (random : bytes) (now : Instant) (request : v2.AdmitV2Request)
  : stateful S GrpcStatus v2.AdmitV2Response :=
  let! context := lift (app_context (v2.av2_context request)) in
  let! room_id := lift (parse_wire_room_id (v2.av2_room_id request)) in
  let! r := exec context (collider.OpAdmitV2 room_id (v2.av2_client_id request)
                            (new_admission_token random) now) in
  lift (respond (v2.rc_request_id context)
    match r with
    | collider.ResAdmittedV2 mode signal_epoch admission_token is_initiator =>
        Some (v2.Success (v2.mk_V2Admission (as_i32 (proto_room_mode mode)) signal_epoch
                            admission_token is_initiator))
    | collider.ResError reason => Some (v2.Failed (domain_error reason))
    | _ => None
    end).

(** [remove_v2]. *)
Definition remove_v2 (request : v2.RemoveV2Request) : stateful S GrpcStatus v2.OperationResponse :=
  let! context := lift (app_context (v2.rv2_context request)) in
  if is_empty (v2.rv2_admission_token request)
  then lift (Err (invalid_argument "admission_token must not be empty"))
  else
    let! room_id := lift (parse_wire_room_id (v2.rv2_room_id request)) in
    let! r := exec context (collider.OpRemoveV2 room_id (v2.rv2_client_id request)
                              (v2.rv2_admission_token request)) in
    lift (operation_response (v2.rc_request_id context) r).

(** [occupancy_v2]. *)
Definition occupancy_v2 (request : v2.OccupancyV2Request) : stateful S GrpcStatus v2.OccupancyResponse :=
  let! context := lift (app_context (v2.ov2_context request)) in
  let! room_id := lift (parse_wire_room_id (v2.ov2_room_id request)) in
  let! r := exec context (collider.OpOccupancyV2 room_id) in
  lift (respond (v2.rc_request_id context)
    match r with
    | collider.ResOccupancyV2 count mode =>
        Some (v2.Success (v2.mk_Occupancy (u64_of_usize count) (as_i32 (proto_room_mode mode))))
    | collider.ResError reason => Some (v2.Failed (domain_error reason))
    | _ => None
    end).
End handlers.

(** ** Translating an SFU session *)

(** [encode_signal]. *)
Definition encode_signal (signal : ssfu.Signal) : v2.SfuSignal :=
  v2.mk_SfuSignal (room_id_to_bytes (ssfu.g_room_id signal)) (ssfu.g_client_id signal)
    (ssfu.g_lifecycle_id signal) (ssfu.g_assignment_epoch signal) (ssfu.g_message_json signal)
    (ssfu.g_sdp_request_id signal).

(** [decode_signal]. *)
Definition decode_signal (signal : v2.SfuSignal) : result ssfu.Signal GrpcStatus :=
  if is_empty (v2.signal_message_json signal)
  then Err (invalid_argument "SFU signal message_json must not be empty")
  else
    let? room_id := parse_wire_room_id (v2.signal_room_id signal) in
    Ok (ssfu.mk_Signal room_id (v2.signal_client_id signal) (v2.signal_lifecycle_id signal)
          (v2.signal_assignment_epoch signal) (v2.signal_message_json signal)
          (v2.signal_sdp_request_id signal)).

(** The [CommandResult] arm of [decode_sfu_input], up to the tagging. *)
Definition decode_command_ok (ok : v2.SfuCommandOk) : result ssfu.CommandOk GrpcStatus :=
  match v2.ok_payload ok with
  | Some v2.Acknowledged => Ok ssfu.OkAcknowledged
  | Some (v2.PMemberJoined joined) =>
      let? room_id := parse_wire_room_id (v2.joined_room_id joined) in
      Ok (ssfu.OkMemberJoined (ssfu.mk_JoinMember room_id (v2.joined_client_id joined)
            (v2.joined_lifecycle_id joined) (v2.joined_assignment_epoch joined)))
  | Some (v2.PMemberLeft member) =>
      let? room_id := parse_wire_room_id (v2.left_room_id member) in
      Ok (ssfu.OkMemberLeft (ssfu.mk_LeaveMember room_id (v2.left_client_id member)
            (v2.left_lifecycle_id member) (v2.left_assignment_epoch member) ssfu.User))
  | Some (v2.PRoomSynced synced) =>
      let? room_id := parse_wire_room_id (v2.synced_room_id synced) in
      Ok (ssfu.OkRoomSynced (ssfu.mk_RoomSynced room_id (v2.synced_assignment_epoch synced)))
  | None => Ok ssfu.OkAcknowledged
  end.

(** The [Event] arm of [decode_sfu_input], up to the tagging. *)
Definition decode_event (event : option v2.Event) : result ssfu.EventKind GrpcStatus :=
  match event with
  | Some (v2.EvHealth health) =>
      let? capacity := ok_or (v2.health_capacity health) (invalid_argument "missing health capacity") in
      let? state := match try_from_i32 (v2.health_state health) with
                    | Some v2.StateReady => Ok ssfu.Ready
                    | Some v2.StateDraining => Ok ssfu.Draining
                    | _ => Err (invalid_argument "invalid SFU health state")
                    end in
      Ok (ssfu.KHealth (ssfu.mk_Health state
            (ssfu.mk_Capacity (v2.cap_max_rooms capacity) (v2.cap_max_clients capacity))
            (v2.health_current_rooms health) (v2.health_current_clients health)))
  | Some (v2.EvSignal signal) =>
      let? signal := decode_signal signal in
      Ok (ssfu.KSignalEvent signal)
  | Some (v2.EvFailure failure) =>
      let? error := ok_or (v2.failure_error failure) (invalid_argument "missing SFU failure error") in
      Ok (ssfu.KFailure (ssfu.mk_Error (v2.err_reason error) (v2.err_retryable error))
            (v2.failure_room_id failure ≫= room_id_from_bytes) (v2.failure_client_id failure)
            (v2.failure_lifecycle_id failure) (v2.failure_sdp_request_id failure))
  | None => Err (invalid_argument "missing SFU event")
  end.

(** [decode_sfu_input]. *)
Definition decode_sfu_input (now : Instant) (connection_id : N) (instance_id : string)
    (message : v2.SfuToSignaling) : result ssfu.Input GrpcStatus :=
  match v2.to_signaling message with
  | Some (v2.MsgRegister _) => Err (invalid_argument "RegisterSfu must appear exactly once")
  | Some (v2.MsgCommandResult r) =>
      if (v2.res_request_id r =? 0)%N
      then Err (invalid_argument "command result request_id must be nonzero")
      else
        let? value := match v2.res_result r with
                      | Some (v2.ResultOk ok) =>
                          let? payload := decode_command_ok ok in
                          Ok (Ok payload)
                      | Some (v2.ResultError error) =>
                          Ok (Err (ssfu.mk_Error (v2.err_reason error) (v2.err_retryable error)))
                      | None => Err (invalid_argument "missing command result")
                      end in
        Ok (ssfu.InCommandResult connection_id instance_id
              (ssfu.mk_CommandResult (v2.res_request_id r) value) now)
  | Some (v2.MsgEvent event) =>
      if (v2.event_request_id event =? 0)%N
      then Err (invalid_argument "event request_id must be nonzero")
      else
        let? kind := decode_event (v2.event_event event) in
        Ok (ssfu.InEvent connection_id instance_id
              (ssfu.mk_Event (v2.event_request_id event) kind))
  | None => Err (invalid_argument "empty SFU message")
  end.

(** The [Command] arm of [encode_sfu_output]. *)
Definition encode_command_kind (command : ssfu.CommandKind) : v2.Command :=
  match command with
  | ssfu.KSyncRoom sync =>
      v2.CmdSyncRoom (v2.mk_SyncRoom (room_id_to_bytes (ssfu.s_room_id sync))
        (ssfu.s_assignment_epoch sync)
        (map (λ member, v2.mk_MemberProjection (ssfu.m_client_id member) (ssfu.m_lifecycle_id member))
             (ssfu.s_members sync)))
  | ssfu.KJoin join =>
      v2.CmdJoin (v2.mk_JoinMember (room_id_to_bytes (ssfu.j_room_id join)) (ssfu.j_client_id join)
        (ssfu.j_lifecycle_id join) (ssfu.j_assignment_epoch join))
  | ssfu.KLeave leave =>
      v2.CmdLeave (v2.mk_LeaveMember (room_id_to_bytes (ssfu.l_room_id leave)) (ssfu.l_client_id leave)
        (ssfu.l_lifecycle_id leave) (ssfu.l_assignment_epoch leave) (as_i32 v2.ReasonUser))
  | ssfu.KSignal signal => v2.CmdSignal (encode_signal signal)
  end.

(** [encode_sfu_output]; [None] is the [unreachable!] arm. *)
Definition encode_sfu_output (output : ssfu.Output) : option v2.SignalingToSfu :=
  message ← match output with
    | ssfu.OutRegistered _ request_id health_interval_ms resumed =>
        Some (v2.MsgRegistered (v2.mk_Response (response_context request_id)
                (Some (v2.Success (v2.mk_SfuRegistered health_interval_ms resumed)))))
    | ssfu.OutRegistrationError _ request_id error =>
        Some (v2.MsgRegistered (v2.mk_Response (response_context request_id)
                (Some (v2.Failed (domain_error (ssfu.e_reason error))))))
    | ssfu.OutCommand _ command =>
        Some (v2.MsgCommand (v2.mk_SfuCommand (ssfu.k_request_id command)
                (Some (encode_command_kind (ssfu.k_command command)))))
    | ssfu.OutEventAck _ request_id => Some (v2.MsgEventAck request_id)
    | ssfu.OutClose _ => None
    end;
  Some (v2.mk_SignalingToSfu (Some message)).
End grpc_server.
