(* ===== verification/GrpcSession.v ===== *)
(** * One SFU session of the signaling process
      ([open_sfu_session] of [src/src/grpc_server.rs])

    Opening: the first message must register the worker.  Then a task joins the
    worker's stream, the driver's output channel and the driver's command
    channel until one of them ends. *)

From S2P Require Import Prelude Wire RoomIds Driver GrpcServer.

Section session.
Context `{L : RoomIdLib, P : v2.ProtoEnums}.

(** What [timeout(AUTHORITY_TIMEOUT, inbound.message())] yields. *)
Inductive FirstMessage :=
  | FirstTimeout
  | FirstError (status : GrpcStatus)
  | FirstEnd
  | First (message : v2.SfuToSignaling).

(** The validation of the first message: the context and the capacity. *)
Definition registration (first : FirstMessage) : result (v2.RequestContext * v2.SfuCapacity) GrpcStatus :=
  let? first := match first with
                | FirstTimeout => Err (deadline_exceeded "timed out waiting for RegisterSfu")
                | FirstError status => Err status
                | FirstEnd => Err (invalid_argument "missing RegisterSfu")
                | First message => Ok message
                end in
  let? register := match v2.to_signaling first with
                   | Some (v2.MsgRegister register) => Ok register
                   | _ => Err (invalid_argument "RegisterSfu must be the first message")
                   end in
  let? context := sfu_context (v2.reg_context register) in
  let? capacity := ok_or (v2.reg_capacity register) (invalid_argument "missing SFU capacity") in
  if (v2.cap_max_rooms capacity =? 0)%N || (v2.cap_max_clients capacity =? 0)%N
  then Err (invalid_argument "SFU capacity limits must be nonzero")
  else Ok (context, capacity).

(** [next_sfu_connection_id.fetch_add(1).max(1)]; the state is the counter. *)
Definition next_connection : stateful N GrpcStatus N :=
  λ counter, let '(value, next) := fetch_add counter 1 in (next, Ok (N.max value 1)).

(** [open_sfu_session] up to the spawn: the command the driver receives.
    [domain_tx] is the new output channel; [accepted] is whether the driver
    still takes commands. *)
Definition open_sfu_session (first : FirstMessage) (domain_tx : chan_id) (accepted : bool)
  : stateful N GrpcStatus DriverCommand :=
  let! registered := lift (registration first) in
  let! connection_id := next_connection in
  if accepted
  then lift (Ok (SfuConnected
         (ssfu.InRegister connection_id (v2.rc_instance_id registered.1) (v2.rc_request_id registered.1)
            (ssfu.mk_Capacity (v2.cap_max_rooms registered.2) (v2.cap_max_clients registered.2)))
         domain_tx))
  else lift (Err (unavailable "signaling authority stopped")).

(** ** The session task *)

(** One turn of the [select!]: a receive from the worker (an error, the end of
    the stream or a message), or from the driver ([None] when its sender is
    gone).  [delivered] is whether the send of that turn succeeds. *)
Inductive Turn :=
  | Incoming (incoming : result (option v2.SfuToSignaling) GrpcStatus) (now : Instant) (delivered : bool)
  | Outgoing (output : option ssfu.Output) (delivered : bool).

Inductive Verdict := Continue | Break | Panic.

(** What the task has sent to the driver and to the worker's stream. *)
Record Sent := mk_Sent {
  to_driver : list DriverCommand;
  to_wire : list (result v2.SignalingToSfu GrpcStatus);
}.

Definition sent_driver (s : Sent) (command : DriverCommand) : Sent :=
  mk_Sent (to_driver s ++ [command]) (to_wire s).

Definition sent_wire (s : Sent) (m : result v2.SignalingToSfu GrpcStatus) : Sent :=
  mk_Sent (to_driver s) (to_wire s ++ [m]).

(** One iteration of the loop. *)
Definition session_turn (connection_id : N) (instance_id : string) (t : Turn) (s : Sent)
  : Sent * Verdict :=
  match t with
  | Incoming (Ok (Some message)) now delivered =>
      match decode_sfu_input now connection_id instance_id message with
      | Ok input => if delivered then (sent_driver s (SfuInput input), Continue) else (s, Break)
      | Err status => (if delivered then sent_wire s (Err status) else s, Break)
      end
  | Incoming (Ok None) _ _ => (s, Break)
  | Incoming (Err _) _ _ => (s, Break)
  | Outgoing None _ => (s, Break)
  | Outgoing (Some (ssfu.OutClose _)) _ => (s, Break)
  | Outgoing (Some output) delivered =>
      match encode_sfu_output output with
      | None => (s, Panic)
      | Some message => if delivered then (sent_wire s (Ok message), Continue) else (s, Break)
      end
  end.

Fixpoint session_loop (connection_id : N) (instance_id : string) (ts : list Turn) (s : Sent)
  : Sent * Verdict :=
  match ts with
  | [] => (s, Continue)
  | t :: ts' =>
      match session_turn connection_id instance_id t s with
      | (s', Continue) => session_loop connection_id instance_id ts' s'
      | other => other
      end
  end.

(** The spawned task: the loop, then the notice to the driver.  Its verdict is
    [Continue] while the turns so far have not ended it. *)
Definition session_task (connection_id : N) (instance_id : string) (ts : list Turn) (closed_at : Instant)
  : Sent * Verdict :=
  match session_loop connection_id instance_id ts (mk_Sent [] []) with
  | (s, Break) =>
      (sent_driver s (SfuInput (ssfu.InDisconnected connection_id instance_id closed_at)), Break)
  | other => other
  end.
End session.
