(* ===== verification/GrpcServerSpec.v ===== *)
(** * What the gRPC service promises

    Which contexts are accepted, that an invalid request is never executed, that
    a response answers its own request, what an SFU session lets through, and
    the shape of admission tokens. *)

From S2P Require Import Prelude Wire RoomIds Samples Driver GrpcServer GrpcSession.
From Stdlib Require Import Strings.Byte.

(** ** Admission tokens *)

Definition is_hex (c : Ascii.ascii) : bool :=
  let n := byte_value c in
  ((48 <=? n) && (n <=? 57) || (97 <=? n) && (n <=? 102))%N.

Fixpoint hex_of (b : bytes) : string :=
  match b with [] => EmptyString | x :: b' => show_hex2 x +:+ hex_of b' end.

Lemma new_admission_token_hex b : new_admission_token b = hex_of b.
Proof.
  unfold new_admission_token.
  assert (H : ∀ acc, foldl (λ token b, token +:+ show_hex2 b) acc b = acc +:+ hex_of b); [|apply H].
  induction b as [|x b IH]; intros acc; cbn [foldl hex_of]; [by rewrite string_app_nil_r|].
  by rewrite IH, string_app_assoc.
Qed.

Lemma show_hex2_inj x y : show_hex2 x = show_hex2 y → x = y.
Proof.
  intros Hxy.
  assert (Hdec : ∀ b, Byte.of_N (match show_hex2 b with
    | String c (String d _) =>
        let v e := (if byte_value e <? 58 then byte_value e - 48 else byte_value e - 87)%N in
        (v c * 16 + v d)%N
    | _ => 0%N end) = Some b) by (intros []; reflexivity).
  pose proof (Hdec x) as Hx. rewrite Hxy, (Hdec y) in Hx. by simplify_eq.
Qed.

Lemma show_hex2_is_hex x : string_forallb is_hex (show_hex2 x) = true.
Proof. destruct x; reflexivity. Qed.

Lemma hex_of_inj a b : hex_of a = hex_of b → a = b.
Proof.
  revert b. induction a as [|x a IH]; intros [|y b]; [done|discriminate|discriminate|].
  cbn [hex_of]. unfold show_hex2. rewrite !string_app_cons. intros [= H1 H2 H3].
  f_equal; [|by apply IH]. apply show_hex2_inj. unfold show_hex2. by rewrite H1, H2.
Qed.

(** An admission token is two lower-case hex digits for each random byte, and distinct bytes
    give distinct tokens. *)
Theorem admission_token_shape random :
  String.length (new_admission_token random) = (2 * length random)%nat ∧
  string_forallb is_hex (new_admission_token random) = true ∧
  (∀ random', new_admission_token random = new_admission_token random' → random = random').
Proof.
  setoid_rewrite new_admission_token_hex. split_and!; [| |apply hex_of_inj].
  - induction random as [|x b IH]; [done|]. cbn [hex_of length].
    rewrite length_string_app, IH. unfold show_hex2. cbn. lia.
  - induction random as [|x b IH]; [done|]. cbn [hex_of].
    by rewrite string_forallb_app, show_hex2_is_hex, IH.
Qed.

Section grpc_server_spec.
Context `{L : RoomIdLib, P : v2.ProtoEnums}.

(** ** Contexts *)

Definition valid_context (app : v2.AppId) (c : option v2.RequestContext) (ctx : v2.RequestContext) : Prop :=
  c = Some ctx ∧ v2.rc_app_id ctx = as_i32 app ∧ v2.rc_instance_id ctx ≠ EmptyString ∧
  v2.rc_request_id ctx ≠ 0%N.

Lemma is_empty_spec s : is_empty s = true ↔ s = EmptyString.
Proof. by destruct s. Qed.

Lemma app_context_spec c ctx : app_context c = Ok ctx ↔ valid_context v2.Apprtc c ctx.
Proof.
  unfold app_context, valid_context. destruct c as [c|]; cbn; [|naive_solver].
  destruct (Z.eqb_spec (v2.rc_app_id c) (as_i32 v2.Apprtc)), (is_empty (v2.rc_instance_id c)) eqn:Hi,
    (N.eqb_spec (v2.rc_request_id c) 0); cbn; rewrite ?is_empty_spec in Hi;
    split; try (intros [= <-]); try (intros (? & ? & ? & ?); simplify_eq); try done.
  split_and!; try done. by intros ?%is_empty_spec; congruence.
Qed.

Lemma sfu_context_spec c ctx : sfu_context c = Ok ctx ↔ valid_context v2.Sfu c ctx.
Proof.
  unfold sfu_context, valid_context. destruct c as [c|]; cbn; [|naive_solver].
  destruct (Z.eqb_spec (v2.rc_app_id c) (as_i32 v2.Sfu)), (is_empty (v2.rc_instance_id c)) eqn:Hi,
    (N.eqb_spec (v2.rc_request_id c) 0); cbn; rewrite ?is_empty_spec in Hi;
    split; try (intros [= <-]); try (intros (? & ? & ? & ?); simplify_eq); try done.
  split_and!; try done. by intros ?%is_empty_spec; congruence.
Qed.

(** Each of the two services accepts exactly the valid contexts of its own application, so none
    is accepted by both. *)
Theorem contexts_separate {laws : v2.ProtoEnumsLaws P} c :
  (∀ ctx, app_context c = Ok ctx ↔ valid_context v2.Apprtc c ctx) ∧
  (∀ ctx, sfu_context c = Ok ctx ↔ valid_context v2.Sfu c ctx) ∧
  (∀ a b, app_context c = Ok a → sfu_context c = Ok b → False).
Proof.
  split_and!; [intros; apply app_context_spec|intros; apply sfu_context_spec|].
  intros a b (-> & Ha & _)%app_context_spec ([= <-] & Hb & _)%sfu_context_spec.
  rewrite Ha in Hb. by apply as_i32_inj in Hb.
Qed.

(** ** Unary requests *)

(** A request to any of the eight unary methods, and its response. *)
Inductive Unary :=
  | UAdmitV1 (r : v2.AdmitV1Request) | URemoveV1 (r : v2.RemoveV1Request)
  | UOccupancyV1 (r : v2.OccupancyV1Request) | UInjectV1 (r : v2.InjectV1Request)
  | UStatus (r : v2.StatusRequest) | UAdmitV2 (r : v2.AdmitV2Request)
  | URemoveV2 (r : v2.RemoveV2Request) | UOccupancyV2 (r : v2.OccupancyV2Request).

Inductive UnaryResponse :=
  | RAdmitV1 (r : v2.AdmitV1Response) | RAdmitV2 (r : v2.AdmitV2Response)
  | ROccupancy (r : v2.OccupancyResponse) | RStatus (r : v2.StatusResponse)
  | ROperation (r : v2.OperationResponse).

Definition serve {S} exec (random : bytes) (now : Instant) (u : Unary) : stateful S GrpcStatus UnaryResponse :=
  match u with
  | UAdmitV1 r => let! x := admit_v1 exec now r in lift (Ok (RAdmitV1 x))
  | URemoveV1 r => let! x := remove_v1 exec r in lift (Ok (ROperation x))
  | UOccupancyV1 r => let! x := occupancy_v1 exec r in lift (Ok (ROccupancy x))
  | UInjectV1 r => let! x := inject_v1 exec now r in lift (Ok (ROperation x))
  | UStatus r => let! x := get_status exec r in lift (Ok (RStatus x))
  | UAdmitV2 r => let! x := admit_v2 exec random now r in lift (Ok (RAdmitV2 x))
  | URemoveV2 r => let! x := remove_v2 exec r in lift (Ok (ROperation x))
  | UOccupancyV2 r => let! x := occupancy_v2 exec r in lift (Ok (ROccupancy x))
  end.

Definition unary_context (u : Unary) : option v2.RequestContext :=
  match u with
  | UAdmitV1 r => v2.av1_context r | URemoveV1 r => v2.rv1_context r
  | UOccupancyV1 r => v2.ov1_context r | UInjectV1 r => v2.iv1_context r
  | UStatus r => v2.st_context r | UAdmitV2 r => v2.av2_context r
  | URemoveV2 r => v2.rv2_context r | UOccupancyV2 r => v2.ov2_context r
  end.

(** The operation a request stands for, when its fields are acceptable. *)
Definition unary_operation (random : bytes) (now : Instant) (u : Unary)
  : option collider.AuthorityOperation :=
  match u with
  | UAdmitV1 (v2.mk_AdmitV1Request _ room client loopback) =>
      if decide (room = EmptyString ∨ client = EmptyString) then None
      else Some (collider.OpAdmit room client loopback now)
  | URemoveV1 (v2.mk_RemoveV1Request _ room client) =>
      if decide (room = EmptyString ∨ client = EmptyString) then None
      else Some (collider.OpRemove room client)
  | UOccupancyV1 (v2.mk_OccupancyV1Request _ room) =>
      if decide (room = EmptyString) then None else Some (collider.OpOccupancy room)
  | UInjectV1 (v2.mk_InjectV1Request _ room client message) =>
      if decide (room = EmptyString ∨ client = EmptyString ∨ message = EmptyString) then None
      else Some (collider.OpInject room client message now)
  | UStatus _ => Some collider.OpStatus
  | UAdmitV2 (v2.mk_AdmitV2Request _ room client) =>
      r ← room_id_from_bytes room;
      Some (collider.OpAdmitV2 r client (new_admission_token random) now)
  | URemoveV2 (v2.mk_RemoveV2Request _ room client token) =>
      r ← room_id_from_bytes room;
      if decide (token = EmptyString) then None else Some (collider.OpRemoveV2 r client token)
  | UOccupancyV2 (v2.mk_OccupancyV2Request _ room) =>
      r ← room_id_from_bytes room; Some (collider.OpOccupancyV2 r)
  end.

(** The results that answer an operation. *)
Definition answers (op : collider.AuthorityOperation) (r : collider.AuthorityResult) : bool :=
  match op, r with
  | _, collider.ResError _ => true
  | collider.OpAdmit _ _ _ _, collider.ResAdmitted _ _ => true
  | collider.OpOccupancy _, collider.ResOccupancy _ => true
  | collider.OpAdmitV2 _ _ _ _, collider.ResAdmittedV2 _ _ _ _ => true
  | collider.OpOccupancyV2 _, collider.ResOccupancyV2 _ _ => true
  | collider.OpStatus, collider.ResStatus _ => true
  | (collider.OpRemove _ _ | collider.OpInject _ _ _ _ | collider.OpRemoveV2 _ _ _),
    (collider.ResRemoved | collider.ResRemovedV2 | collider.ResInjected) => true
  | _, _ => false
  end.

(** The error arm of a response, its echoed request id, and whether it carries a
    result at all. *)
Definition outcome_error {A} (o : option (v2.Outcome A)) : option (option v2.Error) :=
  (λ x, match x with v2.Success _ => None | v2.Failed e => Some e end) <$> o.

Definition response_view (r : UnaryResponse) : option v2.ResponseContext * option (option v2.Error) :=
  match r with
  | RAdmitV1 r => (v2.rsp_context r, outcome_error (v2.rsp_result r))
  | RAdmitV2 r => (v2.rsp_context r, outcome_error (v2.rsp_result r))
  | ROccupancy r => (v2.rsp_context r, outcome_error (v2.rsp_result r))
  | RStatus r => (v2.rsp_context r, outcome_error (v2.rsp_result r))
  | ROperation r => (v2.rsp_context r, outcome_error (v2.rsp_result r))
  end.

Definition error_of (r : collider.AuthorityResult) : option v2.Error :=
  match r with collider.ResError reason => Some (domain_error reason) | _ => None end.

(** A rejection: the state is untouched, [execute] plays no part, and the client
    is told so. *)
Definition refused (m : ∀ S, (v2.RequestContext → collider.AuthorityOperation →
                              stateful S GrpcStatus collider.AuthorityResult) →
                             stateful S GrpcStatus UnaryResponse) : Prop :=
  ∃ e, (gs_code e = CodeInvalidArgument ∨ gs_code e = CodePermissionDenied) ∧
       ∀ (S : Type) exec (s : S), m S exec s = (s, Err e).

Lemma app_context_error c e :
  app_context c = Err e → gs_code e = CodeInvalidArgument ∨ gs_code e = CodePermissionDenied.
Proof.
  unfold app_context. destruct c; cbn; [|intros [= <-]; by left].
  repeat (case_match; try done); intros; simplify_eq; cbn; auto.
Qed.

Lemma is_empty_decide s : is_empty s = bool_decide (s = EmptyString).
Proof. by destruct s. Qed.

(** Evaluate a handler under [app_context]'s verdict [H]. *)
Ltac run_handler H :=
  unfold serve, admit_v1, remove_v1, occupancy_v1, inject_v1, get_status, admit_v2, remove_v2,
    occupancy_v2, st_bind, lift, parse_wire_room_id; cbn; rewrite H; cbn;
  rewrite ?is_empty_decide; rewrite ?bool_decide_true by done; rewrite ?orb_true_r; cbn.

Lemma invalid_fields_refused random now u ctx :
  app_context (unary_context u) = Ok ctx → unary_operation random now u = None →
  refused (λ S exec, serve exec random now u).
Proof.
  intros Hctx Hbad. unfold refused.
  destruct u as [[? room client ?]|[? room client]|[? room]|[? room client m]|[]|[? room ?]
                |[? room ? token]|[? room]]; cbn in Hctx, Hbad;
    try (destruct (room_id_from_bytes room) as [r|] eqn:Hr; cbn in Hbad);
    try (case_decide; [destruct_or?; subst|done]); try done;
    try destruct (is_empty token) eqn:Ht;
    (eexists; split; [|intros S exec s; run_handler Hctx; rewrite ?Hr; rewrite ?is_empty_decide in *;
      rewrite ?Ht; reflexivity]); cbn; auto.
Qed.

(** C26: A request whose context or arguments are invalid is answered with an error and never
    executed: whatever [execute] would do, the answer is the same and the state is untouched. *)
Theorem invalid_requests_not_executed random now u :
  (∀ ctx, app_context (unary_context u) ≠ Ok ctx) ∨ unary_operation random now u = None →
  refused (λ S exec, serve exec random now u).
Proof.
  intros Hbad. destruct (app_context (unary_context u)) as [ctx|e] eqn:Hctx.
  - destruct Hbad as [Hbad|Hbad]; [by destruct (Hbad ctx)|]. by eapply invalid_fields_refused.
  - eexists. split; [by eapply app_context_error|].
    intros S exec s. destruct u as [[]|[]|[]|[]|[]|[]|[]|[]]; cbn in *; unfold st_bind, lift; cbn;
      by rewrite Hctx.
Qed.

(** A valid request is executed once, and its answer echoes the request id and carries the
    authority's outcome, or is an internal error when the outcome does not fit the operation. *)
Theorem valid_requests_answered {S} exec (s : S) random now u ctx op :
  app_context (unary_context u) = Ok ctx → unary_operation random now u = Some op →
  match exec ctx op s with
  | (s', Err e) => serve exec random now u s = (s', Err e)
  | (s', Ok r) =>
      if answers op r
      then ∃ response, serve exec random now u s = (s', Ok response) ∧
             response_view response =
               (Some (v2.mk_ResponseContext (v2.rc_request_id ctx)), Some (error_of r))
      else serve exec random now u s = (s', Err unexpected_response)
  end.
Proof.
  intros Hctx Hop.
  destruct u as [[? room client ?]|[? room client]|[? room]|[? room client m]|[]|[? room ?]
                |[? room ? token]|[? room]]; cbn in Hctx, Hop;
    try (destruct (room_id_from_bytes room) as [r|] eqn:Hr; cbn in Hop; [|done]);
    try (case_decide as Hne; [done|]; repeat (apply Decidable.not_or in Hne as [? Hne])); simplify_eq.
  all: destruct (exec _ _ s) as [s' [res|e]] eqn:He.
  all: try (run_handler Hctx; rewrite ?bool_decide_false by done; rewrite ?Hr; cbn; by rewrite He).
  all: destruct res; cbn [answers]; try eexists.
  all: try (run_handler Hctx; rewrite ?bool_decide_false by done; rewrite ?Hr; cbn; rewrite ?He; cbn; done).
Qed.

(** ** Signals *)

(** C37: Encoding a relayed signal and decoding it gives the signal back, for valid rooms and
    non-empty messages, and whatever decodes is encoded to the same bytes. *)
Theorem signal_roundtrip {laws : RoomIdLaws L} :
  (∀ g, is_room_uuid (ssfu.g_room_id g) = true → ssfu.g_message_json g ≠ EmptyString →
     decode_signal (encode_signal g) = Ok g) ∧
  (∀ w g, decode_signal w = Ok g → encode_signal g = w).
Proof.
  split.
  - intros [room client life epoch msg sdp] Hr Hm. cbn in *. unfold decode_signal, encode_signal, parse_wire_room_id; cbn.
    destruct (is_empty msg) eqn:He; [by apply is_empty_spec in He|]. by rewrite room_id_from_to_bytes.
  - intros [room client life epoch msg sdp] g. unfold decode_signal, parse_wire_room_id; cbn.
    destruct (is_empty msg); [done|]. destruct (room_id_from_bytes room) as [r|] eqn:Hr; cbn; [|done].
    intros [= <-]. unfold encode_signal; cbn. f_equal. by apply room_id_from_bytes_Some in Hr as (_ & _ & ?).
Qed.

(** ** What a session lets through to the state machine *)

Definition input_rooms (i : ssfu.Input) : list RoomId :=
  match i with
  | ssfu.InCommandResult _ _ (ssfu.mk_CommandResult _ r) _ =>
      match r with
      | Ok (ssfu.OkMemberJoined j) => [ssfu.j_room_id j]
      | Ok (ssfu.OkMemberLeft l) => [ssfu.l_room_id l]
      | Ok (ssfu.OkRoomSynced s) => [ssfu.rs_room_id s]
      | _ => []
      end
  | ssfu.InEvent _ _ (ssfu.mk_Event _ k) =>
      match k with
      | ssfu.KSignalEvent g => [ssfu.g_room_id g]
      | ssfu.KFailure _ (Some r) _ _ _ => [r]
      | _ => []
      end
  | _ => []
  end.

(** Sent by the worker of this session, correlated, and over valid rooms. *)
Definition from_worker (connection_id : N) (instance_id : string) (i : ssfu.Input) : Prop :=
  Forall (λ r, is_room_uuid r = true) (input_rooms i) ∧
  match i with
  | ssfu.InCommandResult c inst r _ =>
      c = connection_id ∧ inst = instance_id ∧ ssfu.cr_request_id r ≠ 0%N
  | ssfu.InEvent c inst e =>
      c = connection_id ∧ inst = instance_id ∧ ssfu.e_request_id e ≠ 0%N ∧
      match ssfu.e_event e with
      | ssfu.KSignalEvent g => ssfu.g_message_json g ≠ EmptyString
      | _ => True
      end
  | _ => False
  end.

Lemma room_id_from_bytes_valid b r : room_id_from_bytes b = Some r → is_room_uuid r = true.
Proof.
  unfold room_id_from_bytes. destruct (try_into_16 b); [|done].
  case_match eqn:Hr; [|done]. by intros [= <-].
Qed.

Lemma parse_wire_room_id_valid b r : parse_wire_room_id b = Ok r → is_room_uuid r = true.
Proof.
  unfold parse_wire_room_id. destruct (room_id_from_bytes b) eqn:Hb; cbn; [|done].
  intros [= <-]. by eapply room_id_from_bytes_valid.
Qed.

Lemma decode_signal_valid w g :
  decode_signal w = Ok g → is_room_uuid (ssfu.g_room_id g) = true ∧ ssfu.g_message_json g ≠ EmptyString.
Proof.
  unfold decode_signal. destruct (is_empty _) eqn:He; [done|].
  destruct (parse_wire_room_id _) eqn:Hr; [|done]. intros [= <-]. cbn. split.
  - by eapply parse_wire_room_id_valid.
  - by intros ?%is_empty_spec; congruence.
Qed.

Lemma decode_command_ok_valid now c inst ok payload rid :
  decode_command_ok ok = Ok payload →
  Forall (λ r, is_room_uuid r = true)
    (input_rooms (ssfu.InCommandResult c inst (ssfu.mk_CommandResult rid (Ok payload)) now)).
Proof.
  unfold decode_command_ok. destruct (v2.ok_payload ok) as [[|m|m|m]|]; intros Hd;
    try (destruct (parse_wire_room_id _) as [r|] eqn:Hr; [apply parse_wire_room_id_valid in Hr|done]);
    simplify_eq/=; by repeat constructor.
Qed.

Lemma decode_event_valid c inst e kind rid :
  decode_event e = Ok kind →
  Forall (λ r, is_room_uuid r = true) (input_rooms (ssfu.InEvent c inst (ssfu.mk_Event rid kind))) ∧
  match kind with ssfu.KSignalEvent g => ssfu.g_message_json g ≠ EmptyString | _ => True end.
Proof.
  unfold decode_event. destruct e as [[h|w|f]|]; [| | |done].
  - destruct (v2.health_capacity h); cbn; [|done].
    repeat case_match; intros; simplify_eq/=; by repeat constructor.
  - destruct (decode_signal w) as [g|] eqn:Hg; [|done]. intros [= <-].
    apply decode_signal_valid in Hg as [??]. split; [by repeat constructor|done].
  - destruct (v2.failure_error f); cbn; [|done]. intros [= <-]. split; [|done].
    destruct (v2.failure_room_id f ≫= room_id_from_bytes) as [r|] eqn:Hr; cbn; [|constructor].
    apply bind_Some in Hr as (b & _ & Hr). repeat constructor. by eapply room_id_from_bytes_valid.
Qed.

Lemma decode_sfu_input_from_worker now c inst m i :
  decode_sfu_input now c inst m = Ok i → from_worker c inst i.
Proof.
  unfold decode_sfu_input, from_worker. destruct (v2.to_signaling m) as [[r|r|e]|]; [done| | |done].
  - destruct (N.eqb_spec (v2.res_request_id r) 0); [done|].
    destruct (v2.res_result r) as [[ok|err]|]; [| |done].
    + destruct (decode_command_ok ok) as [p|] eqn:Hp; [|done]. intros [= <-].
      split; [|done]. by apply (decode_command_ok_valid now c inst ok p).
    + intros [= <-]. split; [constructor|done].
  - destruct (N.eqb_spec (v2.event_request_id e) 0); [done|].
    destruct (decode_event (v2.event_event e)) as [k|] eqn:Hk; [|done]. intros [= <-].
    apply (decode_event_valid c inst _ _ (v2.event_request_id e)) in Hk as [??]. by split_and!.
Qed.

(** ** The session task *)

Definition incoming_of (ts : list Turn) : list (Instant * v2.SfuToSignaling) :=
  ts ≫= λ t, match t with Incoming (Ok (Some m)) now _ => [(now, m)] | _ => [] end.

Definition outgoing_of (ts : list Turn) : list ssfu.Output :=
  ts ≫= λ t, match t with Outgoing (Some o) _ => [o] | _ => [] end.

Definition decode_at (c : N) (inst : string) (p : Instant * v2.SfuToSignaling) :=
  decode_sfu_input p.1 c inst p.2.

(** The inputs sent are the decodings of the first messages received, the
    messages sent are the encodings of the first outputs received, and at most
    one error follows them, when the session ends. *)
Record relayed (c : N) (inst : string) (ts : list Turn) (s s' : Sent) (v : Verdict) : Prop := {
  relayed_inputs : ∃ inputs ms rest,
    to_driver s' = to_driver s ++ (SfuInput <$> inputs) ∧
    incoming_of ts = ms ++ rest ∧ decode_at c inst <$> ms = Ok <$> inputs ∧
    (v = Continue → rest = []);
  relayed_outputs : ∃ wires os rest last,
    to_wire s' = to_wire s ++ (Ok <$> wires) ++ last ∧
    outgoing_of ts = os ++ rest ∧ encode_sfu_output <$> os = Some <$> wires ∧
    (v = Continue → rest = [] ∧ last = []) ∧
    (last = [] ∨ ∃ e, last = [Err e] ∧ v = Break);
  relayed_no_panic : v ≠ Panic;
}.

Lemma encode_sfu_output_total o :
  (∀ i, o ≠ ssfu.OutClose i) → is_Some (encode_sfu_output o).
Proof. destruct o as [| | | |i]; cbn; eauto. intros H. by destruct (H i). Qed.

(** A turn that ends the session relays nothing more of the input. *)
Lemma relayed_break c inst t ts s :
  relayed c inst (t :: ts) s s Break.
Proof.
  split; [| |done].
  - exists [], [], (incoming_of (t :: ts)). rewrite app_nil_r. by split_and!.
  - exists [], [], (outgoing_of (t :: ts)), []. rewrite !app_nil_r. split_and!; auto; done.
Qed.

Lemma relayed_error c inst t ts s e :
  relayed c inst (t :: ts) s (sent_wire s (Err e)) Break.
Proof.
  split; [| |done].
  - exists [], [], (incoming_of (t :: ts)). rewrite app_nil_r. by split_and!.
  - exists [], [], (outgoing_of (t :: ts)), [Err e]. split_and!; eauto; done.
Qed.

Lemma relayed_input c inst ts s s' v m now d input :
  decode_sfu_input now c inst m = Ok input →
  relayed c inst ts (sent_driver s (SfuInput input)) s' v →
  relayed c inst (Incoming (Ok (Some m)) now d :: ts) s s' v.
Proof.
  intros Hd [(inputs & ms & rest & H1 & H2 & H3 & H4) Hout Hp]. split; [|exact Hout|exact Hp].
  exists (input :: inputs), ((now, m) :: ms), rest. cbn in *. unfold decode_at at 1. cbn.
  rewrite H1, Hd, H3, <- app_assoc. split_and!; [done| |done|done]. by f_equal.
Qed.

Lemma relayed_output c inst ts s s' v o d w :
  encode_sfu_output o = Some w →
  relayed c inst ts (sent_wire s (Ok w)) s' v →
  relayed c inst (Outgoing (Some o) d :: ts) s s' v.
Proof.
  intros He [Hin (ws & os & rest & last & H1 & H2 & H3 & H4 & H5) Hp]. split; [exact Hin| |exact Hp].
  exists (w :: ws), (o :: os), rest, last. cbn in *. rewrite H1, He, H3, <- app_assoc.
  split_and!; [done| |done|done|done]. by f_equal.
Qed.

Lemma session_loop_relayed c inst ts s s' v :
  session_loop c inst ts s = (s', v) → relayed c inst ts s s' v.
Proof.
  revert s. induction ts as [|t ts IH]; intros s; cbn [session_loop].
  { intros [= <- <-]. split; [| |done].
    - exists [], [], []. rewrite app_nil_r. by split_and!.
    - exists [], [], [], []. rewrite !app_nil_r. split_and!; auto; done. }
  destruct t as [[[m|]|e] now d|[o|] d]; cbn [session_turn];
    try (intros [= <- <-]; apply relayed_break).
  - destruct (decode_sfu_input now c inst m) as [input|e] eqn:Hd; destruct d;
      try (intros [= <- <-]; first [apply relayed_break|apply relayed_error]).
    intros Hl. eapply relayed_input; [done|by apply IH].
  - destruct o as [| | | |i]; cbn [session_turn];
      [..|intros [= <- <-]; apply relayed_break];
      match goal with |- context [encode_sfu_output ?o] =>
        destruct (encode_sfu_output_total o) as [w Hw]; [done|] end;
      rewrite Hw; destruct d; try (intros [= <- <-]; apply relayed_break);
      intros Hl; (eapply relayed_output; [exact Hw|by apply IH]).
Qed.

Lemma relayed_from_worker c inst ms inputs :
  decode_at c inst <$> ms = Ok <$> inputs → Forall (from_worker c inst) inputs.
Proof.
  revert inputs. induction ms as [|m ms IH]; intros [|i inputs] H; try done.
  cbn in H. injection H as Hi Hr. constructor; [by eapply decode_sfu_input_from_worker|by apply IH].
Qed.

(** C15: The task of one SFU session relays the worker's messages to the event loop in order,
    each decoded under the session's identity, and the event loop's outputs to the worker in
    order; it reports the disconnection once, last, when it ends; and it never panics. *)
Theorem session_protocol c inst ts t :
  let '(s, v) := session_task c inst ts t in
  v ≠ Panic ∧
  (∃ inputs, Forall (from_worker c inst) inputs ∧
     to_driver s = (SfuInput <$> inputs) ++
       (if v is Break then [SfuInput (ssfu.InDisconnected c inst t)] else []) ∧
     ∃ ms rest, incoming_of ts = ms ++ rest ∧ decode_at c inst <$> ms = Ok <$> inputs ∧
       (v = Continue → rest = [])) ∧
  (∃ wires last, to_wire s = (Ok <$> wires) ++ last ∧
     (last = [] ∨ ∃ e, last = [Err e] ∧ v = Break) ∧
     ∃ os rest, outgoing_of ts = os ++ rest ∧ encode_sfu_output <$> os = Some <$> wires ∧
       (v = Continue → rest = [])).
Proof.
  unfold session_task. destruct (session_loop c inst ts (mk_Sent [] [])) as [s v] eqn:Hl.
  apply session_loop_relayed in Hl as [(inputs & ms & rest & H1 & H2 & H3 & H4)
    (ws & os & rest' & last & K1 & K2 & K3 & K4 & K5) Hp].
  pose proof (relayed_from_worker _ _ _ _ H3) as Hw. cbn in H1, K1.
  assert (Hout : ∃ wires last, to_wire s = (Ok <$> wires) ++ last ∧
     (last = [] ∨ ∃ e, last = [Err e] ∧ v = Break) ∧
     ∃ os rest, outgoing_of ts = os ++ rest ∧ encode_sfu_output <$> os = Some <$> wires ∧
       (v = Continue → rest = [])) by (exists ws, last; naive_solver).
  destruct v; [| |done]; (split; [done|split; [|exact Hout]]); exists inputs;
    (split; [done|split; [|by eauto 10]]); cbn [to_driver sent_driver]; by rewrite H1, ?app_nil_r.
Qed.

(** ** Opening sessions *)

(** Opening sessions in turn, with the connection ids registered. *)
Fixpoint open_all (rs : list (FirstMessage * chan_id * bool)) (counter : N) : N * list N :=
  match rs with
  | [] => (counter, [])
  | (first, ch, accepted) :: rs' =>
      let '(counter1, r) := open_sfu_session first ch accepted counter in
      let '(counter2, ids) := open_all rs' counter1 in
      (counter2, match r with
                 | Ok (SfuConnected input _) => (from_option (λ i, [i]) [] (register_connection_id input)) ++ ids
                 | _ => ids
                 end)
  end.

Lemma open_sfu_session_spec first ch accepted n :
  (0 < n)%N → is_u64 (n + 1) →
  match registration first with
  | Err e => open_sfu_session first ch accepted n = (n, Err e)
  | Ok (ctx, cap) =>
      open_sfu_session first ch accepted n =
        (n + 1, if accepted
                then Ok (SfuConnected (ssfu.InRegister n (v2.rc_instance_id ctx) (v2.rc_request_id ctx)
                       (ssfu.mk_Capacity (v2.cap_max_rooms cap) (v2.cap_max_clients cap))) ch)
                else Err (unavailable "signaling authority stopped"))%N
  end.
Proof.
  intros Hn Hu. unfold open_sfu_session, st_bind, lift, next_connection, fetch_add; cbn.
  destruct (registration first) as [[ctx cap]|e]; [|done].
  rewrite N.max_l, wrap64_small by (done || lia). by destruct accepted.
Qed.

Lemma open_all_spec rs n :
  (0 < n)%N → is_u64 (n + N.of_nat (length rs)) →
  (n <= (open_all rs n).1)%N ∧ NoDup (open_all rs n).2 ∧
  ∀ i, i ∈ (open_all rs n).2 → (n <= i < (open_all rs n).1)%N.
Proof.
  unfold is_u64. revert n. induction rs as [|[[first ch] accepted] rs IH]; intros n Hn Hu.
  { cbn. split_and!; [lia|constructor|by intros i ?%elem_of_nil]. }
  cbn [length] in Hu. cbn [open_all].
  pose proof (open_sfu_session_spec first ch accepted n Hn ltac:(unfold is_u64; lia)) as Hs.
  destruct (registration first) as [[ctx cap]|e]; rewrite Hs.
  - destruct (IH (n + 1)%N) as (Hle & Hnd & Hin); [lia|lia|].
    destruct (open_all rs (n + 1)) as [m ids]. cbn [fst snd] in *. destruct accepted; cbn [app from_option register_connection_id].
    + split_and!; [lia| |].
      * apply list.NoDup_cons. split; [|done]. intros Hx%Hin. lia.
      * intros i [->|Hi%Hin]%elem_of_cons; lia.
    + split_and!; [lia|done|]. intros i Hi%Hin. lia.
  - destruct (IH n) as (Hle & Hnd & Hin); [lia|lia|].
    destruct (open_all rs n) as [m ids]. cbn [fst snd] in *. done.
Qed.

(** The ids of the SFU sessions opened by one process are distinct and not zero. *)
Theorem session_ids_unique rs :
  (N.of_nat (length rs) < u64_max)%N →
  let ids := (open_all rs 1).2 in NoDup ids ∧ ∀ i, i ∈ ids → i ≠ 0%N.
Proof.
  intros Hlen. destruct (open_all_spec rs 1) as (_ & Hnd & Hin); [lia|unfold is_u64, u64_modulus, u64_max in *; lia|].
  split; [done|]. intros i Hi%Hin. lia.
Qed.
End grpc_server_spec.

(** ** Witnesses *)

Section witnesses.
#[local] Existing Instance sample_room_id.
#[local] Existing Instance sample_enums.

Definition sample_context (app : v2.AppId) : v2.RequestContext :=
  v2.mk_RequestContext (as_i32 app) "apprtc-1" 7.

Lemma contexts_separate_witness :
  (∀ ctx, app_context (Some (sample_context v2.Apprtc)) = Ok ctx ↔
     valid_context v2.Apprtc (Some (sample_context v2.Apprtc)) ctx) ∧
  app_context (Some (sample_context v2.Apprtc)) = Ok (sample_context v2.Apprtc) ∧
  sfu_context (Some (sample_context v2.Apprtc)) = Err (permission_denied "SFU session requires APP_ID_SFU").
Proof.
  split; [|split; reflexivity].
  exact (proj1 (contexts_separate (Some (sample_context v2.Apprtc)))).
Defined.

(** An authority that counts the operations it runs. *)
Definition counting_exec (_ : v2.RequestContext) (op : collider.AuthorityOperation)
  : stateful nat GrpcStatus collider.AuthorityResult :=
  λ n, (S n, Ok (match op with
                 | collider.OpRemove _ _ => collider.ResRemoved
                 | _ => collider.ResError "FULL"
                 end)).

Definition bad_admit : Unary :=
  UAdmitV1 (v2.mk_AdmitV1Request (Some (sample_context v2.Apprtc)) "" "alice" false).

Lemma invalid_requests_not_executed_witness :
  refused (λ S exec, serve exec [] 5 bad_admit) ∧
  (serve counting_exec [] 5 bad_admit 0%nat).1 = 0%nat.
Proof. split; [apply (invalid_requests_not_executed [] 5 bad_admit); right; reflexivity|reflexivity]. Defined.

Definition good_remove : Unary :=
  URemoveV1 (v2.mk_RemoveV1Request (Some (sample_context v2.Apprtc)) "42" "alice").

Lemma valid_requests_answered_witness :
  ∃ response, serve counting_exec [] 5 good_remove 0%nat = (1%nat, Ok response) ∧
    response_view response = (Some (v2.mk_ResponseContext 7), Some None).
Proof.
  exact (valid_requests_answered counting_exec 0%nat [] 5 good_remove (sample_context v2.Apprtc)
           (collider.OpRemove "42" "alice") eq_refl eq_refl).
Defined.

Definition sample_signal : ssfu.Signal :=
  ssfu.mk_Signal (sample_room Byte.x07) 7 1 1 "offer" (Some 3%N).

Lemma signal_roundtrip_witness :
  is_room_uuid (sample_room Byte.x07) = true ∧ decode_signal (encode_signal sample_signal) = Ok sample_signal.
Proof. split; [reflexivity|]. apply (proj1 signal_roundtrip); [reflexivity|discriminate]. Defined.

Definition sample_first (max_rooms : N) : FirstMessage :=
  First (v2.mk_SfuToSignaling (Some (v2.MsgRegister
    (v2.mk_RegisterSfu (Some (sample_context v2.Sfu)) (Some (v2.mk_SfuCapacity max_rooms 8)))))).

Definition sample_opens : list (FirstMessage * chan_id * bool) :=
  [(sample_first 4, 0%nat, true); (sample_first 0, 1%nat, true); (sample_first 4, 2%nat, true)].

Lemma session_ids_unique_witness :
  (open_all sample_opens 1).2 = [1; 2]%N ∧ NoDup (open_all sample_opens 1).2.
Proof. split; [reflexivity|]. apply (session_ids_unique sample_opens). reflexivity. Defined.
End witnesses.
