(* ===== verification/GrpcClient.v ===== *)
(** * The gRPC client of the AppRTC process ([src/src/grpc_client.rs])

    The [RoomAuthority] trait, and its implementation over a channel to the
    signaling service. *)

From S2P Require Import Prelude Wire RoomIds.

Record Admission := mk_Admission {
  adm_is_initiator : bool;
  adm_messages : list string;
}.

Record V2Admission := mk_V2Admission {
  adm2_mode : v2.RoomMode;
  adm2_signal_epoch : N;
  adm2_admission_token : string;
  adm2_is_initiator : option bool;
}.

Record StatusSnapshot := mk_StatusSnapshot {
  snap_rooms : N;
  snap_clients : N;
  snap_websocket_connections : N;
  snap_total_websocket_connections : N;
  snap_websocket_errors : N;
}.

(** The trait [RoomAuthority], over the state [S] of whatever implements it. *)
Class RoomAuthority `{RoomIdLib} (S : Type) : Type := {
  admit_room : string → string → bool → stateful S string Admission;
  remove : string → string → stateful S string unit;
  occupancy : string → stateful S string N;
  inject : string → string → string → stateful S string unit;
  admit_v2 : RoomId → N → stateful S string V2Admission;
  remove_v2 : RoomId → N → string → stateful S string unit;
  occupancy_v2 : RoomId → stateful S string N;
  authority_status : stateful S string StatusSnapshot;
}.

(** The generated [SignalingServiceClient]: one request and its outcome, over
    the state of the network and the service. *)
Class SignalingChannel (W : Type) : Type := {
  rpc_admit_v1 : v2.AdmitV1Request → stateful W GrpcStatus v2.AdmitV1Response;
  rpc_remove_v1 : v2.RemoveV1Request → stateful W GrpcStatus v2.OperationResponse;
  rpc_occupancy_v1 : v2.OccupancyV1Request → stateful W GrpcStatus v2.OccupancyResponse;
  rpc_inject_v1 : v2.InjectV1Request → stateful W GrpcStatus v2.OperationResponse;
  rpc_get_status : v2.StatusRequest → stateful W GrpcStatus v2.StatusResponse;
  rpc_admit_v2 : v2.AdmitV2Request → stateful W GrpcStatus v2.AdmitV2Response;
  rpc_remove_v2 : v2.RemoveV2Request → stateful W GrpcStatus v2.OperationResponse;
  rpc_occupancy_v2 : v2.OccupancyV2Request → stateful W GrpcStatus v2.OccupancyResponse;
}.

(** [Display] of [tonic::Status]. *)
Class StatusDisplay : Type := show_status : GrpcStatus → string.

Section grpc_client.
Context `{L : RoomIdLib, P : v2.ProtoEnums, D : StatusDisplay, W : Type, Ch : !SignalingChannel W}.

(** [GrpcAuthority]: the counter and the channel; the instance id never changes. *)
Record GrpcAuthority := mk_GrpcAuthority {
  next_request_id : N;
  client : W;
}.

Abbreviation M := (stateful GrpcAuthority string).

(** [GrpcAuthority::context].  [None] would be a loop that does not end. *)
Definition context (instance_id : string) (a : GrpcAuthority)
  : option (v2.RequestContext * GrpcAuthority) :=
  match fetch_nonzero 2 (next_request_id a) with
  | Some (request_id, next) =>
      Some (v2.mk_RequestContext (as_i32 v2.Apprtc) instance_id request_id,
            mk_GrpcAuthority next (client a))
  | None => None
  end.

(** [GrpcAuthority::grpc_error]. *)
Definition grpc_error (operation : string) (error : GrpcStatus) : string :=
  "signaling " +:+ operation +:+ " failed: " +:+ show_status error.

(** [response_request_id]. *)
Definition response_request_id (ctx : option v2.ResponseContext) (expected : N) : result unit string :=
  let? ctx := ok_or ctx "signaling response missing context" in
  let actual := v2.resp_request_id ctx in
  if (actual =? expected)%N then Ok tt
  else Err ("signaling response request_id mismatch: expected " +:+ show_u64 expected +:+
            ", received " +:+ show_u64 actual).

(** [domain_error]. *)
Definition domain_error (error : v2.Error) : string :=
  if is_empty (v2.err_reason error)
  then match try_from_i32 (v2.err_code error) with
       | Some code => v2.error_code_str_name code
       | None => "UNKNOWN_SIGNALING_ERROR"
       end
  else v2.err_reason error.

(** [usize::try_from(u64)]: every [u64] fits a 64-bit [usize]. *)
Definition usize_of_u64 (n : N) (message : string) : result N string :=
  if (n <? u64_modulus)%N then Ok n else Err message.

(** [operation_result]. *)
Definition operation_result (r : option (v2.Outcome unit)) (operation : string) : result unit string :=
  match r with
  | Some (v2.Success _) => Ok tt
  | Some (v2.Failed error) => Err (domain_error error)
  | None => Err ("signaling " +:+ operation +:+ " response missing result")
  end.

(** What every method does first and last: a context, the request, and the
    check of the echoed context.  [finish] is what it does with the result. *)
Definition request {R A} (instance_id operation : string)
    (rpc : v2.RequestContext → stateful W GrpcStatus (v2.ResponseOf R))
    (finish : option (v2.Outcome R) → result A string) : M A :=
  λ a,
    match context instance_id a with
    | None => (a, Err "unreachable")
    | Some (ctx, a) =>
        let '(w, response) := rpc ctx (client a) in
        (mk_GrpcAuthority (next_request_id a) w,
         let? response := map_err (grpc_error operation) response in
         let? checked := response_request_id (v2.rsp_context response) (v2.rc_request_id ctx) in
         finish (v2.rsp_result response))
    end.

(** [admit]. *)
Definition client_admit (instance_id roomid clientid : string) (is_loopback : bool) : M Admission :=
  request instance_id "admit_v1"
    (λ ctx, rpc_admit_v1 (v2.mk_AdmitV1Request (Some ctx) roomid clientid is_loopback))
    (λ r, match r with
          | Some (v2.Success admitted) =>
              Ok (mk_Admission (v2.v1a_is_initiator admitted) (v2.v1a_messages admitted))
          | Some (v2.Failed error) => Err (domain_error error)
          | None => Err "signaling admission response missing result"
          end).

(** [remove]. *)
Definition client_remove (instance_id roomid clientid : string) : M unit :=
  request instance_id "remove_v1"
    (λ ctx, rpc_remove_v1 (v2.mk_RemoveV1Request (Some ctx) roomid clientid))
    (λ r, operation_result r "remove_v1").

(** [occupancy]. *)
Definition client_occupancy (instance_id roomid : string) : M N :=
  request instance_id "occupancy_v1"
    (λ ctx, rpc_occupancy_v1 (v2.mk_OccupancyV1Request (Some ctx) roomid))
    (λ r, match r with
          | Some (v2.Success o) =>
              usize_of_u64 (v2.occ_member_count o) "occupancy count exceeds usize"
          | Some (v2.Failed error) => Err (domain_error error)
          | None => Err "signaling occupancy response missing result"
          end).

(** [inject]. *)
Definition client_inject (instance_id roomid clientid msg : string) : M unit :=
  request instance_id "inject_v1"
    (λ ctx, rpc_inject_v1 (v2.mk_InjectV1Request (Some ctx) roomid clientid msg))
    (λ r, operation_result r "inject_v1").

(** [admit_v2]. *)
Definition client_admit_v2 (instance_id : string) (room_id : RoomId) (client_id : N) : M V2Admission :=
  request instance_id "admit_v2"
    (λ ctx, rpc_admit_v2 (v2.mk_AdmitV2Request (Some ctx) (room_id_to_bytes room_id) client_id))
    (λ r, match r with
          | Some (v2.Success admitted) =>
              let? mode := ok_or (try_from_i32 (v2.v2a_mode admitted)) "UNSUPPORTED_ROOM_MODE" in
              if negb (bool_decide (mode = v2.ModeP2p) || bool_decide (mode = v2.ModeSfu))
              then Err "ROOM_TRANSITION"
              else if bool_decide (mode = v2.ModeP2p) && bool_decide (v2.v2a_is_initiator admitted = None)
              then Err "P2P admission missing is_initiator"
              else if is_empty (v2.v2a_admission_token admitted)
              then Err "V2 admission missing admission_token"
              else Ok (mk_V2Admission mode (v2.v2a_signal_epoch admitted)
                         (v2.v2a_admission_token admitted) (v2.v2a_is_initiator admitted))
          | Some (v2.Failed error) => Err (domain_error error)
          | None => Err "signaling V2 admission response missing result"
          end).

(** [remove_v2]. *)
Definition client_remove_v2 (instance_id : string) (room_id : RoomId) (client_id : N)
    (admission_token : string) : M unit :=
  request instance_id "remove_v2"
    (λ ctx, rpc_remove_v2 (v2.mk_RemoveV2Request (Some ctx) (room_id_to_bytes room_id) client_id
                             admission_token))
    (λ r, operation_result r "remove_v2").

(** [occupancy_v2]. *)
Definition client_occupancy_v2 (instance_id : string) (room_id : RoomId) : M N :=
  request instance_id "occupancy_v2"
    (λ ctx, rpc_occupancy_v2 (v2.mk_OccupancyV2Request (Some ctx) (room_id_to_bytes room_id)))
    (λ r, match r with
          | Some (v2.Success o) =>
              if negb (v2.occ_mode o =? as_i32 v2.ModeP2p)%Z then Err "UNSUPPORTED_ROOM_MODE"
              else usize_of_u64 (v2.occ_member_count o) "occupancy count exceeds usize"
          | Some (v2.Failed error) => Err (domain_error error)
          | None => Err "signaling V2 occupancy response missing result"
          end).

(** [status]. *)
Definition client_status (instance_id : string) : M StatusSnapshot :=
  request instance_id "get_status"
    (λ ctx, rpc_get_status (v2.mk_StatusRequest (Some ctx)))
    (λ r, match r with
          | Some (v2.Success s) =>
              let? rooms := usize_of_u64 (v2.ws_v1_rooms s) "room count exceeds usize" in
              let? clients := usize_of_u64 (v2.ws_clients s) "client count exceeds usize" in
              let? sockets := usize_of_u64 (v2.ws_browser_websocket_connections s)
                                "WebSocket count exceeds usize" in
              Ok (mk_StatusSnapshot rooms clients sockets
                    (v2.ws_total_browser_websocket_connections s) (v2.ws_browser_websocket_errors s))
          | Some (v2.Failed error) => Err (domain_error error)
          | None => Err "signaling status response missing result"
          end).

(** [impl RoomAuthority for GrpcAuthority]. *)
#[export] Instance grpc_authority (instance_id : string) : RoomAuthority GrpcAuthority := {
  admit_room := client_admit instance_id;
  remove := client_remove instance_id;
  occupancy := client_occupancy instance_id;
  inject := client_inject instance_id;
  admit_v2 := client_admit_v2 instance_id;
  remove_v2 := client_remove_v2 instance_id;
  occupancy_v2 := client_occupancy_v2 instance_id;
  authority_status := client_status instance_id;
}.
End grpc_client.
