(* ===== verification/EndToEnd.v ===== *)
(** * AppRTC and signaling together

    The client of [grpc_client.rs] talking to the service of [grpc_server.rs]:
    over a faithful network the pair behaves like a direct call of the
    authority, error reasons included. *)

From S2P Require Import Prelude Wire RoomIds Samples GrpcServer GrpcServerSpec GrpcClient.

Section end_to_end.
Context `{L : RoomIdLib, P : v2.ProtoEnums, D : StatusDisplay}.

(** [execute] over the service state, the clock and the random generator. *)
Context {St : Type} (exec : v2.RequestContext → collider.AuthorityOperation →
                           stateful St GrpcStatus collider.AuthorityResult).
Context (clock : St → Instant) (random : St → bytes).

(** The service as a channel: each request reaches its handler once. *)
#[local] Instance served : SignalingChannel St := {
  rpc_admit_v1 r := λ s, GrpcServer.admit_v1 exec (clock s) r s;
  rpc_remove_v1 := GrpcServer.remove_v1 exec;
  rpc_occupancy_v1 := GrpcServer.occupancy_v1 exec;
  rpc_inject_v1 r := λ s, GrpcServer.inject_v1 exec (clock s) r s;
  rpc_get_status := GrpcServer.get_status exec;
  rpc_admit_v2 r := λ s, GrpcServer.admit_v2 exec (random s) (clock s) r s;
  rpc_remove_v2 := GrpcServer.remove_v2 exec;
  rpc_occupancy_v2 := GrpcServer.occupancy_v2 exec;
}.

(** ** The specification: a direct call *)

(** The reason the browser is told. *)
Definition shown_reason (reason : string) : string :=
  if is_empty reason then v2.error_code_str_name v2.InvalidRequest else reason.

Definition fresh_id (counter : N) : N := if (counter =? 0)%N then 1%N else counter.

Definition next_id (counter : N) : N := wrap64 (fresh_id counter + 1).

(** One operation under a fresh request id; [view] is what is made of an answer
    that fits the operation. *)
Definition direct {A} (instance_id name : string) (op : St → collider.AuthorityOperation)
    (view : collider.AuthorityResult → option (result A string))
  : stateful (GrpcAuthority (W := St)) string A :=
  λ a,
    let ctx := v2.mk_RequestContext (as_i32 v2.Apprtc) instance_id (fresh_id (next_request_id a)) in
    let '(s, r) := exec ctx (op (client a)) (client a) in
    (mk_GrpcAuthority (next_id (next_request_id a)) s,
     match r with
     | Err e => Err (grpc_error name e)
     | Ok (collider.ResError reason) => Err (shown_reason reason)
     | Ok r => match view r with
               | Some v => v
               | None => Err (grpc_error name unexpected_response)
               end
     end).

Definition view_done (r : collider.AuthorityResult) : option (result unit string) :=
  match r with
  | collider.ResRemoved | collider.ResRemovedV2 | collider.ResInjected => Some (Ok tt)
  | _ => None
  end.

(** Only settled rooms are shown to the browser, with what it needs there. *)
Definition view_admission (r : collider.AuthorityResult) : option (result V2Admission string) :=
  match r with
  | collider.ResAdmittedV2 mode epoch token initiator =>
      Some match mode, initiator with
           | collider.Upgrading, _ | collider.Failed, _ => Err "ROOM_TRANSITION"
           | collider.P2p, None => Err "P2P admission missing is_initiator"
           | collider.P2p, Some _ | collider.Sfu, _ =>
               if is_empty token then Err "V2 admission missing admission_token"
               else Ok (mk_V2Admission (proto_room_mode mode) epoch token initiator)
           end
  | _ => None
  end.

Definition direct_authority (instance_id : string) : RoomAuthority (GrpcAuthority (W := St)) := {|
  admit_room roomid clientid is_loopback :=
    direct instance_id "admit_v1" (λ s, collider.OpAdmit roomid clientid is_loopback (clock s))
      (λ r, match r with
            | collider.ResAdmitted i m => Some (Ok (mk_Admission i m)) | _ => None end);
  remove roomid clientid :=
    direct instance_id "remove_v1" (λ _, collider.OpRemove roomid clientid) view_done;
  occupancy roomid :=
    direct instance_id "occupancy_v1" (λ _, collider.OpOccupancy roomid)
      (λ r, match r with
            | collider.ResOccupancy count => Some (Ok (u64_of_usize count)) | _ => None end);
  inject roomid clientid msg :=
    direct instance_id "inject_v1" (λ s, collider.OpInject roomid clientid msg (clock s)) view_done;
  admit_v2 room_id client_id :=
    direct instance_id "admit_v2"
      (λ s, collider.OpAdmitV2 room_id client_id (new_admission_token (random s)) (clock s))
      view_admission;
  remove_v2 room_id client_id token :=
    direct instance_id "remove_v2" (λ _, collider.OpRemoveV2 room_id client_id token) view_done;
  occupancy_v2 room_id :=
    direct instance_id "occupancy_v2" (λ _, collider.OpOccupancyV2 room_id)
      (λ r, match r with
            | collider.ResOccupancyV2 count collider.P2p => Some (Ok (u64_of_usize count))
            | collider.ResOccupancyV2 _ _ => Some (Err "UNSUPPORTED_ROOM_MODE")
            | _ => None end);
  authority_status :=
    direct instance_id "get_status" (λ _, collider.OpStatus)
      (λ r, match r with
            | collider.ResStatus s =>
                Some (Ok (mk_StatusSnapshot (u64_of_usize (collider.st_rooms s))
                  (u64_of_usize (collider.st_clients s))
                  (u64_of_usize (collider.st_websocket_connections s))
                  (collider.st_total_websocket_connections s) (collider.st_websocket_errors s)))
            | _ => None end);
|}.

(** ** Request contexts *)

Lemma context_spec instance_id (a : GrpcAuthority (W := St)) :
  is_u64 (next_request_id a) →
  context instance_id a =
    Some (v2.mk_RequestContext (as_i32 v2.Apprtc) instance_id (fresh_id (next_request_id a)),
          mk_GrpcAuthority (next_id (next_request_id a)) (client a)).
Proof.
  intros Hu. unfold context, next_id, fresh_id. rewrite fetch_nonzero_spec by (done || lia).
  by destruct (next_request_id a =? 0)%N.
Qed.

Lemma fresh_id_nonzero n : fresh_id n ≠ 0%N.
Proof. unfold fresh_id. by destruct (N.eqb_spec n 0). Qed.

Lemma client_context_accepted instance_id n :
  instance_id ≠ EmptyString →
  app_context (Some (v2.mk_RequestContext (as_i32 v2.Apprtc) instance_id (fresh_id n))) =
    Ok (v2.mk_RequestContext (as_i32 v2.Apprtc) instance_id (fresh_id n)).
Proof. intros Hi. apply app_context_spec. split_and!; [done|done|done|apply fresh_id_nonzero]. Qed.

Lemma usize_of_u64_of_usize n m : usize_of_u64 (u64_of_usize n) m = Ok (u64_of_usize n).
Proof.
  unfold usize_of_u64, u64_of_usize. destruct (n <? u64_modulus)%N eqn:Hn; [by rewrite Hn|done].
Qed.

Lemma domain_error_shown {laws : v2.ProtoEnumsLaws P} reason :
  GrpcClient.domain_error (GrpcServer.domain_error reason) = shown_reason reason.
Proof.
  unfold GrpcClient.domain_error, shown_reason. cbn. destruct (is_empty reason) eqn:He; [|done].
  apply is_empty_spec in He as ->. cbn. by rewrite try_from_as_i32.
Qed.

(** ** The refinement *)

#[local] Arguments app_context : simpl never.

(** The first half of every method: the context is accepted by the service. *)
Ltac start_request Hu :=
  unfold request, direct; rewrite context_spec by exact Hu; cbn;
  unfold GrpcServer.admit_v1, GrpcServer.remove_v1, GrpcServer.occupancy_v1, GrpcServer.inject_v1,
    GrpcServer.get_status, GrpcServer.admit_v2, GrpcServer.remove_v2, GrpcServer.occupancy_v2,
    st_bind, lift, parse_wire_room_id; cbn;
  rewrite client_context_accepted by done; cbn.

(** The second half: the echoed id is the one sent. *)
Ltac finish_request :=
  cbn; unfold response_request_id; cbn; rewrite ?N.eqb_refl; cbn;
  rewrite ?domain_error_shown, ?usize_of_u64_of_usize; cbn; try reflexivity.

(** C6: The AppRTC client talking to the signaling handlers over a faithful network behaves,
    operation by operation, as a direct call of the authority: the same answers, error reasons,
    request ids and final state, for instance ids, V1 rooms, clients, messages and tokens that
    are not empty and V2 rooms that are valid ids. *)
Theorem client_server_refines {room_laws : RoomIdLaws L} {enum_laws : v2.ProtoEnumsLaws P}
    instance_id a :
  instance_id ≠ EmptyString → is_u64 (next_request_id a) →
  let C := @grpc_authority L P D St served instance_id in
  let A := direct_authority instance_id in
  (∀ room client loopback, room ≠ EmptyString → client ≠ EmptyString →
     @admit_room _ _ C room client loopback a = @admit_room _ _ A room client loopback a ∧
     @remove _ _ C room client a = @remove _ _ A room client a) ∧
  (∀ room, room ≠ EmptyString → @occupancy _ _ C room a = @occupancy _ _ A room a) ∧
  (∀ room client msg, room ≠ EmptyString → client ≠ EmptyString → msg ≠ EmptyString →
     @inject _ _ C room client msg a = @inject _ _ A room client msg a) ∧
  (∀ room client, is_room_uuid room = true →
     @admit_v2 _ _ C room client a = @admit_v2 _ _ A room client a ∧
     @occupancy_v2 _ _ C room a = @occupancy_v2 _ _ A room a) ∧
  (∀ room client token, is_room_uuid room = true → token ≠ EmptyString →
     @remove_v2 _ _ C room client token a = @remove_v2 _ _ A room client token a) ∧
  @authority_status _ _ C a = @authority_status _ _ A a.
Proof.
  intros Hi Hu C A. split_and!.
  - intros room client loopback Hr Hc. split; cbn; unfold client_admit, client_remove; start_request Hu;
      rewrite !is_empty_decide, !bool_decide_false by done; cbn;
      (destruct (exec _ _ _) as [s [r|e]]; [|done]); destruct r; finish_request.
  - intros room Hr. cbn; unfold client_occupancy; start_request Hu;
      rewrite !is_empty_decide, !bool_decide_false by done; cbn;
      (destruct (exec _ _ _) as [s [r|e]]; [|done]); destruct r; finish_request.
  - intros room client msg Hr Hc Hm. cbn; unfold client_inject; start_request Hu;
      rewrite !is_empty_decide, !bool_decide_false by done; cbn;
      (destruct (exec _ _ _) as [s [r|e]]; [|done]); destruct r; finish_request.
  - intros room client Hr. split; cbn; unfold client_admit_v2, client_occupancy_v2; start_request Hu;
      rewrite room_id_from_to_bytes by done; cbn;
      (destruct (exec _ _ _) as [s [r|e]]; [|done]); destruct r; finish_request.
    + rewrite try_from_as_i32. cbn. destruct mode, is_initiator; finish_request;
        destruct (is_empty admission_token); finish_request.
    + destruct mode; cbn; [rewrite Z.eqb_refl; finish_request|..];
        match goal with |- context [(?x =? ?y)%Z] =>
          destruct (Z.eqb_spec x y) as [Hm|Hm]; [by apply as_i32_inj in Hm|done] end.
  - intros room client token Hr Ht. cbn; unfold client_remove_v2; start_request Hu;
      rewrite is_empty_decide, bool_decide_false by done; cbn;
      rewrite room_id_from_to_bytes by done; cbn;
      (destruct (exec _ _ _) as [s [r|e]]; [|done]); destruct r; finish_request.
  - cbn; unfold client_status; start_request Hu;
      (destruct (exec _ _ _) as [s [r|e]]; [|done]); destruct r; finish_request.
Qed.

(** ** Request ids *)

(** The ids of the next [n] requests. *)
Fixpoint request_ids (n : nat) (instance_id : string) (a : GrpcAuthority (W := St)) : list (option N) :=
  match n with
  | O => []
  | S n' =>
      match context instance_id a with
      | Some (ctx, a') => Some (v2.rc_request_id ctx) :: request_ids n' instance_id a'
      | None => None :: request_ids n' instance_id a
      end
  end.

Lemma request_ids_seq n instance_id c w :
  (0 < c)%N → (c + N.of_nat n <= u64_modulus)%N →
  request_ids n instance_id (mk_GrpcAuthority c w) =
    (λ i, Some (N.of_nat i)) <$> seq (N.to_nat c) n.
Proof.
  revert c. induction n as [|n IH]; intros c Hc Hb; [done|]. cbn [request_ids seq fmap list_fmap].
  rewrite context_spec by (unfold is_u64; cbn; lia). unfold next_id, fresh_id; cbn [next_request_id client v2.rc_request_id].
  destruct (N.eqb_spec c 0); [lia|]. rewrite N2Nat.id. f_equal.
  destruct n as [|n]; [done|]. rewrite wrap64_small by (unfold is_u64; lia).
  rewrite IH by lia. by rewrite N.add_1_r, N2Nat.inj_succ.
Qed.

(** The request ids of one client are distinct and not zero. *)
Theorem client_request_ids_unique n instance_id w :
  (N.of_nat n <= u64_max)%N →
  let ids := request_ids n instance_id (mk_GrpcAuthority 1 w) in
  NoDup ids ∧ length ids = n ∧ ∀ i, i ∈ ids → ∃ id, i = Some id ∧ id ≠ 0%N.
Proof.
  intros Hn. cbn. rewrite request_ids_seq by (unfold u64_max, u64_modulus in *; lia). split_and!.
  - apply NoDup_fmap_2; [|apply NoDup_seq]. intros i j [= Hij]. lia.
  - by rewrite length_fmap, length_seq.
  - intros i (j & -> & Hj)%list_elem_of_fmap. rewrite elem_of_seq in Hj. eexists. split; [done|]. lia.
Qed.
End end_to_end.

(** ** Witnesses *)

Section witnesses.
#[local] Existing Instance sample_room_id.
#[local] Existing Instance sample_enums.

#[local] Instance sample_display : StatusDisplay := gs_message.

(** Room [42] is full, everything else succeeds; the state counts operations. *)
Definition sample_exec (_ : v2.RequestContext) (op : collider.AuthorityOperation)
  : stateful nat GrpcStatus collider.AuthorityResult :=
  λ n, (S n, Ok (match op with
                 | collider.OpAdmit "42" _ _ _ => collider.ResError "FULL"
                 | collider.OpAdmit _ _ _ _ => collider.ResAdmitted true []
                 | _ => collider.ResRemoved
                 end)).

Definition sample_client : RoomAuthority (GrpcAuthority (W := nat)) :=
  @grpc_authority sample_room_id sample_enums sample_display nat
    (served sample_exec (λ _, 5%N) (λ _, [])) "apprtc-1".

Definition sample_state : GrpcAuthority (W := nat) := mk_GrpcAuthority 0 0%nat.

Lemma client_server_refines_witness :
  @admit_room _ _ sample_client "42" "alice" false sample_state =
    (mk_GrpcAuthority 2 1%nat, Err "FULL") ∧
  @admit_room _ _ sample_client "43" "alice" false sample_state =
    @admit_room _ _ (direct_authority sample_exec (λ _, 5%N) (λ _, []) "apprtc-1") "43" "alice" false
      sample_state.
Proof.
  split; [reflexivity|].
  refine (proj1 (proj1 (client_server_refines sample_exec (λ _, 5%N) (λ _, []) "apprtc-1" sample_state _ _)
    "43" "alice" false _ _)); try discriminate. reflexivity.
Defined.

Lemma client_request_ids_unique_witness :
  request_ids 3 "apprtc-1" sample_state ≠ [] ∧
  NoDup (request_ids 3 "apprtc-1" (mk_GrpcAuthority 1 0%nat)).
Proof. split; [discriminate|]. apply (client_request_ids_unique 3 "apprtc-1" 0%nat). discriminate. Defined.
End witnesses.
