(* ===== verification/Stack.v ===== *)
(** * The signaling process behind its RPCs

    [GrpcSignalingService::execute] on top of the event loop, as the process
    composes them ([main] of [src/src/bin/signaling.rs]): the
    service hands its commands to the loop, the loop's reply channels lead back
    to the service.  Requests come one after the other here, with any activity
    of browsers, workers and deadlines between them; Process.v has them
    concurrent. *)

From S2P Require Import Prelude Wire RoomIds RequestCache Samples Execute ExecuteSpec Driver DriverSpec GrpcServer.

Section stack.
Context `{L : RoomIdLib, H : DefaultHasher, C : !ColliderLib, CL : !ColliderLaws C}.

(** ** The loop's turns, as total functions

    The laws of the state machine bound both drains. *)

Definition drained (clock : ConnectionId → Instant) (d : Driver) : Driver :=
  match drain_outputs (S (pending_outputs (d_collider d))) clock d with
  | Some d1 => default d1 (drain_authority_responses (S (pending_events (d_collider d1))) d1)
  | None => d
  end.

(** One wake-up of the loop, and whether it goes on. *)
Definition turn (clock : ConnectionId → Instant) (d : Driver) (w : Wakeup) : Driver * bool :=
  match w with
  | Stop | Command None => (d, false)
  | Command (Some command) => (drained clock (handle_command d command), true)
  | Deadline now =>
      match poll_timeout (d_collider d) with
      | None => (d, true)
      | Some _ =>
          let '(c, r) := handle_timeout now (d_collider d) in
          if is_ok r then (drained clock (with_collider d c), true) else (with_collider d c, false)
      end
  end.

(** The end of [run], with no command left in the queue. *)
Definition stopped (clock : ConnectionId → Instant) (d : Driver) : Driver :=
  drained clock (with_collider d (collider_close (d_collider d))).

(** One wake-up, and the graceful stop when it breaks the loop. *)
Definition wake (clock : ConnectionId → Instant) (d : Driver) (w : Wakeup) : Driver * bool :=
  let '(d', goes_on) := turn clock d w in
  if goes_on then (d', true) else (stopped clock d', false).

(** ** The process *)

(** [served] counts the requests, and numbers their reply channels. *)
Record Signaling := mk_Signaling {
  service : Service;
  driver : Driver;
  running : bool;
  served : nat;
}.

(** The service and the loop as [main] starts them, with the channels that the
    sessions will register. *)
Definition start_signaling (register_timeout downgrade_dwell : N)
    (socks : gmap chan_id (channel SocketOutput)) (sfus : gmap chan_id (channel ssfu.Output))
  : Signaling :=
  mk_Signaling new_service (new_driver register_timeout downgrade_dwell socks sfus) true 0.

(** What a request meets: the clocks of the turn that takes its command, and the
    wake-ups of the loop until its [AUTHORITY_TIMEOUT] has run out. *)
Record Meanwhile := mk_Meanwhile {
  at_once : ConnectionId → Instant;
  later : list (Wakeup * (ConnectionId → Instant));
}.

(** What the reply channel [o] has brought. *)
Definition reply_on (o : oneshot_id) (d : Driver) : option collider.AuthorityResponse :=
  match list_find (λ p, p.1 = o) (replies d) with
  | Some (_, (_, response)) => Some response
  | None => None
  end.

(** Waiting on [o] while the loop goes on; its end drops the senders that are
    left. *)
Fixpoint await (o : oneshot_id) (d : Driver) (ws : list (Wakeup * (ConnectionId → Instant)))
  : Driver * bool * Reply :=
  match reply_on o d with
  | Some response => (d, true, Replied response)
  | None =>
      match ws with
      | [] => (d, true, TimedOut)
      | (w, clock) :: ws' =>
          match wake clock d w with
          | (d', true) => await o d' ws'
          | (d', false) =>
              (d', false, match reply_on o d' with Some response => Replied response | None => Dropped end)
          end
      end
  end.

(** The loop and the caller of [execute] from the command on; a loop that has
    ended takes no command. *)
Definition ask (m : Meanwhile) (st : Signaling) (command : collider.AuthorityCommand)
  : Driver * bool * Reply :=
  if running st
  then await (served st)
         (turn (at_once m) (driver st) (Command (Some (Authority command (served st))))).1 (later m)
  else (driver st, false, NotSent).

Definition request_key (context : v2.RequestContext) : RequestKey :=
  mk_RequestKey (v2.rc_instance_id context) (v2.rc_request_id context).

(** [execute] with the loop behind it: the loop takes what the service has handed
    over.  A request never finds its key in flight, because the requests before
    it are over ([quiet] in [StackSpec]), so the last branch is not taken. *)
Definition exec (m : Meanwhile) (context : v2.RequestContext) (op : collider.AuthorityOperation)
  : stateful Signaling GrpcStatus collider.AuthorityResult :=
  λ st,
    let t := fresh (dom (tasks (service st))) in
    match execute (λ command, (ask m st command).2) (service st) t (request_key context) op with
    | Some (s, r) =>
        let '(d, b) :=
          match drop (length (sent (service st))) (sent s) with
          | (_, command) :: _ => (ask m st command).1
          | [] => (driver st, running st)
          end in
        (mk_Signaling s d b (S (served st)), r)
    | None => (st, Err (deadline_exceeded "signaling authority timed out"))
    end.

(** What happens to the process between two answers. *)
Inductive Activity :=
  | Request (m : Meanwhile) (context : v2.RequestContext) (op : collider.AuthorityOperation)
  | Woken (w : Wakeup) (clock : ConnectionId → Instant).

Definition perform (st : Signaling) (a : Activity) : Signaling :=
  match a with
  | Request m context op => (exec m context op st).1
  | Woken w clock =>
      if running st
      then let '(d, b) := wake clock (driver st) w in mk_Signaling (service st) d b (served st)
      else st
  end.

(** Authority commands only come from the service. *)
Definition own_wakeup (w : Wakeup) : bool :=
  match authority_of_wakeup w with [] => true | _ => false end.

Definition own_meanwhile (m : Meanwhile) : bool := forallb (λ w, own_wakeup w.1) (later m).

Definition own_activity (a : Activity) : bool :=
  match a with Request m _ _ => own_meanwhile m | Woken w _ => own_wakeup w end.

Definition requests (acts : list Activity) : nat :=
  length (filter (λ a, match a with Request _ _ _ => true | Woken _ _ => false end = true) acts).

(** ** The turns are the loop's *)

Lemma drain_writes_fuel fuel d acc :
  (pending_outputs (d_collider d) < fuel)%nat → is_Some (drain_writes fuel d acc).
Proof.
  revert d acc. induction fuel as [|fuel IH]; intros d acc Hlt; [lia|]. cbn.
  destruct (poll_write (d_collider d)) as [[o|] c] eqn:Hp; [|eauto].
  apply poll_write_some in Hp.
  destruct (route_output (with_collider d c) o) as [d' gone] eqn:Hr. apply IH.
  change d' with (d', gone).1. rewrite <- Hr, route_output_collider. cbn. lia.
Qed.

Lemma drain_authority_fuel fuel d :
  (pending_events (d_collider d) < fuel)%nat → is_Some (drain_authority_responses fuel d).
Proof.
  revert d. induction fuel as [|fuel IH]; intros d Hlt; [lia|]. cbn.
  destruct (poll_event (d_collider d)) as [[r|] c] eqn:Hp; [|eauto].
  apply poll_event_some in Hp. cbn. destruct (pending_authority d !! _); apply IH; cbn; lia.
Qed.

Lemma drain_writes_more fuel fuel' d acc r :
  (fuel ≤ fuel')%nat → drain_writes fuel d acc = Some r → drain_writes fuel' d acc = Some r.
Proof.
  revert fuel' d acc. induction fuel as [|fuel IH]; intros [|fuel'] d acc Hle; cbn; try done; [lia|].
  destruct (poll_write _) as [[o|] c]; [|done]. destruct (route_output _ _). apply IH. lia.
Qed.

Lemma drain_authority_more fuel fuel' d r :
  (fuel ≤ fuel')%nat → drain_authority_responses fuel d = Some r →
  drain_authority_responses fuel' d = Some r.
Proof.
  revert fuel' d. induction fuel as [|fuel IH]; intros [|fuel'] d Hle; cbn; try done; [lia|].
  destruct (poll_event _) as [[o|] c]; [|done]. cbn. destruct (pending_authority d !! _); apply IH; lia.
Qed.

Lemma drained_settles clk d : settles (λ fuel, drain fuel clk d) (drained clk d).
Proof.
  unfold drained, drain.
  destruct (drain_writes_fuel (S (pending_outputs (d_collider d))) d []) as [[d0 gone] Hw]; [lia|].
  set (d1 := foldl (disconnect_one clk) d0 (sort_dedup gone)).
  assert (Ho : ∀ n, (S (pending_outputs (d_collider d)) ≤ n)%nat → drain_outputs n clk d = Some d1).
  { intros n Hn. unfold drain_outputs. by rewrite (drain_writes_more _ _ _ _ _ Hn Hw). }
  rewrite Ho by done.
  destruct (drain_authority_fuel (S (pending_events (d_collider d1))) d1) as [d2 Ha]; [lia|].
  rewrite Ha. cbn. exists (S (pending_outputs (d_collider d)) + S (pending_events (d_collider d1)))%nat.
  intros n Hn. rewrite Ho by lia. eapply drain_authority_more; [|exact Ha]. lia.
Qed.

(** With enough fuel the loop's body is [turn]. *)
Lemma turn_settles clk d w : settles (λ fuel, loop_body fuel clk d w) (turn clk d w).
Proof.
  destruct w as [|[cmd|]|now]; cbn; try apply settles_ret.
  - eapply (settles_bind _ (λ _ d', Some (d', true))); [apply drained_settles|apply settles_ret].
  - destruct (poll_timeout (d_collider d)); [|apply settles_ret].
    destruct (handle_timeout now (d_collider d)) as [c r]. destruct (is_ok r); [|apply settles_ret].
    eapply (settles_bind _ (λ _ d', Some (d', true))); [apply drained_settles|apply settles_ret].
Qed.

(** The end of [run] is [stopped]. *)
Lemma stopped_settles clk d : settles (λ fuel, graceful_stop fuel clk d []) (stopped clk d).
Proof. apply drained_settles. Qed.
End stack.
