(* ===== verification/StackSpec.v ===== *)
(** * What the signaling process promises its RPC clients

    A request that is not in the cache makes the loop handle one command and is
    answered with the loop's reply to it; a repeated RPC is answered from the
    cache, whatever else happened in between. *)

From S2P Require Import Prelude Wire RoomIds Fifo RequestCache Samples Execute ExecuteSpec Driver DriverSpec GrpcServer GrpcServerSpec Stack.

Section stack_spec.
Context `{L : RoomIdLib, P : v2.ProtoEnums, H : DefaultHasher, C : !ColliderLib, CL : !ColliderLaws C}.
(** ** The invariant between two answers *)

(** Nothing is in flight, and the loop only knows reply channels of the past. *)
Record quiet (st : Signaling) : Prop := {
  quiet_safe : safe (service st);
  quiet_idle : in_flight (request_cache (service st)) = ∅;
  quiet_ledger : ∃ h, NoDup h.*2 ∧ Forall (λ p, (p.2 < served st)%nat) h ∧
    ledger_inv h (ledger (driver st));
}.

Lemma drained_ledger h clk d :
  NoDup h.*2 → ledger_inv h (ledger d) → ledger_inv h (ledger (drained clk d)).
Proof.
  intros Hnd Hinv. destruct (drained_settles clk d) as [n Hn].
  eapply drain_ledger; [done|done|by apply (Hn n)].
Qed.

Lemma turn_ledger h clk d w :
  NoDup (h ++ authority_of_wakeup w).*2 → ledger_inv h (ledger d) →
  ledger_inv (h ++ authority_of_wakeup w) (ledger (turn clk d w).1).
Proof.
  intros Hnd Hinv. destruct (turn_settles clk d w) as [n Hn]. specialize (Hn n (le_n _)).
  rewrite (surjective_pairing (turn clk d w)) in Hn. by eapply loop_body_ledger.
Qed.

(** The history with a new command, whose reply channel is fresh. *)
Lemma fresh_oneshot (h : list (N * oneshot_id)) rid n :
  NoDup h.*2 → Forall (λ p, (p.2 < n)%nat) h →
  NoDup (h ++ [(rid, n)]).*2 ∧ Forall (λ p, (p.2 < S n)%nat) (h ++ [(rid, n)]).
Proof.
  intros Hnd Hlt. split.
  - rewrite fmap_app. apply NoDup_snoc. split; [done|].
    intros ([r o] & Ho & Hin)%list_elem_of_fmap. cbn in Ho. subst o.
    rewrite list.Forall_forall in Hlt. apply Hlt in Hin. cbn in Hin. lia.
  - apply list.Forall_app. split; [|by repeat constructor].
    eapply list.Forall_impl; [exact Hlt|]. cbn. lia.
Qed.

Lemma wake_ledger h clk d w :
  NoDup h.*2 → own_wakeup w = true → ledger_inv h (ledger d) → ledger_inv h (ledger (wake clk d w).1).
Proof.
  intros Hnd Hw Hinv. unfold wake. assert (Ht : ledger_inv h (ledger (turn clk d w).1)).
  { pose proof (turn_ledger h clk d w) as Ht. unfold own_wakeup in Hw.
    destruct (authority_of_wakeup w); [|done]. rewrite app_nil_r in Ht. auto. }
  destruct (turn clk d w) as [d' []]; [done|]. by apply drained_ledger.
Qed.

Lemma reply_on_spec o d :
  match reply_on o d with
  | Some r => (o, r) ∈ replies d
  | None => o ∉ (replies d).*1
  end.
Proof.
  unfold reply_on. destruct (list_find _ (replies d)) as [[i [o' r]]|] eqn:Hf.
  - apply list_find_Some in Hf as (Hi & Ho & _). cbn in Ho. subst o'. by eapply list_elem_of_lookup_2.
  - apply list_find_None in Hf. rewrite list.Forall_forall in Hf.
    intros ([o' r] & Ho & Hin)%list_elem_of_fmap. by apply (Hf _ Hin).
Qed.

(** The loop over some wake-ups, until it ends. *)
Definition loop_on (db : Driver * bool) (w : Wakeup * (ConnectionId → Instant)) : Driver * bool :=
  if db.2 then wake w.2 db.1 w.1 else db.

(** How a wait on [o] ends. *)
Definition settled (o : oneshot_id) (d : Driver) (b : bool) (reply : Reply) : Prop :=
  match reply with
  | NotSent => False
  | TimedOut => b = true ∧ o ∉ (replies d).*1
  | Dropped => b = false ∧ o ∉ (replies d).*1
  | Replied r => (o, r) ∈ replies d
  end.

Lemma await_spec h o d ws :
  NoDup h.*2 → ledger_inv h (ledger d) → forallb (λ w, own_wakeup w.1) ws = true →
  let '(d', b, reply) := await o d ws in
  ledger_inv h (ledger d') ∧ settled o d' b reply ∧
  ∃ seen rest, ws = seen ++ rest ∧ (d', b) = foldl loop_on (d, true) seen.
Proof.
  intros Hnd. revert d. induction ws as [|[w clk] ws IH]; intros d Hinv Hown; cbn [await];
    (pose proof (reply_on_spec o d) as Hr; destruct (reply_on o d) as [r|];
     [split_and!; [done|done|by eexists [], _]|]).
  { split_and!; [done|done|by exists [], []]. }
  cbn [forallb fst] in Hown. apply andb_prop in Hown as [Hw Hown].
  pose proof (wake_ledger h clk d w Hnd Hw Hinv) as Hinv'. destruct (wake clk d w) as [d' []] eqn:Hwake; cbn [fst] in Hinv'.
  - specialize (IH d' Hinv' Hown). destruct (await o d' ws) as [[d2 b] reply].
    destruct IH as (? & ? & seen & rest & -> & Hf). split_and!; [done|done|].
    exists ((w, clk) :: seen), rest. split; [done|]. cbn. by rewrite Hwake.
  - pose proof (reply_on_spec o d') as Hr'. split_and!; [done|by destruct (reply_on o d')|].
    exists [(w, clk)], ws. split; [done|]. cbn. by rewrite Hwake.
Qed.

(** The state in which the wait on a command handed over begins. *)
Definition taken (m : Meanwhile) (st : Signaling) (cmd : collider.AuthorityCommand) : Driver :=
  (turn (at_once m) (driver st) (Command (Some (Authority cmd (served st))))).1.

(** A handed-over command is answered under its own id or not at all. *)
Lemma ask_spec m st cmd :
  quiet st → own_meanwhile m = true →
  let '(d, b, reply) := ask m st cmd in
  (∃ h, NoDup h.*2 ∧ Forall (λ p, (p.2 < S (served st))%nat) h ∧ ledger_inv h (ledger d)) ∧
  if running st
  then settled (served st) d b reply ∧
       (∀ r, reply = Replied r → collider.ar_request_id r = collider.ac_request_id cmd) ∧
       ∃ seen rest, later m = seen ++ rest ∧ (d, b) = foldl loop_on (taken m st cmd, true) seen
  else reply = NotSent ∧ d = driver st ∧ b = false.
Proof.
  intros [_ _ (h & Hnd & Hlt & Hinv)] Hown. unfold ask. destruct (running st).
  - destruct (fresh_oneshot h (collider.ac_request_id cmd) _ Hnd Hlt) as [Hnd' Hlt'].
    pose proof (turn_ledger h (at_once m) (driver st) (Command (Some (Authority cmd (served st)))) Hnd' Hinv) as Hinv'.
    fold (taken m st cmd) in Hinv' |- *.
    pose proof (await_spec _ (served st) (taken m st cmd) (later m) Hnd' Hinv' Hown) as Ha.
    destruct (await _ _ _) as [[d b] reply]. destruct Ha as (Hd & Hset & Hseen).
    split; [by eauto|]. split_and!; [done| |done]. intros r ->.
    eapply same_oneshot; [exact Hnd'|by apply (ledger_replied _ _ Hd)|].
    apply elem_of_app. right. left.
  - split; [|done]. exists h. split_and!; [done| |done].
    eapply list.Forall_impl; [exact Hlt|]. cbn. lia.
Qed.

Lemma steps_safe ls s s' : safe s → steps ls s = Some s' → safe s'.
Proof.
  revert s. induction ls as [|l ls IH]; intros s Hs; cbn; [by intros [= <-]|].
  destruct (step l s) eqn:E; [|done]. eauto using safe_step.
Qed.

Lemma executed_safe s s' t k op new r : safe s → executed s s' t k op new r → safe s'.
Proof. intros Hs [(ls & Hls & _) _ _]. by eapply steps_safe. Qed.

(** What [execute] answers from a cached entry. *)
Definition replayed (c : CachedResult) (op : collider.AuthorityOperation)
  : result collider.AuthorityResult GrpcStatus :=
  if (cached_fingerprint c =? operation_fingerprint op)%N then Ok (cached_result c)
  else Err (already_exists "request_id was already used for a different operation").

Lemma exec_cached m st ctx op c :
  quiet st → entries (request_cache (service st)) !! request_key ctx = Some c →
  ∃ s, exec m ctx op st = (mk_Signaling s (driver st) (running st) (S (served st)), replayed c op) ∧
    safe s ∧ request_cache s = request_cache (service st).
Proof.
  intros [Hs _ _] Hc. unfold exec. set (t := fresh (dom (tasks (service st)))).
  assert (Ht : tasks (service st) !! t = None) by apply not_elem_of_dom, is_fresh.
  destruct (execute_answer (λ cmd, (ask m st cmd).2) (service st) t (request_key ctx) op
    (replayed c op) (request_cache (service st)) Ht) as (s & -> & Hx & Hcache).
  { intros w. unfold lookup_section, replayed. rewrite Hc. by destruct (_ =? _)%N. }
  exists s. rewrite (executed_sent _ _ _ _ _ _ _ Hx), drop_app_length. cbn.
  split_and!; [done|by eapply executed_safe|done].
Qed.

Lemma exec_fresh m st ctx op :
  quiet st → own_meanwhile m = true → entries (request_cache (service st)) !! request_key ctx = None →
  let cmd := collider.mk_AuthorityCommand (N.max (next_authority_request_id (service st)) 1) op in
  let '(d, b, reply) := ask m st cmd in
  let r := settle (collider.ac_request_id cmd) reply in
  ∃ s, exec m ctx op st = (mk_Signaling s d b (S (served st)), r) ∧
    safe s ∧ in_flight (request_cache s) = ∅ ∧
    match r with
    | Ok a => cache_insert (request_cache (service st)) (request_key ctx)
                (mk_CachedResult (operation_fingerprint op) a) = Some (request_cache s)
    | Err _ => request_cache s = request_cache (service st)
    end.
Proof.
  intros Hq Hown Hk cmd. pose proof (ask_spec m st cmd Hq Hown) as Hask. destruct Hq as [Hs Hidle _].
  unfold exec. set (t := fresh (dom (tasks (service st)))).
  assert (Ht : tasks (service st) !! t = None) by apply not_elem_of_dom, is_fresh.
  destruct (execute_own (λ cmd, (ask m st cmd).2) (service st) t (request_key ctx) op Hs Ht Hk)
    as (s & -> & Hx & Hsafe & Hfly & _ & Hcache); [by rewrite Hidle|].
  fold cmd in Hx, Hcache |- *. rewrite (executed_sent _ _ _ _ _ _ _ Hx), drop_app_length.
  destruct (ask m st cmd) as [[d b] reply] eqn:Ha. cbn [snd] in *. cbn zeta.
  exists s. split_and!; [|done|by rewrite Hfly|exact Hcache].
  destruct reply; cbn; rewrite ?Ha; try done. destruct Hask as [_ Hask].
  destruct (running st); [by destruct Hask as ([] & _)|by destruct Hask as (_ & -> & ->)].
Qed.

Lemma exec_quiet m st ctx op : quiet st → own_meanwhile m = true → quiet (exec m ctx op st).1.
Proof.
  intros Hq Hown. destruct (entries (request_cache (service st)) !! request_key ctx) as [c|] eqn:Hk.
  - destruct (exec_cached m _ _ op _ Hq Hk) as (s & -> & Hs & Hc). destruct Hq as [_ Hidle (h & ? & Hlt & ?)].
    split; cbn; [done|by rewrite Hc|]. exists h. split_and!; [done| |done].
    eapply list.Forall_impl; [exact Hlt|]. cbn. lia.
  - pose proof (exec_fresh m _ _ op Hq Hown Hk) as Hx. cbv zeta in Hx.
    pose proof (ask_spec m st (collider.mk_AuthorityCommand (N.max (next_authority_request_id (service st)) 1) op)
      Hq Hown) as Ha.
    destruct (ask _ _ _) as [[d b] reply]. destruct Hx as (s & -> & Hs & Hf & _).
    split; [done..|apply Ha].
Qed.

Lemma perform_quiet st a : quiet st → own_activity a = true → quiet (perform st a).
Proof.
  intros Hq Ha. destruct a as [m ctx op|w clk]; cbn; [by apply exec_quiet|].
  destruct (running st); [|done]. destruct Hq as [Hs Hi (h & Hnd & Hlt & Hinv)].
  pose proof (wake_ledger h clk (driver st) w Hnd Ha Hinv) as Hw.
  destruct (wake clk (driver st) w) as [d b]. split; cbn; [done|done|]. by exists h.
Qed.

(** The states of a process that has run. *)
Definition signaling_reachable (st : Signaling) : Prop :=
  ∃ register_timeout dwell socks sfus acts,
    forallb own_activity acts = true ∧
    st = foldl perform (start_signaling register_timeout dwell socks sfus) acts.

Lemma foldl_perform_quiet acts st :
  forallb own_activity acts = true → quiet st → quiet (foldl perform st acts).
Proof.
  revert st. induction acts as [|a acts IH]; intros st; cbn; [done|].
  intros [Ha Hacts]%andb_prop Hq. apply IH; [done|]. by apply perform_quiet.
Qed.

Lemma reachable_quiet st : signaling_reachable st → quiet st.
Proof.
  intros (rt & dw & socks & sfus & acts & Hown & ->). apply foldl_perform_quiet; [done|].
  split; cbn; [apply new_service_safe|done|]. exists []. split_and!; [constructor|constructor|].
  split; cbn; [by intros ? ?; rewrite lookup_empty|by intros ? ? ?%elem_of_nil|constructor].
Qed.

(** ** A cached answer stays *)

(** The cache of [st] answers [k] with [x] for [n] more requests. *)
Definition remembers (n : nat) (k : RequestKey) (x : CachedResult) (st : Signaling) : Prop :=
  entries (request_cache (service st)) !! k = Some x ∧
  ∃ m, recent m k (order (request_cache (service st))) ∧ (m + n < capacity)%nat.

Lemma exec_remembers m st ctx op k x n :
  quiet st → own_meanwhile m = true → remembers (S n) k x st → remembers n k x (exec m ctx op st).1.
Proof.
  intros Hq Hown (Hx & i & Hr & Hi). assert (Hwf := safe_cache _ (quiet_safe _ Hq)).
  destruct (entries (request_cache (service st)) !! request_key ctx) as [c|] eqn:Hk.
  - destruct (exec_cached m _ _ op _ Hq Hk) as (s & -> & _ & Hc). split; cbn; rewrite Hc; [done|].
    exists i. split; [done|lia].
  - pose proof (exec_fresh m _ _ op Hq Hown Hk) as Hf. cbv zeta in Hf.
    destruct (ask _ _ _) as [[d b] reply]. destruct Hf as (s & -> & _ & _ & Hc).
    unfold remembers. cbn [fst service].
    destruct (settle _ _) as [a|e]; [|rewrite Hc; split; [done|]; exists i; split; [done|lia]].
    destruct (cache_insert_recent _ _ _ _ k i Hwf Hc) as [Hx' Hr']; [congruence|done|lia|].
    split; [by rewrite Hx'|]. exists (S i). split; [done|lia].
Qed.

Lemma foldl_perform_remembers acts st k x :
  quiet st → forallb own_activity acts = true → remembers (requests acts) k x st →
  remembers 0 k x (foldl perform st acts).
Proof.
  revert st. induction acts as [|a acts IH]; intros st Hq; [done|]. cbn [forallb foldl].
  intros [Ha Hacts]%andb_prop Hrem. apply IH; [by apply perform_quiet|done|].
  unfold requests in *. destruct a as [m ctx op|w clk]; cbn in *.
  - by apply exec_remembers.
  - destruct (running st); [|done]. by destruct (wake clk (driver st) w).
Qed.

(** ** What a handler does with [execute] *)

(** A method refuses its request outright, or runs one operation under its
    context [c] that depends on the call only as far as [same_operation] allows. *)
Definition one_operation {A} (c : option v2.RequestContext)
    (f : Meanwhile → bytes → Instant → stateful Signaling GrpcStatus A) : Prop :=
  (∃ e, ∀ m random now st, f m random now st = (st, Err e)) ∨
  ∃ ctx op view, c = Some ctx ∧ (∀ r1 n1 r2 n2, same_operation (op r1 n1) (op r2 n2)) ∧
    ∀ m random now st, f m random now st =
      let '(st', r) := exec m ctx (op random now) st in
      (st', match r with Ok a => view a | Err e => Err e end).

Lemma one_operation_err {A} c e : one_operation c (λ _ _ _, lift (Err e : result A GrpcStatus)).
Proof. left. by exists e. Qed.

Lemma one_operation_lift {A B} c (v : result B GrpcStatus) (k : B → Meanwhile → bytes → Instant → stateful Signaling GrpcStatus A) :
  (∀ b, v = Ok b → one_operation c (k b)) → one_operation c (λ m random now, st_bind (lift v) (λ b, k b m random now)).
Proof. intros Hk. destruct v as [b|e]; [by apply (Hk b)|left; by exists e]. Qed.

Lemma one_operation_if {A} c (b : bool) (f1 f2 : Meanwhile → bytes → Instant → stateful Signaling GrpcStatus A) :
  one_operation c f1 → one_operation c f2 →
  one_operation c (λ m random now, if b then f1 m random now else f2 m random now).
Proof. by destruct b. Qed.

Lemma one_operation_exec {A} c ctx op (view : collider.AuthorityResult → result A GrpcStatus) :
  app_context c = Ok ctx → (∀ r1 n1 r2 n2, same_operation (op r1 n1) (op r2 n2)) →
  one_operation c (λ m random now, st_bind (exec m ctx (op random now)) (λ a, lift (view a))).
Proof.
  intros [Hc _]%app_context_spec Hop. right. exists ctx, op, view. split_and!; [done|done|].
  intros m random now st. unfold st_bind, lift. by destruct (exec _ _ _ _) as [st' [a|e]].
Qed.

Lemma one_operation_response {A B} c (g : A → B) f :
  one_operation c f → one_operation c (λ m random now, st_bind (f m random now) (λ a, lift (Ok (g a)))).
Proof.
  intros [[e He]|(ctx & op & view & Hc & Hop & Hm)].
  - left. exists e. intros. unfold st_bind. by rewrite He.
  - right. exists ctx, op, (λ a, match view a with Ok x => Ok (g x) | Err e => Err e end).
    split_and!; [done|done|]. intros m random now st. unfold st_bind, lift. rewrite Hm.
    destruct (exec _ _ _ _) as [st' [a|e]]; [|done]. by destruct (view a).
Qed.

(** Walks down a handler: its guards, then its operation. *)
Ltac one_operation :=
  lazymatch goal with
  | |- one_operation _ (λ _ _ _, st_bind (lift _) _) => apply one_operation_lift; intros ? ?; one_operation
  | |- one_operation _ (λ _ _ _, if _ then lift (Err _) else _) =>
      apply one_operation_if; [apply one_operation_err|one_operation]
  | |- one_operation _ (λ _ _ now, st_bind (exec _ _ (collider.OpAdmit ?r ?c ?l now)) _) =>
      by apply (one_operation_exec _ _ (λ _ now, collider.OpAdmit r c l now))
  | |- one_operation _ (λ _ _ now, st_bind (exec _ _ (collider.OpInject ?r ?c ?m now)) _) =>
      by apply (one_operation_exec _ _ (λ _ now, collider.OpInject r c m now))
  | |- one_operation _ (λ _ random now, st_bind (exec _ _ (collider.OpAdmitV2 ?r ?c _ now)) _) =>
      by apply (one_operation_exec _ _ (λ random now, collider.OpAdmitV2 r c (new_admission_token random) now))
  | |- one_operation _ (λ _ _ _, st_bind (exec _ _ ?op) _) => by apply (one_operation_exec _ _ (λ _ _, op))
  end.

Lemma serve_one_operation rpc :
  one_operation (unary_context rpc) (λ m random now, serve (exec m) random now rpc).
Proof.
  destruct rpc as [r|r|r|r|r|r|r|r]; unfold serve; apply one_operation_response;
    unfold admit_v1, remove_v1, occupancy_v1, inject_v1, get_status, admit_v2, remove_v2, occupancy_v2;
    cbn [unary_context]; one_operation.
Qed.

(** ** The properties *)

(** C7: A request whose key is not cached makes the event loop of a running process take exactly
    one authority command, under a fresh reply channel.  Whatever the loop does while the
    request waits, the answer is the loop's reply to that command, correlated by its id, and is
    cached; or a deadline error when none came in time, or an unavailability when the loop ended
    without one, and nothing is cached. *)
Theorem uncached_request_handled_once m st ctx op :
  signaling_reachable st → running st = true → own_meanwhile m = true →
  entries (request_cache (service st)) !! request_key ctx = None →
  let cmd := collider.mk_AuthorityCommand (N.max (next_authority_request_id (service st)) 1) op in
  (served st ∉ (replies (driver st)).*1) ∧
  ∃ s d b r seen rest, exec m ctx op st = (mk_Signaling s d b (S (served st)), r) ∧
    later m = seen ++ rest ∧ (d, b) = foldl loop_on (taken m st cmd, true) seen ∧
    match r with
    | Ok a => (served st, collider.mk_AuthorityResponse (collider.ac_request_id cmd) a) ∈ replies d ∧
        entries (request_cache s) !! request_key ctx = Some (mk_CachedResult (operation_fingerprint op) a)
    | Err e => (served st ∉ (replies d).*1) ∧ request_cache s = request_cache (service st) ∧
        e = if b then deadline_exceeded "signaling authority timed out"
            else unavailable "signaling authority stopped"
    end.
Proof.
  intros Hq%reachable_quiet Hrun Hown Hk cmd. split.
  { destruct Hq as [_ _ (h & _ & Hlt & Hinv)]. intros ([o r] & Ho & Hin)%list_elem_of_fmap. cbn in Ho.
    apply (ledger_replied _ _ Hinv) in Hin. rewrite list.Forall_forall in Hlt. apply Hlt in Hin. cbn in Hin. lia. }
  pose proof (exec_fresh m _ _ op Hq Hown Hk) as Hx. pose proof (ask_spec m st cmd Hq Hown) as Ha.
  fold cmd in Hx. cbv zeta in Hx. destruct (ask m st cmd) as [[d b] reply]. apply proj2 in Ha. rewrite Hrun in Ha.
  destruct Hx as (s & -> & _ & _ & Hc), Ha as (Hset & Hid & seen & rest & Hl & Hf).
  exists s, d, b. eexists. exists seen, rest. split_and!; [done|done|done|].
  destruct reply as [| | |[i a]]; cbn in *; [done|by destruct Hset as [-> ?]|by destruct Hset as [-> ?]|].
  specialize (Hid _ eq_refl). cbn in Hid. subst i. rewrite N.eqb_refl in *. split; [done|].
  destruct (cache_insert_wf _ _ _ _ (safe_cache _ (quiet_safe _ Hq)) Hc) as (_ & He & _). exact He.
Qed.

(** C3: Of requests that come one after the other: an RPC that was not cached, was answered and
    is repeated, with fewer requests in between than the cache holds and any activity of
    browsers, workers, timers, even the end of the event loop, gets the identical response,
    although its clock and its random token differ; the event loop is left untouched. *)
Theorem retried_rpc_executed_once st rpc m1 random1 now1 response st1 acts m2 random2 now2 :
  signaling_reachable st → own_meanwhile m1 = true →
  (∀ ctx, unary_context rpc = Some ctx → entries (request_cache (service st)) !! request_key ctx = None) →
  serve (exec m1) random1 now1 rpc st = (st1, Ok response) →
  forallb own_activity acts = true → (N.of_nat (requests acts) < REQUEST_CACHE_CAPACITY)%N →
  let st2 := foldl perform st1 acts in
  let '(st3, r) := serve (exec m2) random2 now2 rpc st2 in
  r = Ok response ∧ driver st3 = driver st2 ∧
  request_cache (service st3) = request_cache (service st2).
Proof.
  intros Hq%reachable_quiet Hm1 Hnew Hfirst Hown Hlen st2.
  destruct (serve_one_operation rpc) as [[e He]|(ctx & op & view & Hctx & Hop & Hm)]; [by rewrite He in Hfirst|].
  rewrite Hm in Hfirst |- *. pose proof (Hnew _ Hctx) as Hk.
  pose proof (exec_quiet m1 _ ctx (op random1 now1) Hq Hm1) as Hq1.
  pose proof (exec_fresh m1 _ _ (op random1 now1) Hq Hm1 Hk) as Hx. cbv zeta in Hx.
  destruct (ask _ _ _) as [[d b] reply]. destruct Hx as (s & Hx & _ & _ & Hc). rewrite Hx in Hfirst, Hq1.
  cbn [fst] in Hq1.
  destruct (settle _ reply) as [a|e]; [|done]. simplify_eq.
  assert (Hwf := safe_cache _ (quiet_safe _ Hq)).
  destruct (foldl_perform_remembers acts _ (request_key ctx)
    (mk_CachedResult (operation_fingerprint (op random1 now1)) a) Hq1 Hown) as [Hcached _].
  { split; [by eapply cache_insert_wf|]. exists 0%nat. split; [by eapply cache_insert_new_recent|].
    pose proof capacity_eq. lia. }
  destruct (exec_cached m2 _ ctx (op random2 now2) _ (foldl_perform_quiet acts _ Hown Hq1) Hcached)
    as (s3 & Hx3 & _ & Hc3).
  unfold st2. rewrite Hx3. unfold replayed; cbn.
  rewrite (same_operation_fingerprint _ _ (Hop random1 now1 random2 now2)), N.eqb_refl. done.
Qed.
End stack_spec.

(** ** Witnesses *)

Section witnesses.
#[local] Existing Instance sample_room_id.
#[local] Existing Instance sample_enums.
#[local] Existing Instance sample_hasher.
#[local] Existing Instance sample_collider.
#[local] Existing Instance sample_collider_laws.

Definition sample_start : Signaling := start_signaling 30 60 ∅ ∅.

Lemma sample_start_reachable : signaling_reachable sample_start.
Proof. by exists 30%N, 60%N, ∅, ∅, []. Qed.

(** Nothing else happens; a browser connects and the process is stopped. *)
Definition quietly : Meanwhile := mk_Meanwhile (λ _, 5%N) [].

Definition busily : Meanwhile :=
  mk_Meanwhile (λ _, 5%N) [(Command (Some (Connected 1 0%nat)), λ _, 6%N); (Stop, λ _, 7%N)].

Definition second_context : v2.RequestContext := v2.mk_RequestContext (as_i32 v2.Apprtc) "apprtc-1" 8.

(** Another request, a browser and the stop between the two attempts. *)
Definition between : list Activity :=
  [Request busily second_context collider.OpStatus;
   Woken (Command (Some (Connected 1 0%nat))) (λ _, 6%N); Woken (Command (Some (Text 1 "hi" 7))) (λ _, 7%N);
   Woken Stop (λ _, 8%N)].

Definition removed_response : UnaryResponse :=
  ROperation (v2.mk_Response (response_context 7) (Some (v2.Success tt))).

Lemma uncached_request_handled_once_witness :
  (exec busily second_context collider.OpStatus sample_start).2 = Ok collider.ResRemoved ∧
  ∃ s d b r, exec busily second_context collider.OpStatus sample_start = (mk_Signaling s d b 1, r).
Proof.
  split; [vm_compute; reflexivity|].
  destruct (uncached_request_handled_once busily sample_start second_context collider.OpStatus
    sample_start_reachable eq_refl eq_refl eq_refl) as (_ & s & d & b & r & _ & _ & Hx & _).
  exists s, d, b, r. exact Hx.
Defined.

Lemma retried_rpc_executed_once_witness :
  (serve (exec quietly) [] 5 good_remove sample_start).2 = Ok removed_response ∧
  let st1 := (serve (exec quietly) [] 5 good_remove sample_start).1 in
  let st2 := foldl perform st1 between in
  (serve (exec busily) [Byte.x01] 9 good_remove st2).2 = Ok removed_response.
Proof.
  assert (Hr : (serve (exec quietly) [] 5 good_remove sample_start).2 = Ok removed_response)
    by (vm_compute; reflexivity).
  split; [exact Hr|]. intros st1 st2.
  pose proof (retried_rpc_executed_once sample_start good_remove quietly [] 5 removed_response st1
    between busily [Byte.x01] 9 sample_start_reachable eq_refl) as Hretry.
  cbv zeta in Hretry. fold st2 in Hretry. destruct (serve _ [Byte.x01] 9 good_remove st2) as [st3 r].
  apply Hretry; [by intros ctx [= <-]| |reflexivity|reflexivity].
  rewrite <- Hr. apply surjective_pairing.
Defined.
End witnesses.
