(* ===== verification/Process.v ===== *)
(** * Concurrent requests and the event loop ([src/src/bin/signaling.rs], [main])

    The tasks of [execute] ([src/src/grpc_server.rs]) and the loop of
    [src/src/signaling_server.rs] around the one command queue that [main] creates
    for them, any number of requests at a time, with browsers and workers
    producing commands as well.  One label is one atomic action of one task, or
    one turn of the loop. *)

From S2P Require Import Prelude Wire RequestCache Execute Driver DriverSpec Stack.

Section process.
Context `{L : RoomIdLib, H : DefaultHasher, C : !ColliderLib, CL : !ColliderLaws C}.

(** Where the loop's task is: in its [loop], emptying the queue after it, past
    [collider.close()], or ended with its receiver and reply senders dropped. *)
Inductive Phase := Looping | Draining | Closed | Gone.

#[export] Instance phase_eq_dec : EqDecision Phase.
Proof. solve_decision. Defined.

(** [p_queue] is the [mpsc] channel of [COMMAND_CAPACITY]; [p_rx] has the reply
    channel of each waiting request, [p_next] is a fresh one.  [p_handled] and
    [p_lost] are histories: what the loop took from the queue, and what was
    still in it when the receiver was dropped. *)
Record Process := mk_Process {
  p_service : Service;
  p_driver : Driver;
  p_phase : Phase;
  p_queue : list DriverCommand;
  p_rx : gmap nat oneshot_id;
  p_next : oneshot_id;
  p_handled : list DriverCommand;
  p_lost : list DriverCommand;
}.

Definition start_process (register_timeout downgrade_dwell : N)
    (socks : gmap chan_id (channel SocketOutput)) (sfus : gmap chan_id (channel ssfu.Output)) : Process :=
  mk_Process new_service (new_driver register_timeout downgrade_dwell socks sfus) Looping [] ∅ 0 [] [].

Inductive PLabel :=
  | PTask (l : Label)
  | PSend (t : nat)
  | PReceive (t : nat)
  | PTimeout (t : nat)
  | PDropped (t : nat)
  | PProduce (command : DriverCommand)
  | PTake (clock : ConnectionId → Instant)
  | PDeadline (now : Instant) (clock : ConnectionId → Instant)
  | PStop
  | PDrain
  | PClose (clock : ConnectionId → Instant)
  | PGone.

(** The labels of a task that involve no one else. *)
Definition own_label (l : Label) : bool :=
  match l with Send _ _ | Receive _ _ => false | _ => true end.

Definition with_service (p : Process) (s : Service) : Process :=
  mk_Process s (p_driver p) (p_phase p) (p_queue p) (p_rx p) (p_next p) (p_handled p) (p_lost p).

(** Dropping a request drops the receiver of its reply. *)
Definition drop_rx (l : Label) (rx : gmap nat oneshot_id) : gmap nat oneshot_id :=
  match l with Cancel t => delete t rx | _ => rx end.

(** Whether the sender of the reply channel [o] still exists. *)
Definition held (o : oneshot_id) (p : Process) : bool :=
  match p_phase p with
  | Gone => false
  | _ => bool_decide (o ∈ (p_queue p ≫= authority_of).*2) ||
         bool_decide (o ∈ (map_to_list (pending_authority (p_driver p))).*2)
  end.

(** Room in the queue, and a receiver at its other end. *)
Definition accepts (p : Process) : bool :=
  match p_phase p with Gone => false | _ => (length (p_queue p) <? COMMAND_CAPACITY)%nat end.

(** The command of [execute] enters the queue once there is room. *)
Definition hand_over (p : Process) (t : nat) : option Process :=
  if negb (accepts p) then None else
  match tasks (p_service p) !! t with
  | Some (mk_Task _ op (AtSend id)) =>
      s ← step (Send t true) (p_service p);
      Some (mk_Process s (p_driver p) (p_phase p)
              (p_queue p ++ [Authority (collider.mk_AuthorityCommand id op) (p_next p)])
              (<[t := p_next p]> (p_rx p)) (S (p_next p)) (p_handled p) (p_lost p))
  | _ => None
  end.

(** [commands.send(DriverCommand::Authority { .. }).await] of [execute]; it fails
    when the receiver is gone. *)
Definition process_send (p : Process) (t : nat) : option Process :=
  match p_phase p with
  | Gone => with_service p <$> step (Send t false) (p_service p)
  | _ => hand_over p t
  end.

(** The waits of [execute] on [response_rx]: a reply is seen before the timeout,
    which is polled second. *)
Definition process_await (p : Process) (t : nat) (l : PLabel) : option Process :=
  o ← p_rx p !! t;
  match reply_on o (p_driver p), l with
  | Some r, PReceive _ => with_service p <$> step (Receive t (Replied r)) (p_service p)
  | None, PTimeout _ => with_service p <$> step (Receive t TimedOut) (p_service p)
  | None, PDropped _ =>
      if held o p then None else with_service p <$> step (Receive t Dropped) (p_service p)
  | _, _ => None
  end.

(** The loop's task after it has run [d]; [took] is the command it took. *)
Definition with_loop (p : Process) (d : Driver) (phase : Phase) (took queue : list DriverCommand) : Process :=
  mk_Process (p_service p) d phase queue (p_rx p) (p_next p) (p_handled p ++ took) (p_lost p).

Definition process_step (l : PLabel) (p : Process) : option Process :=
  match l with
  | PTask l =>
      if own_label l then
        s ← step l (p_service p);
        Some (mk_Process s (p_driver p) (p_phase p) (p_queue p) (drop_rx l (p_rx p)) (p_next p)
                (p_handled p) (p_lost p))
      else None
  | PSend t => process_send p t
  | PReceive t | PTimeout t | PDropped t => process_await p t l
  | PProduce command =>
      if accepts p && own_wakeup (Command (Some command))
      then Some (mk_Process (p_service p) (p_driver p) (p_phase p) (p_queue p ++ [command]) (p_rx p)
                   (p_next p) (p_handled p) (p_lost p))
      else None
  | PTake clock =>
      match p_phase p, p_queue p with
      | Looping, c :: q =>
          Some (with_loop p (turn clock (p_driver p) (Command (Some c))).1 Looping [c] q)
      | _, _ => None
      end
  | PDeadline now clock =>
      match p_phase p, poll_timeout (d_collider (p_driver p)) with
      | Looping, Some _ =>
          let '(d, goes_on) := turn clock (p_driver p) (Deadline now) in
          Some (with_loop p d (if goes_on then Looping else Draining) [] (p_queue p))
      | _, _ => None
      end
  | PStop =>
      match p_phase p with
      | Looping => Some (with_loop p (p_driver p) Draining [] (p_queue p))
      | _ => None
      end
  | PDrain =>
      match p_phase p, p_queue p with
      | Draining, c :: q => Some (with_loop p (handle_command (p_driver p) c) Draining [c] q)
      | _, _ => None
      end
  | PClose clock =>
      match p_phase p, p_queue p with
      | Draining, [] => Some (with_loop p (stopped clock (p_driver p)) Closed [] [])
      | _, _ => None
      end
  | PGone =>
      match p_phase p with
      | Closed => Some (mk_Process (p_service p) (p_driver p) Gone [] (p_rx p) (p_next p) (p_handled p)
                          (p_lost p ++ p_queue p))
      | _ => None
      end
  end.

Fixpoint process_steps (ls : list PLabel) (p : Process) : option Process :=
  match ls with
  | [] => Some p
  | l :: ls' => match process_step l p with Some p' => process_steps ls' p' | None => None end
  end.

Definition process_reachable (p : Process) : Prop :=
  ∃ register_timeout dwell socks sfus ls,
    process_steps ls (start_process register_timeout dwell socks sfus) = Some p.
End process.
