(* ===== verification/ProcessSpec.v ===== *)
(** * What the signaling process promises to concurrent requests

    Whatever the interleaving of requests, cancellations, browsers, workers and the
    end of the loop: commands reach the loop once each in the order they were
    handed over, and a successful answer is the loop's reply to a command of an
    equal operation under the same key. *)

From S2P Require Import Prelude Wire Samples Fifo RequestCache Execute ExecuteLive ExecuteSpec.
From S2P Require Import Driver DriverSpec Stack StackSpec Process.

Section process_spec.
Context `{L : RoomIdLib, H : DefaultHasher, C : !ColliderLib, CL : !ColliderLaws C}.
Abbreviation Op := collider.AuthorityOperation.

(** ** Replies are only added *)

Definition replies_grow (d d' : Driver) : Prop := replies d `prefix_of` replies d'.

#[local] Instance replies_grow_preorder : PreOrder replies_grow.
Proof. split; unfold replies_grow; [by intros d|]. intros a b c. apply transitivity. Qed.

Lemma replies_grow_same d d' : replies d' = replies d → replies_grow d d'.
Proof. unfold replies_grow. by intros ->. Qed.

#[local] Hint Resolve replies_grow_same : core.

Lemma replies_grow_eq d d' : ledger d' = ledger d → replies_grow d d'.
Proof. intros [= _ Hr]. unfold replies_grow. by rewrite Hr. Qed.

Lemma handle_command_grow d c : replies_grow d (handle_command d c).
Proof.
  destruct c as [i o|i t now|cmd o|input o|input|i now]; cbn; auto.
  - destruct (handle_read _ _) as [c r]. destruct (is_ok r); auto.
  - destruct (handle_read _ _) as [c r]. destruct (is_ok r); [auto|]. cbn.
    case_match; [|auto]. apply replies_grow_eq. by rewrite send_socket_ledger.
  - destruct (handle_write _ _) as [c r]. destruct (is_ok r); [auto|]. cbn.
    case_match; [|auto]. by eexists.
  - case_match; [|auto]. destruct (handle_sfu_input _ _) as [c r]. destruct (is_ok r); auto.
Qed.

Lemma drain_authority_grow fuel d d' : drain_authority_responses fuel d = Some d' → replies_grow d d'.
Proof.
  revert d. induction fuel as [|fuel IH]; intros d; cbn; [done|].
  destruct (poll_event _) as [[r|] c]; [|intros [= <-]; auto]. cbn.
  destruct (pending_authority d !! _) as [o|]; intros Hd%IH; (etrans; [|exact Hd]); [|auto].
  by eexists.
Qed.

Lemma drained_grow clk d : replies_grow d (drained clk d).
Proof.
  destruct (drained_settles clk d) as [n Hn]. specialize (Hn n (le_n _)). unfold drain in Hn.
  destruct (drain_outputs n clk d) as [d1|] eqn:Hd; [|done].
  etrans; [apply replies_grow_eq, (drain_outputs_ledger _ _ _ _ Hd)|by eapply drain_authority_grow].
Qed.

Lemma turn_grow clk d w : replies_grow d (turn clk d w).1.
Proof.
  destruct w as [|[c|]|now]; cbn; [auto| |auto|].
  - etrans; [apply handle_command_grow|apply drained_grow].
  - destruct (poll_timeout _); [|auto]. destruct (handle_timeout _ _) as [c r]. destruct (is_ok r); [|auto].
    cbn. etrans; [|apply drained_grow]. auto.
Qed.

(** ** The invariant *)

Definition authority_command (c : DriverCommand) : list collider.AuthorityCommand :=
  match c with Authority command _ => [command] | _ => [] end.

(** All commands ever put into the queue, in order. *)
Definition produced (p : Process) : list DriverCommand := p_handled p ++ p_lost p ++ p_queue p.

(** [a] is the loop's reply to a command that was handed over under [k] with an
    operation of fingerprint [fp]. *)
Definition genuine (p : Process) (k : RequestKey) (fp : N) (a : collider.AuthorityResult) : Prop :=
  ∃ op id o, (k, collider.mk_AuthorityCommand id op) ∈ sent (p_service p) ∧
    Authority (collider.mk_AuthorityCommand id op) o ∈ p_handled p ∧
    (o, collider.mk_AuthorityResponse id a) ∈ replies (p_driver p) ∧
    operation_fingerprint op = fp.

(** The errors of [execute]; a reply to another request is not one of them. *)
Definition request_error (e : GrpcStatus) : Prop :=
  e = unavailable "signaling authority stopped" ∨ e = deadline_exceeded "signaling authority timed out" ∨
  e = already_exists "request_id was already used for a different operation" ∨
  e = already_exists "request_id is in use for a different operation".

(** What can be said of an outcome computed for [op] under [k]. *)
Definition accounted (p : Process) (k : RequestKey) (op : Op)
    (r : result collider.AuthorityResult GrpcStatus) : Prop :=
  match r with
  | Ok a => genuine p k (operation_fingerprint op) a
  | Err e => request_error e
  end.

Definition task_accounted (p : Process) (t : nat) (task : Task) : Prop :=
  match task_pc task with
  | AtReply id => ∃ o, p_rx p !! t = Some o ∧
      Authority (collider.mk_AuthorityCommand id (task_op task)) o ∈ produced p ∧
      (task_key task, collider.mk_AuthorityCommand id (task_op task)) ∈ sent (p_service p)
  | AtFinish r | AtDone r => accounted p (task_key task) (task_op task) r
  | _ => True
  end.

Record process_inv (p : Process) : Prop := mk_process_inv {
  pi_safe : safe (p_service p);
  pi_sent : produced p ≫= authority_command = (sent (p_service p)).*2;
  pi_lost : p_phase p ≠ Gone → p_lost p = [];
  pi_fresh : NoDup (produced p ≫= authority_of).*2 ∧
    Forall (λ h, (h.2 < p_next p)%nat) (produced p ≫= authority_of);
  pi_ledger : ledger_inv (p_handled p ≫= authority_of) (ledger (p_driver p));
  pi_cache : ∀ k c, entries (request_cache (p_service p)) !! k = Some c →
    genuine p k (cached_fingerprint c) (cached_result c);
  pi_tasks : ∀ t task, tasks (p_service p) !! t = Some task → task_accounted p t task;
}.

(** ** Histories only grow *)

(** [p'] has at least the histories of [p]. *)
Record extends (p p' : Process) : Prop := mk_extends {
  ext_sent : sent (p_service p) ⊆ sent (p_service p');
  ext_handled : p_handled p ⊆ p_handled p';
  ext_produced : produced p ⊆ produced p';
  ext_replies : replies (p_driver p) ⊆ replies (p_driver p');
}.

Lemma genuine_extends p p' k fp a : extends p p' → genuine p k fp a → genuine p' k fp a.
Proof.
  intros [Hs Hh _ Hr] (op & id & o & H1 & H2 & H3 & H4).
  exists op, id, o. split_and!; [by apply Hs|by apply Hh|by apply Hr|done].
Qed.

Lemma accounted_extends p p' k op r : extends p p' → accounted p k op r → accounted p' k op r.
Proof. intros He. destruct r; cbn; [by apply genuine_extends|done]. Qed.

Lemma task_accounted_extends p p' t task :
  extends p p' → p_rx p' !! t = p_rx p !! t → task_accounted p t task → task_accounted p' t task.
Proof.
  intros He Hrx. unfold task_accounted. destruct (task_pc task); try done; try by apply accounted_extends.
  rewrite Hrx. intros (o & ? & ? & ?). exists o. split_and!; [done|by apply (ext_produced _ _ He)|by apply (ext_sent _ _ He)].
Qed.

(** A label that leaves the service alone. *)
Lemma inv_service_same p p' :
  process_inv p → p_service p' = p_service p → p_rx p' = p_rx p → p_next p' = p_next p →
  produced p' ≫= authority_command = produced p ≫= authority_command →
  produced p' ≫= authority_of = produced p ≫= authority_of →
  (p_phase p' ≠ Gone → p_lost p' = []) →
  ledger_inv (p_handled p' ≫= authority_of) (ledger (p_driver p')) →
  extends p p' → process_inv p'.
Proof.
  intros [Hs Hsent Hl Hf Hled Hc Ht] Es Erx En Ec Ea Hlost Hled' He.
  split; rewrite ?Es, ?Ec, ?Ea, ?En; [done..| |].
  - intros k c Hk. by eapply genuine_extends, Hc.
  - intros t task Hk. eapply task_accounted_extends; [done|by rewrite Erx|by apply Ht].
Qed.

(** ** A task's own steps *)

(** A program counter nothing is claimed of. *)
Definition idle (pc : Pc) : Prop := match pc with AtLookup | AtWait _ | AtAllocate | AtSend _ => True | _ => False end.

(** How a task of [s'] comes from [s]. *)
Definition task_from (s : Service) (t : nat) (task : Task) : Prop :=
  tasks s !! t = Some task ∨ idle (task_pc task) ∨
  ∃ r, task_pc task = AtDone r ∧
    (tasks s !! t = Some (mk_Task (task_key task) (task_op task) (AtFinish r)) ∨
     match r with
     | Ok a => entries (request_cache s) !! task_key task =
         Some (mk_CachedResult (operation_fingerprint (task_op task)) a)
     | Err e => request_error e
     end).

Lemma task_from_set_pc s t task pc :
  (∀ u task', tasks s !! u = Some task' → task_from s u task') →
  task_from s t (mk_Task (task_key task) (task_op task) pc) →
  ∀ u task', set_pc s t task pc !! u = Some task' → task_from s u task'.
Proof. intros Ho Hn u task'. unfold set_pc. rewrite lookup_insert_Some. intros [[<- <-]|[_ ?]]; auto. Qed.

Lemma own_step l s s' :
  step l s = Some s' → own_label l = true → safe s →
  sent s' = sent s ∧
  (∀ k c, entries (request_cache s') !! k = Some c →
    entries (request_cache s) !! k = Some c ∨
    ∃ t op a, tasks s !! t = Some (mk_Task k op (AtFinish (Ok a))) ∧
      c = mk_CachedResult (operation_fingerprint op) a) ∧
  (∀ t task, tasks s' !! t = Some task → task_from s t task) ∧
  (∀ t, l = Cancel t → tasks s' !! t = None).
Proof.
  intros Hstep%step_inv Hl Hsafe.
  assert (Hold : ∀ u task', tasks s !! u = Some task' → task_from s u task') by (intros; by left).
  step_cases Hstep;
    try done.
  - split_and!; [done|auto| |done]. cbn. intros u task. rewrite lookup_insert_Some.
    intros [[<- <-]|[_ ?]]; [by right; left|auto].
  - unfold step_lookup. set (w := fresh (dom (watches s))). cbn [task_key task_op].
    pose proof (lookup_section_spec (request_cache s) k (operation_fingerprint op) w) as Hspec.
    destruct (lookup_section (request_cache s) k (operation_fingerprint op) w) as [[r|w'|] c] eqn:Hlook;
      (split_and!; [done| | |done]); cbn.
    + subst c. auto.
    + apply task_from_set_pc; [done|]. right; right. exists r. split; [done|]. right. cbn.
      unfold lookup_section in Hlook. unfold request_error.
      destruct (entries _ !! k) as [[fp a]|]; cbn in Hlook.
      * destruct (_ =? _)%N eqn:Hfp; simplify_eq; [|auto]. bool_to_prop. by subst fp.
      * destruct (in_flight _ !! k); [|done]. destruct (_ =? _)%N; simplify_eq. auto 6.
    + destruct Hspec as [-> _]. auto.
    + apply task_from_set_pc; [done|]. by right; left.
    + destruct Hspec as (_ & _ & ->). auto.
    + apply task_from_set_pc; [done|]. by right; left.
  - split_and!; [done|auto| |done]. apply task_from_set_pc; [done|]. by right; left.
  - split_and!; [done|auto| |done]. apply task_from_set_pc; [done|]. by right; left.
  - unfold step_finish in Hf; cbn in Hf.
    destruct (finish_section_spec (request_cache s) k (operation_fingerprint op) r (safe_cache _ Hsafe))
      as (c' & Hfs & _ & _ & Hent).
    rewrite Hfs in Hf. simplify_eq. split_and!; [done| | |done]; cbn.
    + intros k' c Hk'. destruct r as [a|e]; [|rewrite Hent in Hk'; auto].
      destruct Hent as [_ Hins].
      destruct (cache_insert_entries _ _ _ _ _ _ (cache_wf_in_flight _ _ (safe_cache _ Hsafe)) Hins Hk')
        as [[-> ->]|?]; [right; eauto|by left].
    + apply task_from_set_pc; [done|]. right; right. exists r. auto.
  - split_and!; [done|auto| |].
    + cbn. intros u task'. rewrite lookup_delete_Some. intros [_ ?]. auto.
    + intros u [= <-]. cbn. apply lookup_delete_eq.
Qed.

Lemma inv_own p l s' :
  process_inv p → own_label l = true → step l (p_service p) = Some s' →
  process_inv (mk_Process s' (p_driver p) (p_phase p) (p_queue p) (drop_rx l (p_rx p)) (p_next p)
    (p_handled p) (p_lost p)).
Proof.
  intros [Hs Hsent Hl Hf Hled Hc Ht] Hown Hstep.
  destruct (own_step _ _ _ Hstep Hown Hs) as (Es & Hc' & Ht' & Hcancel).
  set (p' := mk_Process _ _ _ _ _ _ _ _).
  assert (He : extends p p') by (split; cbn; [by rewrite Es|done..]).
  split; cbn [p' p_service p_driver p_phase p_handled p_lost p_next]; [by eapply safe_step|by rewrite Es|done..| |].
  - intros k c [Hk|(t & op & a & Hk & ->)]%Hc'; [by eapply genuine_extends, Hc|].
    apply Ht in Hk. by eapply genuine_extends.
  - intros t task Hk. destruct (Ht' _ _ Hk) as [Hold|[Hidle|(r & Hpc & Hr)]].
    + eapply task_accounted_extends; [done| |by apply Ht]. cbn. destruct l; cbn; try done.
      rewrite lookup_delete_ne; [done|]. intros ->. by rewrite Hcancel in Hk.
    + unfold task_accounted. by destruct (task_pc task).
    + unfold task_accounted. rewrite Hpc. eapply accounted_extends; [done|].
      destruct Hr as [Hr|Hr]; [exact (Ht _ _ Hr)|]. destruct r as [a|e]; [exact (Hc _ _ Hr)|done].
Qed.

(** ** Handing a command over *)

Lemma bind_snoc {A B} (f : A → list B) l x : (l ++ [x]) ≫= f = (l ≫= f) ++ f x.
Proof. rewrite bind_app. cbn. by rewrite app_nil_r. Qed.

(** Setting one task to a state that is accounted for. *)
Lemma inv_set_pc p p' t task pc :
  process_inv p → safe (p_service p') → extends p p' →
  tasks (p_service p') = set_pc (p_service p) t task pc →
  request_cache (p_service p') = request_cache (p_service p) →
  (∀ u, u ≠ t → p_rx p' !! u = p_rx p !! u) →
  task_accounted p' t (mk_Task (task_key task) (task_op task) pc) →
  produced p' ≫= authority_command = (sent (p_service p')).*2 →
  (p_phase p' ≠ Gone → p_lost p' = []) →
  NoDup (produced p' ≫= authority_of).*2 ∧
    Forall (λ h, (h.2 < p_next p')%nat) (produced p' ≫= authority_of) →
  ledger_inv (p_handled p' ≫= authority_of) (ledger (p_driver p')) →
  process_inv p'.
Proof.
  intros [_ _ _ _ _ Hc Ht] Hs He Et Ec Hrx Hnew ? ? ? ?. split; [done..| |].
  - intros k c. rewrite Ec. intros Hk. by eapply genuine_extends, Hc.
  - intros u task'. rewrite Et. unfold set_pc. rewrite lookup_insert_Some. intros [[<- <-]|[Hne Hk]]; [done|].
    eapply task_accounted_extends; [done|by apply Hrx|by apply Ht].
Qed.

Lemma inv_send p t p' : process_inv p → process_send p t = Some p' → process_inv p'.
Proof.
  intros Hinv Hp. pose proof Hinv as [Hs Hsent Hl [Hnd Hlt] Hled _ _]. unfold process_send in Hp.
  destruct (decide (p_phase p = Gone)) as [Hg|Hg].
  - rewrite Hg in Hp. apply fmap_Some in Hp as (s' & Hstep & ->).
    pose proof (safe_step _ _ _ Hstep Hs) as Hs'. apply step_inv in Hstep. inversion Hstep as [| | | |t' k op id acc Ht| | |]; subst.
    eapply (inv_set_pc p _ t); [done|exact Hs'|split; done|reflexivity|done|done| |done..].
    unfold task_accounted, accounted, request_error; cbn. auto.
  - assert (Hp' : hand_over p t = Some p') by (by destruct (p_phase p)). clear Hp. unfold hand_over in Hp'.
    destruct (accepts p); [|done]. cbn [negb] in Hp'.
    destruct (tasks (p_service p) !! t) as [[k op [| | |id| | |]]|] eqn:Htask; try done.
    destruct (step (Send t true) (p_service p)) as [s'|] eqn:Hstep; [|done]. cbn in Hp'. simplify_eq.
    pose proof (safe_step _ _ _ Hstep Hs) as Hs'. apply step_inv in Hstep. inversion Hstep as [| | | |t' k' op' id' acc Ht| | |]; subst.
    rewrite Ht in Htask. simplify_eq. cbn [task_op]. set (cmd := collider.mk_AuthorityCommand id op) in *.
    set (p' := mk_Process _ _ _ _ _ _ _ _) in *.
    assert (Ep : produced p' = produced p ++ [Authority cmd (p_next p)]).
    { unfold produced; cbn. by rewrite (Hl Hg), <- app_assoc. }
    eapply (inv_set_pc p p' t); rewrite ?Ep, ?bind_snoc.
    + done.
    + exact Hs'.
    + split; rewrite ?Ep; cbn; [by apply list_subseteq_app_l|done|by apply list_subseteq_app_l|done].
    + reflexivity.
    + done.
    + intros u Hu. cbn. by rewrite lookup_insert_ne.
    + unfold task_accounted; cbn [task_pc task_key task_op]. exists (p_next p). cbn [p' p_rx p_service].
      rewrite lookup_insert_eq, Ep. split_and!; [done|apply elem_of_app; right; left|].
      apply elem_of_app. right. left.
    + cbn. by rewrite Hsent, fmap_app.
    + done.
    + cbn. by apply fresh_oneshot.
    + done.
Qed.

(** ** Waiting for the reply *)

Lemma authority_of_elem o id l :
  (id, o) ∈ l ≫= authority_of ↔ ∃ cmd, Authority cmd o ∈ l ∧ collider.ac_request_id cmd = id.
Proof.
  rewrite list_elem_of_bind. split.
  - intros (c & Hin & Hc). destruct c; cbn in Hin; try by apply elem_of_nil in Hin.
    apply list_elem_of_singleton in Hin. simplify_eq. eauto.
  - intros (cmd & Hin & <-). exists (Authority cmd o). split; [by left|done].
Qed.

(** A reply channel belongs to one command. *)
Lemma same_command l c1 c2 o :
  NoDup (l ≫= authority_of).*2 → Authority c1 o ∈ l → Authority c2 o ∈ l → c1 = c2.
Proof.
  intros Hnd. induction l as [|c l IH]; [by intros ?%elem_of_nil|]. cbn in Hnd.
  rewrite fmap_app in Hnd. apply list.NoDup_app in Hnd as (_ & Hd & Hnd).
  assert (Hx : ∀ c1 c2, c = Authority c1 o → Authority c2 o ∈ l → False).
  { intros x y -> Hy. apply (Hd o); [by left|]. apply list_elem_of_fmap.
    exists (collider.ac_request_id y, o). split; [done|]. apply authority_of_elem. eauto. }
  rewrite !elem_of_cons. intros [H1|H1] [H2|H2]; [congruence| | |auto].
  - by destruct (Hx c1 c2).
  - by destruct (Hx c2 c1).
Qed.

Lemma handled_produced p : p_handled p ⊆ produced p.
Proof. by apply list_subseteq_app_l. Qed.

(** A reply on the channel of a request is the reply to its command. *)
Lemma reply_genuine p o id k op r :
  process_inv p → Authority (collider.mk_AuthorityCommand id op) o ∈ produced p →
  (k, collider.mk_AuthorityCommand id op) ∈ sent (p_service p) → (o, r) ∈ replies (p_driver p) →
  settle id (Replied r) = Ok (collider.ar_result r) ∧
  genuine p k (operation_fingerprint op) (collider.ar_result r).
Proof.
  intros Hinv Hcmd Hsent Hr.
  pose proof (ledger_replied _ _ (pi_ledger _ Hinv) _ _ Hr) as Hh.
  apply authority_of_elem in Hh as (cmd & Hh & Hid).
  assert (Heq : cmd = collider.mk_AuthorityCommand id op).
  { eapply same_command; [apply (pi_fresh _ Hinv)|by apply handled_produced|done]. }
  subst cmd. cbn in Hid. destruct r as [rid a]; cbn in *. subst rid. rewrite N.eqb_refl. split; [done|].
  by exists op, id, o.
Qed.

Lemma inv_await p t l p' : process_inv p → process_await p t l = Some p' → process_inv p'.
Proof.
  intros Hinv Hp. unfold process_await in Hp. destruct (p_rx p !! t) as [o|] eqn:Ho; [|done]. cbn in Hp.
  assert (Hrec : ∀ r, with_service p <$> step (Receive t r) (p_service p) = Some p' →
    (∀ id k op, Authority (collider.mk_AuthorityCommand id op) o ∈ produced p →
       (k, collider.mk_AuthorityCommand id op) ∈ sent (p_service p) → accounted p k op (settle id r)) →
    process_inv p').
  { intros r (s' & Hstep & ->)%fmap_Some Hacc. pose proof Hinv as [Hs Hsent Hl Hf Hled _ Ht].
    pose proof (safe_step _ _ _ Hstep Hs) as Hs'. apply step_inv in Hstep.
    inversion Hstep as [| | | | |t' k op id r' Htask| |]; subst.
    eapply (inv_set_pc p _ t); [done|exact Hs'|split; done|reflexivity|done|done| |done..].
    apply Ht in Htask as (o' & Ho' & Hin & Hsnt). cbn in Ho', Hin, Hsnt. simplify_eq.
    unfold task_accounted; cbn [task_pc task_key task_op]. eapply accounted_extends; [|by apply Hacc].
    by split. }
  pose proof (reply_on_spec o (p_driver p)) as Hr.
  destruct (reply_on o (p_driver p)) as [r|]; destruct l; try done.
  - apply (Hrec (Replied r) Hp). intros id k op Hin Hsnt.
    destruct (reply_genuine _ _ _ _ _ _ Hinv Hin Hsnt Hr) as [-> ?]. done.
  - apply (Hrec TimedOut Hp). intros. unfold accounted, request_error; cbn. auto.
  - destruct (held o p); [done|]. apply (Hrec Dropped Hp). intros. unfold accounted, request_error; cbn. auto.
Qed.

(** ** The loop's task *)

Lemma inv_loop p d phase took queue :
  process_inv p → p_phase p ≠ Gone → phase ≠ Gone → p_queue p = took ++ queue →
  ledger_inv ((p_handled p ++ took) ≫= authority_of) (ledger d) → replies_grow (p_driver p) d →
  process_inv (with_loop p d phase took queue).
Proof.
  intros Hinv Hg Hg' Hq Hled Hr.
  assert (Ep : produced (with_loop p d phase took queue) = produced p).
  { unfold produced; cbn. rewrite (pi_lost _ Hinv Hg), Hq. cbn. by rewrite <- app_assoc. }
  eapply inv_service_same; [done..| | | |done|]; rewrite ?Ep; [done|done|intros _; by apply (pi_lost _ Hinv)|].
  split; rewrite ?Ep; cbn; [done|by apply list_subseteq_app_l|done|].
  destruct Hr as [rs ->]. by apply list_subseteq_app_l.
Qed.

(** The commands taken so far, with one more from the queue. *)
Lemma next_command_fresh p c q :
  process_inv p → p_phase p ≠ Gone → p_queue p = c :: q →
  NoDup ((p_handled p ≫= authority_of) ++ authority_of c).*2.
Proof.
  intros Hinv Hg Hq. destruct (pi_fresh _ Hinv) as [Hnd _]. unfold produced in Hnd.
  rewrite (pi_lost _ Hinv Hg), Hq in Hnd. cbn in Hnd.
  rewrite (cons_middle c), app_assoc, bind_app, fmap_app, bind_snoc in Hnd. by eapply NoDup_prefix.
Qed.

Lemma process_step_inv l p p' : process_step l p = Some p' → process_inv p → process_inv p'.
Proof.
  intros Hp Hinv. pose proof (pi_ledger _ Hinv) as Hled.
  assert (Hnd0 : NoDup (p_handled p ≫= authority_of).*2).
  { destruct (pi_fresh _ Hinv) as [Hnd _]. unfold produced in Hnd.
    rewrite bind_app, fmap_app in Hnd. by eapply NoDup_prefix. }
  destruct l as [l|t|t|t|t|c|clk|now clk| | |clk|]; cbn [process_step] in Hp; try by eapply inv_await.
  - destruct (own_label l) eqn:Hl; [|done]. destruct (step l (p_service p)) as [s'|] eqn:Hs; [|done].
    cbn in Hp. simplify_eq. by apply inv_own.
  - by eapply inv_send.
  - destruct (accepts p) eqn:Ha, (own_wakeup (Command (Some c))) eqn:Hc; try done. cbn in Hp. simplify_eq.
    unfold own_wakeup in Hc; cbn in Hc.
    assert (Hg : p_phase p ≠ Gone) by (intros Hg; unfold accepts in Ha; by rewrite Hg in Ha).
    assert (Ep : produced (mk_Process (p_service p) (p_driver p) (p_phase p) (p_queue p ++ [c]) (p_rx p)
      (p_next p) (p_handled p) (p_lost p)) = produced p ++ [c]).
    { unfold produced; cbn. by rewrite !app_assoc. }
    eapply inv_service_same; [done..| | | |done|]; rewrite ?Ep, ?bind_snoc.
    + destruct c; cbn in *; by rewrite ?app_nil_r.
    + destruct (authority_of c); [by rewrite app_nil_r|done].
    + intros _. by apply (pi_lost _ Hinv).
    + split; rewrite ?Ep; cbn; [done..|by apply list_subseteq_app_l|done].
  - destruct (p_phase p) eqn:Hph; try done. destruct (p_queue p) as [|c q] eqn:Hq; [done|]. simplify_eq.
    assert (Hg : p_phase p ≠ Gone) by (by rewrite Hph).
    apply inv_loop; [done..| |apply turn_grow]. rewrite bind_snoc.
    apply (turn_ledger _ clk (p_driver p) (Command (Some c))); [by eapply next_command_fresh|done].
  - destruct (p_phase p) eqn:Hph; try done. destruct (poll_timeout _); [|done].
    destruct (turn clk (p_driver p) (Deadline now)) as [d b] eqn:Ht. simplify_eq.
    apply inv_loop; [done|by rewrite Hph|by destruct b|done| |change d with (d, b).1; rewrite <- Ht; apply turn_grow].
    rewrite app_nil_r. pose proof (turn_ledger (p_handled p ≫= authority_of) clk (p_driver p) (Deadline now)) as Hd.
    rewrite Ht in Hd. cbn in Hd. rewrite app_nil_r in Hd. auto.
  - destruct (p_phase p) eqn:Hph; try done. simplify_eq.
    apply inv_loop; [done|by rewrite Hph|done|done|by rewrite app_nil_r|done].
  - destruct (p_phase p) eqn:Hph; try done. destruct (p_queue p) as [|c q] eqn:Hq; [done|]. simplify_eq.
    assert (Hg : p_phase p ≠ Gone) by (by rewrite Hph).
    apply inv_loop; [done..| |apply handle_command_grow]. rewrite bind_snoc.
    apply handle_command_ledger; [by eapply next_command_fresh|done].
  - destruct (p_phase p) eqn:Hph; try done. destruct (p_queue p) as [|c q] eqn:Hq; [|done]. simplify_eq.
    apply inv_loop; [done|by rewrite Hph|done|done| |].
    + rewrite app_nil_r. apply drained_ledger; [done|]. exact Hled.
    + etrans; [|apply drained_grow]. auto.
  - destruct (p_phase p) eqn:Hph; try done. simplify_eq.
    assert (Ep : produced (mk_Process (p_service p) (p_driver p) Gone [] (p_rx p) (p_next p) (p_handled p)
      (p_lost p ++ p_queue p)) = produced p) by (unfold produced; cbn; by rewrite app_nil_r).
    eapply inv_service_same; [done..| | | |done|]; rewrite ?Ep; try done.
    split; rewrite ?Ep; done.
Qed.

Lemma start_process_inv rt dw socks sfus : process_inv (start_process rt dw socks sfus).
Proof.
  split; cbn; [apply new_service_safe|done|done|split; constructor| |by intros *; rewrite lookup_empty..].
  split; cbn; [by intros ? ?; rewrite lookup_empty|by intros ? ? ?%elem_of_nil|constructor].
Qed.

Lemma process_steps_inv ls p p' : process_steps ls p = Some p' → process_inv p → process_inv p'.
Proof.
  revert p. induction ls as [|l ls IH]; intros p; cbn; [by intros [= ->]|].
  destruct (process_step l p) as [p1|] eqn:Hl; [|done]. eauto using process_step_inv.
Qed.

Lemma process_reachable_inv p : process_reachable p → process_inv p.
Proof. intros (rt & dw & socks & sfus & ls & Hls). eapply process_steps_inv, start_process_inv. exact Hls. Qed.

(** ** The property *)

(** C4: Requests running concurrently with each other, with browsers, with workers and with the
    stop of the event loop: the commands that entered the queue are those the requests sent, in
    order, and none is lost while the loop lives; a reply channel is used at most once; and a
    request is answered with a success only if it is the loop's reply, on the channel of that
    command, to a handled command of the same key and fingerprint, and otherwise with one of the
    four errors of execute, never with a failed correlation. *)
Theorem answers_are_the_loops p :
  process_reachable p →
  (produced p ≫= authority_command = (sent (p_service p)).*2 ∧ (p_phase p ≠ Gone → p_lost p = [])) ∧
  NoDup (replies (p_driver p)).*1 ∧
  (∀ t k op r, tasks (p_service p) !! t = Some (mk_Task k op (AtDone r)) →
    match r with
    | Ok a => ∃ op0 id o, (k, collider.mk_AuthorityCommand id op0) ∈ sent (p_service p) ∧
        Authority (collider.mk_AuthorityCommand id op0) o ∈ p_handled p ∧
        (o, collider.mk_AuthorityResponse id a) ∈ replies (p_driver p) ∧
        operation_fingerprint op0 = operation_fingerprint op
    | Err e => request_error e
    end).
Proof.
  intros Hinv%process_reachable_inv. split_and!.
  - apply (pi_sent _ Hinv).
  - apply (pi_lost _ Hinv).
  - apply (ledger_once _ _ (pi_ledger _ Hinv)).
  - intros t k op r Ht. exact (pi_tasks _ Hinv _ _ Ht).
Qed.
End process_spec.

(** ** Witness *)

Section witness.
#[local] Existing Instance sample_room_id.
#[local] Existing Instance sample_enums.
#[local] Existing Instance sample_hasher.
#[local] Existing Instance sample_collider.
#[local] Existing Instance sample_collider_laws.

(** Two requests under different keys and a duplicate of the first are in flight
    at once, with a browser between them; the request that drew its id first is
    handed over last; the loop takes the commands. *)
Definition other_key : RequestKey := mk_RequestKey "apprtc-1" 8.

Definition concurrent_ls : list PLabel :=
  [PTask (Arrive 0 sample_key (sample_op "a" 1)); PTask (Arrive 1 other_key collider.OpStatus);
   PTask (Lookup 1); PTask (Lookup 0); PTask (Allocate 0); PTask (Allocate 1); PSend 1;
   PTask (Arrive 2 sample_key (sample_op "b" 2)); PTask (Lookup 2);
   PProduce (Connected 1 0%nat); PSend 0; PTake (λ _, 5%N); PTake (λ _, 6%N); PStop; PDrain; PClose (λ _, 7%N);
   PReceive 0; PTask (Finish 0); PReceive 1; PTask (Finish 1); PTask (Wake 2); PTask (Lookup 2); PGone].

Definition concurrent_end : Process :=
  opt_default (start_process 30 60 ∅ ∅) (process_steps concurrent_ls (start_process 30 60 ∅ ∅)).

Definition concurrent_runs : bool :=
  match process_steps concurrent_ls (start_process 30 60 ∅ ∅) with Some _ => true | None => false end.

Lemma concurrent_end_reachable : concurrent_runs = true → process_reachable concurrent_end.
Proof.
  unfold concurrent_runs. destruct (process_steps _ _) as [p|] eqn:Hp; [|done].
  intros _. exists 30%N, 60%N, ∅, ∅, concurrent_ls. unfold concurrent_end. by rewrite Hp.
Qed.

Lemma answers_are_the_loops_witness :
  process_reachable concurrent_end ∧
  (task_at (p_service concurrent_end) <$> [0%nat; 1%nat; 2%nat]) =
    [Some (AtDone (Ok collider.ResRemoved)); Some (AtDone (Ok collider.ResRemoved));
     Some (AtDone (Ok collider.ResRemoved))] ∧
  length (produced concurrent_end ≫= authority_command) = 2%nat.
Proof.
  assert (Hr : process_reachable concurrent_end)
    by (apply concurrent_end_reachable; vm_compute; reflexivity).
  destruct (answers_are_the_loops concurrent_end Hr) as ((Hsent & _) & _ & _).
  split_and!; [exact Hr|vm_compute; reflexivity|]. rewrite Hsent. vm_compute. reflexivity.
Defined.
End witness.
