(* ===== verification/ProcessLive.v ===== *)
(** * Every request of the signaling process can be answered

    The requests, the bounded queue and the event loop of Process.v, without
    cancellations: whatever the state, a full queue or a stopping loop included,
    moves of the tasks and of the loop alone bring each request to its answer. *)

From S2P Require Import Prelude Wire Samples RequestCache Execute ExecuteLive ExecuteSpec.
From S2P Require Import Driver DriverSpec Stack StackSpec Process ProcessSpec.

Section process_live.
Context `{L : RoomIdLib, H : DefaultHasher, C : !ColliderLib, CL : !ColliderLaws C}.

(** Labels that drop no request. *)
Definition keeps_requests (l : PLabel) : Prop :=
  match l with PTask l => no_cancel l | _ => True end.

(** The moves of the requests under way and of the loop at work: no new request,
    no command from outside, no deadline and no stop; the [AUTHORITY_TIMEOUT] of a
    request runs out only if [timeouts]. *)
Definition at_work (timeouts : bool) (l : PLabel) : Prop :=
  match l with
  | PTask (Arrive _ _ _) | PTask (Cancel _) | PProduce _ | PDeadline _ _ | PStop => False
  | PTimeout _ => timeouts = true
  | _ => True
  end.

Lemma at_work_keeps b l : at_work b l → keeps_requests l.
Proof. by destruct l as [[]|t|t|t|t|c|clk|now clk| | |clk|]. Qed.

(** ** No command is forgotten *)

(** A command [h] lists was answered, is still pending, or had its id reused. *)
Definition kept (h : list (N * oneshot_id))
    (l : gmap N oneshot_id * list (oneshot_id * collider.AuthorityResponse)) : Prop :=
  ∀ rid o, (rid, o) ∈ h →
    o ∈ l.2.*1 ∨ l.1 !! rid = Some o ∨ ∃ o', o' ≠ o ∧ (rid, o') ∈ h.

Lemma kept_answer h p rs rid o r :
  kept h (p, rs) → p !! rid = Some o → kept h (delete rid p, rs ++ [(o, r)]).
Proof.
  intros Hk Hp rid' o' Hin. cbn. rewrite fmap_app, elem_of_app.
  destruct (Hk _ _ Hin) as [?|[Hp'|?]]; [auto| |auto]. cbn in Hp'.
  destruct (decide (rid' = rid)) as [->|Hne].
  - simplify_eq. left. right. by left.
  - right. left. by rewrite lookup_delete_ne.
Qed.

Lemma kept_register h p rs rid o :
  kept h (p, rs) → kept (h ++ [(rid, o)]) (<[rid := o]> p, rs).
Proof.
  intros Hk rid' o'. rewrite elem_of_app, list_elem_of_singleton. cbn.
  intros [Hin|[= -> ->]]; [|right; left; apply lookup_insert_eq].
  destruct (Hk _ _ Hin) as [?|[Hp'|(o2 & Hne & Hin2)]]; [auto| |].
  - destruct (decide (rid' = rid)) as [->|Hne]; [|right; left; by rewrite lookup_insert_ne].
    destruct (decide (o = o')) as [->|Ho]; [right; left; apply lookup_insert_eq|].
    right; right. exists o. split; [done|]. apply elem_of_app. right. by left.
  - right; right. exists o2. split; [done|]. apply elem_of_app. by left.
Qed.

Lemma handle_command_kept h d c :
  kept h (ledger d) → kept (h ++ authority_of c) (ledger (handle_command d c)).
Proof.
  intros Hk. destruct c as [i o|i t now|cmd o|input o|input|i now]; cbn; rewrite ?app_nil_r.
  - destruct (handle_read _ _) as [c r]. by destruct (is_ok r).
  - destruct (handle_read _ _) as [c r]. destruct (is_ok r); [done|]. cbn.
    case_match; [|done]. by rewrite send_socket_ledger.
  - apply (kept_register _ _ _ (collider.ac_request_id cmd) o) in Hk.
    destruct (handle_write _ _) as [c r]. destruct (is_ok r); [done|]. cbn.
    rewrite lookup_insert_eq. eapply kept_answer; [exact Hk|]. apply lookup_insert_eq.
  - case_match; [|done]. destruct (handle_sfu_input _ _) as [c r]. by destruct (is_ok r).
  - done.
  - done.
Qed.

(** The state machine said it had no more answers. *)
Definition polled_out (d : Driver) : Prop := ∃ c, poll_event c = (None, d_collider d).

Lemma drain_authority_kept h fuel d d' :
  drain_authority_responses fuel d = Some d' → kept h (ledger d) → kept h (ledger d') ∧ polled_out d'.
Proof.
  revert d. induction fuel as [|fuel IH]; intros d; cbn; [done|].
  destruct (poll_event _) as [[r|] c] eqn:Hp; [|intros [= <-] ?; split; [done|by eexists]].
  destruct (pending_authority _ !! _) as [o|] eqn:Ho; intros Hd Hk; (eapply IH; [exact Hd|]); [|done].
  by apply kept_answer.
Qed.

Lemma drained_kept h clk d : kept h (ledger d) → kept h (ledger (drained clk d)) ∧ polled_out (drained clk d).
Proof.
  destruct (drained_settles clk d) as [n Hn]. specialize (Hn n (le_n _)). unfold drain in Hn.
  destruct (drain_outputs n clk d) as [d1|] eqn:Hd; [|done]. intros Hk.
  eapply drain_authority_kept; [exact Hn|]. by rewrite (drain_outputs_ledger _ _ _ _ Hd).
Qed.

(** A turn of the loop; one that goes on has polled the state machine out. *)
Lemma turn_kept h clk d w :
  kept h (ledger d) →
  kept (h ++ authority_of_wakeup w) (ledger (turn clk d w).1) ∧
  match w with
  | Command (Some _) => polled_out (turn clk d w).1
  | Deadline _ => is_Some (poll_timeout (d_collider d)) → (turn clk d w).2 = true → polled_out (turn clk d w).1
  | _ => True
  end.
Proof.
  intros Hk. destruct w as [|[c|]|now]; cbn; rewrite ?app_nil_r; [done| |done|].
  - by apply drained_kept, handle_command_kept.
  - destruct (poll_timeout _); [|by split; [|intros []]].
    destruct (handle_timeout _ _) as [c r]. destruct (is_ok r); [|done].
    destruct (drained_kept h clk (with_collider d c)) as [? ?]; [done|]. by cbn.
Qed.

(** ** The invariant *)

Record progressing (p : Process) : Prop := mk_progressing {
  pg_inv : process_inv p;
  pg_live : live (p_service p);
  pg_kept : kept (p_handled p ≫= authority_of) (ledger (p_driver p));
  pg_polled : p_phase p = Looping → p_handled p ≠ [] → polled_out (p_driver p);
}.

(** What a label does to the service: nothing, or one step of one task. *)
Lemma process_step_service l p p' :
  process_step l p = Some p' → keeps_requests l →
  p_service p' = p_service p ∨ ∃ l', no_cancel l' ∧ step l' (p_service p) = Some (p_service p').
Proof.
  assert (Hwith : ∀ l', no_cancel l' → with_service p <$> step l' (p_service p) = Some p' →
    ∃ l', no_cancel l' ∧ step l' (p_service p) = Some (p_service p')).
  { intros l' Hl (s & Hs & ->)%fmap_Some. eauto. }
  destruct l as [l|t|t|t|t|c|clk|now clk| | |clk|]; cbn [process_step]; intros Hp Hk.
  - destruct (own_label l); [|done]. destruct (step l (p_service p)) eqn:Hs; [|done]. cbn in Hp. simplify_eq. eauto.
  - right. unfold process_send in Hp. destruct (p_phase p); [| | |by apply (Hwith (Send t false))].
    all: unfold hand_over in Hp; destruct (accepts p); [|done]; cbn [negb] in Hp.
    all: destruct (tasks (p_service p) !! t) as [[k op [| | |id| | |]]|]; try done.
    all: destruct (step (Send t true) (p_service p)) eqn:Hs; [|done]; cbn in Hp; simplify_eq; by exists (Send t true).
  - unfold process_await in Hp. destruct (p_rx p !! t); [|done]. cbn [mbind option_bind] in Hp. right.
    destruct (reply_on _ _); [|done]. (eapply Hwith; [|exact Hp]; done).
  - unfold process_await in Hp. destruct (p_rx p !! t); [|done]. cbn [mbind option_bind] in Hp. right.
    destruct (reply_on _ _); [done|]. (eapply Hwith; [|exact Hp]; done).
  - unfold process_await in Hp. destruct (p_rx p !! t); [|done]. cbn [mbind option_bind] in Hp. right.
    destruct (reply_on _ _); [done|]. destruct (held _ _); [done|]. (eapply Hwith; [|exact Hp]; done).
  - destruct (_ && _); [|done]. simplify_eq. by left.
  - left. by destruct (p_phase p), (p_queue p); simplify_eq.
  - destruct (p_phase p); try done. destruct (poll_timeout _); [|done]. destruct (turn _ _ _). simplify_eq. by left.
  - left. by destruct (p_phase p); simplify_eq.
  - left. by destruct (p_phase p), (p_queue p); simplify_eq.
  - left. by destruct (p_phase p), (p_queue p); simplify_eq.
  - left. by destruct (p_phase p); simplify_eq.
Qed.

(** What a label does to the loop's memory. *)
Lemma ledger_step l p p' :
  process_step l p = Some p' → progressing p →
  kept (p_handled p' ≫= authority_of) (ledger (p_driver p')) ∧
  (p_phase p' = Looping → p_handled p' ≠ [] → polled_out (p_driver p')).
Proof.
  intros Hp [_ _ Hk Hpoll].
  assert (Hsame : p_driver p' = p_driver p → p_handled p' = p_handled p →
    (p_phase p' = Looping → p_phase p = Looping) →
    kept (p_handled p' ≫= authority_of) (ledger (p_driver p')) ∧
    (p_phase p' = Looping → p_handled p' ≠ [] → polled_out (p_driver p'))).
  { intros -> -> Hph. split; [done|]. intros ?%Hph. by apply Hpoll. }
  assert (Haw : ∀ t l, process_await p t l = Some p' → ∃ s, p' = with_service p s).
  { intros t l0. unfold process_await. destruct (p_rx p !! t); [|done]. cbn [mbind option_bind].
    destruct (reply_on _ _), l0; try done; try case_match; try done; intros (s & _ & ->)%fmap_Some; eauto. }
  destruct l as [l|t|t|t|t|c|clk|now clk| | |clk|]; cbn [process_step] in Hp;
    try (destruct (Haw _ _ Hp) as [s ->]; by apply Hsame).
  - destruct (own_label l); [|done]. destruct (step _ _); [|done]. cbn in Hp. injection Hp as <-. by apply Hsame.
  - unfold process_send in Hp. destruct (p_phase p) eqn:Hph;
      [| | |apply fmap_Some in Hp as (s & _ & ->); apply Hsame; cbn; congruence].
    all: unfold hand_over in Hp; destruct (negb _); [done|].
    all: destruct (tasks (p_service p) !! t) as [[k op [| | |id| | |]]|]; try done.
    all: destruct (step (Send t true) (p_service p)); [|done]; cbn in Hp; simplify_eq; apply Hsame; cbn; congruence.
  - destruct (_ && _); [|done]. injection Hp as <-. by apply Hsame.
  - destruct (p_phase p) eqn:Hph, (p_queue p) as [|c q]; try done. injection Hp as <-.
    cbn [p_driver p_handled with_loop p_phase]. rewrite bind_app. cbn [mbind list_bind]. rewrite app_nil_r.
    destruct (turn_kept _ clk (p_driver p) (Command (Some c)) Hk) as [? ?]. done.
  - destruct (p_phase p) eqn:Hph; try done. destruct (poll_timeout _) eqn:Hto; [|done].
    pose proof (turn_kept _ clk (p_driver p) (Deadline now) Hk) as [Hk' Hpo].
    destruct (turn _ _ _) as [d b]. injection Hp as <-. cbn in *. rewrite !app_nil_r in *. split; [done|].
    destruct b; [|done]. intros _ _. by apply Hpo; [eexists|].
  - destruct (p_phase p); try done. simplify_eq. cbn. rewrite app_nil_r. done.
  - destruct (p_phase p), (p_queue p) as [|c q]; try done. injection Hp as <-.
    cbn [p_driver p_handled with_loop p_phase]. rewrite bind_app. cbn [mbind list_bind]. rewrite app_nil_r.
    split; [by apply handle_command_kept|done].
  - destruct (p_phase p), (p_queue p); try done. simplify_eq. cbn. rewrite app_nil_r.
    split; [|done]. by apply drained_kept.
  - destruct (p_phase p); try done. simplify_eq. by apply Hsame.
Qed.

Lemma progressing_step l p p' :
  process_step l p = Some p' → keeps_requests l → progressing p → progressing p'.
Proof.
  intros Hp Hk Hpg. destruct (ledger_step _ _ _ Hp Hpg) as [? ?]. destruct Hpg as [Hinv Hl _ _].
  split; [by eapply process_step_inv| |done..].
  destruct (process_step_service _ _ _ Hp Hk) as [->|(l' & Hnc & Hs)]; [done|].
  eapply live_step; [exact Hs|done|apply (pi_safe _ Hinv)|done].
Qed.

Lemma progressing_steps ls p p' :
  process_steps ls p = Some p' → Forall keeps_requests ls → progressing p → progressing p'.
Proof.
  revert p. induction ls as [|l ls IH]; intros p; cbn; [by intros [= ->]|].
  destruct (process_step l p) as [p1|] eqn:Hl; [|done]. intros ? [? ?]%list.Forall_cons ?.
  eauto using progressing_step.
Qed.

Lemma start_progressing rt dw socks sfus : progressing (start_process rt dw socks sfus).
Proof.
  split; [apply start_process_inv| |by intros ? ? ?%elem_of_nil|done].
  split; [apply new_service_owned|apply new_service_waits].
Qed.

(** ** Runs *)

(** The owner [u] of [k] has handed its command over, the loop has taken it, and
    the state machine, polled out, has not answered it: a reply is owed. *)
Definition owed (p : Process) (k : RequestKey) : Prop :=
  ∃ u op id o,
    tasks (p_service p) !! u = Some (mk_Task k op (AtReply id)) ∧ p_rx p !! u = Some o ∧
    p_phase p = Looping ∧ p_queue p = [] ∧
    Authority (collider.mk_AuthorityCommand id op) o ∈ p_handled p ∧
    reply_on o (p_driver p) = None ∧ pending_authority (p_driver p) !! id = Some o ∧
    polled_out (p_driver p).

(** Two commands the loop has taken bore the same id. *)
Definition id_reused (p : Process) : Prop :=
  ∃ id o1 o2, o1 ≠ o2 ∧ (id, o1) ∈ p_handled p ≫= authority_of ∧ (id, o2) ∈ p_handled p ≫= authority_of.

(** The errors a request may end with that makes no use of its timeout. *)
Definition excused (timeouts : bool) (p : Process) (r : result collider.AuthorityResult GrpcStatus) : Prop :=
  match r with
  | Ok _ => True
  | Err e =>
      e = already_exists "request_id was already used for a different operation" ∨
      e = already_exists "request_id is in use for a different operation" ∨
      (e = unavailable "signaling authority stopped" ∧ (p_phase p ≠ Looping ∨ id_reused p)) ∨
      (e = deadline_exceeded "signaling authority timed out" ∧ timeouts = true)
  end.

Lemma process_steps_app ls1 ls2 p p1 p2 :
  process_steps ls1 p = Some p1 → process_steps ls2 p1 = Some p2 → process_steps (ls1 ++ ls2) p = Some p2.
Proof.
  revert p. induction ls1 as [|l ls1 IH]; intros p; cbn; [by intros [= ->]|].
  destruct (process_step l p); [|done]. apply IH.
Qed.

Section runs.
Context (timeouts : bool).

(** [p'] is reached from [p] by the moves of requests and loop. *)
Definition leads (p p' : Process) : Prop := ∃ ls, process_steps ls p = Some p' ∧ Forall (at_work timeouts) ls.

#[local] Instance leads_preorder : PreOrder leads.
Proof.
  split; [by exists []|]. intros p1 p2 p3 (ls1 & H1 & Ha1) (ls2 & H2 & Ha2).
  exists (ls1 ++ ls2). split; [by eapply process_steps_app|by apply list.Forall_app].
Qed.

Lemma leads_step l p p' : process_step l p = Some p' → at_work timeouts l → leads p p'.
Proof. intros Hp Ha. exists [l]. cbn. rewrite Hp. split; [done|by constructor]. Qed.

Lemma leads_progressing p p' : leads p p' → progressing p → progressing p'.
Proof.
  intros (ls & Hls & Ha). apply (progressing_steps ls); [done|]. eapply list.Forall_impl; [exact Ha|].
  apply at_work_keeps.
Qed.

(** One task moves on, towards [pc]; the cache and the other tasks stay. *)
Record moves (t : nat) (pc : Pc) (p p' : Process) : Prop := mk_moves {
  mv_leads : leads p p';
  mv_cache : request_cache (p_service p') = request_cache (p_service p);
  mv_watches : watches (p_service p') = watches (p_service p);
  mv_task : ∀ task, tasks (p_service p) !! t = Some task →
    tasks (p_service p') !! t = Some (mk_Task (task_key task) (task_op task) pc);
  mv_others : ∀ u, u ≠ t → tasks (p_service p') !! u = tasks (p_service p) !! u;
}.

Lemma moves_trans t pc1 pc2 p1 p2 p3 : moves t pc1 p1 p2 → moves t pc2 p2 p3 → moves t pc2 p1 p3.
Proof.
  intros [L1 C1 W1 T1 O1] [L2 C2 W2 T2 O2]. split.
  - by etrans.
  - by rewrite C2.
  - by rewrite W2.
  - intros task Ht. apply T1, T2 in Ht. done.
  - intros u Hu. by rewrite O2, O1.
Qed.

(** A label after which the service has set [t] to [pc]. *)
Lemma moves_step l t task pc p p' :
  process_step l p = Some p' → at_work timeouts l → tasks (p_service p) !! t = Some task →
  request_cache (p_service p') = request_cache (p_service p) → watches (p_service p') = watches (p_service p) →
  tasks (p_service p') = set_pc (p_service p) t task pc → moves t pc p p'.
Proof.
  intros Hp Ha Ht Hc Hw Hts. split; [by eapply leads_step|done|done| |].
  - intros task' Ht'. rewrite Ht in Ht'. simplify_eq. rewrite Hts. unfold set_pc. by rewrite lookup_insert_eq.
  - intros u Hu. rewrite Hts. unfold set_pc. by rewrite lookup_insert_ne.
Qed.

Lemma moves_stay t task p p' :
  leads p p' → p_service p' = p_service p → tasks (p_service p) !! t = Some task → moves t (task_pc task) p p'.
Proof.
  intros Hl Hs Ht. split; rewrite ?Hs; [done..| |done].
  intros task' Ht'. rewrite Ht in Ht'. simplify_eq. by destruct task'.
Qed.

(** ** An owner finishes *)

(** The loop can take every command there is; one that takes no more ends. *)
Lemma quiesce p :
  ∃ p', leads p p' ∧ p_service p' = p_service p ∧ p_rx p' = p_rx p ∧
    (p_phase p' = Gone ∨ p_phase p' = Looping ∧ p_queue p' = []).
Proof.
  assert (Hgone : ∀ p, p_phase p = Closed →
    ∃ p', leads p p' ∧ p_service p' = p_service p ∧ p_rx p' = p_rx p ∧ p_phase p' = Gone).
  { intros p0 Hph. eexists. split; [eapply (leads_step PGone); [cbn; by rewrite Hph|done]|done]. }
  assert (Hrun : ∀ n p, length (p_queue p) = n → p_phase p = Looping ∨ p_phase p = Draining →
    ∃ p', leads p p' ∧ p_service p' = p_service p ∧ p_rx p' = p_rx p ∧ p_phase p' = p_phase p ∧ p_queue p' = []).
  { clear p. induction n as [|n IH]; intros p Hn Hph; destruct (p_queue p) as [|c q] eqn:Hq; try done.
    { exists p. by split_and!. }
    injection Hn as Hn.
    assert (Hstep : ∃ l p1, process_step l p = Some p1 ∧ at_work timeouts l ∧ p_queue p1 = q ∧
      p_service p1 = p_service p ∧ p_rx p1 = p_rx p ∧ p_phase p1 = p_phase p).
    { destruct Hph as [Hph|Hph].
      - exists (PTake (λ _, 0%N)). cbn. rewrite Hph, Hq. by eexists.
      - exists PDrain. cbn. rewrite Hph, Hq. by eexists. }
    destruct Hstep as (l & p1 & Hp1 & Hl & Hq1 & Hs1 & Hr1 & Hph1).
    destruct (IH p1) as (p' & H1 & H2 & H3 & H4 & H5); [by rewrite Hq1|by rewrite Hph1|].
    exists p'. split_and!; [by etrans; [eapply leads_step|]|congruence..]. }
  destruct (p_phase p) eqn:Hph.
  - destruct (Hrun _ p eq_refl) as (p' & ? & ? & ? & ? & ?); [by left|]. exists p'. split_and!; [done..|right]. by rewrite <- Hph.
  - destruct (Hrun _ p eq_refl) as (p1 & Hl1 & Hs1 & Hr1 & Hph1 & Hq1); [by right|].
    assert (Hcl : process_step (PClose (λ _, 0%N)) p1 = Some (with_loop p1 (stopped (λ _, 0%N) (p_driver p1)) Closed [] [])).
    { cbn. by rewrite Hph1, Hph, Hq1. }
    edestruct (Hgone (with_loop p1 (stopped (λ _, 0%N) (p_driver p1)) Closed [] [])) as (p' & Hl' & Hs' & Hr' & Hg');
      [done|exists p'; split_and!; [|by rewrite Hs'|by rewrite Hr'|by left]].
    etrans; [exact Hl1|]. etrans; [by eapply leads_step|exact Hl'].
  - destruct (Hgone p Hph) as (p' & ? & ? & ? & ?). exists p'. auto.
  - exists p. split_and!; [done..|by left].
Qed.

(** The command of an owner is handed over, or cannot be any more. *)
Lemma send_moves p t k op id :
  tasks (p_service p) !! t = Some (mk_Task k op (AtSend id)) →
  ∃ p' pc, moves t pc p p' ∧ (pc = AtReply id ∨ ∃ r, pc = AtFinish r ∧ excused timeouts p' r).
Proof.
  intros Ht. destruct (quiesce p) as (p1 & Hl & Hs & _ & Hroom).
  pose proof (moves_stay _ _ _ _ Hl Hs Ht) as Hm. rewrite <- Hs in Ht. destruct Hroom as [Hg|[Hph Hq]].
  - assert (Hstep : process_step (PSend t) p1 = with_service p1 <$> step (Send t false) (p_service p1)).
    { cbn [process_step]. unfold process_send. by rewrite Hg. }
    cbn [step] in Hstep. rewrite Ht in Hstep.
    eexists _, _. split; [eapply moves_trans; [exact Hm|]; eapply (moves_step (PSend t)); [exact Hstep|done|exact Ht|done..]|].
    right. eexists. split; [reflexivity|]. cbn. right; right; left. split; [done|]. left. by rewrite Hg.
  - eexists _, _. split; [|by left]. eapply moves_trans; [exact Hm|].
    eapply (moves_step (PSend t)).
    + cbn. unfold process_send, hand_over, accepts. rewrite Hph, Hq. cbn. rewrite Ht. reflexivity.
    + done.
    + exact Ht.
    + done.
    + done.
    + done.
Qed.

(** A handled command that is not pending has lost its reply sender. *)
Lemma unheld p id o :
  process_inv p → p_phase p = Looping → p_queue p = [] → (id, o) ∈ p_handled p ≫= authority_of →
  pending_authority (p_driver p) !! id ≠ Some o → held o p = false.
Proof.
  intros Hinv Hph Hq Hh Hpend. unfold held. rewrite Hph, Hq. cbn. bool_to_prop.
  apply bool_decide_eq_false. intros ([id' o'] & Ho & Hin)%list_elem_of_fmap. cbn in Ho. subst o'.
  apply elem_of_map_to_list in Hin. apply Hpend.
  destruct (ledger_pending _ _ (pi_ledger _ Hinv) _ _ Hin) as [Hin' _].
  destruct (pi_fresh _ Hinv) as [Hnd _]. unfold produced in Hnd.
  rewrite bind_app, fmap_app in Hnd. apply NoDup_prefix in Hnd.
  by rewrite (same_oneshot _ _ _ _ Hnd Hh Hin').
Qed.

(** A request whose command was handed over: once the loop has taken it, the reply
    is there, or is owed, or can come no more. *)
Lemma reply_moves p t k op id :
  progressing p → tasks (p_service p) !! t = Some (mk_Task k op (AtReply id)) →
  (∃ p' r, moves t (AtFinish r) p p' ∧ excused timeouts p' r) ∨
  (timeouts = false ∧ ∃ p', leads p p' ∧ owed p' k).
Proof.
  intros Hg Ht. destruct (quiesce p) as (p1 & Hl & Hs & Hrx & Hphase).
  pose proof (moves_stay _ _ _ _ Hl Hs Ht) as Hm. rewrite <- Hs in Ht.
  destruct (leads_progressing _ _ Hl Hg) as [Hinv _ Hkept Hpoll].
  destruct (pi_tasks _ Hinv _ _ Ht) as (o & Ho & Hin & Hsent). cbn in Ho, Hin, Hsent.
  assert (Hend : ∀ l r, process_step l p1 = with_service p1 <$> step (Receive t r) (p_service p1) →
    at_work timeouts l → excused timeouts p1 (settle id r) →
    ∃ p' r, moves t (AtFinish r) p p' ∧ excused timeouts p' r).
  { intros l r Hp Hw Hex. cbn [step] in Hp. rewrite Ht in Hp.
    eexists _, (settle id r). split; [eapply moves_trans; [exact Hm|]; by eapply (moves_step l)|done]. }
  pose proof (reply_on_spec o (p_driver p1)) as Hreply.
  destruct (reply_on o (p_driver p1)) as [a|] eqn:Ha.
  { left. apply (Hend (PReceive t) (Replied a)); [|done|].
    - cbn [process_step]. unfold process_await. rewrite Ho. cbn [mbind option_bind]. by rewrite Ha.
    - by destruct (reply_genuine _ _ _ _ _ _ Hinv Hin Hsent Hreply) as [-> _]. }
  assert (Hdrop : held o p1 = false → p_phase p1 ≠ Looping ∨ id_reused p1 →
    ∃ p' r, moves t (AtFinish r) p p' ∧ excused timeouts p' r).
  { intros Hheld Hwhy. apply (Hend (PDropped t) Dropped); [|done|cbn; auto].
    cbn [process_step]. unfold process_await. rewrite Ho. cbn [mbind option_bind]. by rewrite Ha, Hheld. }
  destruct Hphase as [Hph|[Hph Hq]].
  { left. apply Hdrop; [unfold held; by rewrite Hph|left; by rewrite Hph]. }
  unfold produced in Hin. rewrite (pi_lost _ Hinv), Hq, !app_nil_r in Hin by (by rewrite Hph).
  assert (Hh : (id, o) ∈ p_handled p1 ≫= authority_of) by (apply authority_of_elem; eauto).
  destruct (pending_authority (p_driver p1) !! id) as [o'|] eqn:Hpend; [destruct (decide (o' = o)) as [->|Hne]|].
  - destruct timeouts eqn:Hb.
    + left. apply (Hend (PTimeout t) TimedOut); [|done|cbn; auto 6].
      cbn [process_step]. unfold process_await. rewrite Ho. cbn [mbind option_bind]. by rewrite Ha.
    + right. split; [done|]. exists p1. split; [done|]. exists t, op, id, o. split_and!; try done.
      apply Hpoll; [done|]. by intros Hnil; rewrite Hnil in Hin; apply elem_of_nil in Hin.
  - left. apply Hdrop.
    + by apply (unheld _ _ _ Hinv Hph Hq Hh); rewrite Hpend; intros [= ->].
    + right. destruct (ledger_pending _ _ (pi_ledger _ Hinv) _ _ Hpend) as [Hin' _]. by exists id, o', o.
  - left. destruct (Hkept _ _ Hh) as [?|[?|(o' & Hne & Hin')]]; [done|cbn in *; congruence|].
    apply Hdrop; [|right; by exists id, o', o].
    apply (unheld _ _ _ Hinv Hph Hq Hh). by rewrite Hpend.
Qed.

(** Only a reply is missing. *)
Definition unanswered (p : Process) (k : RequestKey) : Prop :=
  timeouts = false ∧ ∃ p', leads p p' ∧ owed p' k.

Lemma unanswered_leads p p' k : leads p p' → unanswered p' k → unanswered p k.
Proof. intros Hl [Hb (p2 & Hl2 & Ho)]. split; [done|]. exists p2. split; [by etrans|done]. Qed.

Lemma owner_moves p t k :
  progressing p → owns (p_service p) t k →
  unanswered p k ∨
  ∃ p' r op, moves t (AtFinish r) p p' ∧ tasks (p_service p') !! t = Some (mk_Task k op (AtFinish r)) ∧
    (excused timeouts p' r ∨ task_at (p_service p) t = Some (AtFinish r)).
Proof.
  intros Hg ([k' op pc] & Ht & <- & Hpc). cbn in Hpc. cbn [task_key].
  assert (Hend : ∀ p' r, moves t (AtFinish r) p p' →
    excused timeouts p' r ∨ task_at (p_service p) t = Some (AtFinish r) →
    ∃ p' r op, moves t (AtFinish r) p p' ∧ tasks (p_service p') !! t = Some (mk_Task k' op (AtFinish r)) ∧
      (excused timeouts p' r ∨ task_at (p_service p) t = Some (AtFinish r))).
  { intros p' r Hm Hex. exists p', r, op. split; [done|]. split; [exact (mv_task _ _ _ _ Hm _ Ht)|done]. }
  assert (Hreply : ∀ p1 id, moves t (AtReply id) p p1 →
    unanswered p k' ∨ ∃ p' r, moves t (AtFinish r) p p' ∧ excused timeouts p' r).
  { intros p1 id Hm. destruct (reply_moves p1 t k' op id) as [(p' & r & Hr & Hex)|Hun].
    - by eapply leads_progressing, Hg; apply Hm.
    - exact (mv_task _ _ _ _ Hm _ Ht).
    - right. exists p', r. split; [by eapply moves_trans|done].
    - left. eapply unanswered_leads; [apply Hm|exact Hun]. }
  assert (Hsend : ∀ p1 id, moves t (AtSend id) p p1 →
    unanswered p k' ∨ ∃ p' r, moves t (AtFinish r) p p' ∧ excused timeouts p' r).
  { intros p1 id Hm. destruct (send_moves p1 t k' op id) as (p2 & pc2 & H2 & [-> |(r & -> & Hex)]).
    - exact (mv_task _ _ _ _ Hm _ Ht).
    - eapply Hreply. by eapply moves_trans.
    - right. exists p2, r. split; [by eapply moves_trans|done]. }
  assert (Hone : (unanswered p k' ∨ ∃ p' r, moves t (AtFinish r) p p' ∧
      (excused timeouts p' r ∨ task_at (p_service p) t = Some (AtFinish r))) →
    unanswered p k' ∨ ∃ p' r op, moves t (AtFinish r) p p' ∧
      tasks (p_service p') !! t = Some (mk_Task k' op (AtFinish r)) ∧
      (excused timeouts p' r ∨ task_at (p_service p) t = Some (AtFinish r))).
  { intros [?|(p' & r & Hm & Hex)]; [by left|right; by eapply Hend]. }
  apply Hone. pose proof (moves_stay _ _ _ _ (reflexivity p) eq_refl Ht) as Hstay. cbn in Hstay.
  destruct pc as [|w| |id|id|r|r]; try done.
  - edestruct Hsend as [?|(p' & r & ? & ?)]; [|by left|right; eauto].
    eapply (moves_step (PTask (Allocate t))); [cbn; rewrite Ht; reflexivity|done|exact Ht|done..].
  - destruct (Hsend p id Hstay) as [?|(p' & r & ? & ?)]; [by left|right; eauto].
  - destruct (Hreply p id Hstay) as [?|(p' & r & ? & ?)]; [by left|right; eauto].
  - right. exists p, r. split; [done|]. right. unfold task_at. by rewrite Ht.
Qed.

(** [leads] by a label of a task on its own. *)
Lemma leads_own l p s' :
  own_label l = true → at_work timeouts (PTask l) → step l (p_service p) = Some s' →
  ∃ p', leads p p' ∧ p_service p' = s' ∧ ∀ r, excused timeouts p r → excused timeouts p' r.
Proof.
  intros Ho Ha Hs. eexists. split; [eapply (leads_step (PTask l)); [cbn; rewrite Ho, Hs; reflexivity|done]|].
  split; [done|]. by intros [a|e].
Qed.

(** An owner can be run to its answer, or to where it is owed one, without touching
    the other tasks. *)
Lemma process_owner_finishes p t k :
  progressing p → owns (p_service p) t k →
  unanswered p k ∨
  ∃ p', leads p p' ∧
    (∃ r, task_at (p_service p') t = Some (AtDone r) ∧
       (excused timeouts p' r ∨ task_at (p_service p) t = Some (AtFinish r))) ∧
    in_flight (request_cache (p_service p')) !! k = None ∧
    (∀ busy, in_flight (request_cache (p_service p)) !! k = Some busy →
      watches (p_service p') !! in_flight_completed busy = Some true) ∧
    (∀ u, u ≠ t → tasks (p_service p') !! u = tasks (p_service p) !! u).
Proof.
  intros Hg Ho. destruct (owner_moves _ _ _ Hg Ho) as [?|(p1 & r & op & Hm & Ht & Hex)]; [by left|right].
  pose proof (leads_progressing _ _ (mv_leads _ _ _ _ Hm) Hg) as Hg1.
  destruct (finish_enabled _ _ _ _ _ Ht (pi_safe _ (pg_inv _ Hg1))) as (s2 & Hf & Htasks & Hfly & Hwatch).
  destruct (leads_own (Finish t) p1 s2 eq_refl I Hf) as (p2 & Hl2 & Hs2 & Hex2).
  exists p2. rewrite Hs2. split_and!.
  - by etrans; [apply Hm|].
  - exists r. split; [unfold task_at; rewrite Htasks; unfold set_pc; by rewrite lookup_insert_eq|naive_solver].
  - done.
  - intros busy Hb. apply Hwatch. by rewrite (mv_cache _ _ _ _ Hm).
  - intros u Hu. rewrite Htasks. unfold set_pc. rewrite lookup_insert_ne by done. by apply Hm.
Qed.

(** ** Lookups and waits *)

(** [t] can be answered without a timeout, or only a reply is missing. *)
Definition served (p : Process) (t : nat) (k : RequestKey) : Prop :=
  unanswered p k ∨
  ∃ p' r, leads p p' ∧ task_at (p_service p') t = Some (AtDone r) ∧ excused timeouts p' r.

Lemma served_leads p p' t k : leads p p' → served p' t k → served p t k.
Proof.
  intros Hl [?|(p2 & r & Hl2 & ?)]; [left; by eapply unanswered_leads|right].
  exists p2, r. split; [by etrans|done].
Qed.

Lemma answer_from_free_key p t k op :
  progressing p → tasks (p_service p) !! t = Some (mk_Task k op AtLookup) →
  in_flight (request_cache (p_service p)) !! k = None → served p t k.
Proof.
  intros Hg Ht Hfly. set (s1 := step_lookup (p_service p) t (mk_Task k op AtLookup)).
  assert (Hstep : step (Lookup t) (p_service p) = Some s1) by (cbn; by rewrite Ht).
  destruct (leads_own (Lookup t) p s1 eq_refl I Hstep) as (p1 & Hl & Hs1 & _).
  unfold s1, step_lookup, lookup_section in Hs1; cbn in Hs1. rewrite Hfly in Hs1. eapply served_leads; [exact Hl|].
  destruct (entries (request_cache (p_service p)) !! k) as [c|] eqn:Hk.
  - right. destruct (_ =? _)%N; eexists p1, _; (split; [done|]); rewrite Hs1;
      unfold task_at, set_pc; cbn; rewrite lookup_insert_eq; (split; [done|]); cbn; auto.
  - assert (Hown : task_at (p_service p1) t = Some AtAllocate).
    { rewrite Hs1. unfold task_at, set_pc. cbn. by rewrite lookup_insert_eq. }
    assert (Ho : owns (p_service p1) t k).
    { rewrite Hs1. eexists. cbn. unfold set_pc. by rewrite lookup_insert_eq. }
    destruct (process_owner_finishes p1 t k) as [?|(p' & Hl' & (r & Hr & Hex) & _)];
      [by eapply leads_progressing|done|by left|].
    right. exists p', r. split_and!; [done..|]. destruct Hex; [done|congruence].
Qed.

Lemma answer_unanswered_lookup p t k op :
  progressing p → tasks (p_service p) !! t = Some (mk_Task k op AtLookup) → served p t k.
Proof.
  intros Hg Ht. destruct (in_flight (request_cache (p_service p)) !! k) as [busy|] eqn:Hfly;
    [|by eapply answer_from_free_key].
  destruct (live_owned _ (pg_live _ Hg) _ _ Hfly) as [u Hu].
  assert (u ≠ t) by (intros ->; by apply (owns_task _ _ _ _ Ht) in Hu as [_ ?]).
  destruct (process_owner_finishes _ _ _ Hg Hu) as [?|(p1 & Hl1 & _ & Hfree & _ & Hoth)]; [by left|].
  rewrite <- Hoth in Ht by done.
  eapply served_leads; [exact Hl1|]. eapply answer_from_free_key; [by eapply leads_progressing|done..].
Qed.

Lemma answer_unanswered_wait p t k op w :
  progressing p → tasks (p_service p) !! t = Some (mk_Task k op (AtWait w)) → served p t k.
Proof.
  intros Hg Ht.
  assert (Hwake : ∀ p1, progressing p1 → tasks (p_service p1) !! t = Some (mk_Task k op (AtWait w)) →
    watches (p_service p1) !! w = Some true → served p1 t k).
  { intros p1 Hg1 Ht1 Hw1. edestruct (leads_own (Wake t) p1) as (p' & Hl & Hs & _);
      [done..|cbn; rewrite Ht1, Hw1; reflexivity|].
    eapply served_leads; [exact Hl|]. eapply answer_unanswered_lookup; [by eapply leads_progressing|].
    rewrite Hs. cbn. unfold set_pc. by rewrite lookup_insert_eq. }
  destruct (waits_task _ (live_waits _ (pg_live _ Hg)) _ _ _ Ht eq_refl) as [Hw|(busy & Hb & Hc)]; [by apply Hwake|].
  cbn in Hb. destruct (live_owned _ (pg_live _ Hg) _ _ Hb) as [u Hu].
  assert (u ≠ t) by (intros ->; by apply (owns_task _ _ _ _ Ht) in Hu as [_ ?]).
  destruct (process_owner_finishes _ _ _ Hg Hu) as [?|(p1 & Hl1 & _ & _ & Hwatch & Hoth)]; [by left|].
  apply Hwatch in Hb. rewrite Hc in Hb. rewrite <- Hoth in Ht by done.
  eapply served_leads; [exact Hl1|]. apply Hwake; [by eapply leads_progressing|done..].
Qed.

(** The outcome a task has come to, delivered or not. *)
Definition settled_at (p : Process) (t : nat) (r : result collider.AuthorityResult GrpcStatus) : Prop :=
  task_at (p_service p) t = Some (AtFinish r) ∨ task_at (p_service p) t = Some (AtDone r).

Lemma request_served p t task :
  progressing p → tasks (p_service p) !! t = Some task →
  unanswered p (task_key task) ∨
  ∃ p' r, leads p p' ∧ task_at (p_service p') t = Some (AtDone r) ∧ (settled_at p t r ∨ excused timeouts p' r).
Proof.
  intros Hg Ht. destruct task as [k op pc]. cbn [task_key].
  assert (Hserved : served p t k → unanswered p k ∨
    ∃ p' r, leads p p' ∧ task_at (p_service p') t = Some (AtDone r) ∧ (settled_at p t r ∨ excused timeouts p' r)).
  { intros [?|(p' & r & ? & ? & ?)]; [by left|right; eauto 6]. }
  destruct (owning pc) eqn:Hpc.
  { destruct (process_owner_finishes p t k Hg) as [?|(p' & Hl & (r & Hr & Hex) & _)]; [by eexists|by left|].
    right. exists p', r. split_and!; [done..|]. unfold settled_at. tauto. }
  destruct pc as [|w| | | | |r]; try done.
  - apply Hserved. by eapply answer_unanswered_lookup.
  - apply Hserved. by eapply answer_unanswered_wait.
  - right. exists p, r. assert (task_at (p_service p) t = Some (AtDone r)) by (unfold task_at; by rewrite Ht).
    split_and!; [done..|]. left. by right.
Qed.

(** What a task is answered with is the loop's own reply, if it is a success. *)
Definition due (p p' : Process) (t : nat) (task : Task) (r : result collider.AuthorityResult GrpcStatus) : Prop :=
  task_at (p_service p') t = Some (AtDone r) ∧
  match r with
  | Ok a => genuine p' (task_key task) (operation_fingerprint (task_op task)) a
  | Err _ => settled_at p t r ∨ excused timeouts p' r
  end.
End runs.

(** A task that is not dropped keeps its request. *)
Lemma step_keeps_task l s s' v task0 :
  step l s = Some s' → no_cancel l → tasks s !! v = Some task0 →
  ∃ pc, tasks s' !! v = Some (mk_Task (task_key task0) (task_op task0) pc).
Proof.
  intros Hs%step_inv Hl Hv.
  assert (Hset : ∀ u task1 pc0, tasks s !! u = Some task1 →
    ∃ pc, set_pc s u task1 pc0 !! v = Some (mk_Task (task_key task0) (task_op task0) pc)).
  { intros u task1 pc0 Hu. unfold set_pc. destruct (decide (u = v)) as [->|Hne].
    - rewrite lookup_insert_eq. simplify_eq. eauto.
    - rewrite lookup_insert_ne by done. exists (task_pc task0). rewrite Hv. by destruct task0. }
  step_cases Hs; try done; try (by eapply Hset).
  - exists (task_pc task0). cbn. rewrite lookup_insert_ne by congruence. rewrite Hv. by destruct task0.
  - unfold step_lookup. destruct (lookup_section _ _ _ _) as [[r|w'|] c]; cbn; by apply Hset.
  - unfold step_send. destruct acc; cbn; by apply Hset.
  - unfold step_finish in Hf. destruct (finish_section _ _ _ _) as [[w' c]|]; [|done]. simplify_eq. by apply Hset.
Qed.

Lemma process_steps_keep_task ls p p' t task :
  process_steps ls p = Some p' → Forall keeps_requests ls → tasks (p_service p) !! t = Some task →
  ∃ pc, tasks (p_service p') !! t = Some (mk_Task (task_key task) (task_op task) pc).
Proof.
  revert p task. induction ls as [|l ls IH]; intros p task; cbn.
  - intros [= ->] _ Ht. exists (task_pc task). rewrite Ht. by destruct task.
  - destruct (process_step l p) as [p1|] eqn:Hl; [|done]. intros Hls [Hk Hks]%list.Forall_cons Ht.
    destruct (process_step_service _ _ _ Hl Hk) as [Hs|(l' & Hnc & Hs)].
    + rewrite <- Hs in Ht. by apply (IH p1).
    + destruct (step_keeps_task _ _ _ _ _ Hs Hnc Ht) as [pc Ht1].
      destruct (IH p1 _ Hls Hks Ht1) as [pc' Ht']. by exists pc'.
Qed.

(** A run that serves [t] serves it with what is due. *)
Lemma served_due b p p' t task r :
  progressing p → leads b p p' → tasks (p_service p) !! t = Some task →
  task_at (p_service p') t = Some (AtDone r) → settled_at p t r ∨ excused b p' r → due b p p' t task r.
Proof.
  intros Hg Hl Ht Hr Hex. split; [done|].
  pose proof (pi_tasks _ (pg_inv _ (leads_progressing _ _ _ Hl Hg))) as Hacc.
  destruct Hl as (ls & Hls & Ha).
  destruct (process_steps_keep_task ls p p' t task) as [pc Ht'];
    [done|by eapply list.Forall_impl, at_work_keeps|done|].
  unfold task_at in Hr. rewrite Ht' in Hr. cbn in Hr. simplify_eq. apply Hacc in Ht'.
  by destruct r as [a|e].
Qed.

(** ** The property *)

(** C5: As long as no request is dropped half-way, every request of the signaling process can be
    answered: from any reachable state, a full queue, duplicates waiting for each other or a
    stopping loop included, moves of the requests under way and of the loop alone, without a new
    request, an outside command, a deadline, a stop or a timeout, bring it to its answer or to
    where only a reply is missing: the loop has taken the command of the owner of its key, and
    the state machine, polled out, has not answered it. The answer is the loop's own reply to a
    command of that key and fingerprint, or what the request had come to already, or one of the
    two conflicts, or an unavailability, which takes a stopping loop or an id used twice. When
    timeouts may run out as well, every request is answered. *)
Theorem process_answers_requests register_timeout dwell socks sfus ls p t task :
  process_steps ls (start_process register_timeout dwell socks sfus) = Some p → Forall keeps_requests ls →
  tasks (p_service p) !! t = Some task →
  (∃ ls' p', process_steps ls' p = Some p' ∧ Forall (at_work false) ls' ∧
     ((∃ r, due false p p' t task r) ∨ owed p' (task_key task))) ∧
  (∃ ls' p' r, process_steps ls' p = Some p' ∧ Forall (at_work true) ls' ∧ due true p p' t task r).
Proof.
  intros Hls Hk Ht.
  assert (Hg : progressing p) by (eapply progressing_steps; [exact Hls|done|apply start_progressing]).
  split.
  - destruct (request_served false p t task Hg Ht) as [[_ (p' & (ls' & ? & ?) & ?)]|(p' & r & Hl & Hr & Hex)].
    { exists ls', p'. auto. }
    pose proof (served_due _ _ _ _ _ _ Hg Hl Ht Hr Hex) as Hdue. destruct Hl as (ls' & ? & ?).
    exists ls', p'. eauto.
  - destruct (request_served true p t task Hg Ht) as [[? _]|(p' & r & Hl & Hr & Hex)]; [done|].
    pose proof (served_due _ _ _ _ _ _ Hg Hl Ht Hr Hex) as Hdue. destruct Hl as (ls' & ? & ?).
    exists ls', p', r. auto.
Qed.
End process_live.

(** ** Witness *)

Section witness.
#[local] Existing Instance sample_room_id.
#[local] Existing Instance sample_enums.
#[local] Existing Instance sample_hasher.
#[local] Existing Instance sample_collider.
#[local] Existing Instance sample_collider_laws.

(** A request that waits for another, whose command is not handed over yet, while
    the loop stops. *)
Definition waiting_ls : list PLabel :=
  [PTask (Arrive 0 sample_key (sample_op "a" 1)); PTask (Lookup 0); PTask (Arrive 2 sample_key (sample_op "b" 2));
   PTask (Lookup 2); PStop; PTask (Allocate 0)].

Definition waiting : Process :=
  opt_default (start_process 30 60 ∅ ∅) (process_steps waiting_ls (start_process 30 60 ∅ ∅)).

Definition waiting_runs : bool :=
  match process_steps waiting_ls (start_process 30 60 ∅ ∅) with Some _ => true | None => false end.

Lemma waiting_reached : waiting_runs = true → process_steps waiting_ls (start_process 30 60 ∅ ∅) = Some waiting.
Proof. unfold waiting_runs, waiting. by destruct (process_steps _ _) as [p|]. Qed.

Definition waiting_task : Task := mk_Task sample_key (sample_op "b" 2) (AtWait 0).

Lemma process_answers_requests_witness :
  (∃ ls' p', process_steps ls' waiting = Some p' ∧ Forall (at_work false) ls' ∧
     ((∃ r, due false waiting p' 2 waiting_task r) ∨ owed p' (task_key waiting_task))) ∧
  (∃ ls' p' r, process_steps ls' waiting = Some p' ∧ Forall (at_work true) ls' ∧ due true waiting p' 2 waiting_task r).
Proof.
  apply (process_answers_requests 30 60 ∅ ∅ waiting_ls waiting 2%nat).
  - apply waiting_reached. vm_compute. reflexivity.
  - unfold waiting_ls. repeat constructor.
  - vm_compute. reflexivity.
Defined.
End witness.
