(* ===== verification/DriverAcks.v ===== *)
(** * The acknowledgements of the event loop

    What the loop of [src/src/signaling_server.rs] puts into the channels of the
    workers' sessions: an acknowledgement is for an event that the loop was given,
    and is in the channel registered for its connection. *)

From S2P Require Import Prelude Wire RoomIds Driver DriverSpec Stack Samples.

(** The state machine acknowledges only events it was given, over the connection
    that gave them: [owes c connection_id request_id] holds when an
    acknowledgement may still come out. *)
Class AckLaws `{RoomIdLib} (C : ColliderLib) : Type := {
  owes : Collider → N → N → Prop;
  owes_new : ∀ t c id, ¬ owes (collider_new t) c id;
  owes_dwell : ∀ t k c id, owes (set_downgrade_dwell t k) c id → owes k c id;
  owes_read : ∀ i k c id, owes (handle_read i k).1 c id → owes k c id;
  owes_write : ∀ a k c id, owes (handle_write a k).1 c id → owes k c id;
  owes_timeout : ∀ t k c id, owes (handle_timeout t k).1 c id → owes k c id;
  owes_close : ∀ k c id, owes (collider_close k) c id → owes k c id;
  owes_event : ∀ k c id, owes (poll_event k).2 c id → owes k c id;
  owes_output : ∀ k c id, owes (poll_write k).2 c id → owes k c id;
  owes_input : ∀ i k c id, owes (handle_sfu_input i k).1 c id →
    owes k c id ∨ ∃ inst kind, i = ssfu.InEvent c inst (ssfu.mk_Event id kind);
  owes_ack : ∀ k k' c id, poll_write k = (Some (OSfu (ssfu.OutEventAck c id)), k') → owes k c id;
}.

Section driver_acks.
Context `{L : RoomIdLib, C : !ColliderLib, CL : !ColliderLaws C, AL : !AckLaws C}.

(** ** The event loop's acknowledgements *)

(** The events and the registrations in a command. *)
Definition events_of (command : DriverCommand) : list (N * N) :=
  match command with
  | SfuInput (ssfu.InEvent c _ e) => [(c, ssfu.e_request_id e)]
  | _ => []
  end.

Definition registrations_of (command : DriverCommand) : list (N * chan_id) :=
  match command with
  | SfuConnected (ssfu.InRegister c _ _ _) ch => [(c, ch)]
  | _ => []
  end.

(** After the events [h] and the registrations [regs], acknowledgements are for
    these events, in the channel of their connection. *)
Record acks_inv (h : list (N * N)) (regs : list (N * chan_id)) (d : Driver) : Prop := mk_acks_inv {
  ai_owes : ∀ c id, owes (d_collider d) c id → (c, id) ∈ h;
  ai_queued : ∀ ch q o, sfu_store d !! ch = Some q → o ∈ chan_queue q →
    (sfu_output_connection_id o, ch) ∈ regs ∧ ∀ c id, o = ssfu.OutEventAck c id → (c, id) ∈ h;
  ai_sessions : ∀ c ch, sfu_sessions d !! c = Some ch → (c, ch) ∈ regs;
}.

Lemma acks_inv_mono h h' regs regs' d : h ⊆ h' → regs ⊆ regs' → acks_inv h regs d → acks_inv h' regs' d.
Proof.
  intros Hh Hr [Ho Hq Hs]. split; [by eauto| |by eauto]. intros ch q o H1 H2.
  destruct (Hq _ _ _ H1 H2) as [H3 H4]. split; [by apply Hr|]. intros c id Ho'. by apply Hh, H4.
Qed.

(** Whatever leaves the workers' sessions alone. *)
Lemma acks_inv_same h regs d d' :
  sfu_sessions d' = sfu_sessions d → sfu_store d' = sfu_store d →
  (∀ c id, owes (d_collider d') c id → owes (d_collider d) c id) →
  acks_inv h regs d → acks_inv h regs d'.
Proof. intros Es Est Ho [H1 H2 H3]. split; rewrite ?Es, ?Est; eauto. Qed.

Lemma acks_inv_collider h regs d k :
  (∀ c id, owes k c id → owes (d_collider d) c id) → acks_inv h regs d → acks_inv h regs (with_collider d k).
Proof. intros ? ?. by apply (acks_inv_same _ _ d). Qed.

Lemma send_socket_same d ch o :
  sfu_sessions (send_socket d ch o).1 = sfu_sessions d ∧ sfu_store (send_socket d ch o).1 = sfu_store d ∧
  d_collider (send_socket d ch o).1 = d_collider d.
Proof. unfold send_socket. by destruct (try_send _ _ _). Qed.

Lemma acks_inv_socket h regs d ch o : acks_inv h regs d → acks_inv h regs (send_socket d ch o).1.
Proof.
  destruct (send_socket_same d ch o) as (E1 & E2 & E3). apply acks_inv_same; [done..|]. by rewrite E3.
Qed.

Lemma acks_inv_delete h regs d c : acks_inv h regs d → acks_inv h regs (with_sfu_sessions d (delete c (sfu_sessions d))).
Proof.
  intros [H1 H2 H3]. split; [done|done|]. cbn. intros c' ch. rewrite lookup_delete_Some. intros [_ ?]. eauto.
Qed.

Lemma acks_inv_send h regs d c o :
  acks_inv h regs d → sfu_sessions d !! sfu_output_connection_id o = Some c →
  (∀ k id, o = ssfu.OutEventAck k id → (k, id) ∈ h) →
  acks_inv h regs (send_sfu d c o).1.
Proof.
  intros [H1 H2 H3] Hc Ho. unfold send_sfu, try_send. destruct (sfu_store d !! c) as [q|] eqn:Hq; [|by split].
  unfold chan_try_send. destruct (_ && _); [|by split]. split; cbn; [done| |done].
  intros ch q' o'. rewrite lookup_insert_Some. intros [[<- <-]|[_ Hq']]; [|by eauto]. cbn.
  rewrite elem_of_app, list_elem_of_singleton. intros [?| ->]; [by eauto|]. split; [by apply H3|done].
Qed.

Lemma route_output_acks h regs d o :
  acks_inv h regs d → (∀ c id, o = OSfu (ssfu.OutEventAck c id) → (c, id) ∈ h) →
  acks_inv h regs (route_output d o).1.
Proof.
  intros Hd Ho. destruct o as [i t|i|out]; cbn; (case_match; [|done]).
  - destruct (send_socket d _ _) as [d' b] eqn:Hs. cbn. change d' with (d', b).1. rewrite <- Hs.
    by apply acks_inv_socket.
  - apply acks_inv_socket. by eapply acks_inv_same; [..|exact Hd].
  - destruct (send_sfu d _ _) as [d' b] eqn:Hs.
    assert (Hd' : acks_inv h regs d').
    { change d' with (d', b).1. rewrite <- Hs. apply acks_inv_send; [done|done|]. intros k id ->. by apply Ho. }
    destruct b; cbn; [done|by apply acks_inv_delete].
Qed.

Lemma drain_writes_acks h regs fuel d acc r :
  acks_inv h regs d → drain_writes fuel d acc = Some r → acks_inv h regs r.1.
Proof.
  revert d acc. induction fuel as [|fuel IH]; intros d acc Hd; cbn; [done|].
  pose proof (owes_output (d_collider d)) as Hout. pose proof (owes_ack (d_collider d)) as Hack.
  destruct (poll_write (d_collider d)) as [[o|] k] eqn:Hp; cbn in Hout.
  - destruct (route_output (with_collider d k) o) as [d' gone] eqn:Hr. apply IH.
    change d' with (d', gone).1. rewrite <- Hr. apply route_output_acks; [by apply acks_inv_collider|].
    intros c id ->. eapply ai_owes; [exact Hd|]. by eapply Hack.
  - intros [= <-]. by apply acks_inv_collider.
Qed.

Lemma disconnects_acks h regs clock l d : acks_inv h regs d → acks_inv h regs (foldl (disconnect_one clock) d l).
Proof.
  revert d. induction l as [|c l IH]; intros d Hd; cbn; [done|]. apply IH. unfold disconnect_one.
  apply (acks_inv_collider _ _ (with_sockets d _)); [intros ? ?; apply owes_read|].
  by eapply acks_inv_same; [..|exact Hd].
Qed.

Lemma drain_authority_acks h regs fuel d d' :
  acks_inv h regs d → drain_authority_responses fuel d = Some d' → acks_inv h regs d'.
Proof.
  revert d. induction fuel as [|fuel IH]; intros d Hd; cbn; [done|].
  pose proof (owes_event (d_collider d)) as Hev. destruct (poll_event (d_collider d)) as [[r|] k]; cbn in Hev.
  - cbn. destruct (pending_authority d !! _); apply IH; by eapply acks_inv_same; [..|exact Hd].
  - intros [= <-]. by apply acks_inv_collider.
Qed.

Lemma drained_acks h regs clock d : acks_inv h regs d → acks_inv h regs (drained clock d).
Proof.
  intros Hd. destruct (drained_settles clock d) as [n Hn]. specialize (Hn n (le_n _)). unfold drain in Hn.
  destruct (drain_outputs n clock d) as [d1|] eqn:H1; [|done].
  eapply drain_authority_acks; [|exact Hn]. unfold drain_outputs in H1.
  destruct (drain_writes n d []) as [[d2 gone]|] eqn:Hw; [|done]. simplify_eq.
  apply disconnects_acks. by apply (drain_writes_acks _ _ _ _ _ _ Hd Hw).
Qed.

Lemma handle_command_acks h regs d command :
  acks_inv h regs d → acks_inv (h ++ events_of command) (regs ++ registrations_of command) (handle_command d command).
Proof.
  intros Hd.
  assert (Hd' : acks_inv (h ++ events_of command) (regs ++ registrations_of command) d)
    by (eapply acks_inv_mono; [..|exact Hd]; by apply list_subseteq_app_l).
  assert (Hread : ∀ i d0, acks_inv (h ++ events_of command) (regs ++ registrations_of command) d0 →
    acks_inv (h ++ events_of command) (regs ++ registrations_of command) (with_collider d0 (handle_read i (d_collider d0)).1)).
  { intros i d0. apply acks_inv_collider. intros ? ?. apply owes_read. }
  destruct command as [i o|i t now|cmd o|input o|input|i now]; cbn -[events_of registrations_of] in *.
  - pose proof (Hread (BConnected i) d Hd') as Hr. destruct (handle_read _ _) as [k r].
    destruct (is_ok r); by eapply acks_inv_same; [..|exact Hr].
  - pose proof (Hread (BText i t now) d Hd') as Hr. destruct (handle_read _ _) as [k r]. cbn in Hr.
    destruct (is_ok r); [done|]. cbn. case_match; [|done].
    apply acks_inv_socket. by eapply acks_inv_same; [..|exact Hr].
  - pose proof (owes_write cmd (d_collider d)) as Ho. destruct (handle_write cmd (d_collider d)) as [k r]. cbn in Ho.
    destruct (is_ok r); [|case_match]; by eapply acks_inv_same; [..|exact Hd'].
  - destruct (register_connection_id input) as [c|] eqn:Hc; [|done].
    destruct input as [c' inst rid cap| | |]; cbn in Hc; try done. injection Hc as ->.
    pose proof (owes_input (ssfu.InRegister c inst rid cap) (d_collider d)) as Ho.
    destruct (handle_sfu_input _ (d_collider d)) as [k r]. cbn in Ho.
    assert (Hnew : acks_inv (h ++ []) (regs ++ [(c, o)])
      (with_collider (with_sfu_sessions d (<[c := o]> (sfu_sessions d))) k)).
    { destruct Hd' as [H1 H2 H3]. cbn in *. split; cbn.
      - intros c' id [?|(? & ? & ?)]%Ho; [auto|done].
      - done.
      - intros c' ch. rewrite lookup_insert_Some. intros [[<- <-]|[_ ?]]; [|auto].
        apply elem_of_app. right. left. }
    cbn. destruct (is_ok r); [done|]. exact (acks_inv_delete _ _ _ c Hnew).
  - destruct Hd' as [H1 H2 H3]. split; cbn -[events_of registrations_of]; [|done|done].
    intros c id [?|(inst & kind & ->)]%owes_input; [auto|]. apply elem_of_app. right. left.
  - eapply acks_inv_same; [..|exact (Hread (BDisconnected i now) d Hd')]; done.
Qed.

Lemma turn_command_acks h regs clock d command :
  acks_inv h regs d →
  acks_inv (h ++ events_of command) (regs ++ registrations_of command) (turn clock d (Command (Some command))).1.
Proof. intros Hd. apply drained_acks. by apply handle_command_acks. Qed.

Lemma turn_deadline_acks h regs clock d now :
  acks_inv h regs d → acks_inv h regs (turn clock d (Deadline now)).1.
Proof.
  intros Hd. cbn. destruct (poll_timeout _); [|done].
  pose proof (owes_timeout now (d_collider d)) as Ho. destruct (handle_timeout now (d_collider d)) as [k r].
  cbn in Ho. destruct (is_ok r); cbn; [apply drained_acks|]; by apply acks_inv_collider.
Qed.
End driver_acks.

#[export] Instance sample_ack_laws : AckLaws sample_collider.
Proof.
  refine {| owes (k : @Collider _ sample_collider) c id := OSfu (ssfu.OutEventAck c id) ∈ sc_outputs k |}; cbn.
  - by intros ? ? ? ?%elem_of_nil.
  - done.
  - intros i [os es] c id. destruct i; cbn; [done| |].
    + destruct (String.eqb _ _); cbn; [done|]. rewrite elem_of_app, list_elem_of_singleton. by intros [?|?].
    + rewrite elem_of_app, list_elem_of_singleton. by intros [?|?].
  - done.
  - done.
  - done.
  - intros [os es] c id. by destruct es.
  - intros [os es] c id. destruct os; cbn; [done|]. by right.
  - intros i [os es] c id. destruct i as [c' inst rid cap|c' inst r now|c' inst [eid kind]|c' inst now]; cbn;
      try (by left); rewrite elem_of_app, list_elem_of_singleton; intros [?|Heq]; [by left|done|by left|].
    right. injection Heq as -> ->. by exists inst, kind.
  - intros [os es] k' c id. destruct os; cbn; [done|]. intros [= -> _]. left.
Defined.
