(* ===== verification/SfuShard.v ===== *)
(** * One media shard of the SFU worker ([src/src/sfu_server.rs])

    [apply_command] keeps a projection of the rooms' members next to the
    Sans-I/O engine; [media_loop] answers each command through a cache of the
    results by request id and contributes its room and member counts to the
    worker's metrics. *)

From S2P Require Import Prelude Wire RoomIds.

(** ** The engine: crates [sfu] and [rtc] *)

(** The parts of [RTCIceCandidateInit] that [src/] sets. *)
Record IceCandidate := mk_IceCandidate {
  ice_candidate : string;
  ice_sdp_mid : option string;
  ice_sdp_mline_index : option N;
}.

(** [RTCSessionDescription] and what [src/] asks of it. *)
Class SdpLib : Type := {
  Sdp : Type;
  sdp_is_answer : Sdp → bool;
  sdp_is_offer : Sdp → bool;
}.

(** [sfu::SFUEvent], the variants and fields that [src/] uses.  The room and
    client of an [Ok] or an [Err] event are optional. *)
Inductive SFUEvent `{RoomIdLib, SdpLib} :=
  | EvJoin (request_id : N) (room_id : RoomId) (client_id : N)
  | EvLeave (request_id : N) (room_id : RoomId) (client_id : N) (reason : string)
  | EvSessionDescription (request_id : N) (room_id : RoomId) (client_id : N) (sdp : Sdp)
  | EvIceCandidate (request_id : N) (room_id : RoomId) (client_id : N) (candidate : IceCandidate)
  | EvErr (request_id : N) (room_id : option RoomId) (client_id : option N) (reason : string)
  | EvOk (request_id : N) (room_id : option RoomId) (client_id : option N).

(** [sfu::Sfu].  [poll_read] never yields a value (its item type is empty), a
    [poll_write] yields a datagram for the socket. *)
Class SfuLib `{RoomIdLib, SdpLib} : Type := {
  Sfu : Type;
  Packet : Type;
  sfu_handle_event : Instant → SFUEvent → Sfu → Sfu * result unit unit;
  sfu_poll_read : Sfu → Sfu;
  sfu_poll_write : Sfu → option Packet * Sfu;
  sfu_poll_event : Sfu → option SFUEvent * Sfu;
}.

(** [serde_json]: reading a value, and taking it as an envelope or a session
    description. *)
Record AppSignal := mk_AppSignal {
  as_kind : string;
  as_candidate : string;
  as_id : option string;
  as_label : option N;
  as_requestid : option string;
}.

(** A value inside a [json!] object. *)
Inductive JsonField := FStr (s : string) | FOptU16 (n : option N) | FOptStr (s : option string).

(** [json_object_insert] is [None] on a value that is not an object. *)
Class SignalJson `{SdpLib} : Type := {
  Json : Type;
  json_null : Json;
  json_from_str : string → option Json;
  json_app_signal : Json → option AppSignal;
  json_sdp : Json → option Sdp;
  json_of_sdp : Sdp → option Json;
  json_object_insert : string → string → Json → option Json;
  json_object : list (string * JsonField) → Json;
  json_to_string : Json → string;
}.

(** [Debug] of the generated [LeaveReason]. *)
Class LeaveReasonDebug : Type := leave_reason_debug : v2.LeaveReason → string.

(** The order in which a [HashMap] is iterated. *)
Class HashOrder : Type := hash_order : ∀ A : Type, list A → list A.

Class HashOrderLaws (O : HashOrder) : Prop := hash_order_perm : ∀ A (l : list A), hash_order A l ≡ₚ l.

(** [(room, client)] to [(lifecycle, assignment epoch)]. *)
Abbreviation Projection := (gmap (RoomId * N) (N * N)).

Section shard.
Context `{L : RoomIdLib, P : v2.ProtoEnums, SL : SdpLib, E : !SfuLib, J : !SignalJson,
          LR : LeaveReasonDebug, HO : HashOrder}.

Record Shard := mk_Shard { engine : Sfu; projection : Projection }.

Definition CommandFailure : Type := v2.ErrorCode * string.

Abbreviation M := (stateful Shard CommandFailure).

(** [engine.handle_event(..).map_err(..)]. *)
Definition engine_event (now : Instant) (event : SFUEvent) (failure : CommandFailure) : M unit :=
  λ s,
    let '(e, r) := sfu_handle_event now event (engine s) in
    (mk_Shard e (projection s), map_err (λ _, failure) r).

Definition update_projection (f : Projection → Projection) : M unit :=
  λ s, (mk_Shard (engine s) (f (projection s)), Ok tt).

(** [command_error]. *)
Definition command_error (request_id : N) (code : v2.ErrorCode) (reason : string)
  : v2.SfuCommandResult :=
  v2.mk_SfuCommandResult request_id
    (Some (v2.ResultError (v2.mk_Error (as_i32 code) reason false None))).

Definition bad_room_id : CommandFailure :=
  (v2.InvalidRequest, "room_id must be the 16 bytes of a UUIDv8").

(** [invalid_room_id]. *)
Definition invalid_room_id (request_id : N) : v2.SfuCommandResult :=
  command_error request_id bad_room_id.1 bad_room_id.2.

(** ** The arms of [apply_command] *)

Definition member_joined (join : v2.JoinMember) : v2.Payload :=
  v2.PMemberJoined (v2.mk_MemberJoined (v2.join_room_id join) (v2.join_client_id join)
    (v2.join_lifecycle_id join) (v2.join_assignment_epoch join)).

Definition member_left (leave : v2.LeaveMember) : v2.Payload :=
  v2.PMemberLeft (v2.mk_MemberLeft (v2.leave_room_id leave) (v2.leave_client_id leave)
    (v2.leave_lifecycle_id leave) (v2.leave_assignment_epoch leave)).

(** The [Join] arm, for a valid room. *)
Definition apply_join (now : Instant) (request_id : N) (room_id : RoomId) (join : v2.JoinMember)
  : M v2.Payload :=
  λ s,
    let key := (room_id, v2.join_client_id join) in
    match projection s !! key with
    | Some current =>
        if decide (current = (v2.join_lifecycle_id join, v2.join_assignment_epoch join))
        then (s, Ok (member_joined join))
        else (s, Err (v2.StaleLifecycle, "conflicting member lifecycle"))
    | None =>
        (let! joined := engine_event now (EvJoin request_id room_id (v2.join_client_id join))
                          (v2.Internal, "SFU join failed") in
         let! inserted := update_projection
                            (insert key (v2.join_lifecycle_id join, v2.join_assignment_epoch join)) in
         lift (Ok (member_joined join))) s
    end.

(** The [Leave] arm, for a valid room. *)
Definition apply_leave (now : Instant) (request_id : N) (room_id : RoomId) (leave : v2.LeaveMember)
  : M v2.Payload :=
  λ s,
    let key := (room_id, v2.leave_client_id leave) in
    match projection s !! key with
    | None => (s, Ok (member_left leave))
    | Some (lifecycle_id, assignment_epoch) =>
        if negb (assignment_epoch =? v2.leave_assignment_epoch leave)%N
        then (s, Err (v2.StaleAssignmentEpoch, "stale assignment epoch"))
        else if negb (lifecycle_id =? v2.leave_lifecycle_id leave)%N
        then (s, Err (v2.StaleLifecycle, "stale member lifecycle"))
        else
          (let! gone := engine_event now
                          (EvLeave request_id room_id (v2.leave_client_id leave)
                             (leave_reason_debug (enum_or_default (v2.leave_reason leave))))
                          (v2.Internal, "SFU leave failed") in
           let! removed := update_projection (delete key) in
           lift (Ok (member_left leave))) s
    end.

(** [apply_signal]; every reading of the JSON precedes the engine. *)
Definition apply_signal (now : Instant) (command_request_id : N) (room_id : RoomId)
    (signal : v2.SfuSignal) : M unit :=
  let! value := lift (ok_or (json_from_str (v2.signal_message_json signal))
                        (v2.InvalidSignal, "invalid signaling JSON")) in
  let! envelope := lift (ok_or (json_app_signal value)
                           (v2.InvalidSignal, "invalid signaling message")) in
  let kind := as_kind envelope in
  if String.eqb kind "offer" || String.eqb kind "answer" then
    let! sdp := lift (ok_or (json_sdp value) (v2.InvalidSignal, "invalid session description")) in
    let! request_id := lift
      (if sdp_is_answer sdp
       then ok_or (match as_requestid envelope ≫= parse_u64 with
                   | Some id => Some id
                   | None => v2.signal_sdp_request_id signal
                   end) (v2.InvalidSignal, "answer missing requestid")
       else Ok (opt_default command_request_id (v2.signal_sdp_request_id signal))) in
    engine_event now (EvSessionDescription request_id room_id (v2.signal_client_id signal) sdp)
      (v2.InvalidSignal, "session description rejected")
  else if String.eqb kind "candidate" then
    engine_event now
      (EvIceCandidate command_request_id room_id (v2.signal_client_id signal)
         (mk_IceCandidate (as_candidate envelope) (as_id envelope) (as_label envelope)))
      (v2.InvalidSignal, "ICE candidate rejected")
  else if String.eqb kind "end-of-candidates" then
    engine_event now
      (EvIceCandidate command_request_id room_id (v2.signal_client_id signal)
         (mk_IceCandidate EmptyString None None))
      (v2.InvalidSignal, "end of candidates rejected")
  else if String.eqb kind "bye" then lift (Ok tt)
  else lift (Err (v2.InvalidSignal, "unknown signaling message type")).

(** The [Signal] arm, for a valid room. *)
Definition apply_signal_command (now : Instant) (request_id : N) (room_id : RoomId)
    (signal : v2.SfuSignal) : M v2.Payload :=
  λ s,
    if decide (projection s !! (room_id, v2.signal_client_id signal) =
               Some (v2.signal_lifecycle_id signal, v2.signal_assignment_epoch signal))
    then (let! applied := apply_signal now request_id room_id signal in lift (Ok v2.Acknowledged)) s
    else (s, Err (v2.StaleLifecycle, "stale signal lifecycle")).

(** *** [sync_room] *)

(** [wanted]: the last lifecycle of each client wins. *)
Definition wanted_members (members : list v2.MemberProjection) : gmap N N :=
  foldl (λ m member, <[v2.mp_client_id member := v2.mp_lifecycle_id member]> m) ∅ members.

(** The clients of the room that are no longer wanted. *)
Definition stale_clients (room_id : RoomId) (wanted : gmap N N) (p : Projection) : list N :=
  (λ entry, entry.1.2) <$>
    filter (λ entry, entry.1.1 = room_id ∧ wanted !! entry.1.2 = None)
      (hash_order _ (map_to_list p)).

Fixpoint sync_leaves (now : Instant) (request_id : N) (room_id : RoomId) (stale : list N) : M unit :=
  match stale with
  | [] => lift (Ok tt)
  | client_id :: stale' =>
      let! gone := engine_event now (EvLeave request_id room_id client_id "room synchronization")
                     (v2.Internal, "SFU room sync leave failed") in
      let! removed := update_projection (delete (room_id, client_id)) in
      sync_leaves now request_id room_id stale'
  end.

Fixpoint sync_joins (now : Instant) (request_id : N) (room_id : RoomId) (assignment_epoch : N)
    (members : list v2.MemberProjection) : M unit :=
  match members with
  | [] => lift (Ok tt)
  | member :: members' =>
      let key := (room_id, v2.mp_client_id member) in
      let! joined := λ s,
        match projection s !! key with
        | Some _ => (s, Ok tt)
        | None => engine_event now (EvJoin request_id room_id (v2.mp_client_id member))
                    (v2.Internal, "SFU room sync join failed") s
        end in
      let! inserted := update_projection (insert key (v2.mp_lifecycle_id member, assignment_epoch)) in
      sync_joins now request_id room_id assignment_epoch members'
  end.

(** [sync_room]. *)
Definition sync_room (now : Instant) (request_id : N) (sync : v2.SyncRoom) : M v2.Payload :=
  let! room_id := lift (ok_or (room_id_from_bytes (v2.sync_room_id sync)) bad_room_id) in
  let wanted := wanted_members (v2.sync_members sync) in
  let! left_ := λ s, sync_leaves now request_id room_id (stale_clients room_id wanted (projection s)) s in
  let! joined := sync_joins now request_id room_id (v2.sync_assignment_epoch sync) (v2.sync_members sync) in
  lift (Ok (v2.PRoomSynced (v2.mk_RoomSynced (v2.sync_room_id sync) (v2.sync_assignment_epoch sync)))).

(** The [match command.command] of [apply_command].  Its early returns for a bad
    room id answer like the failures. *)
Definition apply_kind (now : Instant) (request_id : N) (command : option v2.Command) : M v2.Payload :=
  match command with
  | Some (v2.CmdJoin join) =>
      let! room_id := lift (ok_or (room_id_from_bytes (v2.join_room_id join)) bad_room_id) in
      apply_join now request_id room_id join
  | Some (v2.CmdLeave leave) =>
      let! room_id := lift (ok_or (room_id_from_bytes (v2.leave_room_id leave)) bad_room_id) in
      apply_leave now request_id room_id leave
  | Some (v2.CmdSignal signal) =>
      let! room_id := lift (ok_or (room_id_from_bytes (v2.signal_room_id signal)) bad_room_id) in
      apply_signal_command now request_id room_id signal
  | Some (v2.CmdSyncRoom sync) => sync_room now request_id sync
  | Some (v2.CmdDrain _) => lift (Ok v2.Acknowledged)
  | None => lift (Err (v2.InvalidRequest, "missing SFU command"))
  end.

(** [apply_command]. *)
Definition apply_command (now : Instant) (s : Shard) (command : v2.SfuCommand)
  : Shard * v2.SfuCommandResult :=
  let request_id := v2.cmd_request_id command in
  if (request_id =? 0)%N
  then (s, command_error request_id v2.InvalidRequest "request_id must be nonzero")
  else
    let '(s', r) := apply_kind now request_id (v2.cmd_command command) s in
    (s', match r with
         | Ok payload =>
             v2.mk_SfuCommandResult request_id (Some (v2.ResultOk (v2.mk_SfuCommandOk (Some payload))))
         | Err (code, reason) => command_error request_id code reason
         end).

(** ** The command cache *)

Definition COMMAND_CACHE_CAPACITY : N := 4096.

Record CommandCache := mk_CommandCache {
  command_cache : gmap N v2.SfuCommandResult;
  command_order : list N;
}.

Definition empty_command_cache : CommandCache := mk_CommandCache ∅ [].

(** The eviction loop of [cache_command]; it pops at each turn. *)
Fixpoint evict_commands (order : list N) (cache : gmap N v2.SfuCommandResult) : CommandCache :=
  match order with
  | oldest :: rest =>
      if (COMMAND_CACHE_CAPACITY <? N.of_nat (length order))%N
      then evict_commands rest (delete oldest cache)
      else mk_CommandCache cache order
  | [] => mk_CommandCache cache []
  end.

(** [cache_command]. *)
Definition cache_command (c : CommandCache) (r : v2.SfuCommandResult) : CommandCache :=
  let id := v2.res_request_id r in
  let order := match command_cache c !! id with
               | Some _ => command_order c
               | None => command_order c ++ [id]
               end in
  evict_commands order (<[id := r]> (command_cache c)).

(** ** Metrics *)

(** The worker's totals, shared by its shards. *)
Record Metrics := mk_Metrics { m_rooms : N; m_clients : N }.

(** [replace_contribution]: the new total and the new contribution. *)
Definition replace_contribution (total previous current : N) : N * N :=
  if (previous <=? current)%N
  then ((fetch_add total (current - previous)).2, current)
  else ((fetch_sub total (previous - current)).2, current).

Definition projection_rooms (p : Projection) : gset RoomId := set_map fst (dom p).

(** What one shard contributes: [metric_rooms] and [metric_clients]. *)
Record Contribution := mk_Contribution { metric_rooms : N; metric_clients : N }.

(** [update_metrics]. *)
Definition update_metrics (p : Projection) (m : Metrics) (c : Contribution) : Metrics * Contribution :=
  let '(rooms, room_share) :=
    replace_contribution (m_rooms m) (metric_rooms c) (N.of_nat (size (projection_rooms p))) in
  let '(clients, client_share) :=
    replace_contribution (m_clients m) (metric_clients c) (N.of_nat (size p)) in
  (mk_Metrics rooms clients, mk_Contribution room_share client_share).

(** ** The command branch of [media_loop] *)

Record Media := mk_Media {
  shard : Shard;
  commands_seen : CommandCache;
  contribution : Contribution;
}.

Definition new_media (e : Sfu) : Media :=
  mk_Media (mk_Shard e ∅) empty_command_cache (mk_Contribution 0 0).

(** One received command: the state, the metrics and the response sent. *)
Definition media_command (now : Instant) (media : Media) (m : Metrics) (command : v2.SfuCommand)
  : Media * Metrics * v2.SfuCommandResult :=
  match command_cache (commands_seen media) !! v2.cmd_request_id command with
  | Some cached => (media, m, cached)
  | None =>
      let '(s, r) := apply_command now (shard media) command in
      let '(m', c) := update_metrics (projection s) m (contribution media) in
      (mk_Media s (cache_command (commands_seen media) r) c, m', r)
  end.

(** The end of [media_loop]: the shard's share is withdrawn. *)
Definition media_stop (media : Media) (m : Metrics) : Metrics :=
  mk_Metrics (fetch_sub (m_rooms m) (metric_rooms (contribution media))).2
             (fetch_sub (m_clients m) (metric_clients (contribution media))).2.

(** ** Dispatch *)

(** The [room_id] field of a command. *)
Definition kind_room (command : v2.Command) : option bytes :=
  match command with
  | v2.CmdSyncRoom c => Some (v2.sync_room_id c)
  | v2.CmdJoin c => Some (v2.join_room_id c)
  | v2.CmdLeave c => Some (v2.leave_room_id c)
  | v2.CmdSignal c => Some (v2.signal_room_id c)
  | v2.CmdDrain _ => None
  end.

(** [command_room_id]. *)
Definition command_room_id (command : v2.SfuCommand) : option RoomId :=
  kind ← v2.cmd_command command; b ← kind_room kind; room_id_from_bytes b.

(** The shards of a worker, [None] for one that has stopped, and the metrics
    they share. *)
Record Worker := mk_Worker { shards : list (option Media); metrics : Metrics }.

(** [room_id.as_u128() % media.len().max(1)]. *)
Definition shard_index (len : nat) (room_id : RoomId) : nat :=
  N.to_nat (as_u128 room_id mod N.max (N.of_nat len) 1).

(** [dispatch_command], with the shard's turn in the middle. *)
Definition dispatch_command (now : Instant) (w : Worker) (command : v2.SfuCommand)
  : Worker * v2.SfuCommandResult :=
  let request_id := v2.cmd_request_id command in
  match command_room_id command with
  | None => (w, command_error request_id v2.InvalidRequest "unsupported command")
  | Some room_id =>
      let index := shard_index (length (shards w)) room_id in
      match shards w !! index with
      | None => (w, command_error request_id v2.WorkerUnavailable "media shard unavailable")
      | Some None => (w, command_error request_id v2.WorkerUnavailable "media shard stopped")
      | Some (Some media) =>
          let '(media', m, r) := media_command now media (metrics w) command in
          (mk_Worker (<[index := Some media']> (shards w)) m, r)
      end
  end.

(** A shard's [media_loop] returns. *)
Definition stop_shard (w : Worker) (i : nat) : Worker :=
  match shards w !! i with
  | Some (Some media) => mk_Worker (<[i := None]> (shards w)) (media_stop media (metrics w))
  | _ => w
  end.

Definition new_worker (engines : list Sfu) : Worker :=
  mk_Worker ((λ e, Some (new_media e)) <$> engines) (mk_Metrics 0 0).
End shard.
