(* ===== verification/SfuEvents.v ===== *)
(** * Events of a media shard ([drain_engine] of [src/src/sfu_server.rs])

    After every turn of its loop a shard sends the engine's datagrams and turns
    the engine's events about current members into wire events. *)

From S2P Require Import Prelude Wire RoomIds SfuShard.

Section events.
Context `{L : RoomIdLib, P : v2.ProtoEnums, SL : SdpLib, E : !SfuLib, J : !SignalJson}.

(** [event.room_id()] and [event.client_id()]. *)
Definition event_room_id (ev : SFUEvent) : option RoomId :=
  match ev with
  | EvJoin _ r _ | EvLeave _ r _ _ | EvSessionDescription _ r _ _ | EvIceCandidate _ r _ _ => Some r
  | EvErr _ r _ _ | EvOk _ r _ => r
  end.

Definition event_client_id (ev : SFUEvent) : option N :=
  match ev with
  | EvJoin _ _ c | EvLeave _ _ c _ | EvSessionDescription _ _ c _ | EvIceCandidate _ _ c _ => Some c
  | EvErr _ _ c _ | EvOk _ _ c => c
  end.

(** The text of a session description; an offer carries its request id. *)
Definition sdp_text (request_id : N) (sdp : Sdp) : string :=
  let value := opt_default json_null (json_of_sdp sdp) in
  json_to_string
    (if sdp_is_offer sdp
     then opt_default value (json_object_insert "requestid" (show_u64 request_id) value)
     else value).

Definition candidate_text (c : IceCandidate) : string :=
  json_to_string (json_object
    [("type", FStr (if is_empty (ice_candidate c) then "end-of-candidates" else "candidate"));
     ("label", FOptU16 (ice_sdp_mline_index c)); ("id", FOptStr (ice_sdp_mid c));
     ("candidate", FStr (ice_candidate c))]).

(** The body of the event loop of [drain_engine]: the [continue]s are [None]. *)
Definition event_kind (p : Projection) (ev : SFUEvent) : option v2.Event :=
  room_id ← event_room_id ev;
  client_id ← event_client_id ev;
  '(lifecycle_id, assignment_epoch) ← p !! (room_id, client_id);
  match ev with
  | EvSessionDescription request_id _ _ sdp =>
      Some (v2.EvSignal (v2.mk_SfuSignal (room_id_to_bytes room_id) client_id lifecycle_id
              assignment_epoch (sdp_text request_id sdp) (Some request_id)))
  | EvIceCandidate _ _ _ candidate =>
      Some (v2.EvSignal (v2.mk_SfuSignal (room_id_to_bytes room_id) client_id lifecycle_id
              assignment_epoch (candidate_text candidate) None))
  | EvErr request_id _ _ reason =>
      Some (v2.EvFailure (v2.mk_SfuFailure
              (Some (v2.mk_Error (as_i32 v2.Internal) reason false None))
              (Some (room_id_to_bytes room_id)) (Some client_id) (Some lifecycle_id) (Some request_id)))
  | EvOk _ _ _ | EvJoin _ _ _ | EvLeave _ _ _ _ => None
  end.

(** [next_nonzero]: the value and the counter. *)
Definition next_nonzero (counter : N) : option (N * N) := fetch_nonzero 2 counter.

(** What a drain has produced, and whether it still waits to send an event. *)
Record Drained := mk_Drained {
  drained_engine : Sfu;
  drained_counter : N;
  drained_packets : list Packet;
  drained_events : list v2.SfuEvent;
  drained_waiting : bool;
}.

(** [while let Some(transmit) = engine.poll_write()]. *)
Fixpoint drain_packets (fuel : nat) (e : Sfu) : option (Sfu * list Packet) :=
  match fuel with
  | O => None
  | S fuel' =>
      match sfu_poll_write e with
      | (Some packet, e') => '(e'', ps) ← drain_packets fuel' e'; Some (e'', packet :: ps)
      | (None, e') => Some (e', [])
      end
  end.

(** How one [events.send(event).await] comes to an end: the channel takes the
    event, and the other shards draw [others] ids before this one draws its next;
    or the receiver is gone. *)
Inductive SendEnd :=
  | Taken (others : N)
  | Refused.

(** [while let Some(event) = engine.poll_event()].  [sends] are the ends of the
    sends, in order: one that has none left waits for room in the channel.  The
    flag tells that the loop is still in such a wait, with the event numbered and
    taken from the engine; it returns at a refusal. *)
Fixpoint drain_events (fuel : nat) (sends : list SendEnd) (p : Projection) (e : Sfu) (counter : N)
  : option (Sfu * N * list v2.SfuEvent * bool) :=
  match fuel with
  | O => None
  | S fuel' =>
      match sfu_poll_event e with
      | (None, e') => Some (e', counter, [], false)
      | (Some ev, e') =>
          match event_kind p ev with
          | None => drain_events fuel' sends p e' counter
          | Some kind =>
              '(id, counter') ← next_nonzero counter;
              match sends with
              | [] => Some (e', counter', [], true)
              | Refused :: _ => Some (e', counter', [], false)
              | Taken others :: sends' =>
                  '(e'', counter'', evs, waiting) ←
                    drain_events fuel' sends' p e' (fetch_add counter' others).2;
                  Some (e'', counter'', v2.mk_SfuEvent id (Some kind) :: evs, waiting)
              end
          end
      end
  end.

(** [drain_engine]; a datagram's [send_to] comes to an end, and only its failure
    is logged. *)
Definition drain_engine (fuel : nat) (sends : list SendEnd) (p : Projection) (e : Sfu) (counter : N)
  : option Drained :=
  '(e1, packets) ← drain_packets fuel (sfu_poll_read e);
  '(e2, counter', events, waiting) ← drain_events fuel sends p e1 counter;
  Some (mk_Drained e2 counter' packets events waiting).
End events.
