(* ===== verification/SfuLoop.v ===== *)
(** * The loop of a media shard ([media_loop] of [src/src/sfu_server.rs])

    Between two waits the loop performs one command, feeds one datagram or one
    timeout to the engine, and then drains the engine, which may wait for room in
    the events channel.  It shares the metrics and the counter of event ids with
    the worker's other shards, whose atomic additions come between its own. *)

From S2P Require Import Prelude Wire RoomIds SfuShard SfuEvents.

(** Media traffic and the end of [sfu::Sfu]. *)
Class SfuMediaLib `{SfuLib} : Type := {
  PeerAddr : Type;
  sfu_handle_read : Instant → PeerAddr → bytes → Sfu → Sfu * result unit unit;
  sfu_handle_timeout : Instant → Sfu → Sfu * result unit unit;
  sfu_close : Sfu → Sfu;
}.

Section media_loop.
Context `{L : RoomIdLib, P : v2.ProtoEnums, SL : SdpLib, E : !SfuLib, ML : !SfuMediaLib, J : !SignalJson,
          LR : LeaveReasonDebug, HO : HashOrder}.

(** The receive buffer: a longer datagram is cut. *)
Definition PACKET_SIZE : nat := 2048.

(** What ends one wait of the loop: the stop signal, the command channel
    (closed when [None]), the socket, or the deadline the engine or the loop has
    set, which may be any instant. *)
Inductive MediaWakeup :=
  | MediaStop
  | MediaCommand (now : Instant) (command : option v2.SfuCommand)
  | MediaPacket (now : Instant) (received : option (PeerAddr * bytes))
  | MediaTimeout (now : Instant).

(** What surrounds a turn: what the other shards have added to the shared atomics
    since the turn before, and how the sends of its events end. *)
Record Others := mk_Others {
  other_ids : N;
  other_rooms : N;
  other_clients : N;
  event_sends : list SendEnd;
}.

Record LoopState := mk_LoopState {
  loop_media : Media;
  loop_metrics : Metrics;
  next_event_id : N;
}.

Definition interfere (o : Others) (st : LoopState) : LoopState :=
  mk_LoopState (loop_media st)
    (mk_Metrics (fetch_add (m_rooms (loop_metrics st)) (other_rooms o)).2
                (fetch_add (m_clients (loop_metrics st)) (other_clients o)).2)
    (fetch_add (next_event_id st) (other_ids o)).2.

Definition with_engine (media : Media) (e : Sfu) : Media :=
  mk_Media (mk_Shard e (projection (shard media))) (commands_seen media) (contribution media).

(** The [select!] of the loop up to its draining: [None] when it breaks, else
    the state and the response sent.  The engine's errors are only logged. *)
Definition media_select (st : LoopState) (w : MediaWakeup)
  : option (LoopState * list v2.SfuCommandResult) :=
  let media := loop_media st in
  let e := engine (shard media) in
  match w with
  | MediaStop | MediaCommand _ None => None
  | MediaCommand now (Some command) =>
      let '(media', m, r) := media_command now media (loop_metrics st) command in
      Some (mk_LoopState media' m (next_event_id st), [r])
  | MediaPacket now (Some (peer, datagram)) =>
      let e' := (sfu_handle_read now peer (take PACKET_SIZE datagram) e).1 in
      Some (mk_LoopState (with_engine media e') (loop_metrics st) (next_event_id st), [])
  | MediaPacket _ None => Some (st, [])
  | MediaTimeout now =>
      let e' := (sfu_handle_timeout now e).1 in
      Some (mk_LoopState (with_engine media e') (loop_metrics st) (next_event_id st), [])
  end.

(** What one turn has sent, and the members it knew then. *)
Record Turn := mk_Turn {
  turn_members : Projection;
  turn_answers : list v2.SfuCommandResult;
  turn_packets : list Packet;
  turn_events : list v2.SfuEvent;
}.

(** [drain_engine], on the loop's state. *)
Definition media_drain (fuel : nat) (sends : list SendEnd) (st : LoopState) (answers : list v2.SfuCommandResult)
  : option (LoopState * Turn * bool) :=
  let media := loop_media st in
  let p := projection (shard media) in
  d ← drain_engine fuel sends p (engine (shard media)) (next_event_id st);
  Some (mk_LoopState (with_engine media (drained_engine d)) (loop_metrics st) (drained_counter d),
        mk_Turn p answers (drained_packets d) (drained_events d), drained_waiting d).

(** Where the loop is: past its [break], in its [select!], or at a send in
    [drain_engine], where it sees no stop signal. *)
Inductive LoopEnd := Broken | Selecting | Sending.

(** The loop over the wake-ups that come. *)
Fixpoint media_loop (fuel : nat) (st : LoopState) (ws : list (Others * MediaWakeup))
  : option (LoopState * list Turn * LoopEnd) :=
  match ws with
  | [] => Some (st, [], Selecting)
  | (others, w) :: ws' =>
      match media_select (interfere others st) w with
      | None => Some (interfere others st, [], Broken)
      | Some (st1, answers) =>
          '(st2, turn, waiting) ← media_drain fuel (event_sends others) st1 answers;
          if waiting : bool then Some (st2, [turn], Sending)
          else '(st3, turns, how) ← media_loop fuel st2 ws'; Some (st3, turn :: turns, how)
      end
  end.

(** The task: still in its loop, or over, with the engine closed and the worker's
    metrics as it leaves them. *)
Inductive TaskState :=
  | InLoop (st : LoopState) (sending : bool)
  | Ended (e : Sfu) (m : Metrics).

(** The whole task, from [sfu::Sfu::new] to the withdrawal of its share. *)
Definition media_task (fuel : nat) (e : Sfu) (m : Metrics) (counter : N)
    (ws : list (Others * MediaWakeup)) : option (TaskState * list Turn) :=
  '(st, turns, how) ← media_loop fuel (mk_LoopState (new_media e) m counter) ws;
  Some (match how with
        | Broken => Ended (sfu_close (engine (shard (loop_media st)))) (media_stop (loop_media st) (loop_metrics st))
        | Selecting => InLoop st false
        | Sending => InLoop st true
        end, turns).
End media_loop.
