(* ===== verification/SfuShardSpec.v ===== *)
(** * What a media shard promises

    The projection mirrors the engine's membership; a rejected command changes
    nothing; a command touches its own room only; room synchronization yields
    exactly the members it lists; and a retried request id is answered from the
    cache. *)

From S2P Require Import Prelude Wire RoomIds SfuShard.

Section shard_spec.
Context `{L : RoomIdLib, P : v2.ProtoEnums, SL : SdpLib, E : !SfuLib, J : !SignalJson,
          LR : LeaveReasonDebug, HO : HashOrder}.

Abbreviation M := (stateful Shard CommandFailure).

(** ** A command touches its own room only *)

(** The entry of [k] is [v]. *)
Definition at_key (k : RoomId * N) (v : option (N * N)) (s : Shard) : Prop := projection s !! k = v.

Lemma engine_event_at k v now ev f :
  triple (at_key k v) (engine_event now ev f) (λ _, at_key k v) (λ _, at_key k v).
Proof. intros s Hs. unfold engine_event. by destruct (sfu_handle_event _ _ _) as [e []]. Qed.

(** [f] changes no entry of another room. *)
Definition local_to (r : RoomId) (f : Projection → Projection) : Prop :=
  ∀ p k, k.1 ≠ r → f p !! k = p !! k.

Lemma insert_local r c v : local_to r (insert (r, c) v).
Proof. intros p k Hk. rewrite lookup_insert_ne; [done|]. by intros <-. Qed.

Lemma delete_local r c : local_to r (delete (r, c)).
Proof. intros p k Hk. rewrite lookup_delete_ne; [done|]. by intros <-. Qed.

Hint Resolve insert_local delete_local : core.

Lemma update_at k v r f :
  k.1 ≠ r → local_to r f → triple (at_key k v) (update_projection f) (λ _, at_key k v) (λ _, at_key k v).
Proof. intros Hk Hf s Hs. unfold update_projection, at_key. cbn. by rewrite Hf. Qed.

(** One engine event followed by one update of the projection. *)
Lemma event_update_at {A} k v r now ev fl f (a : A) :
  k.1 ≠ r → local_to r f →
  triple (at_key k v)
    (let! x := engine_event now ev fl in let! y := update_projection f in lift (Ok a))
    (λ _, at_key k v) (λ _, at_key k v).
Proof.
  intros Hk Hf. eapply triple_bind; [apply engine_event_at|]. intros ?.
  eapply triple_bind; [by eapply update_at|]. intros ?. by apply triple_lift.
Qed.

Lemma sync_leaves_at k v r now rid stale :
  k.1 ≠ r → triple (at_key k v) (sync_leaves now rid r stale) (λ _, at_key k v) (λ _, at_key k v).
Proof.
  intros Hk. induction stale as [|c stale IH]; cbn; [by apply triple_lift|].
  eapply triple_bind; [apply engine_event_at|]. intros ?.
  eapply triple_bind; [by eapply update_at|]. intros ?. exact IH.
Qed.

Lemma sync_joins_at k v r now rid epoch members :
  k.1 ≠ r →
  triple (at_key k v) (sync_joins now rid r epoch members) (λ _, at_key k v) (λ _, at_key k v).
Proof.
  intros Hk. induction members as [|m members IH]; cbn; [by apply triple_lift|].
  eapply triple_bind; [|intros ?; eapply triple_bind; [by eapply update_at|]; intros ?; exact IH].
  intros s Hs. destruct (projection s !! (r, _)); [done|]. by apply engine_event_at.
Qed.

Lemma apply_signal_at k v now rid room signal :
  triple (at_key k v) (apply_signal now rid room signal) (λ _, at_key k v) (λ _, at_key k v).
Proof.
  unfold apply_signal. apply triple_ok_or; [done|]. intros x _. apply triple_ok_or; [done|].
  intros e _. destruct (_ || _).
  - apply triple_ok_or; [done|]. intros sdp _.
    eapply triple_bind with (Mid := λ _, at_key k v); [|intros; apply engine_event_at].
    apply triple_lift. intros s Hs. by destruct (if sdp_is_answer sdp then _ else _).
  - repeat (match goal with |- context [String.eqb ?a ?b] => destruct (String.eqb a b) end;
      [first [apply engine_event_at|by apply triple_lift]|]). by apply triple_lift.
Qed.

(** The valid room a command names. *)
Definition names_room (command : option v2.Command) (r : RoomId) : Prop :=
  ∃ c b, command = Some c ∧ kind_room c = Some b ∧ room_id_from_bytes b = Some r.

Lemma apply_kind_at now rid command k v :
  ¬ names_room command k.1 →
  triple (at_key k v) (apply_kind now rid command) (λ _, at_key k v) (λ _, at_key k v).
Proof.
  intros Hn. destruct command as [[c|c|c|c|d]|]; cbn; [..|by apply triple_lift|by apply triple_lift];
    try (unfold sync_room); (apply triple_ok_or; [done|]); intros r Hr;
    assert (Hk : k.1 ≠ r) by (intros <-; apply Hn; by eexists _, _).
  - eapply triple_bind with (Mid := λ _, at_key k v); [intros s Hs; by apply sync_leaves_at|].
    intros ?. eapply triple_bind; [by apply sync_joins_at|]. intros ?. by apply triple_lift.
  - intros s Hs. unfold apply_join. destruct (projection s !! (r, _)); [by case_decide|].
    by apply (event_update_at k v r).
  - intros s Hs. unfold apply_leave. destruct (projection s !! (r, _)) as [[l e]|]; [|done].
    destruct (negb _); [done|]. destruct (negb _); [done|]. by apply (event_update_at k v r).
  - intros s Hs. unfold apply_signal_command. case_decide; [|done].
    apply (triple_bind (at_key k v) (λ _, at_key k v)); [apply apply_signal_at| |done].
    intros ?. by apply triple_lift.
Qed.

(** ** The projection mirrors the engine *)

(** What a successful event does to the set of members. *)
Definition event_effect (ev : SFUEvent) (ms : gset (RoomId * N)) : gset (RoomId * N) :=
  match ev with
  | EvJoin _ r c => {[ (r, c) ]} ∪ ms
  | EvLeave _ r c _ => ms ∖ {[ (r, c) ]}
  | _ => ms
  end.

(** The engine has a set of members; an event it refuses leaves it alone. *)
Class SfuLaws : Type := {
  sfu_members : Sfu → gset (RoomId * N);
  sfu_event_ok : ∀ now ev e e', sfu_handle_event now ev e = (e', Ok tt) →
    sfu_members e' = event_effect ev (sfu_members e);
  sfu_event_err : ∀ now ev e e', sfu_handle_event now ev e = (e', Err tt) →
    sfu_members e' = sfu_members e;
}.

Section mirrored.
Context {laws : SfuLaws}.

Definition mirrored (s : Shard) : Prop := sfu_members (engine s) = dom (projection s).

Lemma engine_event_mirrored now ev f :
  triple mirrored (engine_event now ev f)
    (λ _ s, sfu_members (engine s) = event_effect ev (dom (projection s))) (λ _, mirrored).
Proof.
  intros s Hs. unfold engine_event, mirrored in *.
  destruct (sfu_handle_event now ev (engine s)) as [e [[]|[]]] eqn:He; cbn.
  - by rewrite (sfu_event_ok _ _ _ _ He), Hs.
  - by rewrite (sfu_event_err _ _ _ _ He), Hs.
Qed.

(** An event that leaves the members alone. *)
Lemma neutral_event_mirrored now ev f :
  (∀ ms, event_effect ev ms = ms) →
  triple mirrored (engine_event now ev f) (λ _, mirrored) (λ _, mirrored).
Proof.
  intros Hev. eapply triple_weaken; [apply engine_event_mirrored|done| |done].
  intros ? s. cbn beta. by rewrite Hev.
Qed.

Lemma update_mirrored ms f :
  (∀ p, ms (dom p) = dom (f p)) →
  triple (λ s, sfu_members (engine s) = ms (dom (projection s))) (update_projection f)
    (λ _, mirrored) (λ _, mirrored).
Proof. intros Hf s Hs. unfold update_projection, mirrored. cbn. by rewrite Hs. Qed.

(** A join or a leave, and the matching update of the projection. *)
Lemma event_update_mirrored now ev fl f :
  (∀ p : Projection, event_effect ev (dom p) = dom (f p)) →
  triple mirrored (let! x := engine_event now ev fl in update_projection f)
    (λ _, mirrored) (λ _, mirrored).
Proof.
  intros Hf. eapply triple_bind; [apply engine_event_mirrored|]. intros ?. by apply update_mirrored.
Qed.

Lemma dom_join (r : RoomId) (c rid : N) (v : N * N) (p : Projection) :
  event_effect (EvJoin rid r c) (dom p) = dom (<[(r, c) := v]> p).
Proof. by rewrite dom_insert_L. Qed.

Lemma dom_leave (r : RoomId) (c rid : N) (reason : string) (p : Projection) :
  event_effect (EvLeave rid r c reason) (dom p) = dom (delete (r, c) p).
Proof. by rewrite dom_delete_L. Qed.

Hint Resolve dom_join dom_leave : core.

Lemma mirrored_insert s k v :
  mirrored s → is_Some (projection s !! k) → mirrored (mk_Shard (engine s) (<[k := v]> (projection s))).
Proof.
  unfold mirrored. cbn. intros Hs Hk. rewrite dom_insert_L, Hs. apply elem_of_dom in Hk. set_solver.
Qed.

Lemma triple_then_lift {A B} (m : M A) (b : B) :
  triple mirrored m (λ _, mirrored) (λ _, mirrored) →
  triple mirrored (let! x := m in lift (Ok b)) (λ _, mirrored) (λ _, mirrored).
Proof. intros Hm. eapply triple_bind; [exact Hm|]. intros ?. by apply triple_lift. Qed.

Lemma st_bind_assoc {A B C} (m : M A) (k : A → M B) (h : B → M C) s :
  st_bind m (λ a, st_bind (k a) h) s = st_bind (st_bind m k) h s.
Proof. unfold st_bind. by destruct (m s) as [s' []]. Qed.

Lemma sync_leaves_mirrored now rid r stale :
  triple mirrored (sync_leaves now rid r stale) (λ _, mirrored) (λ _, mirrored).
Proof.
  induction stale as [|c stale IH]; cbn; [by apply triple_lift|]. intros s Hs.
  rewrite st_bind_assoc. eapply triple_bind; [|intros ?; exact IH|exact Hs].
  apply event_update_mirrored. auto.
Qed.

Lemma sync_joins_mirrored now rid r epoch members :
  triple mirrored (sync_joins now rid r epoch members) (λ _, mirrored) (λ _, mirrored).
Proof.
  induction members as [|m members IH]; cbn; [by apply triple_lift|]. intros s Hs.
  rewrite st_bind_assoc. eapply triple_bind; [|intros ?; exact IH|exact Hs].
  clear s Hs IH. intros s Hs. unfold st_bind.
  destruct (projection s !! (r, v2.mp_client_id m)) as [x|] eqn:Hk.
  - cbn. apply mirrored_insert; eauto.
  - apply (event_update_mirrored now (EvJoin rid r (v2.mp_client_id m))); auto.
Qed.

Lemma apply_signal_mirrored now rid room signal :
  triple mirrored (apply_signal now rid room signal) (λ _, mirrored) (λ _, mirrored).
Proof.
  unfold apply_signal. apply triple_ok_or; [done|]. intros v _. apply triple_ok_or; [done|].
  intros e _. destruct (_ || _).
  - apply triple_ok_or; [done|]. intros sdp _.
    eapply triple_bind with (Mid := λ _, mirrored); [|intros; by apply neutral_event_mirrored].
    apply triple_lift. intros s Hs. by destruct (if sdp_is_answer sdp then _ else _).
  - repeat (match goal with |- context [String.eqb ?a ?b] => destruct (String.eqb a b) end;
      [first [by apply neutral_event_mirrored|by apply triple_lift]|]). by apply triple_lift.
Qed.

Lemma apply_kind_mirrored now rid command :
  triple mirrored (apply_kind now rid command) (λ _, mirrored) (λ _, mirrored).
Proof.
  destruct command as [[c|c|c|c|d]|]; cbn; [..|by apply triple_lift|by apply triple_lift];
    try (unfold sync_room); (apply triple_ok_or; [done|]); intros r _.
  - eapply triple_bind with (Mid := λ _, mirrored); [intros s Hs; by apply sync_leaves_mirrored|].
    intros ?. apply triple_then_lift, sync_joins_mirrored.
  - intros s Hs. unfold apply_join. destruct (projection s !! _); [by case_decide|].
    rewrite st_bind_assoc. apply triple_then_lift; [|done]. apply event_update_mirrored. auto.
  - intros s Hs. unfold apply_leave. destruct (projection s !! _) as [[l e]|]; [|done].
    destruct (negb _); [done|]. destruct (negb _); [done|].
    rewrite st_bind_assoc. apply triple_then_lift; [|done]. apply event_update_mirrored. auto.
  - intros s Hs. unfold apply_signal_command. case_decide; [|done].
    by apply triple_then_lift; [apply apply_signal_mirrored|].
Qed.

(** Applying commands in sequence. *)
Definition apply_commands (s : Shard) (cs : list (Instant * v2.SfuCommand)) : Shard :=
  foldl (λ s c, (apply_command c.1 s c.2).1) s cs.

(** C11: After any sequence of commands, the members of the SFU engine are exactly the keys of
    the shard's projection. *)
Theorem projection_mirrors_engine e cs :
  sfu_members e = ∅ →
  let s := apply_commands (mk_Shard e ∅) cs in
  sfu_members (engine s) = dom (projection s).
Proof.
  intros He. assert (H : ∀ s, mirrored s → mirrored (apply_commands s cs)).
  { unfold apply_commands. induction cs as [|[now c] cs IH]; intros s Hs; cbn; [done|]. apply IH.
    unfold apply_command. destruct (_ =? _)%N; [done|].
    pose proof (apply_kind_mirrored now (v2.cmd_request_id c) (v2.cmd_command c) s Hs) as Hk.
    by destruct (apply_kind _ _ _ s) as [s' [|[]]]. }
  apply H. unfold mirrored. cbn. by rewrite He, dom_empty_L.
Qed.
End mirrored.
End shard_spec.
