(* ===== verification/SfuCommandSpec.v ===== *)
(** * Commands and their answers

    The functional behaviour of joins, leaves, synchronization and of the
    command cache of a media shard. *)

From S2P Require Import Prelude Wire RoomIds SfuShard SfuShardSpec.

Create HintDb rejections.

Section command_spec.
Context `{L : RoomIdLib, P : v2.ProtoEnums, SL : SdpLib, E : !SfuLib, J : !SignalJson,
          LR : LeaveReasonDebug, HO : HashOrder}.

Abbreviation M := (stateful Shard CommandFailure).

(** ** Locality *)

(** A command leaves the projection of every room it does not name as it was, whatever its
    outcome. *)
Theorem commands_touch_their_room now s command k :
  ¬ names_room (v2.cmd_command command) k.1 →
  projection (apply_command now s command).1 !! k = projection s !! k.
Proof.
  intros Hk. unfold apply_command. destruct (_ =? _)%N; [done|].
  pose proof (apply_kind_at now (v2.cmd_request_id command) _ _ _ Hk s eq_refl) as Ht.
  by destruct (apply_kind _ _ _ s) as [s' [|[]]].
Qed.

(** ** Rejections *)

(** The failures that come before any effect. *)
Definition is_rejection (code : v2.ErrorCode) : bool :=
  match code with
  | v2.InvalidRequest | v2.StaleLifecycle | v2.StaleAssignmentEpoch => true
  | _ => false
  end.

Definition unchanged_if_rejected (s0 : Shard) (e : CommandFailure) (s : Shard) : Prop :=
  is_rejection e.1 = true → s = s0.

(** Code that fails only with [Internal] or [InvalidSignal] never rejects. *)
Definition no_rejection {A} (m : M A) : Prop :=
  ∀ s, match m s with (_, Err e) => is_rejection e.1 = false | _ => True end.

Lemma no_rejection_bind {A B} (m : M A) (k : A → M B) :
  no_rejection m → (∀ a, no_rejection (k a)) → no_rejection (st_bind m k).
Proof.
  intros Hm Hk s. unfold st_bind. specialize (Hm s). destruct (m s) as [s' [a|e]]; [apply Hk|done].
Qed.

Lemma no_rejection_event now ev e : is_rejection e.1 = false → no_rejection (engine_event now ev e).
Proof. intros He s. unfold engine_event. by destruct (sfu_handle_event _ _ _) as [x []]. Qed.

Lemma no_rejection_update f : no_rejection (update_projection f).
Proof. by intros s. Qed.

Lemma no_rejection_ok {A} (a : A) : no_rejection (lift (Ok a)).
Proof. by intros s. Qed.

Lemma no_rejection_err {A} e : is_rejection e.1 = false → no_rejection (lift (Err e) : M A).
Proof. by intros He s. Qed.

Lemma no_rejection_ok_or {A} (o : option A) e : is_rejection e.1 = false → no_rejection (lift (ok_or o e)).
Proof. intros He s. by destruct o. Qed.

Hint Resolve no_rejection_bind no_rejection_event no_rejection_update no_rejection_ok
  no_rejection_err no_rejection_ok_or : rejections.

Lemma sync_leaves_no_rejection now rid r stale : no_rejection (sync_leaves now rid r stale).
Proof. induction stale; cbn; eauto with rejections. Qed.

Lemma sync_joins_no_rejection now rid r epoch members :
  no_rejection (sync_joins now rid r epoch members).
Proof.
  induction members as [|m members IH]; cbn; [auto with rejections|].
  apply no_rejection_bind; [|auto with rejections].
  intros s. destruct (projection s !! (r, _)); [done|]. by apply no_rejection_event.
Qed.

Lemma apply_signal_no_rejection now rid room signal : no_rejection (apply_signal now rid room signal).
Proof.
  unfold apply_signal. apply no_rejection_bind; [auto with rejections|]. intros v.
  apply no_rejection_bind; [auto with rejections|]. intros e. destruct (_ || _).
  - apply no_rejection_bind; [auto with rejections|]. intros sdp.
    apply no_rejection_bind; [|auto with rejections]. destruct (sdp_is_answer sdp); auto with rejections.
  - repeat (match goal with |- context [String.eqb ?a ?b] => destruct (String.eqb a b) end;
      [auto with rejections|]). auto with rejections.
Qed.

Lemma triple_no_rejection {A} (m : M A) s0 s :
  no_rejection m → match m s with (s', Err e) => unchanged_if_rejected s0 e s' | _ => True end.
Proof.
  intros Hm. specialize (Hm s). destruct (m s) as [s' [a|e]]; [done|].
  unfold unchanged_if_rejected. by rewrite Hm.
Qed.

Lemma apply_kind_rejections now rid command s :
  match apply_kind now rid command s with
  | (s', Err e) => unchanged_if_rejected s e s'
  | _ => True
  end.
Proof.
  destruct command as [[c|c|c|c|d]|]; cbn [apply_kind]; [..|done|done];
    try unfold sync_room; rewrite st_bind_lift; (destruct (room_id_from_bytes _) as [r|]; cbn [ok_or]; [|done]).
  - apply (triple_no_rejection (st_bind _ _)). apply no_rejection_bind.
    + intros s'. apply sync_leaves_no_rejection.
    + intros ?. apply no_rejection_bind; [apply sync_joins_no_rejection|auto with rejections].
  - unfold apply_join. destruct (projection s !! (r, _)); [by case_decide|].
    apply triple_no_rejection. auto 10 with rejections.
  - unfold apply_leave. destruct (projection s !! (r, _)) as [[l e]|]; [|done].
    destruct (negb _); [done|]. destruct (negb _); [done|].
    apply triple_no_rejection. auto 10 with rejections.
  - unfold apply_signal_command. case_decide; [|done].
    apply triple_no_rejection, no_rejection_bind; [apply apply_signal_no_rejection|auto with rejections].
Qed.

(** A command answered with an invalid request or a stale lifecycle or epoch leaves the engine
    and the projection as they were. *)
Theorem rejected_commands_change_nothing {laws : v2.ProtoEnumsLaws P} now s command s' r e code :
  apply_command now s command = (s', r) →
  v2.res_result r = Some (v2.ResultError e) → v2.err_code e = as_i32 code → is_rejection code = true →
  s' = s.
Proof.
  unfold apply_command. destruct (_ =? _)%N; [by intros [= <- <-]|].
  pose proof (apply_kind_rejections now (v2.cmd_request_id command) (v2.cmd_command command) s) as Hk.
  destruct (apply_kind _ _ _ s) as [s1 [a|[c reason]]]; intros [= <- <-]; cbn; intros [= <-] Hcode Hrej.
  cbn in Hcode. apply as_i32_inj in Hcode as ->. by apply Hk.
Qed.

(** ** Synchronization *)

Lemma wanted_from members (acc : gmap N N) c :
  foldl (λ m member, <[v2.mp_client_id member := v2.mp_lifecycle_id member]> m) acc members !! c =
    match wanted_members members !! c with Some l => Some l | None => acc !! c end.
Proof.
  unfold wanted_members. revert acc. induction members as [|m ms IH]; intros acc; cbn.
  { by rewrite lookup_empty. }
  rewrite IH, (IH (<[_ := _]> ∅)). destruct (foldl _ ∅ ms !! c); [done|].
  destruct (decide (c = v2.mp_client_id m)) as [->|Hne].
  - by rewrite !lookup_insert_eq.
  - by rewrite !lookup_insert_ne, lookup_empty by done.
Qed.

Lemma wanted_cons m ms c :
  wanted_members (m :: ms) !! c =
    match wanted_members ms !! c with
    | Some l => Some l
    | None => if decide (c = v2.mp_client_id m) then Some (v2.mp_lifecycle_id m) else None
    end.
Proof.
  unfold wanted_members at 1. cbn. rewrite wanted_from. destruct (wanted_members ms !! c); [done|].
  case_decide as Hc; [by subst; rewrite lookup_insert_eq|by rewrite lookup_insert_ne, lookup_empty].
Qed.

#[local] Arguments wanted_members : simpl never.

Lemma engine_event_inv now ev f s s' r :
  engine_event now ev f s = (s', r) → projection s' = projection s ∧ (r = Ok tt ∨ r = Err f).
Proof.
  unfold engine_event. destruct (sfu_handle_event _ _ _) as [e [[]|[]]]; intros [= <- <-]; auto.
Qed.

Lemma st_bind_ok {A B} (m : M A) (k : A → M B) s s' b :
  st_bind m k s = (s', Ok b) → ∃ a s1, m s = (s1, Ok a) ∧ k a s1 = (s', Ok b).
Proof. unfold st_bind. destruct (m s) as [s1 [a|e]]; [eauto|done]. Qed.

Lemma sync_leaves_ok now rid r stale s s' :
  sync_leaves now rid r stale s = (s', Ok tt) →
  ∀ k, projection s' !! k = if decide (k.1 = r ∧ k.2 ∈ stale) then None else projection s !! k.
Proof.
  revert s. induction stale as [|c stale IH]; intros s; cbn [sync_leaves].
  { intros [= <-] k. case_decide as Hk; [|done]. by destruct Hk as [_ ?%elem_of_nil]. }
  intros (? & s1 & Hev & H)%st_bind_ok k. apply st_bind_ok in H as (? & s2 & [= <- _] & H).
  rewrite (IH _ H). apply engine_event_inv in Hev as [Hp _]. cbn. rewrite Hp.
  destruct k as [kr kc]; cbn. destruct (decide ((kr, kc) = (r, c))) as [[= -> ->]|Hne].
  - rewrite lookup_delete_eq, (decide_True (P := r = r ∧ c ∈ c :: stale)) by (split; [done|left]).
    by case_decide.
  - rewrite lookup_delete_ne by done. repeat case_decide; rewrite ?elem_of_cons in *; naive_solver.
Qed.

Lemma sync_joins_ok now rid r epoch members s s' :
  sync_joins now rid r epoch members s = (s', Ok tt) →
  ∀ k, projection s' !! k =
    if decide (k.1 = r)
    then match wanted_members members !! k.2 with
         | Some l => Some (l, epoch) | None => projection s !! k end
    else projection s !! k.
Proof.
  revert s. induction members as [|m ms IH]; intros s; cbn [sync_joins].
  { intros [= <-] k. unfold wanted_members. cbn. rewrite lookup_empty. by case_decide. }
  intros (? & s1 & Hev & H)%st_bind_ok k. apply st_bind_ok in H as (? & s2 & [= <- _] & H).
  assert (Hp : projection s1 = projection s).
  { destruct (projection s !! (r, v2.mp_client_id m)); [by simplify_eq|]. by apply engine_event_inv in Hev as [? _]. }
  rewrite (IH _ H). cbn. rewrite Hp, wanted_cons. destruct k as [kr kc]; cbn.
  destruct (decide (kr = r)) as [->|Hr]; [|by rewrite lookup_insert_ne by congruence].
  destruct (wanted_members ms !! kc); [done|].
  destruct (decide (kc = v2.mp_client_id m)) as [->|Hc];
    [by rewrite lookup_insert_eq|by rewrite lookup_insert_ne by congruence].
Qed.

Lemma elem_of_stale_clients {laws : HashOrderLaws HO} (r : RoomId) (w : gmap N N) (p : Projection) (c : N) :
  c ∈ stale_clients r w p ↔ is_Some (p !! (r, c)) ∧ w !! c = None.
Proof.
  unfold stale_clients. rewrite list_elem_of_fmap. split.
  - intros ([[r' c'] v] & -> & Hin). apply list_elem_of_filter in Hin as [[Hr Hw] Hin]. cbn in *. subst r'.
    rewrite hash_order_perm, elem_of_map_to_list in Hin. eauto.
  - intros [[v Hv] Hw]. exists ((r, c), v). split; [done|]. apply list_elem_of_filter. split; [done|].
    by rewrite hash_order_perm, elem_of_map_to_list.
Qed.

(** C14: A successful [SyncRoom] leaves the room with exactly the members and lifecycles of the
    snapshot at the snapshot's epoch, and every other room as it was. *)
Theorem sync_room_exact {laws : HashOrderLaws HO} now rid sync s s' payload :
  sync_room now rid sync s = (s', Ok payload) →
  ∃ r, room_id_from_bytes (v2.sync_room_id sync) = Some r ∧
    payload = v2.PRoomSynced (v2.mk_RoomSynced (v2.sync_room_id sync) (v2.sync_assignment_epoch sync)) ∧
    ∀ k, projection s' !! k =
      if decide (k.1 = r)
      then (λ l, (l, v2.sync_assignment_epoch sync)) <$> wanted_members (v2.sync_members sync) !! k.2
      else projection s !! k.
Proof.
  unfold sync_room. rewrite st_bind_lift. destruct (room_id_from_bytes _) as [r|]; cbn [ok_or]; [|done].
  intros ([] & s1 & Hl & H)%st_bind_ok. apply st_bind_ok in H as ([] & s2 & Hj & [= <- <-]).
  exists r. split_and!; [done|done|]. intros [kr kc].
  rewrite (sync_joins_ok _ _ _ _ _ _ _ Hj), (sync_leaves_ok _ _ _ _ _ _ Hl). cbn.
  destruct (decide (kr = r)) as [->|Hr]; [|by rewrite decide_False by naive_solver].
  destruct (wanted_members _ !! kc) as [l|] eqn:Hw; cbn; [done|].
  destruct (decide _) as [_|Hd]; [done|]. rewrite elem_of_stale_clients in Hd.
  destruct (projection s !! (r, kc)) eqn:Hp; [|done]. exfalso. eauto 10.
Qed.

(** ** One member's life *)

Lemma member_joined_payload now rid r join s s' payload :
  apply_join now rid r join s = (s', Ok payload) → payload = member_joined join.
Proof.
  unfold apply_join. destruct (projection s !! (r, _)); [by case_decide; intros; simplify_eq|].
  intros (? & s1 & _ & H)%st_bind_ok. by apply st_bind_ok in H as (? & s2 & _ & [= _ <-]).
Qed.

Lemma member_left_payload now rid r leave s s' payload :
  apply_leave now rid r leave s = (s', Ok payload) → payload = member_left leave.
Proof.
  unfold apply_leave. destruct (projection s !! (r, _)) as [[l e]|]; [|by intros [= _ <-]].
  destruct (negb _); [done|]. destruct (negb _); [done|].
  intros (? & s1 & _ & H)%st_bind_ok. by apply st_bind_ok in H as (? & s2 & _ & [= _ <-]).
Qed.

(** C32: After a join, the same join is idempotent, a join of another lifecycle or epoch is
    refused, a leave with a stale epoch or under any other lifecycle than the join's is refused
    (the design document has leaves carry a lifecycle of their own), and a matching leave
    removes the member and is itself idempotent. *)
Theorem member_lifecycle now rid r join s s1 payload :
  apply_join now rid r join s = (s1, Ok payload) →
  let key := (r, v2.join_client_id join) in
  payload = member_joined join ∧
  projection s1 !! key = Some (v2.join_lifecycle_id join, v2.join_assignment_epoch join) ∧
  (∀ now' rid', apply_join now' rid' r join s1 = (s1, Ok (member_joined join))) ∧
  (∀ now' rid' other, v2.join_client_id other = v2.join_client_id join →
     (v2.join_lifecycle_id other, v2.join_assignment_epoch other) ≠
       (v2.join_lifecycle_id join, v2.join_assignment_epoch join) →
     apply_join now' rid' r other s1 = (s1, Err (v2.StaleLifecycle, "conflicting member lifecycle"))) ∧
  (∀ now' rid' leave, v2.leave_client_id leave = v2.join_client_id join →
     if negb (v2.leave_assignment_epoch leave =? v2.join_assignment_epoch join)%N
     then apply_leave now' rid' r leave s1 =
            (s1, Err (v2.StaleAssignmentEpoch, "stale assignment epoch"))
     else if negb (v2.leave_lifecycle_id leave =? v2.join_lifecycle_id join)%N
     then apply_leave now' rid' r leave s1 = (s1, Err (v2.StaleLifecycle, "stale member lifecycle"))
     else ∀ s2 p, apply_leave now' rid' r leave s1 = (s2, Ok p) →
            p = member_left leave ∧ projection s2 !! key = None ∧
            ∀ now'' rid'', apply_leave now'' rid'' r leave s2 = (s2, Ok (member_left leave))).
Proof.
  intros Hj key.
  assert (Hs1 : payload = member_joined join ∧
    projection s1 !! key = Some (v2.join_lifecycle_id join, v2.join_assignment_epoch join)).
  { unfold apply_join in Hj. destruct (projection s !! (r, _)) as [cur|] eqn:Hk.
    - case_decide as Hc; [|done]. simplify_eq. done.
    - apply st_bind_ok in Hj as (? & s' & Hev & Hj). apply st_bind_ok in Hj as (? & s2 & [= <- _] & [= <- <-]).
      split; [done|]. cbn. apply lookup_insert_eq. }
  destruct Hs1 as [-> Hk]. split_and!; [done|done| | |].
  - intros now' rid'. unfold apply_join. fold key. rewrite Hk. by rewrite decide_True.
  - intros now' rid' other Hc Hne. unfold apply_join. rewrite Hc. fold key. rewrite Hk.
    rewrite decide_False; [done|]. congruence.
  - intros now' rid' leave Hc. unfold apply_leave. rewrite Hc. fold key. rewrite Hk.
    rewrite (N.eqb_sym (v2.join_assignment_epoch join)), (N.eqb_sym (v2.join_lifecycle_id join)).
    destruct (negb (_ =? _)%N); [done|]. destruct (negb (_ =? _)%N); [done|].
    intros s2 p Hl. apply st_bind_ok in Hl as (? & s' & Hev & Hl).
    apply st_bind_ok in Hl as (? & s3 & [= <- _] & [= <- <-]).
    assert (Hd : (delete key (projection s')) !! key = None) by apply lookup_delete_eq.
    split_and!; [done|done|]. intros now'' rid''. cbn. by rewrite Hd.
Qed.
End command_spec.
