(* ===== verification/SfuWorkerSpec.v ===== *)
(** * What the worker promises across its shards

    Retries are answered from the cache, commands are routed by room, and the
    metrics are exact. *)

From S2P Require Import Prelude Wire RoomIds Fifo RequestCache SfuShard SfuEvents SfuLoop SfuShardSpec.

Section worker_spec.
Context `{L : RoomIdLib, P : v2.ProtoEnums, SL : SdpLib, E : !SfuLib, J : !SignalJson,
          LR : LeaveReasonDebug, HO : HashOrder}.

(** ** The command cache is a bounded first-in first-out cache *)

Definition command_capacity : nat := N.to_nat COMMAND_CACHE_CAPACITY.

Lemma command_capacity_eq : N.of_nat command_capacity = COMMAND_CACHE_CAPACITY.
Proof. apply N2Nat.id. Qed.

Lemma command_capacity_pos : (0 < command_capacity)%nat.
Proof. pose proof command_capacity_eq. unfold COMMAND_CACHE_CAPACITY in *. lia. Qed.

#[local] Opaque command_capacity.

Definition command_cache_wf (c : CommandCache) : Prop :=
  fifo_wf command_capacity (command_order c) (command_cache c).

Lemma evict_commands_stop ord cache :
  (length ord ≤ command_capacity)%nat → evict_commands ord cache = mk_CommandCache cache ord.
Proof.
  intros Hl. destruct ord; [done|]. cbn [evict_commands].
  by rewrite (proj2 (N.ltb_ge _ _)) by (rewrite <- command_capacity_eq; lia).
Qed.

(** [cache_command] on a well-formed cache: the loop evicts at most one answer. *)
Lemma cache_command_eq c r :
  command_cache_wf c →
  cache_command c r =
    let p := fifo_push command_capacity (command_order c) (command_cache c) (v2.res_request_id r) r in
    mk_CommandCache p.2 p.1.
Proof.
  intros Hwf. unfold cache_command, fifo_push.
  destruct (command_cache c !! _) as [old|] eqn:Hk; [by rewrite evict_commands_stop by apply Hwf|].
  destruct (_ <? command_capacity)%nat eqn:Hroom; bool_to_prop.
  { by rewrite evict_commands_stop by (rewrite length_app; cbn; lia). }
  destruct (fifo_full _ _ _ _ command_capacity_pos Hwf Hk Hroom) as (o & rest & Ho & Hl & Hok & _).
  rewrite Ho in *. cbn [app evict_commands length].
  rewrite (proj2 (N.ltb_lt _ _)) by (rewrite length_app, <- command_capacity_eq; cbn in *; lia).
  rewrite delete_insert_ne by done. rewrite evict_commands_stop; [done|].
  rewrite length_app. cbn in *. lia.
Qed.

Lemma cache_command_wf c r : command_cache_wf c → command_cache_wf (cache_command c r).
Proof.
  intros Hwf. rewrite (cache_command_eq _ _ Hwf). apply fifo_push_wf; [apply command_capacity_pos|done].
Qed.

(** Any answers, repeated ids included, do to the cache what they do to the
    reference. *)
Lemma cache_commands_contents rs c :
  command_cache_wf c →
  let c' := foldl cache_command c rs in
  command_cache_wf c' ∧
  fifo_contents (command_order c') (command_cache c') =
    foldl (λ l p, fifo_insert command_capacity l p.1 p.2)
      (fifo_contents (command_order c) (command_cache c)) ((λ r, (v2.res_request_id r, r)) <$> rs).
Proof.
  revert c. induction rs as [|r rs IH]; intros c Hwf; [done|]. cbn [foldl fmap list_fmap fst snd].
  destruct (IH _ (cache_command_wf c r Hwf)) as [? Hc']. split; [done|].
  rewrite (cache_command_eq _ _ Hwf) in Hc' |- *. cbn [command_order command_cache] in Hc'.
  by rewrite fifo_push_contents in Hc' by (done || apply command_capacity_pos).
Qed.

(** C16: The two caches of answers, the signaling service's (evicting while its map is too
    large) and a media shard's (evicting while its queue is too long), are the same bounded
    first-in first-out cache: whatever is stored, repeated keys included, the eviction loops
    end, and contents, order of eviction and lookups are those of the reference list; with
    distinct keys that is the last [CAPACITY] answers. *)
Theorem caches_are_bounded_fifos (kvs : list (RequestKey * CachedResult)) (rs : list v2.SfuCommandResult) :
  (∃ c, insert_all kvs empty_cache = Some c ∧
    fifo_contents (order c) (entries c) = fifo_run capacity kvs ∧
    (∀ k, entries c !! k = fifo_lookup (fifo_run capacity kvs) k) ∧
    (N.of_nat (size (entries c)) <= REQUEST_CACHE_CAPACITY)%N ∧
    (NoDup kvs.*1 → order c = drop (length kvs - capacity) kvs.*1)) ∧
  (let c := foldl cache_command empty_command_cache rs in
   let kvs' := (λ r, (v2.res_request_id r, r)) <$> rs in
    fifo_contents (command_order c) (command_cache c) = fifo_run command_capacity kvs' ∧
    (∀ k, command_cache c !! k = fifo_lookup (fifo_run command_capacity kvs') k) ∧
    (N.of_nat (size (command_cache c)) <= COMMAND_CACHE_CAPACITY)%N).
Proof.
  split.
  - destruct (insert_all_contents kvs empty_cache empty_cache_wf) as (c & Hc & Hwf & _ & Hl).
    exists c. change (fifo_contents (order c) (entries c) = fifo_run capacity kvs) in Hl.
    split_and!; [done|done| |by apply cache_wf_size|].
    + intros k. by rewrite <- Hl, (fifo_contents_lookup _ _ _ _ Hwf).
    + intros Hnd. rewrite fifo_run_distinct in Hl by done.
      rewrite <- (fifo_contents_keys (order c) (entries c)) by (intros ? ?; by apply Hwf).
      rewrite Hl. unfold lastn. by rewrite fmap_drop.
  - cbv zeta. destruct (cache_commands_contents rs empty_command_cache) as [Hwf Hl]; [apply fifo_empty_wf|].
    rewrite Hl. split_and!; [done| |].
    + intros k. rewrite <- (fifo_contents_lookup _ _ _ _ Hwf). by rewrite Hl.
    + rewrite (fifo_size _ _ _ Hwf), <- command_capacity_eq. pose proof (wf_bound _ _ _ Hwf). lia.
Qed.

(** ** The command branch *)

Lemma apply_command_id now s c : v2.res_request_id (apply_command now s c).2 = v2.cmd_request_id c.
Proof.
  unfold apply_command. destruct (_ =? _)%N; [done|].
  by destruct (apply_kind _ _ _ s) as [s' [|[]]].
Qed.

Definition media_run (state : Media * Metrics) (cs : list (Instant * v2.SfuCommand)) : Media * Metrics :=
  foldl (λ st c, (media_command c.1 st.1 st.2 c.2).1) state cs.

(** One command, seen from the cache: answered from it, or appended to it. *)
Lemma media_command_cache now md m c :
  match command_cache (commands_seen md) !! v2.cmd_request_id c with
  | Some r => media_command now md m c = (md, m, r)
  | None =>
      let r := (apply_command now (shard md) c).2 in
      v2.res_request_id r = v2.cmd_request_id c ∧
      (media_command now md m c).2 = r ∧
      commands_seen (media_command now md m c).1.1 = cache_command (commands_seen md) r
  end.
Proof.
  unfold media_command. destruct (command_cache _ !! _) as [r|]; [done|].
  pose proof (apply_command_id now (shard md) c) as Hid.
  destruct (apply_command now (shard md) c) as [s r]. by destruct (update_metrics _ _ _).
Qed.

Lemma media_command_wf now md m c :
  command_cache_wf (commands_seen md) → command_cache_wf (commands_seen (media_command now md m c).1.1).
Proof.
  intros Hwf. pose proof (media_command_cache now md m c) as H.
  destruct (command_cache _ !! _) as [r|] eqn:Hc; [by rewrite H|].
  destruct H as (Hid & _ & ->). by apply cache_command_wf.
Qed.

Lemma media_run_wf st cs :
  command_cache_wf (commands_seen st.1) → command_cache_wf (commands_seen (media_run st cs).1).
Proof.
  revert st. induction cs as [|c cs IH]; intros st Hwf; [done|]. apply IH. by apply media_command_wf.
Qed.

Lemma media_run_recent st cs id n :
  command_cache_wf (commands_seen st.1) → is_Some (command_cache (commands_seen st.1) !! id) →
  recent n id (command_order (commands_seen st.1)) →
  (N.of_nat (n + length cs) < COMMAND_CACHE_CAPACITY)%N →
  command_cache (commands_seen (media_run st cs).1) !! id = command_cache (commands_seen st.1) !! id.
Proof.
  revert st n. induction cs as [|c cs IH]; intros st n Hwf Hx Hy Hcap; [done|].
  cbn [length] in Hcap. pose proof (media_command_cache c.1 st.1 st.2 c.2) as H.
  change (media_run st (c :: cs)) with (media_run (media_command c.1 st.1 st.2 c.2).1 cs).
  destruct (command_cache _ !! v2.cmd_request_id c.2) as [r|] eqn:Hc.
  { rewrite H. destruct st as [md m]. apply (IH (md, m) n); auto with lia. }
  destruct H as (Hid & _ & Hseen). pose proof command_capacity_eq.
  destruct (fifo_push_recent command_capacity (command_order (commands_seen st.1))
    (command_cache (commands_seen st.1)) (v2.cmd_request_id c.2)
    (apply_command c.1 (shard st.1) c.2).2 id n) as [Hl Hr]; [done|intros Heq; rewrite <- Heq, Hc in Hx; by destruct Hx|done|lia|].
  rewrite cache_command_eq, Hid in Hseen by done. cbv zeta in Hseen.
  rewrite (IH _ (S n)); rewrite ?Hseen; cbn [command_cache command_order].
  - done.
  - rewrite <- Hseen. by apply media_command_wf.
  - by rewrite Hl.
  - done.
  - lia.
Qed.

(** C21: A command repeated under its request id, with fewer than a cache's capacity of commands
    in between, changes nothing and gets the answer of the first. *)
Theorem retries_answered_from_cache e m0 before now command after now' command' :
  let st := media_run (new_media e, m0) before in
  command_cache (commands_seen st.1) !! v2.cmd_request_id command = None →
  (N.of_nat (length after) < COMMAND_CACHE_CAPACITY)%N →
  v2.cmd_request_id command' = v2.cmd_request_id command →
  let '(st1, r) := media_command now st.1 st.2 command in
  let st2 := media_run st1 after in
  media_command now' st2.1 st2.2 command' = (st2, r).
Proof.
  intros st Hnew Hlen Hid. assert (Hwf : command_cache_wf (commands_seen st.1)).
  { apply media_run_wf, fifo_empty_wf. }
  pose proof (media_command_cache now st.1 st.2 command) as H. rewrite Hnew in H.
  pose proof (media_command_wf now st.1 st.2 command Hwf) as Hwf1.
  destruct (media_command now st.1 st.2 command) as [[md1 m1] r]. cbn in H, Hwf1.
  destruct H as (Hr & -> & Hseen). cbn beta iota.
  set (res := (apply_command now (shard st.1) command).2) in *.
  assert (Hfound : command_cache (commands_seen (media_run (md1, m1) after).1) !! v2.cmd_request_id command = Some res).
  { rewrite cache_command_eq, Hr in Hseen by done.
    assert (Hres : command_cache (commands_seen md1) !! v2.cmd_request_id command = Some res).
    { rewrite Hseen. apply fifo_push_lookup. }
    rewrite (media_run_recent _ _ _ 0); cbn [fst]; [done|done|by rewrite Hres| |done].
    rewrite Hseen. by apply fifo_push_new_recent. }
  unfold media_command. rewrite Hid, Hfound. by destruct (media_run (md1, m1) after).
Qed.

(** A cached answer carries the id it is cached under. *)
Definition cached_under_id (md : Media) : Prop :=
  ∀ id r, command_cache (commands_seen md) !! id = Some r → v2.res_request_id r = id.

Lemma new_media_ids e : cached_under_id (new_media e).
Proof. intros id r Hc. cbn in Hc. by rewrite lookup_empty in Hc. Qed.

Lemma cache_command_ids c r :
  (∀ id x, command_cache c !! id = Some x → v2.res_request_id x = id) →
  ∀ id x, command_cache (cache_command c r) !! id = Some x → v2.res_request_id x = id.
Proof.
  intros H. unfold cache_command.
  assert (Hev : ∀ ord m, (∀ id x, m !! id = Some x → v2.res_request_id x = id) →
    ∀ id x, command_cache (evict_commands ord m) !! id = Some x → v2.res_request_id x = id).
  { intros ord. induction ord as [|o ord IH]; intros m Hm id x; cbn; [apply Hm|].
    destruct (_ <? _)%N; [|apply Hm]. apply IH. intros id' x' [_ Hx]%lookup_delete_Some. by apply Hm. }
  apply Hev. intros id x [[<- <-]|[_ Hx]]%lookup_insert_Some; [done|by apply H].
Qed.

(** A shard answers a command under the command's id. *)
Lemma media_command_ids now md m c :
  cached_under_id md →
  let '(md', _, r) := media_command now md m c in
  cached_under_id md' ∧ v2.res_request_id r = v2.cmd_request_id c.
Proof.
  intros Hmd. pose proof (media_command_cache now md m c) as H.
  destruct (command_cache (commands_seen md) !! v2.cmd_request_id c) as [x|] eqn:Hc.
  - rewrite H. split; [done|by apply Hmd].
  - destruct H as (Hid & Hr & Hseen). destruct (media_command now md m c) as [[md' m'] res].
    cbn in *. subst res. split; [|done]. intros id y. rewrite Hseen. by apply cache_command_ids.
Qed.

(** ** Routing *)

Lemma shard_index_lt n r : (0 < n)%nat → (shard_index n r < n)%nat.
Proof.
  intros Hn. unfold shard_index. rewrite N.max_l by lia.
  pose proof (N.mod_lt (as_u128 r) (N.of_nat n) ltac:(lia)). lia.
Qed.

(** A command goes to the shard its room id selects and to no other; a command that names no
    room, [DrainSfu] included, is answered as unsupported, and one for a stopped shard as
    unavailable. *)
Theorem commands_routed_by_room now w c :
  (0 < length (shards w))%nat →
  match command_room_id c with
  | None =>
      dispatch_command now w c =
        (w, command_error (v2.cmd_request_id c) v2.InvalidRequest "unsupported command")
  | Some r =>
      let i := shard_index (length (shards w)) r in
      (i < length (shards w))%nat ∧
      (∀ j, j ≠ i → shards (dispatch_command now w c).1 !! j = shards w !! j) ∧
      length (shards (dispatch_command now w c).1) = length (shards w) ∧
      match shards w !! i with
      | Some (Some media) =>
          shards (dispatch_command now w c).1 !! i =
            Some (Some (media_command now media (metrics w) c).1.1) ∧
          (dispatch_command now w c).2 = (media_command now media (metrics w) c).2
      | _ =>
          dispatch_command now w c =
            (w, command_error (v2.cmd_request_id c) v2.WorkerUnavailable "media shard stopped")
      end
  end.
Proof.
  intros Hlen. unfold dispatch_command. destruct (command_room_id c) as [r|]; [|done]. cbn.
  pose proof (shard_index_lt _ r Hlen) as Hi. split; [done|].
  destruct (lookup_lt_is_Some_2 _ _ Hi) as [x Hx]. rewrite Hx. destruct x as [media|]; [|done].
  destruct (media_command now media (metrics w) c) as [[md m] res]. cbn. split_and!; try done.
  - intros j Hj. by rewrite list_lookup_insert_ne.
  - by rewrite length_insert.
  - by rewrite list_lookup_insert_eq.
Qed.

(** ** Metrics *)

(** A shard's share of a total; a stopped shard has none. *)
Definition share (f : Media → N) (x : option Media) : N := from_option f 0%N x.

Definition total (f : Media → N) (l : list (option Media)) : N := foldr (λ x t, share f x + t)%N 0%N l.

Lemma total_insert f l i old new :
  l !! i = Some old → (total f (<[i := new]> l) + share f old = total f l + share f new)%N.
Proof.
  revert i. induction l as [|x l IH]; intros [|i] Hi; try done; cbn [lookup list_lookup] in Hi.
  - simplify_eq. change (share f new + total f l + share f old = share f old + total f l + share f new)%N. lia.
  - specialize (IH i Hi).
    change (share f x + total f (<[i := new]> l) + share f old = share f x + total f l + share f new)%N. lia.
Qed.

Lemma wrap64_add_l a b : wrap64 (wrap64 a + b) = wrap64 (a + b).
Proof. unfold wrap64. by rewrite N.Div0.add_mod_idemp_l. Qed.

Lemma replace_contribution_spec t rest prev cur :
  t = wrap64 (prev + rest) →
  replace_contribution t prev cur = (wrap64 (cur + rest), cur).
Proof.
  intros ->. unfold replace_contribution, fetch_add, fetch_sub. cbn.
  destruct (prev <=? cur)%N eqn:Hle; bool_to_prop; f_equal; rewrite wrap64_add_l.
  - f_equal. lia.
  - pose proof (wrap64_u64 (prev - cur)) as Hu. unfold is_u64 in Hu.
    assert (Hd : (prev - cur = u64_modulus * ((prev - cur) / u64_modulus) + wrap64 (prev - cur))%N).
    { apply N.div_mod. unfold u64_modulus. lia. }
    set (q := ((prev - cur) / u64_modulus)%N) in *. set (d := wrap64 (prev - cur)) in *. clearbody q d.
    rewrite <- (wrap64_mod_add (prev + rest + (u64_modulus - d)) q).
    rewrite <- (wrap64_mod_add (cur + rest) (1 + 2 * q)). f_equal. unfold u64_modulus in *. lia.
Qed.

Definition media_rooms (md : Media) : gset RoomId := projection_rooms (projection (shard md)).

Definition room_count (md : Media) : N := N.of_nat (size (media_rooms md)).

Definition client_count (md : Media) : N := N.of_nat (size (projection (shard md))).

(** What a shard has published is what it holds. *)
Definition published (md : Media) : Prop :=
  contribution md = mk_Contribution (room_count md) (client_count md).

(** All members of the shard with index [i] belong there. *)
Definition placed (n i : nat) (md : Media) : Prop :=
  ∀ k, is_Some (projection (shard md) !! k) → shard_index n k.1 = i.

Record worker_wf (w : Worker) : Prop := {
  wf_rooms : m_rooms (metrics w) = wrap64 (total room_count (shards w));
  wf_clients : m_clients (metrics w) = wrap64 (total client_count (shards w));
  wf_published : ∀ i md, shards w !! i = Some (Some md) → published md;
  wf_placed : ∀ i md, shards w !! i = Some (Some md) → placed (length (shards w)) i md;
}.

Lemma command_room_names c r : names_room (v2.cmd_command c) r ↔ command_room_id c = Some r.
Proof.
  unfold names_room, command_room_id. split.
  - intros (k & b & -> & Hb & Hr). cbn. by rewrite Hb.
  - intros H. apply bind_Some in H as (k & Hk & H). apply bind_Some in H as (b & Hb & H). eauto.
Qed.

(** One command on one shard: what it publishes. *)
Lemma media_command_shares now md m c rooms_rest clients_rest :
  published md → m_rooms m = wrap64 (room_count md + rooms_rest) →
  m_clients m = wrap64 (client_count md + clients_rest) →
  let '(md', m', _) := media_command now md m c in
  published md' ∧ m_rooms m' = wrap64 (room_count md' + rooms_rest) ∧
  m_clients m' = wrap64 (client_count md' + clients_rest).
Proof.
  intros Hp Hr Hcl. unfold media_command.
  destruct (command_cache _ !! _); [by split_and!|]. destruct (apply_command now (shard md) c) as [s res].
  unfold update_metrics. rewrite Hp. cbn [metric_rooms metric_clients].
  erewrite replace_contribution_spec by exact Hr. by erewrite replace_contribution_spec by exact Hcl.
Qed.

(** A command leaves the members of other rooms alone. *)
Lemma media_command_placed now md m c n i r :
  placed n i md → command_room_id c = Some r → shard_index n r = i →
  placed n i (media_command now md m c).1.1.
Proof.
  intros Hpl Hc Hi. unfold media_command. destruct (command_cache _ !! _); [done|].
  pose proof (apply_kind_at now (v2.cmd_request_id c) (v2.cmd_command c)) as Hat.
  destruct (apply_command now (shard md) c) as [s res] eqn:Hap. destruct (update_metrics _ _ _) as [m' ct].
  intros k Hk. cbn in Hk. destruct (decide (k.1 = r)) as [->|Hne]; [done|]. apply Hpl.
  unfold apply_command in Hap. destruct (_ =? _)%N; [by simplify_eq|].
  assert (Hn : ¬ names_room (v2.cmd_command c) k.1) by (rewrite command_room_names; congruence).
  specialize (Hat k _ Hn (shard md) eq_refl). unfold at_key in Hat.
  destruct (apply_kind _ _ _ _) as [s' [|[]]]; simplify_eq; by rewrite Hat in Hk.
Qed.

(** Withdrawing a share leaves the rest. *)
Lemma fetch_sub_share t rest prev : t = wrap64 (prev + rest) → (fetch_sub t prev).2 = wrap64 rest.
Proof.
  intros Ht. pose proof (replace_contribution_spec t rest prev 0 Ht) as H.
  unfold replace_contribution in H. destruct (prev <=? 0)%N eqn:Hle; bool_to_prop.
  - subst t. replace prev with 0%N by lia. cbn [N.add].
    unfold fetch_sub. cbn. rewrite wrap64_add_l.
    rewrite <- (wrap64_mod_add rest 1). by f_equal.
  - rewrite N.sub_0_r in H. cbn [N.add] in H. by injection H.
Qed.

Lemma dispatch_command_wf now w c : worker_wf w → worker_wf (dispatch_command now w c).1.
Proof.
  intros Hwf. unfold dispatch_command. destruct (command_room_id c) as [r|] eqn:Hc; [|done].
  set (i := shard_index _ r). destruct (shards w !! i) as [[md|]|] eqn:Hi; [|done..].
  destruct Hwf as [Hr Hcl Hpub Hpl].
  pose proof (total_insert room_count _ _ _ None Hi) as Hr0.
  pose proof (total_insert client_count _ _ _ None Hi) as Hc0. cbn in Hr0, Hc0.
  pose proof (media_command_shares now md (metrics w) c
    (total room_count (<[i := None]> (shards w))) (total client_count (<[i := None]> (shards w)))
    (Hpub _ _ Hi)) as H.
  pose proof (media_command_placed now md (metrics w) c _ i r (Hpl _ _ Hi) Hc eq_refl) as Hpl'.
  destruct (media_command now md (metrics w) c) as [[md' m'] res]. cbn [fst] in Hpl'.
  destruct H as (Hp' & Hr' & Hc'); [rewrite Hr; f_equal; lia|rewrite Hcl; f_equal; lia|].
  pose proof (total_insert room_count _ _ _ (Some md') Hi) as Hr1.
  pose proof (total_insert client_count _ _ _ (Some md') Hi) as Hc1. cbn in Hr1, Hc1.
  split; cbn [shards metrics fst].
  - rewrite Hr'. f_equal. lia.
  - rewrite Hc'. f_equal. lia.
  - intros j md2. rewrite list_lookup_insert_Some. intros [(<- & [= <-] & _)|[_ Hj]]; eauto.
  - intros j md2. rewrite length_insert, list_lookup_insert_Some.
    intros [(<- & [= <-] & _)|[_ Hj]]; eauto.
Qed.

Lemma stop_shard_wf w i : worker_wf w → worker_wf (stop_shard w i).
Proof.
  intros Hwf. unfold stop_shard. destruct (shards w !! i) as [[md|]|] eqn:Hi; [|done..].
  destruct Hwf as [Hr Hcl Hpub Hpl].
  pose proof (total_insert room_count _ _ _ None Hi) as Hr0.
  pose proof (total_insert client_count _ _ _ None Hi) as Hc0. cbn in Hr0, Hc0.
  split; cbn [shards metrics].
  - unfold media_stop. cbn [m_rooms]. rewrite (Hpub _ _ Hi). cbn [metric_rooms].
    apply fetch_sub_share. rewrite Hr. f_equal. lia.
  - unfold media_stop. cbn [m_clients]. rewrite (Hpub _ _ Hi). cbn [metric_clients].
    apply fetch_sub_share. rewrite Hcl. f_equal. lia.
  - intros j md2. rewrite list_lookup_insert_Some. intros [(_ & ? & _)|[_ Hj]]; eauto; done.
  - intros j md2. rewrite length_insert, list_lookup_insert_Some.
    intros [(_ & ? & _)|[_ Hj]]; eauto; done.
Qed.

Lemma new_worker_wf engines : worker_wf (new_worker engines).
Proof.
  assert (Htot : ∀ f, (∀ e, f (new_media e) = 0%N) → total f ((λ e, Some (new_media e)) <$> engines) = 0%N).
  { intros f Hf. induction engines as [|e es IH]; [done|].
    change (f (new_media e) + total f ((λ e, Some (new_media e)) <$> es) = 0)%N. by rewrite Hf, IH. }
  split; cbn [shards metrics new_worker].
  - rewrite Htot; [done|]. intros e. unfold room_count, media_rooms, projection_rooms. cbn.
    by rewrite dom_empty_L, set_map_empty, size_empty.
  - rewrite Htot; [done|]. intros e. unfold client_count. cbn. by rewrite map_size_empty.
  - intros i md. rewrite list_lookup_fmap. intros Hi. apply fmap_Some in Hi as (e & _ & [= ->]).
    unfold published, room_count, client_count, media_rooms, projection_rooms. cbn.
    by rewrite dom_empty_L, set_map_empty, size_empty, map_size_empty.
  - intros i md. rewrite list_lookup_fmap. intros Hi. apply fmap_Some in Hi as (e & _ & [= ->]).
    intros k [v Hk]. cbn in Hk. by rewrite lookup_empty in Hk.
Qed.

(** All rooms hosted by the live shards. *)
Definition hosted (l : list (option Media)) : gset RoomId := ⋃ (from_option media_rooms ∅ <$> l).

Lemma media_rooms_placed n i md r : placed n i md → r ∈ media_rooms md → shard_index n r = i.
Proof.
  intros Hp. unfold media_rooms, projection_rooms. rewrite elem_of_map.
  intros ([r' c] & -> & Hk). apply elem_of_dom in Hk. by apply Hp in Hk.
Qed.

(** Rooms of different shards are different. *)
Lemma size_hosted (idx : RoomId → nat) l off :
  (∀ i md r, l !! i = Some (Some md) → r ∈ media_rooms md → idx r = (i + off)%nat) →
  N.of_nat (size (hosted l)) = total room_count l.
Proof.
  revert off. induction l as [|x l IH]; intros off H; [done|].
  assert (Hl : N.of_nat (size (hosted l)) = total room_count l).
  { apply (IH (S off)). intros i md r Hi Hr. rewrite (H (S i) md r Hi Hr). lia. }
  change (hosted (x :: l)) with (from_option media_rooms ∅ x ∪ hosted l).
  change (total room_count (x :: l)) with (share room_count x + total room_count l)%N.
  destruct x as [md|]; cbn [from_option share]; [|by rewrite union_empty_l_L].
  rewrite size_union; [unfold room_count at 1; lia|].
  intros r Hr Hr2. apply elem_of_union_list in Hr2 as (X & HX & Hr2).
  apply list_elem_of_fmap in HX as ([md2|] & -> & HX); [|by apply elem_of_empty in Hr2].
  apply list_elem_of_lookup in HX as [i Hi].
  pose proof (H 0%nat md r eq_refl Hr). pose proof (H (S i) md2 r Hi Hr2). lia.
Qed.

(** ** The life of a worker *)

Section media_work.
Context `{ML : !SfuMediaLib}.

(** What may happen to the worker's shards: a command arrives; a shard receives a
    datagram, finds its deadline past, drains its engine, or stops. *)
Inductive WorkerEvent :=
  | Dispatched (now : Instant) (command : v2.SfuCommand)
  | ShardPacket (i : nat) (now : Instant) (received : option (PeerAddr * bytes))
  | ShardTimeout (i : nat) (now : Instant)
  | ShardDrained (i : nat) (fuel : nat) (sends : list SendEnd) (counter : N)
  | ShardStopped (i : nat).

(** A part [f] of a turn of the loop of shard [i]. *)
Definition shard_turn (w : Worker) (i : nat) (counter : N) (f : LoopState → option LoopState) : Worker :=
  match shards w !! i with
  | Some (Some md) =>
      match f (mk_LoopState md (metrics w) counter) with
      | Some st => mk_Worker (<[i := Some (loop_media st)]> (shards w)) (loop_metrics st)
      | None => w
      end
  | _ => w
  end.

Definition worker_event (w : Worker) (e : WorkerEvent) : Worker :=
  match e with
  | Dispatched now c => (dispatch_command now w c).1
  | ShardPacket i now received => shard_turn w i 0 (λ st, fst <$> media_select st (MediaPacket now received))
  | ShardTimeout i now => shard_turn w i 0 (λ st, fst <$> media_select st (MediaTimeout now))
  | ShardDrained i fuel sends counter =>
      shard_turn w i counter (λ st, (λ r, r.1.1) <$> media_drain fuel sends st [])
  | ShardStopped i => stop_shard w i
  end.

(** A part of a turn that works on the engine only. *)
Definition engine_only (f : LoopState → option LoopState) : Prop :=
  ∀ st st', f st = Some st' →
    loop_metrics st' = loop_metrics st ∧ ∃ e, loop_media st' = with_engine (loop_media st) e.

Lemma with_engine_same md : with_engine md (engine (shard md)) = md.
Proof. by destruct md as [[e p] c k]. Qed.

Lemma media_packet_engine now received : engine_only (λ st, fst <$> media_select st (MediaPacket now received)).
Proof.
  intros st st'. destruct received as [[peer datagram]|]; cbn; intros [= <-]; (split; [done|]); [by eexists|].
  eexists. symmetry. apply with_engine_same.
Qed.

Lemma media_timeout_engine now : engine_only (λ st, fst <$> media_select st (MediaTimeout now)).
Proof. intros st st'. cbn. intros [= <-]. split; [done|by eexists]. Qed.

Lemma media_drain_engine fuel sends answers : engine_only (λ st, (λ r, r.1.1) <$> media_drain fuel sends st answers).
Proof.
  intros st st'. unfold media_drain. destruct (drain_engine _ _ _ _ _) as [d|]; [|done]. cbn. intros [= <-].
  split; [done|by eexists].
Qed.

(** The engine does not count. *)
Lemma shard_turn_wf w i counter f : engine_only f → worker_wf w → worker_wf (shard_turn w i counter f).
Proof.
  intros Hf Hwf. unfold shard_turn. destruct (shards w !! i) as [[md|]|] eqn:Hi; [|done..].
  destruct (f _) as [st|] eqn:Hst; [|done]. apply Hf in Hst as [Hm [e Hmd]]. cbn in Hm, Hmd. rewrite Hm, Hmd.
  destruct Hwf as [Hr Hcl Hpub Hpl].
  pose proof (total_insert room_count _ _ _ (Some (with_engine md e)) Hi) as Hr1.
  pose proof (total_insert client_count _ _ _ (Some (with_engine md e)) Hi) as Hc1.
  cbn in Hr1, Hc1. unfold room_count, client_count, media_rooms in Hr1, Hc1. cbn in Hr1, Hc1.
  split; cbn [shards metrics].
  - rewrite Hr. f_equal. unfold room_count, media_rooms. lia.
  - rewrite Hcl. f_equal. unfold client_count. lia.
  - intros j md2. rewrite list_lookup_insert_Some. intros [(<- & [= <-] & _)|[_ Hj]]; [exact (Hpub _ _ Hi)|by eapply Hpub].
  - intros j md2. rewrite length_insert, list_lookup_insert_Some.
    intros [(<- & [= <-] & _)|[_ Hj]]; [exact (Hpl _ _ Hi)|by eapply Hpl].
Qed.

Lemma worker_event_wf w e : worker_wf w → worker_wf (worker_event w e).
Proof.
  destruct e as [now c|i now received|i now|i fuel sends counter|i]; cbn [worker_event].
  - apply dispatch_command_wf.
  - apply shard_turn_wf, media_packet_engine.
  - apply shard_turn_wf, media_timeout_engine.
  - apply shard_turn_wf, media_drain_engine.
  - apply stop_shard_wf.
Qed.

(** C13: After any sequence of commands, datagrams, deadlines, drains and shard stops, the
    worker's shared counters are the number of rooms and of members hosted by the running
    shards, modulo 2^64, and no room is hosted by two shards. *)
Theorem metrics_exact engines events :
  let w := foldl worker_event (new_worker engines) events in
  m_rooms (metrics w) = wrap64 (N.of_nat (size (hosted (shards w)))) ∧
  m_clients (metrics w) = wrap64 (total client_count (shards w)) ∧
  (∀ i j mdi mdj r, shards w !! i = Some (Some mdi) → shards w !! j = Some (Some mdj) →
     r ∈ media_rooms mdi → r ∈ media_rooms mdj → i = j).
Proof.
  assert (Hwf : worker_wf (foldl worker_event (new_worker engines) events)).
  { generalize (new_worker_wf engines). generalize (new_worker engines) as w.
    induction events as [|e events IH]; intros w Hw; [done|]. apply IH. by apply worker_event_wf. }
  cbn. destruct Hwf as [Hr Hc _ Hpl]. set (w := foldl _ _ _) in *. split_and!; [|done|].
  - rewrite Hr. f_equal. symmetry. apply (size_hosted (shard_index (length (shards w))) _ 0).
    intros i md r Hi Hin. rewrite Nat.add_0_r. by eapply media_rooms_placed; [apply Hpl|].
  - intros i j mdi mdj r Hi Hj Hri Hrj.
    rewrite <- (media_rooms_placed _ _ _ _ (Hpl _ _ Hi) Hri).
    by rewrite <- (media_rooms_placed _ _ _ _ (Hpl _ _ Hj) Hrj).
Qed.
End media_work.
End worker_spec.
