(* ===== verification/SfuSamples.v ===== *)
(** * Concrete instances of the worker's foreign interfaces, and witnesses

    An engine that only keeps its members (it refuses client 13), JSON texts
    that are their own values, and hash maps iterated in key order; with these
    the theorems about shards and workers are applied to concrete commands. *)

From S2P Require Import Prelude Wire RoomIds Samples SfuShard SfuLoop SfuShardSpec SfuCommandSpec SfuWorkerSpec.
From Stdlib Require Import Strings.Byte.

#[local] Existing Instance sample_room_id.
#[local] Existing Instance sample_enums.

#[export] Instance sample_sdp : SdpLib := {
  Sdp := bool;
  sdp_is_answer b := b;
  sdp_is_offer b := negb b;
}.

Definition sample_refuses (ev : SFUEvent) : bool :=
  match ev with EvJoin _ _ c => (c =? 13)%N | _ => false end.

(** Members, and the events to be polled: each session description is answered. *)
Definition SampleSfu : Type := gset (uuid * N) * list SFUEvent.

Definition sample_effect (ev : SFUEvent) (ms : gset (uuid * N)) : gset (uuid * N) :=
  match ev with
  | EvJoin _ r c => {[ (r, c) ]} ∪ ms
  | EvLeave _ r c _ => ms ∖ {[ (r, c) ]}
  | _ => ms
  end.

#[export] Instance sample_sfu : SfuLib := {
  Sfu := SampleSfu;
  Packet := N;
  sfu_poll_read e := e;
  sfu_poll_write e := (None, e);
  sfu_handle_event _ ev e :=
    if sample_refuses ev then (e, Err tt)
    else ((sample_effect ev e.1,
           e.2 ++ match ev with EvSessionDescription id r c _ => [EvSessionDescription id r c true] | _ => [] end),
          Ok tt);
  sfu_poll_event e :=
    match e.2 with [] => (None, e) | ev :: evs => (Some ev, (e.1, evs)) end;
}.

#[export] Instance sample_json : SignalJson := {
  Json := string;
  json_null := "null";
  json_of_sdp b := Some (if b : bool then "answer" else "offer");
  json_object_insert k v j := Some (j +:+ v);
  json_object fields := "candidate";
  json_to_string j := "j" +:+ j;
  json_from_str s := if String.eqb s "bad" then None else Some s;
  json_app_signal s := Some (mk_AppSignal s EmptyString None None None);
  json_sdp s := Some (String.eqb s "answer");
}.

#[export] Instance sample_reason_debug : LeaveReasonDebug := λ _, "User".

#[export] Instance sample_hash_order : HashOrder := λ _ l, l.

#[export] Instance sample_hash_order_laws : HashOrderLaws sample_hash_order.
Proof. by intros A l. Qed.

#[export] Instance sample_sfu_laws : SfuLaws.
Proof.
  refine {| sfu_members (e : Sfu) := (e : SampleSfu).1 : gset (RoomId * N) |}.
  - intros now ev e e'. cbn. destruct (sample_refuses ev); [done|]. intros [= <-]. by destruct ev.
  - intros now ev e e'. cbn. destruct (sample_refuses ev); [by intros [= <-]|done].
Defined.

(** ** Commands about two rooms *)

Definition room_a : RoomId := sample_room Byte.x0a.
Definition room_b : RoomId := sample_room Byte.x0b.

Definition sample_engine : Sfu := (∅, []).

Definition join_of (room : RoomId) (client life epoch : N) : v2.JoinMember :=
  v2.mk_JoinMember (room_id_to_bytes room) client life epoch.

Definition join_command (rid : N) (room : RoomId) (client life epoch : N) : v2.SfuCommand :=
  v2.mk_SfuCommand rid (Some (v2.CmdJoin (join_of room client life epoch))).

Definition sync_of (room : RoomId) (epoch : N) (members : list (N * N)) : v2.SyncRoom :=
  v2.mk_SyncRoom (room_id_to_bytes room) epoch
    ((λ m, v2.mk_MemberProjection m.1 m.2) <$> members).

Definition sample_commands : list (Instant * v2.SfuCommand) :=
  [(1, join_command 1 room_a 5 1 1); (2, join_command 2 room_b 6 1 1); (3, join_command 3 room_a 13 1 1);
   (4, v2.mk_SfuCommand 4 (Some (v2.CmdSyncRoom (sync_of room_a 2 [(7, 3)]%N))))]%N.

Definition sample_shard : Shard := apply_commands (mk_Shard sample_engine ∅) sample_commands.

(** After the synchronization client 5 is gone and client 7 is there; client 13
    never got in. *)
Example sample_shard_members :
  (λ k : RoomId * N, projection sample_shard !! k) <$> [(room_a, 5); (room_a, 7); (room_a, 13); (room_b, 6)]%N
    = [None; Some (3, 2); None; Some (1, 1)]%N.
Proof. vm_compute. reflexivity. Qed.

Lemma projection_mirrors_engine_witness :
  sfu_members sample_engine = ∅ ∧
  sfu_members (engine sample_shard) = dom (projection sample_shard).
Proof. split; [reflexivity|]. apply (projection_mirrors_engine sample_engine sample_commands). reflexivity. Defined.

Lemma rejected_commands_change_nothing_witness :
  (apply_command 5 sample_shard (join_command 9 room_b 6 2 1)).1 = sample_shard.
Proof.
  apply (rejected_commands_change_nothing 5 sample_shard (join_command 9 room_b 6 2 1) _
    (apply_command 5 sample_shard (join_command 9 room_b 6 2 1)).2
    (v2.mk_Error 11 "conflicting member lifecycle" false None) v2.StaleLifecycle).
  - apply surjective_pairing.
  - vm_compute. reflexivity.
  - reflexivity.
  - reflexivity.
Defined.

Lemma commands_touch_their_room_witness :
  projection (apply_command 5 sample_shard (join_command 9 room_a 6 2 1)).1 !! (room_b, 6%N) =
    projection sample_shard !! (room_b, 6%N).
Proof.
  apply (commands_touch_their_room 5 sample_shard (join_command 9 room_a 6 2 1) (room_b, 6%N)).
  intros (c & b & [= <-] & [= <-] & Hr). apply (f_equal (fmap as_u128)) in Hr. vm_compute in Hr. done.
Defined.

Lemma sync_room_exact_witness :
  let r := sync_room 9 8 (sync_of room_b 4 [(6, 9); (8, 2)]%N) sample_shard in
  r.2 = Ok (v2.PRoomSynced (v2.mk_RoomSynced (room_id_to_bytes room_b) 4)) ∧
  ∃ room, room_id_from_bytes (room_id_to_bytes room_b) = Some room.
Proof.
  cbv zeta. assert (Hr : (sync_room 9 8 (sync_of room_b 4 [(6, 9); (8, 2)]%N) sample_shard).2 =
    Ok (v2.PRoomSynced (v2.mk_RoomSynced (room_id_to_bytes room_b) 4))) by (vm_compute; reflexivity).
  split; [exact Hr|].
  destruct (sync_room_exact 9 8 (sync_of room_b 4 [(6, 9); (8, 2)]%N) sample_shard
    (sync_room 9 8 (sync_of room_b 4 [(6, 9); (8, 2)]%N) sample_shard).1
    (v2.PRoomSynced (v2.mk_RoomSynced (room_id_to_bytes room_b) 4))) as (room & Hroom & _).
  - rewrite <- Hr. apply surjective_pairing.
  - exists room. exact Hroom.
Defined.

Lemma member_lifecycle_witness :
  let r := apply_join 9 8 room_a (join_of room_a 8 1 1) sample_shard in
  r.2 = Ok (member_joined (join_of room_a 8 1 1)) ∧
  projection r.1 !! (room_a, 8%N) = Some (1, 1)%N.
Proof.
  cbv zeta. assert (Hr : (apply_join 9 8 room_a (join_of room_a 8 1 1) sample_shard).2 =
    Ok (member_joined (join_of room_a 8 1 1))) by (vm_compute; reflexivity).
  split; [exact Hr|].
  refine (proj1 (proj2 (member_lifecycle 9 8 room_a (join_of room_a 8 1 1) sample_shard
    (apply_join 9 8 room_a (join_of room_a 8 1 1) sample_shard).1
    (member_joined (join_of room_a 8 1 1)) _))).
  rewrite <- Hr. apply surjective_pairing.
Defined.

Lemma retries_answered_from_cache_witness :
  let st := media_run (new_media sample_engine, mk_Metrics 0 0) sample_commands in
  let '(st1, r) := media_command 9 st.1 st.2 (join_command 8 room_a 8 1 1) in
  let st2 := media_run st1 [(9, join_command 10 room_a 20 1 1)]%N in
  media_command 11 st2.1 st2.2 (join_command 8 room_a 8 1 1) = (st2, r).
Proof.
  apply (retries_answered_from_cache sample_engine (mk_Metrics 0 0) sample_commands 9
    (join_command 8 room_a 8 1 1) [(9, join_command 10 room_a 20 1 1)]%N 11 (join_command 8 room_a 8 1 1)).
  - vm_compute. reflexivity.
  - reflexivity.
  - reflexivity.
Defined.

Definition sample_worker : Worker := new_worker [sample_engine; sample_engine].

(** The rooms end in [0a] and [0b], so they go to different shards. *)
Lemma commands_routed_by_room_witness :
  shard_index 2 room_a = 0%nat ∧ shard_index 2 room_b = 1%nat ∧
  (shard_index 2 room_b < 2)%nat.
Proof.
  split; [vm_compute; reflexivity|]. split; [vm_compute; reflexivity|].
  assert (Hc : command_room_id (join_command 2 room_b 6 1 1) = Some room_b) by (vm_compute; reflexivity).
  pose proof (commands_routed_by_room 5 sample_worker (join_command 2 room_b 6 1 1) ltac:(cbn; lia)) as H.
  rewrite Hc in H. exact (proj1 H).
Defined.

(** A datagram makes the sample engine report a failure of client 5. *)
#[export] Instance sample_media : SfuMediaLib := {
  PeerAddr := N;
  sfu_handle_read _ _ _ e := ((e.1, e.2 ++ [EvErr 0 (Some room_a) (Some 5%N) "lost"]), Ok tt);
  sfu_handle_timeout _ e := (e, Ok tt);
  sfu_close e := e;
}.

(** Two rooms on two shards, three members, media traffic; then a shard stops. *)
Example sample_metrics :
  let w := foldl worker_event sample_worker
             [Dispatched 1 (join_command 1 room_a 5 1 1); Dispatched 2 (join_command 2 room_b 6 1 1);
              ShardPacket 0 3 (Some (9%N, [Byte.x01])); ShardTimeout 1 3; ShardDrained 0 5 [] 1;
              Dispatched 3 (join_command 3 room_a 7 1 1)] in
  (m_rooms (metrics w), m_clients (metrics w)) = (2, 3)%N ∧
  (m_rooms (metrics (stop_shard w 0)), m_clients (metrics (stop_shard w 0))) = (1, 1)%N.
Proof. split; vm_compute; reflexivity. Qed.
