(* ===== verification/SfuEventsSpec.v ===== *)
(** * What the events of a shard promise

    Draining ends; the wire events are the engine's events about current
    members, in order, under fresh ids; and signaling accepts each of them. *)

From stdpp Require Import sorting.
From S2P Require Import Prelude Wire RoomIds GrpcServer GrpcServerSpec SfuShard SfuShardSpec.
From S2P Require Import SfuEvents SfuCommandSpec Samples SfuSamples.
From Stdlib Require Import Strings.Byte.

Section events_spec.
Context `{L : RoomIdLib, P : v2.ProtoEnums, SL : SdpLib, E : !SfuLib, J : !SignalJson,
          LR : LeaveReasonDebug, HO : HashOrder}.

(** A poll takes one item off a finite queue. *)
Class SfuPollLaws : Type := {
  pending_packets : Sfu → nat;
  pending_engine_events : Sfu → nat;
  sfu_poll_write_some : ∀ e o e', sfu_poll_write e = (Some o, e') →
    (pending_packets e' < pending_packets e)%nat;
  sfu_poll_event_some : ∀ e o e', sfu_poll_event e = (Some o, e') →
    (pending_engine_events e' < pending_engine_events e)%nat;
}.

Lemma next_nonzero_spec counter :
  is_u64 counter → next_nonzero counter =
    Some (if (counter =? 0)%N then (1, 2) else (counter, wrap64 (counter + 1)))%N.
Proof. intros Hu. by apply fetch_nonzero_spec. Qed.

Lemma next_nonzero_u64 counter id counter' :
  is_u64 counter → next_nonzero counter = Some (id, counter') → is_u64 counter' ∧ id ≠ 0%N.
Proof.
  intros Hu. rewrite next_nonzero_spec by done. destruct (N.eqb_spec counter 0); intros [= <- <-].
  - done.
  - split; [apply wrap64_u64|done].
Qed.

Section polling.
Context {laws : SfuPollLaws}.

Lemma drain_packets_settles e : ∃ r, settles (λ fuel, drain_packets fuel e) r.
Proof.
  remember (pending_packets e) as n eqn:Hn. revert e Hn. induction (lt_wf n) as [n _ IH]. intros e Hn.
  destruct (sfu_poll_write e) as [[o|] e'] eqn:Hp.
  - destruct (IH (pending_packets e')) with (e := e') as ([e'' ps] & k & Hk);
      [subst n; by eapply sfu_poll_write_some|done|].
    exists (e'', o :: ps), (S k). intros [|fuel] Hle; [lia|]. cbn. rewrite Hp, Hk by lia. done.
  - exists (e', []), 1%nat. intros [|fuel] Hle; [lia|]. cbn. by rewrite Hp.
Qed.

Lemma drain_events_settles sends p e counter :
  is_u64 counter → ∃ r, settles (λ fuel, drain_events fuel sends p e counter) r.
Proof.
  remember (pending_engine_events e) as n eqn:Hn. revert sends e counter Hn.
  induction (lt_wf n) as [n _ IH]. intros sends e counter Hn Hu.
  destruct (sfu_poll_event e) as [[ev|] e'] eqn:Hp.
  2:{ exists (e', counter, [], false), 1%nat. intros [|fuel] Hle; [lia|]. cbn. by rewrite Hp. }
  assert (Hlt : (pending_engine_events e' < n)%nat) by (subst n; by eapply sfu_poll_event_some).
  destruct (event_kind p ev) as [kind|] eqn:Hk.
  - destruct (next_nonzero counter) as [[id c']|] eqn:Hc; [|by rewrite next_nonzero_spec in Hc].
    destruct sends as [|[others|] sends].
    + exists (e', c', [], true), 1%nat. intros [|fuel] Hle; [lia|]. cbn [drain_events]. by rewrite Hp, Hk, Hc.
    + destruct (IH _ Hlt sends e' (fetch_add c' others).2 eq_refl (fetch_add_u64 _ _)) as ([[[e'' c''] evs] b] & k & Hk').
      exists (e'', c'', v2.mk_SfuEvent id (Some kind) :: evs, b), (S k).
      intros [|fuel] Hle; [lia|]. cbn [drain_events]. rewrite Hp, Hk, Hc. cbn [mbind option_bind]. by rewrite Hk' by lia.
    + exists (e', c', [], false), 1%nat. intros [|fuel] Hle; [lia|]. cbn [drain_events]. by rewrite Hp, Hk, Hc.
  - destruct (IH _ Hlt sends e' counter eq_refl Hu) as (r & k & Hk').
    exists r, (S k). intros [|fuel] Hle; [lia|]. cbn [drain_events]. rewrite Hp, Hk. apply Hk'. lia.
Qed.

(** Draining the engine comes to an end or to a wait for room in the events channel, whatever
    the engine holds and wherever the event receiver closes. *)
Theorem drain_engine_terminates sends p e counter :
  is_u64 counter → ∃ d, settles (λ fuel, drain_engine fuel sends p e counter) d.
Proof.
  intros Hu. destruct (drain_packets_settles (sfu_poll_read e)) as ([e1 ps] & k1 & H1).
  destruct (drain_events_settles sends p e1 counter Hu) as ([[[e2 c] evs] b] & k2 & H2).
  exists (mk_Drained e2 c ps evs b), (k1 + k2)%nat. intros fuel Hle. unfold drain_engine.
  rewrite H1 by lia. cbn. by rewrite H2 by lia.
Qed.
End polling.

(** ** The events, in order *)

(** The events the engine yields until it has none. *)
Fixpoint polled_events (fuel : nat) (e : Sfu) : option (list SFUEvent) :=
  match fuel with
  | O => None
  | S fuel' =>
      match sfu_poll_event e with
      | (Some ev, e') => evs ← polled_events fuel' e'; Some (ev :: evs)
      | (None, _) => Some []
      end
  end.

(** The ids other shards draw during a drain. *)
Definition send_ids (sends : list SendEnd) : N :=
  foldr (λ s n, match s with Taken others => others + n | Refused => n end)%N 0%N sends.

Definition taken (s : SendEnd) : Prop := match s with Taken _ => True | Refused => False end.

(** The event is what [event_kind] makes of an engine event about a member of [p]. *)
Definition about_member (p : Projection) (ev : v2.SfuEvent) : Prop :=
  ∃ kind x, v2.event_event ev = Some kind ∧ event_kind p x = Some kind.

(** Ids grow from [lo] on and stay below [hi]. *)
Definition ids_between (lo hi : N) (evs : list v2.SfuEvent) : Prop :=
  StronglySorted N.lt (v2.event_request_id <$> evs) ∧
  Forall (λ i, lo <= i < hi)%N (v2.event_request_id <$> evs).

Lemma ids_between_cons lo mid hi id kind evs :
  (lo <= id < mid)%N → (mid <= hi)%N → ids_between mid hi evs → ids_between lo hi (v2.mk_SfuEvent id kind :: evs).
Proof.
  intros Hid Hmid [Hs Hf]. split; cbn; constructor; try done.
  - eapply list.Forall_impl; [exact Hf|]. cbn. lia.
  - lia.
  - eapply list.Forall_impl; [exact Hf|]. cbn. lia.
Qed.

Lemma drain_events_spec fuel sends p e c e' c' evs waiting :
  drain_events fuel sends p e c = Some (e', c', evs, waiting) →
  (0 < c)%N → (c + N.of_nat (length evs) + send_ids sends + 1 < u64_modulus)%N →
  (c <= c' <= c + N.of_nat (length evs) + send_ids sends + 1)%N ∧
  ids_between c c' evs ∧ Forall (about_member p) evs.
Proof.
  revert sends e c e' c' evs waiting.
  induction fuel as [|fuel IH]; intros sends e c e' c' evs waiting; cbn [drain_events]; [done|].
  assert (Hnone : ∀ hi, ids_between c hi []) by (intros hi; split; constructor).
  destruct (sfu_poll_event e) as [[ev|] e1].
  2:{ intros [= <- <- <- <-] ? ?. split_and!; [lia|cbn; lia|done|constructor]. }
  destruct (event_kind p ev) as [kind|] eqn:Hk; [|by eauto].
  intros H Hc Hb. rewrite next_nonzero_spec in H by (unfold is_u64; lia).
  destruct (N.eqb_spec c 0); [lia|]. cbn [mbind option_bind] in H. rewrite wrap64_small in H by (unfold is_u64; lia).
  destruct sends as [|[others|] sends].
  - injection H as <- <- <- <-. split_and!; [lia|cbn; lia|done|constructor].
  - apply bind_Some in H as ([[[e2 c2] evs2] b] & Hd & [= <- <- <- <-]).
    cbn [length send_ids foldr] in Hb |- *. fold (send_ids sends) in Hb |- *.
    unfold fetch_add in Hd. cbn [snd] in Hd. rewrite wrap64_small in Hd by (unfold is_u64; lia).
    destruct (IH _ _ _ _ _ _ _ Hd) as ([Hlo Hhi] & Hids & Hall); [lia|lia|]. split_and!; [lia|lia| |].
    + apply (ids_between_cons _ (c + 1 + others)); [lia|lia|done].
    + constructor; [by exists kind, ev|done].
  - injection H as <- <- <- <-. split_and!; [lia|cbn; lia|done|constructor].
Qed.

(** A drain that waits has sent all that the channel has taken. *)
Lemma drain_events_waiting fuel sends p e c e' c' evs :
  drain_events fuel sends p e c = Some (e', c', evs, true) →
  length evs = length sends ∧ Forall taken sends.
Proof.
  revert sends e c e' c' evs. induction fuel as [|fuel IH]; intros sends e c e' c' evs; cbn [drain_events]; [done|].
  destruct (sfu_poll_event e) as [[ev|] e1]; [|done]. destruct (event_kind p ev); [|by eauto].
  destruct (next_nonzero c) as [[id c1]|]; [|done]. cbn [mbind option_bind].
  destruct sends as [|[others|] sends]; [by intros [= <- <- <-]| |done].
  intros ([[[e2 c2] evs2] b] & Hd & [= <- <- <- ->])%bind_Some. destruct (IH _ _ _ _ _ _ Hd) as [? ?].
  split; [cbn; by f_equal|by constructor].
Qed.

(** With room for all of them, every reportable event is sent. *)
Lemma drain_events_complete fuel sends p e c evs :
  polled_events fuel e = Some evs → is_u64 c → Forall taken sends →
  (length (omap (event_kind p) evs) ≤ length sends)%nat →
  ∃ e' c' wire, drain_events fuel sends p e c = Some (e', c', wire, false) ∧
    v2.event_event <$> wire = Some <$> omap (event_kind p) evs.
Proof.
  revert sends e c evs. induction fuel as [|fuel IH]; intros sends e c evs; cbn [polled_events drain_events]; [done|].
  destruct (sfu_poll_event e) as [[ev|] e1]; [|intros [= <-] _ _ _; eauto 6].
  intros (evs' & Hp & [= <-])%bind_Some Hc Hs Hlen. cbn [omap list_omap] in *.
  destruct (event_kind p ev) as [kind|] eqn:Hk; [|by apply IH].
  destruct (next_nonzero c) as [[id c1]|] eqn:Hn; [|by rewrite next_nonzero_spec in Hn].
  apply next_nonzero_u64 in Hn as [Hc1 _]; [|done].
  destruct sends as [|s sends]; [cbn in Hlen; lia|]. apply list.Forall_cons in Hs as [Hs1 Hs].
  destruct s as [others|]; [|done]. cbn [length] in Hlen.
  destruct (IH sends e1 (fetch_add c1 others).2 evs' Hp (fetch_add_u64 _ _) Hs) as (e2 & c2 & wire & Hd & Hw);
    [apply le_S_n; exact Hlen|].
  cbn [mbind option_bind]. rewrite Hd. cbn [mbind option_bind]. eexists _, _, _. split; [done|]. cbn. by f_equal.
Qed.

Lemma sorted_nodup (l : list N) : StronglySorted N.lt l → NoDup l.
Proof.
  induction 1 as [|x l Hs IH Hf]; constructor; [|done].
  rewrite list.Forall_forall in Hf. intros ?%Hf. lia.
Qed.

(** A drain that finds room for its events sends the packets of the engine and then one event
    for each reportable engine event, in order, under distinct non-zero ids, other shards
    drawing ids between them or not. *)
Theorem drained_events_in_order fuel sends p e counter e1 packets evs :
  drain_packets fuel (sfu_poll_read e) = Some (e1, packets) → polled_events fuel e1 = Some evs →
  (0 < counter)%N → (counter + N.of_nat (length evs) + send_ids sends + 1 < u64_modulus)%N →
  Forall taken sends → (length (omap (event_kind p) evs) ≤ length sends)%nat →
  ∃ d, drain_engine fuel sends p e counter = Some d ∧ drained_packets d = packets ∧ drained_waiting d = false ∧
    v2.event_event <$> drained_events d = Some <$> omap (event_kind p) evs ∧
    NoDup (v2.event_request_id <$> drained_events d) ∧
    (∀ ev, ev ∈ drained_events d → v2.event_request_id ev ≠ 0%N).
Proof.
  intros Hpk Hpo Hc Hb Hs Hlen.
  destruct (drain_events_complete fuel sends p e1 counter evs Hpo) as (e2 & c2 & wire & Hd & Hw);
    [unfold is_u64; lia|done|done|].
  assert (Hwl : (length wire ≤ length evs)%nat).
  { rewrite <- (length_fmap v2.event_event), Hw, length_fmap. clear.
    induction evs as [|ev evs IH]; cbn; [lia|]. destruct (event_kind p ev); cbn; unfold omap in *; lia. }
  unfold drain_engine. rewrite Hpk. cbn. rewrite Hd. cbn. eexists. split; [done|]. cbn.
  destruct (drain_events_spec _ _ _ _ _ _ _ _ _ Hd) as (_ & [Hsorted Hrange] & _); [lia|lia|].
  split_and!; [done|done|done|by apply sorted_nodup|].
  intros ev Hin%(list_elem_of_fmap_2 v2.event_request_id). rewrite list.Forall_forall in Hrange.
  apply Hrange in Hin. lia.
Qed.

(** ** Worker and signaling together *)

(** A JSON text is never empty. *)
Class JsonTextLaws : Prop := json_to_string_nonempty : ∀ j, json_to_string j ≠ EmptyString.

Definition rooms_valid (p : Projection) : Prop := ∀ k, is_Some (p !! k) → is_room_uuid k.1 = true.

Lemma apply_command_rooms_valid now s c :
  rooms_valid (projection s) → rooms_valid (projection (apply_command now s c).1).
Proof.
  intros Hs k Hk. destruct (is_room_uuid k.1) eqn:Hr; [done|]. rewrite <- Hr. apply Hs.
  assert (Hn : ¬ names_room (v2.cmd_command c) k.1).
  { intros (kd & b & _ & _ & Hb). apply room_id_from_bytes_valid in Hb. congruence. }
  revert Hk. unfold apply_command. destruct (_ =? _)%N; [done|].
  pose proof (apply_kind_at now (v2.cmd_request_id c) _ _ _ Hn s eq_refl) as Ht.
  destruct (apply_kind _ _ _ s) as [s' [|[]]]; cbn; by rewrite Ht.
Qed.

Lemma apply_commands_rooms_valid s cs :
  rooms_valid (projection s) → rooms_valid (projection (apply_commands s cs)).
Proof.
  revert s. induction cs as [|c cs IH]; intros s Hs; [done|]. apply IH. by apply apply_command_rooms_valid.
Qed.

Lemma empty_rooms_valid : rooms_valid ∅.
Proof. intros k [v Hk]. by rewrite lookup_empty in Hk. Qed.

(** The event is about a current member, under its current lifecycle. *)
Definition concerns_member (p : Projection) (k : ssfu.EventKind) : Prop :=
  match k with
  | ssfu.KSignalEvent g =>
      p !! (ssfu.g_room_id g, ssfu.g_client_id g) = Some (ssfu.g_lifecycle_id g, ssfu.g_assignment_epoch g)
  | ssfu.KFailure _ (Some r) (Some c) (Some l) _ => ∃ epoch, p !! (r, c) = Some (l, epoch)
  | _ => False
  end.

Lemma decode_signal_wire {room_laws : RoomIdLaws L} r c l ep text sdp :
  is_room_uuid r = true → text ≠ EmptyString →
  decode_signal (v2.mk_SfuSignal (room_id_to_bytes r) c l ep text sdp) = Ok (ssfu.mk_Signal r c l ep text sdp).
Proof.
  intros Hr Ht. unfold decode_signal, parse_wire_room_id; cbn.
  destruct (is_empty text) eqn:He; [by apply is_empty_spec in He|]. by rewrite room_id_from_to_bytes.
Qed.

(** What a shard makes of an engine event decodes on the signaling side, and
    concerns a member of its projection. *)
Lemma event_kind_accepted {room_laws : RoomIdLaws L} {text_laws : JsonTextLaws} p ev kind now c inst id :
  rooms_valid p → event_kind p ev = Some kind → id ≠ 0%N →
  ∃ k, decode_sfu_input now c inst
         (v2.mk_SfuToSignaling (Some (v2.MsgEvent (v2.mk_SfuEvent id (Some kind))))) =
         Ok (ssfu.InEvent c inst (ssfu.mk_Event id k)) ∧ concerns_member p k.
Proof.
  intros Hv Hk Hid. unfold event_kind in Hk. apply bind_Some in Hk as (r & Hr & Hk). apply bind_Some in Hk as (cl & Hcl & Hk).
  apply bind_Some in Hk as ([l ep] & Hp & Hk).
  assert (Hru : is_room_uuid r = true) by (apply (Hv (r, cl)); eauto).
  unfold decode_sfu_input; cbn. destruct (N.eqb_spec id 0); [done|].
  destruct ev; simplify_eq/=.
  - rewrite decode_signal_wire; [|done|apply json_to_string_nonempty]. eexists. split; [done|]. exact Hp.
  - rewrite decode_signal_wire; [|done|apply json_to_string_nonempty]. eexists. split; [done|]. exact Hp.
  - rewrite room_id_from_to_bytes by done. eexists. split; [done|]. cbn. eauto.
Qed.

(** The outcome signaling expects for a command. *)
Definition expected_ok (k : ssfu.CommandKind) : ssfu.CommandOk :=
  match k with
  | ssfu.KSyncRoom s => ssfu.OkRoomSynced (ssfu.mk_RoomSynced (ssfu.s_room_id s) (ssfu.s_assignment_epoch s))
  | ssfu.KJoin j => ssfu.OkMemberJoined j
  | ssfu.KLeave l =>
      ssfu.OkMemberLeft (ssfu.mk_LeaveMember (ssfu.l_room_id l) (ssfu.l_client_id l) (ssfu.l_lifecycle_id l)
        (ssfu.l_assignment_epoch l) ssfu.User)
  | ssfu.KSignal _ => ssfu.OkAcknowledged
  end.

Definition kind_room_id (k : ssfu.CommandKind) : RoomId :=
  match k with
  | ssfu.KSyncRoom s => ssfu.s_room_id s | ssfu.KJoin j => ssfu.j_room_id j
  | ssfu.KLeave l => ssfu.l_room_id l | ssfu.KSignal g => ssfu.g_room_id g
  end.

(** What the wire payload of a command decodes to. *)
Lemma apply_kind_payload {room_laws : RoomIdLaws L} now rid k s s' payload :
  is_room_uuid (kind_room_id k) = true →
  apply_kind now rid (Some (encode_command_kind k)) s = (s', Ok payload) →
  decode_command_ok (v2.mk_SfuCommandOk (Some payload)) = Ok (expected_ok k).
Proof.
  intros Hr. destruct k as [y|j|l|g]; cbn [encode_command_kind apply_kind kind_room_id] in *.
  - unfold sync_room. rewrite st_bind_lift. cbn [v2.sync_room_id]. rewrite room_id_from_to_bytes by done.
    cbn [ok_or]. intros (? & s1 & _ & H)%st_bind_ok. apply st_bind_ok in H as (? & s2 & _ & [= <- <-]).
    unfold decode_command_ok, parse_wire_room_id; cbn. by rewrite room_id_from_to_bytes.
  - rewrite st_bind_lift. cbn [v2.join_room_id]. rewrite room_id_from_to_bytes by done. cbn [ok_or].
    intros H. apply member_joined_payload in H as ->.
    unfold decode_command_ok, parse_wire_room_id; cbn. rewrite room_id_from_to_bytes by done. by destruct j.
  - rewrite st_bind_lift. cbn [v2.leave_room_id]. rewrite room_id_from_to_bytes by done. cbn [ok_or].
    intros H. apply member_left_payload in H as ->.
    unfold decode_command_ok, parse_wire_room_id; cbn. by rewrite room_id_from_to_bytes.
  - rewrite st_bind_lift. cbn [v2.signal_room_id encode_signal]. rewrite room_id_from_to_bytes by done. cbn [ok_or].
    unfold apply_signal_command. case_decide; [|done].
    intros (? & s1 & _ & [= <- <-])%st_bind_ok. done.
Qed.

(** C33: The worker's answer to a command the signaling side sent decodes there, under the
    command's request id, as the success that fits the command or as an error that is not
    retryable. *)
Theorem worker_answers_accepted {room_laws : RoomIdLaws L} conn cmd w s now s' r now' c inst :
  is_room_uuid (kind_room_id (ssfu.k_command cmd)) = true → ssfu.k_request_id cmd ≠ 0%N →
  encode_sfu_output (ssfu.OutCommand conn cmd) =
    Some (v2.mk_SignalingToSfu (Some (v2.MsgCommand w))) →
  apply_command now s w = (s', r) →
  ∃ outcome, decode_sfu_input now' c inst (v2.mk_SfuToSignaling (Some (v2.MsgCommandResult r))) =
      Ok (ssfu.InCommandResult c inst (ssfu.mk_CommandResult (ssfu.k_request_id cmd) outcome) now') ∧
    match outcome with
    | Ok ok => ok = expected_ok (ssfu.k_command cmd)
    | Err e => ssfu.e_retryable e = false
    end.
Proof.
  intros Hr Hid. cbn. intros [= <-]. unfold apply_command; cbn [v2.cmd_request_id v2.cmd_command].
  destruct (N.eqb_spec (ssfu.k_request_id cmd) 0); [done|].
  destruct (apply_kind now (ssfu.k_request_id cmd) (Some (encode_command_kind (ssfu.k_command cmd))) s) as [s1 [payload|[code reason]]] eqn:Hk;
    intros Heq; injection Heq as _ <-; unfold decode_sfu_input, command_error;
    cbn [v2.to_signaling v2.res_request_id v2.res_result]; (destruct (N.eqb_spec (ssfu.k_request_id cmd) 0); [done|]).
  - rewrite (apply_kind_payload _ _ _ _ _ _ Hr Hk). eexists. split; [done|]. done.
  - eexists. split; [done|]. done.
Qed.
End events_spec.

(** ** Witnesses *)

Section witnesses.
#[local] Existing Instance sample_room_id.
#[local] Existing Instance sample_enums.

Instance sample_poll_laws : SfuPollLaws.
Proof.
  refine {| pending_packets (e : Sfu) := 0%nat;
            pending_engine_events (e : Sfu) := length (e : SampleSfu).2 |}.
  - intros e o e'. done.
  - intros [ms [|ev evs]] o e'; cbn; [done|]. intros [= _ <-]. cbn. lia.
Defined.

Lemma sample_text_laws : JsonTextLaws.
Proof. intros j. discriminate. Qed.

Lemma drain_engine_terminates_witness :
  ∃ d, settles (λ fuel, drain_engine fuel [] ∅ sample_engine 1) d.
Proof. apply (drain_engine_terminates [] ∅ sample_engine 1). reflexivity. Defined.

Definition answering_engine : Sfu :=
  (∅, [EvSessionDescription 4 room_a 7 true; EvOk 4 None None; EvSessionDescription 5 room_b 9 false]).

Lemma drained_events_in_order_witness :
  ∃ d, drain_engine 10 [Taken 3; Taken 0] (projection sample_shard) answering_engine 20 = Some d ∧
    drained_packets d = [].
Proof.
  destruct (drained_events_in_order 10 [Taken 3; Taken 0] (projection sample_shard) answering_engine 20 answering_engine []
    (answering_engine : SampleSfu).2) as (d & Hd & Hp & _).
  - reflexivity.
  - reflexivity.
  - reflexivity.
  - reflexivity.
  - repeat constructor.
  - vm_compute. lia.
  - exists d. split; [exact Hd|exact Hp].
Defined.

Definition sample_leave : ssfu.Command :=
  ssfu.mk_Command 31 (ssfu.KLeave (ssfu.mk_LeaveMember room_b 6 1 1 ssfu.Disconnected)).

Lemma worker_answers_accepted_witness :
  ∃ outcome, decode_sfu_input 9 1 "sfu-1" (v2.mk_SfuToSignaling (Some (v2.MsgCommandResult
      (apply_command 8 sample_shard (v2.mk_SfuCommand 31
         (Some (encode_command_kind (ssfu.k_command sample_leave))))).2))) =
    Ok (ssfu.InCommandResult 1 "sfu-1" (ssfu.mk_CommandResult 31 outcome) 9).
Proof.
  destruct (worker_answers_accepted 1 sample_leave
    (v2.mk_SfuCommand 31 (Some (encode_command_kind (ssfu.k_command sample_leave)))) sample_shard 8
    _ _ 9 1 "sfu-1" eq_refl ltac:(discriminate) eq_refl (surjective_pairing _)) as (outcome & Hd & _).
  exists outcome. exact Hd.
Defined.
End witnesses.
