(* ===== verification/SfuLoopSpec.v ===== *)
(** * What a media shard's loop promises

    Over any sequence of wake-ups: every command is answered once and under its
    id, every event concerns a member of the moment and is accepted by the
    signaling side, the ids grow, the loop ends, and its share of the worker's
    metrics is withdrawn. *)

From stdpp Require Import sorting.
From S2P Require Import Prelude Wire RoomIds GrpcServer GrpcServerSpec Samples.
From S2P Require Import SfuShard SfuEvents SfuShardSpec SfuCommandSpec SfuWorkerSpec SfuSamples SfuEventsSpec SfuLoop.
From Stdlib Require Import Strings.Byte.

Section loop_spec.
Context `{L : RoomIdLib, P : v2.ProtoEnums, SL : SdpLib, E : !SfuLib, ML : !SfuMediaLib, J : !SignalJson,
          LR : LeaveReasonDebug, HO : HashOrder}.

(** ** One turn *)

(** What a turn sends: one answer per command, and events about the members of
    the moment under ids from [lo] on and below [hi]. *)
Record turn_ok (lo hi : N) (commands : list N) (turn : Turn) : Prop := {
  turn_answered : v2.res_request_id <$> turn_answers turn = commands;
  turn_ids : ids_between lo hi (turn_events turn);
  turn_about : Forall (about_member (turn_members turn)) (turn_events turn);
  turn_rooms : rooms_valid (turn_members turn);
}.

Definition command_of (w : MediaWakeup) : list N :=
  match w with MediaCommand _ (Some command) => [v2.cmd_request_id command] | _ => [] end.

(** Cached results sit under their own ids, and the members' rooms are valid. *)
Definition media_wf (md : Media) : Prop := cached_under_id md ∧ rooms_valid (projection (shard md)).

Lemma media_command_rooms now md m c :
  rooms_valid (projection (shard md)) → rooms_valid (projection (shard (media_command now md m c).1.1)).
Proof.
  intros Hv. unfold media_command. destruct (command_cache _ !! _); [done|].
  pose proof (apply_command_rooms_valid now (shard md) c Hv) as H.
  destruct (apply_command now (shard md) c) as [s r]. by destruct (update_metrics _ _ _).
Qed.

Lemma media_select_wf st w st1 answers :
  media_wf (loop_media st) → media_select st w = Some (st1, answers) →
  media_wf (loop_media st1) ∧ next_event_id st1 = next_event_id st ∧
  v2.res_request_id <$> answers = command_of w.
Proof.
  intros [Hids Hrooms]. destruct w as [|now [c|]|now [[peer datagram]|]|now]; cbn; try done.
  - pose proof (media_command_ids now _ (loop_metrics st) c Hids) as Hc.
    pose proof (media_command_rooms now _ (loop_metrics st) c Hrooms) as Hr.
    destruct (media_command _ _ _ _) as [[md m] r]. destruct Hc as [Hmd Hres].
    intros [= <- <-]. cbn. by rewrite Hres.
  - by intros [= <- <-].
  - by intros [= <- <-].
  - by intros [= <- <-].
Qed.

Lemma media_drain_ok fuel sends st answers st' turn waiting :
  media_wf (loop_media st) → (0 < next_event_id st)%N →
  media_drain fuel sends st answers = Some (st', turn, waiting) →
  (next_event_id st + N.of_nat (length (turn_events turn)) + send_ids sends + 1 < u64_modulus)%N →
  media_wf (loop_media st') ∧
  turn_ok (next_event_id st) (next_event_id st') (v2.res_request_id <$> answers) turn ∧
  (next_event_id st <= next_event_id st'
     <= next_event_id st + N.of_nat (length (turn_events turn)) + send_ids sends + 1)%N.
Proof.
  intros [Hids Hrooms] Hc. unfold media_drain, drain_engine.
  destruct (drain_packets _ _) as [[e1 ps]|]; [|done]. cbn.
  destruct (drain_events _ _ _ _ _) as [[[[e2 c2] evs] b]|] eqn:Hd; [|done].
  intros [= <- <- _]. cbn. intros Hb.
  destruct (drain_events_spec _ _ _ _ _ _ _ _ _ Hd Hc Hb) as (Hc2 & Hbetween & Habout).
  split; [by split|]. split; [by split|done].
Qed.

Lemma media_drain_waiting fuel sends st answers st' turn :
  media_drain fuel sends st answers = Some (st', turn, true) →
  length (turn_events turn) = length sends ∧ Forall taken sends.
Proof.
  unfold media_drain, drain_engine. destruct (drain_packets _ _) as [[e1 ps]|]; [|done]. cbn.
  destruct (drain_events _ _ _ _ _) as [[[[e2 c2] evs] b]|] eqn:Hd; [|done].
  intros [= <- <- ->]. cbn. by eapply drain_events_waiting.
Qed.

(** ** The whole loop *)

(** The wake-ups that end the loop. *)
Definition ends (w : MediaWakeup) : bool :=
  match w with MediaStop | MediaCommand _ None => true | _ => false end.

(** The commands among some wake-ups. *)
Definition commands_in (ws : list (Others * MediaWakeup)) : list N := ws ≫= λ p, command_of p.2.

(** The commands received before the loop is left. *)
Fixpoint received (ws : list (Others * MediaWakeup)) : list N :=
  match ws with
  | [] => []
  | (_, w) :: ws' =>
      match w with MediaStop | MediaCommand _ None => [] | _ => command_of w ++ received ws' end
  end.

(** What the other shards have added by the time the loop is left. *)
Fixpoint seen (ws : list (Others * MediaWakeup)) : list Others :=
  match ws with
  | [] => []
  | (o, w) :: ws' => o :: match w with MediaStop | MediaCommand _ None => [] | _ => seen ws' end
  end.

Definition others_sum (f : Others → N) (os : list Others) : N := foldr (λ o n, f o + n)%N 0%N os.

(** The ids other shards draw around and during a turn. *)
Definition turn_other_ids (o : Others) : N := other_ids o + send_ids (event_sends o).

Definition event_ids (turns : list Turn) : list N := turns ≫= λ t, v2.event_request_id <$> turn_events t.

(** How far the loop can have moved the counter. *)
Definition ids_drawn (turns : list Turn) : N :=
  N.of_nat (foldr (λ t n, length (turn_events t) + 1 + n)%nat 0%nat turns).

Lemma media_select_ends st w : is_Some (media_select st w) ↔ ends w = false.
Proof.
  destruct w as [|now [c|]|now [[peer datagram]|]|now]; cbn; try (by split; [intros []|]); try (by split; eauto).
  destruct (media_command _ _ _ _) as [[md m] r]. by split; eauto.
Qed.

Lemma media_select_seen st o w ws :
  match media_select st w with
  | Some _ => seen ((o, w) :: ws) = o :: seen ws
  | None => seen ((o, w) :: ws) = [o]
  end.
Proof.
  destruct w as [|now [c|]|now [[peer datagram]|]|now]; cbn; try done.
  by destruct (media_command _ _ _ _) as [[md m] r].
Qed.

(** How far the loop has come when it stops where [how] says. *)
Lemma media_loop_progress fuel st ws st' turns how :
  media_loop fuel st ws = Some (st', turns, how) →
  Forall (λ p, ends p.2 = false) (take (length turns) ws) ∧
  match how with
  | Broken => ∃ o w, ws !! length turns = Some (o, w) ∧ ends w = true
  | Selecting => length turns = length ws
  | Sending => ∃ before turn o w, turns = before ++ [turn] ∧ ws !! length before = Some (o, w) ∧
      Forall taken (event_sends o) ∧ length (turn_events turn) = length (event_sends o)
  end.
Proof.
  revert st st' turns how. induction ws as [|[o w] ws IH]; intros st st' turns how; cbn [media_loop].
  { intros [= <- <- <-]. split; [constructor|done]. }
  pose proof (media_select_ends (interfere o st) w) as Hends.
  destruct (media_select (interfere o st) w) as [[st1 answers]|] eqn:Hsel.
  2:{ intros [= <- <- <-]. split; [constructor|]. exists o, w. split; [done|].
      destruct (ends w); [done|]. by destruct (proj2 Hends eq_refl). }
  assert (Hw : ends w = false) by (apply Hends; eauto).
  intros ([[st2 turn] []] & Hdr & Hl)%bind_Some.
  - injection Hl as <- <- <-. cbn [length take]. split; [by repeat constructor|].
    apply media_drain_waiting in Hdr as [? ?]. by exists [], turn, o, w.
  - apply bind_Some in Hl as ([[st3 turns'] how'] & Hl & [= <- <- <-]).
    destruct (IH _ _ _ _ Hl) as [Hf Hhow]. cbn [length take]. split; [by constructor|].
    destruct how'; cbn; [done|by f_equal|].
    destruct Hhow as (before & turn' & o' & w' & -> & ?). by exists (turn :: before), turn', o', w'.
Qed.

Lemma received_take n ws :
  Forall (λ p, ends p.2 = false) (take n ws) →
  n = length ws ∨ (∃ o w, ws !! n = Some (o, w) ∧ ends w = true) → received ws = commands_in (take n ws).
Proof.
  revert n. induction ws as [|[o w] ws IH]; intros [|n]; cbn; intros Hf Hn; try done.
  - destruct Hn as [?|(o' & w' & Heq & Hw)]; [done|]. injection Heq as -> ->. by destruct w' as [|now [c|]|now rc|now].
  - apply list.Forall_cons in Hf as [Hw Hf]. cbn in Hw. unfold commands_in. cbn.
    fold (commands_in (take n ws)). rewrite <- (IH n); [|done|naive_solver lia].
    by destruct w as [|now [c|]|now rc|now].
Qed.

Lemma ids_sorted lo mid hi evs rest :
  (mid <= hi)%N → ids_between lo mid evs → StronglySorted N.lt rest → Forall (λ i, hi <= i)%N rest →
  let ids := (v2.event_request_id <$> evs) ++ rest in
  StronglySorted N.lt ids ∧ (Forall (λ i, lo <= i)%N rest → Forall (λ i, lo <= i)%N ids).
Proof.
  intros Hmid [Hs Hf] Hrs Hrf. cbn. induction (v2.event_request_id <$> evs) as [|i js IH]; cbn; [done|].
  apply StronglySorted_inv in Hs as [Hs Hi]. apply list.Forall_cons in Hf as [Hlo Hf].
  destruct (IH Hs Hf) as [Hs' Hf']. split.
  - constructor; [done|]. apply list.Forall_app. split; [done|].
    eapply list.Forall_impl; [exact Hrf|]. cbn. lia.
  - intros Hr. constructor; [lia|by apply Hf'].
Qed.

Lemma media_loop_ok fuel st ws st' turns how :
  media_loop fuel st ws = Some (st', turns, how) →
  media_wf (loop_media st) → (0 < next_event_id st)%N →
  (next_event_id st + others_sum turn_other_ids (seen ws) + ids_drawn turns < u64_modulus)%N →
  (turns ≫= λ t, v2.res_request_id <$> turn_answers t) = commands_in (take (length turns) ws) ∧
  Forall (λ t, ∃ lo hi commands, turn_ok lo hi commands t ∧ (0 < lo)%N) turns ∧
  StronglySorted N.lt (event_ids turns) ∧ Forall (λ i, next_event_id st <= i)%N (event_ids turns).
Proof.
  revert st st' turns how. induction ws as [|[o w] ws IH]; intros st st' turns how.
  { intros [= <- <- <-] _ _ _. cbn. split_and!; [done|constructor..]. }
  cbn [media_loop]. pose proof (media_select_seen (interfere o st) o w ws) as Hseen.
  destruct (media_select (interfere o st) w) as [[st1 answers]|] eqn:Hsel.
  2:{ intros [= <- <- <-] _ _ _. cbn. split_and!; [done|constructor..]. }
  intros ([[st2 turn] waiting] & Hdr & Hloop)%bind_Some Hwf Hc Hb.
  rewrite Hseen in Hb. unfold ids_drawn in Hb. cbn [others_sum foldr] in Hb.
  fold (others_sum turn_other_ids (seen ws)) in Hb. unfold turn_other_ids at 1 in Hb.
  destruct (media_select_wf (interfere o st) _ _ _ Hwf Hsel) as (Hwf1 & Hid1 & Hans). cbn [interfere next_event_id] in Hid1.
  assert (Hturns : ∃ turns', turns = turn :: turns').
  { destruct waiting; [injection Hloop as _ <- _; eauto|].
    apply bind_Some in Hloop as ([[st3 turns'] how'] & _ & [= _ <- _]). eauto. }
  destruct Hturns as [turns' ->]. cbn [foldr] in Hb.
  unfold fetch_add in Hid1. cbn in Hid1. rewrite wrap64_small in Hid1 by (unfold is_u64; lia).
  destruct (media_drain_ok _ _ _ _ _ _ _ Hwf1 ltac:(lia) Hdr) as (Hwf2 & Hok & Hid2); [lia|].
  assert (Hrest : (turns' ≫= λ t, v2.res_request_id <$> turn_answers t) = commands_in (take (length turns') ws) ∧
    Forall (λ t, ∃ lo hi commands, turn_ok lo hi commands t ∧ (0 < lo)%N) turns' ∧
    StronglySorted N.lt (event_ids turns') ∧ Forall (λ i, next_event_id st2 <= i)%N (event_ids turns')).
  { destruct waiting.
    - injection Hloop as _ <- _. cbn. split_and!; [done|constructor..].
    - apply bind_Some in Hloop as ([[st3 turns3] how'] & Hl & [= _ <- _]).
      eapply IH; [exact Hl|done|lia|unfold ids_drawn; lia]. }
  destruct Hrest as (Ha & Ht & Hs & Hf).
  destruct (ids_sorted (next_event_id st1) (next_event_id st2) (next_event_id st2) (turn_events turn) (event_ids turns'))
    as [Hs' Hf']; [lia|apply Hok|done|done|].
  split_and!.
  - cbn. unfold commands_in. cbn. rewrite (turn_answered _ _ _ _ Hok), Hans. by f_equal.
  - constructor; [|done]. exists (next_event_id st1), (next_event_id st2), (v2.res_request_id <$> answers).
    split; [done|lia].
  - exact Hs'.
  - unfold event_ids. cbn. eapply list.Forall_impl; [apply Hf'; eapply list.Forall_impl; [exact Hf|]|]; cbn; lia.
Qed.

Lemma new_media_wf e : media_wf (new_media e).
Proof. split; [apply new_media_ids|apply empty_rooms_valid]. Qed.

(** The task waits for room in the events channel. *)
Definition at_send (task : TaskState) : bool := match task with InLoop _ sending => sending | Ended _ _ => false end.

(** C12: Over any run of a shard's loop, commands, datagrams, timeouts, full event channels and
    interference of the other shards, also between two ids of one drain, included: every command
    received is answered exactly once, in order, under its id, all of them unless the loop is
    left waiting for room for an event; the ids of the events grow; and every event decodes on
    the signaling side and concerns a client that is a member when it is sent, under its
    lifecycle. *)
Theorem media_loop_serves {room_laws : RoomIdLaws L} {text_laws : JsonTextLaws}
    fuel e m counter ws task turns :
  media_task fuel e m counter ws = Some (task, turns) →
  (0 < counter)%N → (counter + others_sum turn_other_ids (seen ws) + ids_drawn turns < u64_modulus)%N →
  (turns ≫= λ t, v2.res_request_id <$> turn_answers t) = commands_in (take (length turns) ws) ∧
  (at_send task = false → received ws = commands_in (take (length turns) ws)) ∧
  StronglySorted N.lt (event_ids turns) ∧
  ∀ t ev now c inst, t ∈ turns → ev ∈ turn_events t →
    ∃ k, decode_sfu_input now c inst (v2.mk_SfuToSignaling (Some (v2.MsgEvent ev))) =
           Ok (ssfu.InEvent c inst (ssfu.mk_Event (v2.event_request_id ev) k)) ∧
         concerns_member (turn_members t) k.
Proof.
  unfold media_task. intros ([[st turns'] how] & Hl & [= <- <-])%bind_Some Hc Hb.
  destruct (media_loop_ok _ _ _ _ _ _ Hl (new_media_wf e) Hc Hb) as (Ha & Ht & Hs & _).
  split_and!; [done| |done|].
  - intros Hsend. destruct (media_loop_progress _ _ _ _ _ _ Hl) as [Hf Hhow].
    apply received_take; [done|]. destruct how; [by right|by left|done].
  - intros t ev now c inst Hin Hev.
    rewrite list.Forall_forall in Ht. destruct (Ht _ Hin) as (lo & hi & cmds & [_ [_ Hids] Habout Hv] & Hpos).
    rewrite list.Forall_forall in Hids. rewrite list.Forall_forall in Habout. destruct (Habout _ Hev) as (kind & x & Hk & Hx).
    specialize (Hids (v2.event_request_id ev) (list_elem_of_fmap_2 _ _ _ Hev)).
    destruct ev as [id evk]. cbn in Hk, Hids. subst evk. apply (event_kind_accepted _ x); [done|done|cbn; lia].
Qed.

(** ** Metrics *)

(** The shard has published what it holds, and [rooms] and [clients] are the
    others'. *)
Definition loop_shares (st : LoopState) (rooms clients : N) : Prop :=
  published (loop_media st) ∧
  m_rooms (loop_metrics st) = wrap64 (room_count (loop_media st) + rooms) ∧
  m_clients (loop_metrics st) = wrap64 (client_count (loop_media st) + clients).

Lemma new_media_published e : published (new_media e).
Proof.
  unfold published, room_count, client_count, media_rooms, projection_rooms. cbn.
  by rewrite dom_empty_L, set_map_empty, size_empty, map_size_empty.
Qed.

Lemma interfere_shares o st rooms clients :
  loop_shares st rooms clients →
  loop_shares (interfere o st) (rooms + other_rooms o) (clients + other_clients o).
Proof.
  intros (Hp & Hr & Hc). split_and!; [done|..]; cbn; rewrite ?Hr, ?Hc, wrap64_add_l; f_equal; lia.
Qed.

Lemma media_select_shares st w st1 answers rooms clients :
  loop_shares st rooms clients → media_select st w = Some (st1, answers) → loop_shares st1 rooms clients.
Proof.
  intros (Hp & Hr & Hc). destruct w as [|now [c|]|now [[peer datagram]|]|now]; cbn; try done.
  - pose proof (media_command_shares now _ _ c _ _ Hp Hr Hc) as H.
    destruct (media_command _ _ _ _) as [[md m] r]. by intros [= <- <-].
  - by intros [= <- <-].
  - by intros [= <- <-].
  - by intros [= <- <-].
Qed.

Lemma media_drain_shares fuel sends st answers st' turn waiting rooms clients :
  loop_shares st rooms clients → media_drain fuel sends st answers = Some (st', turn, waiting) →
  loop_shares st' rooms clients.
Proof.
  intros Hs. unfold media_drain. destruct (drain_engine _ _ _ _ _); [|done]. by intros [= <- <- _].
Qed.

Lemma media_loop_shares fuel st ws st' turns how rooms clients :
  media_loop fuel st ws = Some (st', turns, how) → how ≠ Sending → loop_shares st rooms clients →
  loop_shares st' (rooms + others_sum other_rooms (seen ws)) (clients + others_sum other_clients (seen ws)).
Proof.
  intros Hl Hhow. revert st turns rooms clients Hl. induction ws as [|[o w] ws IH]; intros st turns rooms clients.
  { intros [= <- <- <-] H. cbn. by rewrite !N.add_0_r. }
  cbn [media_loop]. pose proof (media_select_seen (interfere o st) o w ws) as Hseen.
  intros Hl Hs%(interfere_shares o).
  destruct (media_select (interfere o st) w) as [[st1 answers]|] eqn:Hsel; rewrite Hseen; cbn.
  - apply bind_Some in Hl as ([[st2 turn] []] & Hdr & Hl); [by injection Hl as <- <- <-|].
    apply bind_Some in Hl as ([[st3 turns'] how'] & Hloop & [= <- <- <-]).
    rewrite !N.add_assoc. eapply IH; [exact Hloop|]. eapply media_drain_shares; [|exact Hdr].
    by eapply media_select_shares.
  - injection Hl as <- _ _. by rewrite !N.add_0_r.
Qed.

(** When a shard's task is over, its share has been withdrawn from the worker's metrics: they
    are what they were at its start plus what the other shards have added, whatever the shard's
    clients did. *)
Theorem media_task_leaves_no_share fuel e m counter ws e' m' turns :
  media_task fuel e m counter ws = Some (Ended e' m', turns) →
  is_u64 (m_rooms m) → is_u64 (m_clients m) →
  m_rooms m' = wrap64 (m_rooms m + others_sum other_rooms (seen ws)) ∧
  m_clients m' = wrap64 (m_clients m + others_sum other_clients (seen ws)).
Proof.
  unfold media_task. intros ([[st turns'] how] & Hl & H)%bind_Some Hr Hc. destruct how; simplify_eq.
  destruct (media_loop_shares _ _ _ _ _ _ (m_rooms m) (m_clients m) Hl) as (Hp & Hr' & Hc'); [done| |].
  { split_and!; cbn; [apply new_media_published|..].
    all: unfold room_count, client_count, media_rooms, projection_rooms; cbn.
    - by rewrite dom_empty_L, set_map_empty, size_empty, wrap64_small.
    - by rewrite map_size_empty, wrap64_small. }
  unfold media_stop. cbn. rewrite Hp. cbn. split; by apply fetch_sub_share.
Qed.

(** ** Termination *)

Section ending.
Context {laws : SfuPollLaws}.

Lemma media_drain_settles sends st answers :
  is_u64 (next_event_id st) → ∃ r, settles (λ fuel, media_drain fuel sends st answers) r.
Proof.
  intros Hu. destruct (drain_engine_terminates sends (projection (shard (loop_media st)))
    (engine (shard (loop_media st))) (next_event_id st) Hu) as [d Hd].
  eexists. eapply (settles_bind _ (λ _ d, Some _)); [exact Hd|apply settles_ret].
Qed.

Lemma media_loop_settles st ws : ∃ r, settles (λ fuel, media_loop fuel st ws) r.
Proof.
  revert st. induction ws as [|[o w] ws IH]; intros st; cbn [media_loop]; [eexists; apply settles_ret|].
  assert (Hi : is_u64 (next_event_id (interfere o st))) by apply fetch_add_u64.
  destruct (media_select (interfere o st) w) as [[st1 answers]|] eqn:Hsel; [|eexists; apply settles_ret].
  assert (Hu1 : is_u64 (next_event_id st1)).
  { revert Hsel. destruct w as [|now [c|]|now [[peer datagram]|]|now]; cbn [media_select]; try done;
      [destruct (media_command _ _ _ _) as [[md m0] r]|..]; by intros [= <- _]. }
  destruct (media_drain_settles (event_sends o) st1 answers Hu1) as [[[st2 turn] waiting] Hd].
  destruct (IH st2) as [[[st3 turns] how] Hl].
  exists (if waiting then (st2, [turn], Sending) else (st3, turn :: turns, how)). eapply (settles_bind _ (λ n p, let '(s2, t, b) := p in
    if b : bool then Some (s2, [t], Sending)
    else '(s3, ts, h) ← media_loop n s2 ws; Some (s3, t :: ts, h))); [exact Hd|].
  destruct waiting; [apply settles_ret|].
  eapply (settles_bind _ (λ _ p, let '(s3, ts, h) := p in Some (s3, turn :: ts, h))); [exact Hl|apply settles_ret].
Qed.

(** C18: Whatever wakes it up, what a shard's task does between two waits is finite, and it can
    only be in three places: over, because a wake-up told it to end; in its select, after all
    wake-ups so far, none of which told it to end; or at a send, where a stop is not seen, after
    the event channel has taken every event of the turn that it had room for. *)
Theorem media_task_ends e m counter ws :
  ∃ task turns, settles (λ fuel, media_task fuel e m counter ws) (task, turns) ∧
  match task with
  | Ended _ _ => ∃ o w, ws !! length turns = Some (o, w) ∧ ends w = true
  | InLoop _ false => length turns = length ws ∧ Forall (λ p, ends p.2 = false) ws
  | InLoop _ true => ∃ before turn o w, turns = before ++ [turn] ∧ ws !! length before = Some (o, w) ∧
      Forall taken (event_sends o) ∧ length (turn_events turn) = length (event_sends o)
  end.
Proof.
  destruct (media_loop_settles (mk_LoopState (new_media e) m counter) ws) as [[[st turns] how] Hl].
  eexists _, turns. split.
  - eapply (settles_bind _ (λ _ p, let '(st, turns, how) := p in Some _)); [exact Hl|apply settles_ret].
  - destruct Hl as [n Hn]. specialize (Hn n (le_n _)).
    destruct (media_loop_progress _ _ _ _ _ _ Hn) as [Hf Hhow]. destruct how; cbn; [done| |done].
    split; [done|]. by rewrite Hhow, take_ge in Hf by lia.
Qed.
End ending.
End loop_spec.

(** ** Witnesses *)

Section witnesses.
#[local] Existing Instance sample_room_id.
#[local] Existing Instance sample_enums.

(** A turn with room for one event. *)
Definition idle : Others := mk_Others 0 0 0 [Taken 0].

Definition offer_command (rid : N) : v2.SfuCommand :=
  v2.mk_SfuCommand rid
    (Some (v2.CmdSignal (v2.mk_SfuSignal (room_id_to_bytes room_a) 5 1 1 "offer" (Some 70%N)))).

Definition sample_wakeups : list (Others * MediaWakeup) :=
  [(idle, MediaCommand 1 (Some (join_command 1 room_a 5 1 1)));
   (mk_Others 4 1 2 [Taken 2], MediaCommand 2 (Some (offer_command 2)));
   (idle, MediaPacket 3 (Some (9%N, [Byte.x01]))); (idle, MediaTimeout 4); (idle, MediaPacket 5 None);
   (idle, MediaCommand 6 (Some (v2.mk_SfuCommand 3 (Some (v2.CmdLeave
      (v2.mk_LeaveMember (room_id_to_bytes room_a) 5 1 1 0))))));
   (idle, MediaPacket 7 (Some (9%N, [Byte.x01]))); (idle, MediaStop)].

Abbreviation sample_run := (media_task 5 sample_engine (mk_Metrics 0 0) 10 sample_wakeups).

Definition ended_metrics (task : TaskState) : option Metrics :=
  match task with Ended _ m => Some m | InLoop _ _ => None end.

Lemma sample_run_some : ∃ e m turns, sample_run = Some (Ended e m, turns) ∧
  event_ids turns = [14; 17]%N ∧ m = mk_Metrics 1 2 ∧ ids_drawn turns = 9%N.
Proof.
  assert (H : (λ r, (event_ids r.2, ended_metrics r.1, ids_drawn r.2)) <$> sample_run =
    Some ([14; 17], Some (mk_Metrics 1 2), 9)%N) by (vm_compute; reflexivity).
  destruct sample_run as [[[st b|e m] turns]|]; [discriminate H| |discriminate H]. injection H as He Hm Hd. eauto 8.
Qed.

Lemma media_loop_serves_witness :
  ∃ e m turns, sample_run = Some (Ended e m, turns) ∧ received sample_wakeups = [1; 2; 3]%N ∧
    (turns ≫= λ t, v2.res_request_id <$> turn_answers t) = [1; 2; 3]%N.
Proof.
  destruct sample_run_some as (e & m & turns & Hr & Hids & Hm & Hd). exists e, m, turns.
  split_and!; [exact Hr|reflexivity|].
  destruct (media_loop_serves (text_laws := sample_text_laws) 5 sample_engine (mk_Metrics 0 0) 10
    sample_wakeups (Ended e m) turns Hr) as (Ha & Hrec & _); [reflexivity|rewrite Hd; reflexivity|].
  rewrite Ha, <- (Hrec eq_refl). reflexivity.
Defined.

Lemma media_task_leaves_no_share_witness :
  ∃ e m turns, sample_run = Some (Ended e m, turns) ∧ m_rooms m = 1%N.
Proof.
  destruct sample_run_some as (e & m & turns & Hr & _). exists e, m, turns. split; [exact Hr|].
  exact (proj1 (media_task_leaves_no_share 5 sample_engine (mk_Metrics 0 0) 10 sample_wakeups e m turns
    Hr eq_refl eq_refl)).
Defined.

(** The event channel is full when the failure is to be sent, and the stop goes unseen. *)
Definition full_wakeups : list (Others * MediaWakeup) :=
  [(idle, MediaCommand 1 (Some (join_command 1 room_a 5 1 1)));
   (mk_Others 0 0 0 [], MediaPacket 3 (Some (9%N, [Byte.x01]))); (idle, MediaStop)].

Example full_channel_hides_the_stop :
  (λ r, (match r.1 with InLoop _ b => b | Ended _ _ => false end, length r.2)) <$>
    media_task 5 sample_engine (mk_Metrics 0 0) 10 full_wakeups = Some (true, 2%nat).
Proof. vm_compute. reflexivity. Qed.
End witnesses.
