(* ===== verification/SfuSession.v ===== *)
(** * The worker's session with signaling ([run] and [run_session] of
      [src/src/sfu_server.rs])

    Registration, the replay of unacknowledged events, the health reports, the
    loop that relays events and answers commands, and the reconnection delays.
    The events not yet acknowledged outlive a session. *)

From S2P Require Import Prelude Wire RoomIds SfuShard SfuEvents.

Definition INITIAL_RECONNECT_DELAY : N := 250.
Definition MAX_RECONNECT_DELAY : N := 10000.

(** [std::net::IpAddr]. *)
Inductive IpAddr := V4 (bits : N) | V6 (bits : N).

(** [Config]. *)
Record Config := mk_Config {
  host_ip : IpAddr;
  media_ip : IpAddr;
  media_port_min : N;
  media_port_max : N;
  grpc_url : string;
  insecure_tls : bool;
  max_rooms : N;
  max_clients : N;
  instance_id : string;
}.

(** [capacity]. *)
Definition capacity (config : Config) : v2.SfuCapacity :=
  v2.mk_SfuCapacity (max_rooms config) (max_clients config).

(** The two [ensure!]s that open [run]. *)
Definition check_config (config : Config) : result unit string :=
  ensure? (media_port_min config <=? media_port_max config)%N else "media port range is empty" in
  ensure? ((0 <? max_rooms config) && (0 <? max_clients config))%N
    else "SFU capacity must be nonzero" in
  Ok tt.

(** The ports of the media sockets, one shard each. *)
Definition media_ports (config : Config) : list N :=
  (λ i, media_port_min config + N.of_nat i)%N <$>
    seq 0 (N.to_nat (media_port_max config + 1 - media_port_min config)).

(** [decode_registration]: the health interval in milliseconds and the resumed
    flag. *)
Definition decode_registration (response : v2.SignalingToSfu) (expected_request_id : N)
  : result (N * bool) string :=
  let? registered := match v2.to_sfu response with
                     | Some (v2.MsgRegistered response) => Ok response
                     | _ => Err "expected RegisterSfuResponse"
                     end in
  ensure? bool_decide (v2.resp_request_id <$> v2.rsp_context registered = Some expected_request_id)
    else "registration response request_id mismatch" in
  match v2.rsp_result registered with
  | Some (v2.Success r) => Ok (N.max (v2.sr_health_interval_ms r) 1, v2.sr_resumed r)
  | Some (v2.Failed error) => Err ("SFU registration rejected: " +:+ v2.err_reason error)
  | None => Err "empty SFU registration response"
  end.

Section session.
Context `{L : RoomIdLib, P : v2.ProtoEnums, SL : SdpLib, E : !SfuLib, J : !SignalJson,
          LR : LeaveReasonDebug, HO : HashOrder}.

(** What a session shares with the rest of the worker, and what it has sent. *)
Record Link := mk_Link {
  pending_events : gmap N v2.SfuEvent;
  event_counter : N;
  link_worker : Worker;
  outgoing : list v2.ToSignaling;
}.

Abbreviation M := (stateful Link string).

(** [outgoing_tx.send(..).await?]; [open] is whether the stream still reads. *)
Definition send (open : bool) (message : v2.ToSignaling) : M unit :=
  λ l, if open
       then (mk_Link (pending_events l) (event_counter l) (link_worker l) (outgoing l ++ [message]), Ok tt)
       else (l, Err "channel closed").

Definition fresh_event_id : M N :=
  λ l, match next_nonzero (event_counter l) with
       | Some (id, next) => (mk_Link (pending_events l) next (link_worker l) (outgoing l), Ok id)
       | None => (l, Err "unreachable")
       end.

Definition update_pending (f : gmap N v2.SfuEvent → gmap N v2.SfuEvent) : M unit :=
  λ l, (mk_Link (f (pending_events l)) (event_counter l) (link_worker l) (outgoing l), Ok tt).

(** The fresh outgoing channel of a session. *)
Definition new_channel : M unit :=
  λ l, (mk_Link (pending_events l) (event_counter l) (link_worker l) [], Ok tt).

(** [queue_health]: pending first, then sent. *)
Definition queue_health (config : Config) (open : bool) : M unit :=
  let! request_id := fresh_event_id in
  λ l,
    let event := v2.mk_SfuEvent request_id (Some (v2.EvHealth (v2.mk_SfuHealth
      (as_i32 v2.StateReady) (Some (capacity config))
      (m_rooms (metrics (link_worker l))) (m_clients (metrics (link_worker l)))))) in
    (let! queued := update_pending (insert request_id event) in
     send open (v2.MsgEvent event)) l.

(** [for event in pending_events.values()]. *)
Fixpoint resend (open : bool) (events : list v2.SfuEvent) : M unit :=
  match events with
  | [] => lift (Ok tt)
  | event :: events' => let! sent := send open (v2.MsgEvent event) in resend open events'
  end.

(** The part of [run_session] before its loop.  [connected] and [opened] are the
    outcomes of [connect] and of the call, [reply] the first message received. *)
Definition open_session (config : Config) (connected opened : result unit string)
    (reply : result (option v2.SignalingToSfu) string) (open : bool) : M (N * bool) :=
  let! c := lift connected in
  let! channel := new_channel in
  let! request_id := fresh_event_id in
  let! registering := send true (v2.MsgRegister (v2.mk_RegisterSfu
    (Some (v2.mk_RequestContext (as_i32 v2.Sfu) (instance_id config) request_id))
    (Some (capacity config)))) in
  let! o := lift opened in
  let! reply := lift reply in
  let! reply := lift (ok_or reply "SFU session closed before registration response") in
  let! registered := lift (decode_registration reply request_id) in
  let! replayed := λ l, resend open (hash_order _ (map_to_list (pending_events l)).*2) l in
  let! healthy := queue_health config open in
  lift (Ok registered).

(** What ends one wait of the loop's [select!]. *)
Inductive Turn :=
  | StopChanged
  | HealthTick (open : bool)
  | FromShard (event : option v2.SfuEvent) (open : bool)
  | FromSignaling (message : result (option v2.SignalingToSfu) string) (now : Instant) (open : bool).

(** One turn; [Some b] is [return Ok(b)]. *)
Definition session_turn (config : Config) (t : Turn) : M (option bool) :=
  match t with
  | StopChanged => lift (Ok (Some true))
  | HealthTick open => let! healthy := queue_health config open in lift (Ok None)
  | FromShard None _ => lift (Ok (Some true))
  | FromShard (Some event) open =>
      let! queued := update_pending (insert (v2.event_request_id event) event) in
      let! sent := send open (v2.MsgEvent event) in
      lift (Ok None)
  | FromSignaling message now open =>
      let! message := lift message in
      match message with
      | None => lift (Ok (Some false))
      | Some message =>
          match v2.to_sfu message with
          | Some (v2.MsgCommand command) =>
              λ l,
                let '(w, r) := dispatch_command now (link_worker l) command in
                (let! sent := send open (v2.MsgCommandResult r) in lift (Ok None))
                  (mk_Link (pending_events l) (event_counter l) w (outgoing l))
          | Some (v2.MsgEventAck request_id) =>
              let! acknowledged := update_pending (delete request_id) in lift (Ok None)
          | Some (v2.MsgRegistered _) => lift (Err "duplicate SFU registration response")
          | None => lift (Err "empty signaling-to-SFU message")
          end
      end
  end.

(** The loop; [None] is a session still open after these turns. *)
Fixpoint session_loop (config : Config) (ts : list Turn) : M (option bool) :=
  match ts with
  | [] => lift (Ok None)
  | t :: ts' =>
      let! ended := session_turn config t in
      match ended with
      | Some b => lift (Ok (Some b))
      | None => session_loop config ts'
      end
  end.

(** [run_session]. *)
Definition run_session (config : Config) (connected opened : result unit string)
    (reply : result (option v2.SignalingToSfu) string) (open : bool) (ts : list Turn) : M (option bool) :=
  let! registered := open_session config connected opened reply open in
  session_loop config ts.

(** ** Reconnecting *)

(** [(reconnect_delay * 2).min(MAX_RECONNECT_DELAY)], in milliseconds. *)
Definition next_delay (delay : N) : N := N.min (delay * 2) MAX_RECONNECT_DELAY.

(** The loop of [run], given how each session ends and whether the stop signal
    interrupts the sleep after it: the delays slept. *)
Fixpoint reconnect (sessions : list (result bool string * bool)) (delay : N) : list N :=
  match sessions with
  | [] => []
  | (Ok true, _) :: _ => []
  | (_, stopped) :: sessions' =>
      delay :: (if stopped then [] else reconnect sessions' (next_delay delay))
  end.
End session.
