(* ===== verification/SfuSessionSpec.v ===== *)
(** * What the worker's session promises

    An event is pending from the moment it leaves its shard until signaling
    acknowledges it, whatever happens to the sessions; a new session sends all
    pending events again; every command is answered under its own id. *)

From S2P Require Import Prelude Wire RoomIds Samples GrpcServer SfuShard SfuEvents SfuLoop.
From S2P Require Import SfuShardSpec SfuWorkerSpec SfuEventsSpec SfuSession SfuSamples.

(** ** Registration *)

(** What the worker makes of each registration reply the signaling service can send. *)
Theorem registration_reply_decoded `{L : RoomIdLib, P : v2.ProtoEnums} output m expected :
  encode_sfu_output output = Some m →
  decode_registration m expected =
    match output with
    | ssfu.OutRegistered _ request_id health_interval_ms resumed =>
        if (request_id =? expected)%N then Ok (N.max health_interval_ms 1, resumed)
        else Err "registration response request_id mismatch"
    | ssfu.OutRegistrationError _ request_id error =>
        if (request_id =? expected)%N then Err ("SFU registration rejected: " +:+ ssfu.e_reason error)
        else Err "registration response request_id mismatch"
    | _ => Err "expected RegisterSfuResponse"
    end.
Proof.
  destruct output as [c rid ms res|c rid e|c cmd|c rid|c]; cbn; intros [= <-]; try done;
    unfold decode_registration; cbn; unfold response_context; cbn;
    (destruct (N.eqb_spec rid expected) as [->|Hne];
      [by rewrite bool_decide_true|by rewrite bool_decide_false by congruence]).
Qed.

(** ** Reconnection *)

(** The delays between sessions double from a quarter of a second up to ten seconds, and stay
    there. *)
Theorem reconnect_delays sessions :
  Forall (λ s : result bool string * bool, s.1 ≠ Ok true ∧ s.2 = false) sessions →
  reconnect sessions INITIAL_RECONNECT_DELAY =
    (λ n, N.min (250 * 2 ^ N.of_nat n) MAX_RECONNECT_DELAY)%N <$> seq 0 (length sessions).
Proof.
  intros Hall.
  assert (H : ∀ k, reconnect sessions (N.min (250 * 2 ^ N.of_nat k) MAX_RECONNECT_DELAY) =
    (λ n, N.min (250 * 2 ^ N.of_nat n) MAX_RECONNECT_DELAY)%N <$> seq k (length sessions)); [|apply (H 0%nat)].
  induction Hall as [|[s stopped] sessions [Hs Hst] _ IH]; intros k; cbn in *; [done|]. subst stopped.
  assert (Hn : next_delay (N.min (250 * 2 ^ N.of_nat k) MAX_RECONNECT_DELAY) =
    N.min (250 * 2 ^ N.of_nat (S k)) MAX_RECONNECT_DELAY).
  { unfold next_delay, MAX_RECONNECT_DELAY. rewrite Nat2N.inj_succ, N.pow_succ_r'. lia. }
  rewrite Hn, IH. destruct s as [[]|]; done.
Qed.

Section session_spec.
Context `{L : RoomIdLib, P : v2.ProtoEnums, SL : SdpLib, E : !SfuLib, J : !SignalJson,
          LR : LeaveReasonDebug, HO : HashOrder}.

(** ** Pending events *)

Definition acks (id : N) (t : Turn) : bool :=
  match t with
  | FromSignaling (Ok (Some (v2.mk_SignalingToSfu (Some (v2.MsgEventAck a))))) _ _ => (a =? id)%N
  | _ => false
  end.

Definition brings (id : N) (t : Turn) : bool :=
  match t with FromShard (Some ev) _ => (v2.event_request_id ev =? id)%N | _ => false end.

(** Event [id] is pending, and its id will not be given to a health report
    within the next [n] turns. *)
Definition kept (id : N) (ev : v2.SfuEvent) (n : nat) (l : Link) : Prop :=
  pending_events l !! id = Some ev ∧ (id < event_counter l)%N ∧
  (event_counter l + N.of_nat n < u64_modulus)%N.

Lemma send_kept id ev n open m :
  triple (kept id ev n) (send open m) (λ _, kept id ev n) (λ _, kept id ev n).
Proof. intros l Hl. unfold send. by destruct open. Qed.

Lemma queue_health_kept config id ev n open :
  triple (kept id ev (S n)) (queue_health config open) (λ _, kept id ev n) (λ _, kept id ev n).
Proof.
  intros l (Hp & Hlt & Hb). unfold queue_health, st_bind, fresh_event_id.
  rewrite next_nonzero_spec by (unfold is_u64; lia). destruct (N.eqb_spec (event_counter l) 0); [lia|].
  rewrite wrap64_small by (unfold is_u64; lia). cbn [update_pending].
  assert (Hk : ∀ x, kept id ev n (mk_Link (<[event_counter l := x]> (pending_events l)) (event_counter l + 1)
    (link_worker l) (outgoing l))).
  { intros x. split_and!; cbn; [|lia|lia]. rewrite lookup_insert_ne; [done|]. lia. }
  apply (send_kept _ _ _ open (v2.MsgEvent _)). apply Hk.
Qed.

Lemma kept_weaken id ev n l : kept id ev (S n) l → kept id ev n l.
Proof. intros (? & ? & ?). split_and!; [done|done|lia]. Qed.

Lemma session_turn_kept config id ev n t :
  acks id t = false → brings id t = false →
  triple (kept id ev (S n)) (session_turn config t) (λ _, kept id ev n) (λ _, kept id ev n).
Proof.
  intros Ha Hb. destruct t as [|open|[e|] open|m now open]; cbn [session_turn].
  - apply triple_lift. apply kept_weaken.
  - eapply triple_bind; [apply queue_health_kept|]. intros ?. by apply triple_lift.
  - eapply (triple_bind _ (λ _, kept id ev n)).
    + intros l [Hp Hl]%kept_weaken. cbn in Hb. bool_to_prop. split; [|exact Hl]. cbn.
      by rewrite lookup_insert_ne.
    + intros ?. eapply triple_bind; [apply send_kept|]. intros ?. by apply triple_lift.
  - apply triple_lift. apply kept_weaken.
  - intros l Hl%kept_weaken. rewrite st_bind_lift. destruct m as [[[[[r|c|a]|]]|]|e]; cbn in Ha; try exact Hl.
    + cbn [v2.to_sfu]. destruct (dispatch_command now (link_worker l) c) as [w r].
      apply (triple_bind (kept id ev n) (λ _, kept id ev n)); [apply send_kept| |exact Hl].
      intros ?. by apply triple_lift.
    + cbn [v2.to_sfu]. unfold st_bind, update_pending, lift. destruct Hl as [Hp Hl].
      bool_to_prop. split; [|exact Hl]. cbn. by rewrite lookup_delete_ne.
Qed.

Lemma kept_mono id ev m n l : (n ≤ m)%nat → kept id ev m l → kept id ev n l.
Proof. intros Hle (? & ? & ?). split_and!; [done|done|lia]. Qed.

Lemma session_loop_kept config id ev ts k :
  Forall (λ t, acks id t = false ∧ brings id t = false) ts →
  triple (kept id ev (length ts + k)) (session_loop config ts) (λ _, kept id ev k) (λ _, kept id ev k).
Proof.
  intros Hall. induction Hall as [|t ts [Ha Hb] _ IH]; cbn [session_loop length Nat.add]; [by apply triple_lift|].
  eapply (triple_bind _ (λ _, kept id ev (length ts + k))).
  - eapply triple_weaken; [by apply (session_turn_kept config id ev (length ts + k))|done|done|].
    intros e l. apply kept_mono. lia.
  - intros [b|]; [|exact IH]. apply triple_lift. intros l. apply kept_mono. lia.
Qed.

(** An event taken from a shard stays in the pending map through every later turn of the
    session, until an acknowledgement of its id arrives. *)
Theorem events_pending_until_acknowledged config ev open l ts :
  let id := v2.event_request_id ev in
  let l1 := (session_turn config (FromShard (Some ev) open) l).1 in
  (id < event_counter l)%N → (event_counter l + N.of_nat (length ts) < u64_modulus)%N →
  Forall (λ t, acks id t = false ∧ brings id t = false) ts →
  pending_events l1 !! id = Some ev ∧
  pending_events (session_loop config ts l1).1 !! id = Some ev.
Proof.
  intros id l1 Hid Hb Hall.
  assert (H1 : kept id ev (length ts) l1).
  { unfold l1. cbn. unfold st_bind, send, lift. cbn.
    destruct open; (split_and!; cbn; [by rewrite lookup_insert_eq|done|done]). }
  split; [apply H1|].
  apply (kept_mono _ _ _ (length ts + 0)) in H1; [|lia].
  pose proof (session_loop_kept config id ev ts 0 Hall l1 H1) as H.
  destruct (session_loop config ts l1) as [l2 [|]]; apply H.
Qed.

(** ** A new session *)

Lemma resend_ok open evs l l' :
  resend open evs l = (l', Ok tt) →
  l' = mk_Link (pending_events l) (event_counter l) (link_worker l) (outgoing l ++ (v2.MsgEvent <$> evs)).
Proof.
  revert l. induction evs as [|ev evs IH]; intros l; cbn [resend].
  - intros [= <-]. cbn. rewrite app_nil_r. by destruct l.
  - unfold st_bind, send. destruct open; [|done]. intros ->%IH. cbn. by rewrite <- app_assoc.
Qed.

Lemma st_bind_inv {S F A B} (m : stateful S F A) (k : A → stateful S F B) s s' b :
  st_bind m k s = (s', Ok b) → ∃ a s1, m s = (s1, Ok a) ∧ k a s1 = (s', Ok b).
Proof. unfold st_bind. destruct (m s) as [s1 [a|e]]; [eauto|done]. Qed.

Lemma lift_inv {S F A} (r : result A F) (s s' : S) a :
  lift r s = (s', Ok a) → s' = s ∧ r = Ok a.
Proof. by intros [= -> ->]. Qed.

Lemma queue_health_ok config open l l' :
  queue_health config open l = (l', Ok tt) →
  ∃ id health, v2.event_request_id health = id ∧
    pending_events l' = <[id := health]> (pending_events l) ∧
    outgoing l' = outgoing l ++ [v2.MsgEvent health].
Proof.
  unfold queue_health. intros (id & l1 & Hf & H)%st_bind_inv.
  apply st_bind_inv in H as (? & l2 & [= <- _] & H).
  unfold fresh_event_id in Hf. destruct (next_nonzero _) as [[id' c]|]; [|done]. injection Hf as <- <-.
  unfold send in H. destruct open; [|done]. injection H as <-.
  eexists _, _. split; [|split; reflexivity]. reflexivity.
Qed.

(** A session that opens has sent, after the registration, every event still pending, and
    then a fresh health report, and nothing else. *)
Lemma open_session_sends {laws : HashOrderLaws HO} config connected opened reply open l l' reg :
  open_session config connected opened reply open l = (l', Ok reg) →
  ∃ registration events health,
    outgoing l' = v2.MsgRegister registration :: (v2.MsgEvent <$> events) ++ [v2.MsgEvent health] ∧
    events ≡ₚ (map_to_list (pending_events l)).*2 ∧
    pending_events l' = <[v2.event_request_id health := health]> (pending_events l) ∧
    ∃ m ctx, reply = Ok (Some m) ∧ v2.reg_context registration = Some ctx ∧
      decode_registration m (v2.rc_request_id ctx) = Ok reg.
Proof.
  unfold open_session. intros (c & l0 & [-> _]%lift_inv & H)%st_bind_inv.
  apply st_bind_inv in H as (? & l1 & [= <- _] & H).
  apply st_bind_inv in H as (id & l2 & Hf & H).
  apply st_bind_inv in H as (? & l3 & [= <- _] & H).
  apply st_bind_inv in H as (o & l4 & [-> _]%lift_inv & H).
  apply st_bind_inv in H as (r & l5 & [-> Hr]%lift_inv & H).
  apply st_bind_inv in H as (m & l6 & [-> Hm]%lift_inv & H).
  apply st_bind_inv in H as (reg' & l7 & [-> Hd]%lift_inv & H).
  apply st_bind_inv in H as ([] & l8 & Hre & H).
  apply st_bind_inv in H as ([] & l9 & Hh & [-> [= ->]]%lift_inv).
  unfold fresh_event_id in Hf. destruct (next_nonzero _) as [[id' c']|]; [|done]. injection Hf as <- <-.
  apply resend_ok in Hre. cbn in Hre. subst l8.
  apply queue_health_ok in Hh as (hid & health & Hid & Hp & Ho). cbn in Hp, Ho.
  eexists _, _, health. split_and!; [exact Ho|apply hash_order_perm|by rewrite Hp, Hid|].
  destruct r as [m'|]; [|done]. injection Hm as ->. eexists m, _. by split_and!.
Qed.

(** ** Several sessions *)

(** One attempt of the reconnection loop: the outcomes of connecting and of the
    call, the first message received, whether the stream reads, and the turns. *)
Record Attempt := mk_Attempt {
  at_connected : result unit string;
  at_opened : result unit string;
  at_reply : result (option v2.SignalingToSfu) string;
  at_open : bool;
  at_turns : list Turn;
}.

Definition open_attempt (config : Config) (a : Attempt) : stateful Link string (N * bool) :=
  open_session config (at_connected a) (at_opened a) (at_reply a) (at_open a).

Definition run_attempts (config : Config) (l : Link) (attempts : list Attempt) : Link :=
  foldl (λ l a, (run_session config (at_connected a) (at_opened a) (at_reply a) (at_open a) (at_turns a) l).1)
    l attempts.

(** The ids an attempt can draw: one to register, one for each health report. *)
Definition draws (a : Attempt) : nat := S (S (length (at_turns a))).

Lemma fresh_event_id_kept id ev n :
  triple (kept id ev (S n)) fresh_event_id (λ _, kept id ev n) (λ _, kept id ev n).
Proof.
  intros l (Hp & Hlt & Hb). unfold fresh_event_id.
  rewrite next_nonzero_spec by (unfold is_u64; lia). destruct (N.eqb_spec (event_counter l) 0); [lia|].
  rewrite wrap64_small by (unfold is_u64; lia). split_and!; cbn; [done|lia|lia].
Qed.

Lemma resend_kept id ev n open events :
  triple (kept id ev n) (resend open events) (λ _, kept id ev n) (λ _, kept id ev n).
Proof.
  induction events as [|e events IH]; cbn [resend]; [by apply triple_lift|].
  eapply triple_bind; [apply send_kept|]. by intros ?.
Qed.

(** A failure before the first id is drawn, too, keeps the event. *)
Lemma open_attempt_kept config id ev n a :
  triple (kept id ev (S (S n))) (open_attempt config a) (λ _, kept id ev n) (λ _, kept id ev n).
Proof.
  assert (Hlift : ∀ {A} (r : result A string) m, (n ≤ m)%nat →
    triple (kept id ev m) (lift r) (λ _, kept id ev m) (λ _, kept id ev n)).
  { intros A r m Hm. apply triple_lift. intros l Hl. destruct r; [done|]. by eapply kept_mono. }
  assert (Hfail : ∀ {A} (m : stateful Link string A), triple (kept id ev (S n)) m (λ _, kept id ev (S n)) (λ _, kept id ev (S n)) →
    triple (kept id ev (S n)) m (λ _, kept id ev (S n)) (λ _, kept id ev n)).
  { intros A m Hm. eapply triple_weaken; [exact Hm|done|done|]. intros ? l. apply kept_weaken. }
  unfold open_attempt, open_session.
  eapply triple_bind; [apply Hlift; lia|intros _c].
  eapply (triple_bind _ (λ _, kept id ev (S (S n)))); [by intros l Hl|intros _ch].
  eapply (triple_bind _ (λ _, kept id ev (S n))).
  { eapply triple_weaken; [apply (fresh_event_id_kept id ev (S n))|done|done|]. intros ? l. apply kept_weaken. }
  intros rid. eapply triple_bind; [apply Hfail, send_kept|intros _s].
  eapply triple_bind; [apply Hlift; lia|intros _o].
  eapply triple_bind; [apply Hlift; lia|intros r].
  eapply triple_bind; [apply Hlift; lia|intros m].
  eapply triple_bind; [apply Hlift; lia|intros reg].
  eapply (triple_bind _ (λ _, kept id ev (S n))); [|intros _r].
  { intros l. apply (Hfail _ _ (resend_kept _ _ _ _ _)). }
  eapply triple_bind; [apply queue_health_kept|intros _h]. by apply triple_lift.
Qed.

Lemma run_attempts_kept config id ev n attempts l :
  Forall (λ a, Forall (λ t, acks id t = false ∧ brings id t = false) (at_turns a)) attempts →
  kept id ev (n + sum_list (draws <$> attempts)) l → kept id ev n (run_attempts config l attempts).
Proof.
  intros Hall. revert l. induction Hall as [|a attempts Ha _ IH]; intros l Hl; cbn in *.
  - by rewrite Nat.add_0_r in Hl.
  - apply IH. unfold run_session. set (k := (n + sum_list (draws <$> attempts))%nat).
    assert (Hrun : triple (kept id ev (length (at_turns a) + k + 2))
      (st_bind (open_attempt config a) (λ _, session_loop config (at_turns a)))
      (λ _, kept id ev k) (λ _, kept id ev k)).
    { eapply (triple_bind _ (λ _, kept id ev (length (at_turns a) + k))).
      - eapply triple_weaken; [apply (open_attempt_kept config id ev (length (at_turns a) + k))| |done|].
        + intros l'. apply kept_mono. lia.
        + intros e l'. apply kept_mono. lia.
      - intros _. by apply session_loop_kept. }
    assert (Hk : kept id ev (length (at_turns a) + k + 2) l).
    { eapply kept_mono; [|exact Hl]. unfold k, draws. lia. }
    specialize (Hrun l Hk). unfold open_attempt in Hrun. by destruct (st_bind _ _ l) as [l' [|]].
Qed.

(** C34: Through any number of sessions, failed connections included, an event that is never
    acknowledged stays pending, and every session that opens sends it. *)
Theorem events_survive_reconnection {laws : HashOrderLaws HO} config ev l attempts :
  let id := v2.event_request_id ev in
  pending_events l !! id = Some ev → (id < event_counter l)%N →
  (event_counter l + N.of_nat (sum_list (draws <$> attempts)) < u64_modulus)%N →
  Forall (λ a, Forall (λ t, acks id t = false ∧ brings id t = false) (at_turns a)) attempts →
  pending_events (run_attempts config l attempts) !! id = Some ev ∧
  ∀ before a after l' reg, attempts = before ++ a :: after →
    open_attempt config a (run_attempts config l before) = (l', Ok reg) →
    v2.MsgEvent ev ∈ outgoing l'.
Proof.
  intros id Hp Hid Hb Hall. assert (Hkept : ∀ sub rest, attempts = sub ++ rest →
    kept id ev 0 (run_attempts config l sub)).
  { intros sub rest ->. apply run_attempts_kept; [by apply Forall_app in Hall as [? _]|].
    split_and!; [done|done|]. rewrite fmap_app, sum_list_with_app in Hb. lia. }
  split; [by apply (Hkept attempts []); rewrite app_nil_r|].
  intros before a after l' reg -> Hopen. destruct (Hkept before (a :: after) eq_refl) as [Hpe _].
  destruct (open_session_sends _ _ _ _ _ _ _ _ Hopen) as (registration & events & health & -> & Hperm & _).
  right. apply elem_of_app. left. apply list_elem_of_fmap. exists ev. split; [done|].
  rewrite Hperm. apply list_elem_of_fmap. exists (id, ev). split; [done|]. by apply elem_of_map_to_list.
Qed.

(** ** Answers *)

(** Every live shard's cached answers carry the ids they are cached under. *)
Definition ids_agree (w : Worker) : Prop :=
  ∀ i md, shards w !! i = Some (Some md) → cached_under_id md.

Lemma dispatch_command_ids now w c :
  ids_agree w →
  ids_agree (dispatch_command now w c).1 ∧
  v2.res_request_id (dispatch_command now w c).2 = v2.cmd_request_id c.
Proof.
  intros Hw. unfold dispatch_command. destruct (command_room_id c) as [r|]; [|done].
  set (i := shard_index _ _). destruct (shards w !! i) as [[md|]|] eqn:Hi; [|done..].
  pose proof (media_command_ids now md (metrics w) c (Hw _ _ Hi)) as H.
  destruct (media_command now md (metrics w) c) as [[md' m'] res]. destruct H as [Hmd Hres].
  split; [|done]. intros j md2. cbn. rewrite list_lookup_insert_Some.
  intros [(<- & [= <-] & _)|[_ Hj]]; [done|by eapply Hw].
Qed.

Lemma new_worker_ids engines : ids_agree (new_worker engines).
Proof.
  intros i md Hi. cbn in Hi. rewrite list_lookup_fmap in Hi.
  apply fmap_Some in Hi as (e & _ & [= ->]). apply new_media_ids.
Qed.

Section media_work.
Context `{ML : !SfuMediaLib}.

Lemma shard_turn_ids w i counter f : engine_only f → ids_agree w → ids_agree (shard_turn w i counter f).
Proof.
  intros Hf Hw. unfold shard_turn. destruct (shards w !! i) as [[md|]|] eqn:Hi; [|done..].
  destruct (f _) as [st|] eqn:Hst; [|done]. apply Hf in Hst as [_ [e Hmd]]. cbn in Hmd. rewrite Hmd.
  intros j md'. cbn. rewrite list_lookup_insert_Some. intros [(<- & [= <-] & _)|[_ Hj]]; [|by eapply Hw].
  exact (Hw _ _ Hi).
Qed.

Lemma worker_event_ids w e : ids_agree w → ids_agree (worker_event w e).
Proof.
  intros Hw. destruct e as [now c|i now received|i now|i fuel sends counter|i]; cbn [worker_event].
  - by apply dispatch_command_ids.
  - by apply shard_turn_ids; [apply media_packet_engine|].
  - by apply shard_turn_ids; [apply media_timeout_engine|].
  - by apply shard_turn_ids; [apply media_drain_engine|].
  - unfold stop_shard. destruct (shards w !! i) as [[md|]|]; [|done..].
    intros j md'. cbn. rewrite list_lookup_insert_Some. intros [(_ & ? & _)|[_ Hj]]; [done|by eapply Hw].
Qed.

Lemma worker_events_ids engines events : ids_agree (foldl worker_event (new_worker engines) events).
Proof.
  generalize (new_worker_ids engines). generalize (new_worker engines) as w.
  induction events as [|e events IH]; intros w Hw; [done|]. by apply IH, worker_event_ids.
Qed.

(** A command received by the session is dispatched to the worker, and the result sent back
    carries the request id of that command, also when it comes from a shard's cache. *)
Theorem commands_answered_under_their_id engines events config command now l :
  link_worker l = foldl worker_event (new_worker engines) events →
  ∃ l' r, session_turn config
      (FromSignaling (Ok (Some (v2.mk_SignalingToSfu (Some (v2.MsgCommand command))))) now true) l =
      (l', Ok None) ∧
    outgoing l' = outgoing l ++ [v2.MsgCommandResult r] ∧
    v2.res_request_id r = v2.cmd_request_id command ∧
    link_worker l' = foldl worker_event (new_worker engines) (events ++ [Dispatched now command]).
Proof.
  intros Hl. cbn. unfold st_bind, lift. cbn.
  destruct (dispatch_command_ids now (link_worker l) command) as [_ Hid];
    [rewrite Hl; apply worker_events_ids|].
  destruct (dispatch_command now (link_worker l) command) as [w r] eqn:Hd. cbn in *.
  eexists _, r. split_and!; [done|done|done|]. cbn. rewrite foldl_app. cbn. by rewrite <- Hl, Hd.
Qed.
End media_work.
End session_spec.

(** ** Witnesses *)

Section witnesses.
#[local] Existing Instance sample_room_id.
#[local] Existing Instance sample_enums.

Definition registered_output : ssfu.Output := ssfu.OutRegistered 1 7 0 true.

Lemma registration_reply_decoded_witness :
  ∃ m, encode_sfu_output registered_output = Some m ∧ decode_registration m 7 = Ok (1%N, true).
Proof.
  eexists. split; [reflexivity|].
  exact (registration_reply_decoded registered_output _ 7 eq_refl).
Defined.

Lemma reconnect_delays_witness :
  reconnect (replicate 8 (Ok false, false)) INITIAL_RECONNECT_DELAY =
    [250; 500; 1000; 2000; 4000; 8000; 10000; 10000]%N.
Proof. apply (reconnect_delays (replicate 8 (Ok false, false))). by repeat constructor. Defined.

Definition sample_config : Config := 
  mk_Config (V4 2130706433) (V4 2130706433) 5000 5001 "http://127.0.0.1:50051" false 4 8 "sfu-1".

Definition sample_link : Link := mk_Link ∅ 20 sample_worker [].

Definition sample_event : v2.SfuEvent := v2.mk_SfuEvent 12 None.

(** The stream is gone: the event cannot be sent, and stays pending. *)
Lemma events_pending_until_acknowledged_witness :
  (session_turn sample_config (FromShard (Some sample_event) false) sample_link).2 = Err "channel closed" ∧
  pending_events (session_turn sample_config (FromShard (Some sample_event) false) sample_link).1 !! 12%N
    = Some sample_event.
Proof.
  split; [reflexivity|].
  exact (proj1 (events_pending_until_acknowledged sample_config sample_event false sample_link [HealthTick true]
    eq_refl eq_refl ltac:(by repeat constructor))).
Defined.

Definition sample_pending_link : Link := mk_Link {[ 12%N := sample_event ]} 20 sample_worker [].

Definition sample_registered : v2.SignalingToSfu :=
  v2.mk_SignalingToSfu (Some (v2.MsgRegistered (v2.mk_Response (Some (v2.mk_ResponseContext 20))
    (Some (v2.Success (v2.mk_SfuRegistered 30000 true)))))).

(** A connection that fails, then one that opens. *)
Definition sample_attempts : list Attempt :=
  [mk_Attempt (Err "refused") (Ok tt) (Ok None) true [];
   mk_Attempt (Ok tt) (Ok tt) (Ok (Some sample_registered)) true [HealthTick true; StopChanged]].

Lemma events_survive_reconnection_witness :
  pending_events (run_attempts sample_config sample_pending_link sample_attempts) !! 12%N = Some sample_event ∧
  ∃ l' reg, open_attempt sample_config (mk_Attempt (Ok tt) (Ok tt) (Ok (Some sample_registered)) true
              [HealthTick true; StopChanged])
    (run_attempts sample_config sample_pending_link [mk_Attempt (Err "refused") (Ok tt) (Ok None) true []]) =
      (l', Ok reg) ∧ v2.MsgEvent sample_event ∈ outgoing l'.
Proof.
  destruct (events_survive_reconnection sample_config sample_event sample_pending_link sample_attempts)
    as [H1 H2].
  - reflexivity.
  - vm_compute. done.
  - vm_compute. done.
  - by repeat constructor.
  - split; [exact H1|].
    destruct (open_attempt sample_config (mk_Attempt (Ok tt) (Ok tt) (Ok (Some sample_registered)) true
      [HealthTick true; StopChanged]) (run_attempts sample_config sample_pending_link
        [mk_Attempt (Err "refused") (Ok tt) (Ok None) true []])) as [l' r] eqn:Ho.
    assert (Hr : r = Ok (30000%N, true)).
    { change r with (l', r).2. rewrite <- Ho. reflexivity. }
    subst r. exists l', (30000%N, true). split; [done|].
    apply (H2 [mk_Attempt (Err "refused") (Ok tt) (Ok None) true []] _ [] l' (30000%N, true) eq_refl Ho).
Defined.

Lemma commands_answered_under_their_id_witness :
  ∃ l' r, session_turn sample_config
      (FromSignaling (Ok (Some (v2.mk_SignalingToSfu (Some (v2.MsgCommand (join_command 31 room_a 5 1 1))))))
         3 true) sample_link = (l', Ok None) ∧
    outgoing l' = [v2.MsgCommandResult r] ∧ v2.res_request_id r = 31%N.
Proof.
  destruct (commands_answered_under_their_id [sample_engine; sample_engine] [] sample_config
    (join_command 31 room_a 5 1 1) 3 sample_link eq_refl) as (l' & r & H & Ho & Hid & _).
  exists l', r. split_and!; [exact H|exact Ho|exact Hid].
Defined.
End witnesses.
