(* ===== verification/Delivery.v ===== *)
(** * A worker and the signaling process, connected
      ([run_session] of [src/src/sfu_server.rs], [open_sfu_session] of
      [src/src/grpc_server.rs], [run] of [src/src/signaling_server.rs])

    One worker in focus: its shards number events, its sessions come and go, each
    over a stream that may lose what is in flight when it breaks; on the other
    side every stream has a session task, and all of them share the event loop's
    queue with the browsers and the other workers. *)

From S2P Require Import Prelude Wire RoomIds Driver Stack GrpcServer GrpcSession SfuShard SfuEvents SfuSession.

Section delivery.
Context `{L : RoomIdLib, P : v2.ProtoEnums, SL : SdpLib, E : !SfuLib, J : !SignalJson,
          LR : LeaveReasonDebug, HO : HashOrder, C : !ColliderLib, CL : !ColliderLaws C}.

(** ** The two halves of opening a session

    [open_session] up to the call, and from the first message received. *)

Definition begin_session (config : Config) (connected : result unit string) : stateful Link string N :=
  let! c := lift connected in
  let! channel := new_channel in
  let! request_id := fresh_event_id in
  let! registering := send true (v2.MsgRegister (v2.mk_RegisterSfu
    (Some (v2.mk_RequestContext (as_i32 v2.Sfu) (instance_id config) request_id))
    (Some (capacity config)))) in
  lift (Ok request_id).

Definition greet (config : Config) (opened : result unit string)
    (reply : result (option v2.SignalingToSfu) string) (open : bool) (request_id : N)
  : stateful Link string (N * bool) :=
  let! o := lift opened in
  let! reply := lift reply in
  let! reply := lift (ok_or reply "SFU session closed before registration response") in
  let! registered := lift (decode_registration reply request_id) in
  let! replayed := λ l, resend open (hash_order _ (map_to_list (pending_events l)).*2) l in
  let! healthy := queue_health config open in
  lift (Ok registered).

Lemma open_session_halves config connected opened reply open l :
  open_session config connected opened reply open l =
    st_bind (begin_session config connected) (greet config opened reply open) l.
Proof.
  unfold open_session, begin_session, st_bind, lift. destruct connected; [|done].
  unfold new_channel, fresh_event_id. cbn [event_counter].
  by destruct (next_nonzero (event_counter l)) as [[id c]|].
Qed.

(** ** The system *)

(** The signaling side of a stream: waiting for its first message, serving as
    connection [connection_id] of [instance_id] with the output channel [ch], or
    over.  [ss_up] and [ss_down] are what is in flight on the stream. *)
Inductive SsPhase :=
  | AwaitFirst
  | Serving (connection_id : N) (instance_id : string) (ch : chan_id)
  | Over.

Record SigSession := mk_SigSession {
  ss_phase : SsPhase;
  ss_up : list v2.ToSignaling;
  ss_down : list v2.SignalingToSfu;
}.

(** [s_conn] is the stream of the worker's current session, and the request id of
    its registration while that is not answered.  [s_shards] is the channel from
    the shards.  [s_ours] and [s_others] are the connections registered by this
    worker and by the others, with their output channels.  [s_handled] is the
    history of commands the loop took, [s_numbered] of the events numbered. *)
Record System := mk_System {
  s_link : Link;
  s_conn : option (nat * option N);
  s_shards : list v2.SfuEvent;
  s_streams : gmap nat SigSession;
  s_next_stream : nat;
  s_connections : N;
  s_channels : chan_id;
  s_ours : list (N * chan_id);
  s_others : list (N * chan_id);
  s_driver : Driver;
  s_queue : list DriverCommand;
  s_handled : list DriverCommand;
  s_numbered : gmap N v2.SfuEvent;
}.

Definition start_system (engines : list Sfu) (register_timeout downgrade_dwell : N) : System :=
  mk_System (mk_Link ∅ 1 (new_worker engines) []) None [] ∅ 0 1 0 [] []
    (new_driver register_timeout downgrade_dwell ∅ ∅) [] [] ∅.

Definition with_link (s : System) (l : Link) (conn : option (nat * option N)) : System :=
  mk_System l conn (s_shards s) (s_streams s) (s_next_stream s) (s_connections s) (s_channels s)
    (s_ours s) (s_others s) (s_driver s) (s_queue s) (s_handled s)
    (pending_events l ∪ s_numbered s).

Definition with_streams (s : System) (m : gmap nat SigSession) : System :=
  mk_System (s_link s) (s_conn s) (s_shards s) m (s_next_stream s) (s_connections s) (s_channels s)
    (s_ours s) (s_others s) (s_driver s) (s_queue s) (s_handled s) (s_numbered s).

Definition with_commands (s : System) (cmds : list DriverCommand) : System :=
  mk_System (s_link s) (s_conn s) (s_shards s) (s_streams s) (s_next_stream s) (s_connections s)
    (s_channels s) (s_ours s) (s_others s) (s_driver s) (s_queue s ++ cmds) (s_handled s) (s_numbered s).

Definition with_driver (s : System) (d : Driver) : System :=
  mk_System (s_link s) (s_conn s) (s_shards s) (s_streams s) (s_next_stream s) (s_connections s)
    (s_channels s) (s_ours s) (s_others s) d (s_queue s) (s_handled s) (s_numbered s).

Definition with_sfu_store (d : Driver) (m : gmap chan_id (channel ssfu.Output)) : Driver :=
  mk_Driver (d_collider d) (sockets d) (sfu_sessions d) (pending_authority d) (socket_store d) m (replies d).

(** *** The worker *)

(** The worker's session after a step: what it sent goes up the stream, and a
    failure or an end leaves it without a session. *)
Definition after_turn {A} (s : System) (stream : nat) (l : Link) (r : result A string)
    (conn : A → option (nat * option N)) : System :=
  let fresh_messages := drop (length (outgoing (s_link s))) (outgoing l) in
  let streams := alter (λ ss, mk_SigSession (ss_phase ss) (ss_up ss ++ fresh_messages) (ss_down ss))
                   stream (s_streams s) in
  with_link (with_streams s streams) l (match r with Ok a => conn a | Err _ => None end).

(** A turn of the loop of [run_session]; [Some _] ends it. *)
Definition worker_turn (config : Config) (s : System) (stream : nat) (t : SfuSession.Turn) : System :=
  let '(l, r) := SfuSession.session_turn config t (s_link s) in
  after_turn s stream l r (λ ended, match ended with None => Some (stream, None) | Some _ => None end).

(** A shard numbers an event and puts it into the events channel, as
    [drain_events] does. *)
Definition number_event (s : System) (kind : v2.Event) : option System :=
  '(id, next) ← next_nonzero (event_counter (s_link s));
  let event := v2.mk_SfuEvent id (Some kind) in
  Some (mk_System (mk_Link (pending_events (s_link s)) next (link_worker (s_link s)) (outgoing (s_link s)))
          (s_conn s) (s_shards s ++ [event]) (s_streams s) (s_next_stream s) (s_connections s)
          (s_channels s) (s_ours s) (s_others s) (s_driver s) (s_queue s) (s_handled s)
          (<[id := event]> (s_numbered s))).

(** Connecting, and the registration in flight on a new stream. *)
Definition connect (config : Config) (s : System) : option System :=
  match s_conn s, begin_session config (Ok tt) (s_link s) with
  | None, (l, Ok request_id) =>
      let stream := s_next_stream s in
      let s' := with_link s l (Some (stream, Some request_id)) in
      Some (mk_System (s_link s') (s_conn s') (s_shards s)
              (<[stream := mk_SigSession AwaitFirst (outgoing l) []]> (s_streams s)) (S stream)
              (s_connections s) (s_channels s) (s_ours s) (s_others s) (s_driver s) (s_queue s)
              (s_handled s) (s_numbered s'))
  | _, _ => None
  end.

(** The first message down the stream of the current session. *)
Definition take_down (s : System) (stream : nat) : option (v2.SignalingToSfu * System) :=
  ss ← s_streams s !! stream;
  match ss_down ss with
  | m :: down => Some (m, with_streams s (<[stream := mk_SigSession (ss_phase ss) (ss_up ss) down]> (s_streams s)))
  | [] => None
  end.

(** *** The signaling side *)

Definition serve_session (s : System) (stream : nat) (ss : SigSession) : System :=
  with_streams s (<[stream := ss]> (s_streams s)).

(** [open_sfu_session]: the registration is handed to the loop. *)
Definition accept_session (s : System) (stream : nat) : option System :=
  ss ← s_streams s !! stream;
  match ss_phase ss, ss_up ss with
  | AwaitFirst, m :: up =>
      let message := v2.mk_SfuToSignaling (Some m) in
      let ch := s_channels s in
      match open_sfu_session (First message) ch true (s_connections s) with
      | (counter, Ok (SfuConnected (ssfu.InRegister c inst _ _) _ as command)) =>
          let d := with_sfu_store (s_driver s)
                     (<[ch := mk_channel [] COMMAND_CAPACITY true]> (sfu_store (s_driver s))) in
          Some (mk_System (s_link s) (s_conn s) (s_shards s)
                  (<[stream := mk_SigSession (Serving c inst ch) up (ss_down ss)]> (s_streams s))
                  (s_next_stream s) counter (S ch) (s_ours s ++ [(c, ch)]) (s_others s)
                  d (s_queue s ++ [command]) (s_handled s) (s_numbered s))
      | _ => Some (serve_session s stream (mk_SigSession Over [] (ss_down ss)))
      end
  | _, _ => None
  end.

(** The end of a task drops its receiver. *)
Definition close_output (d : Driver) (ch : chan_id) : Driver :=
  with_sfu_store d (alter (λ q, mk_channel (chan_queue q) (chan_capacity q) false) ch (sfu_store d)).

(** What a turn of the session task did: [Sent] since its last turn. *)
Definition after_session (s : System) (stream : nat) (c : N) (inst : string) (ch : chan_id)
    (up : list v2.ToSignaling) (down : list v2.SignalingToSfu) (now : Instant) (sv : Sent * Verdict)
  : System :=
  let '(sent, v) := sv in
  let down := down ++ omap result_ok (to_wire sent) in
  match v with
  | Continue => with_commands (serve_session s stream (mk_SigSession (Serving c inst ch) up down)) (to_driver sent)
  | _ => with_commands (serve_session (with_driver s (close_output (s_driver s) ch)) stream
                          (mk_SigSession Over [] down))
           (to_driver sent ++ [SfuInput (ssfu.InDisconnected c inst now)])
  end.

(** [inbound.message()] yields what is first on the stream, or the end of it. *)
Definition relay_up (s : System) (stream : nat) (now : Instant) (delivered ended : bool) : option System :=
  ss ← s_streams s !! stream;
  match ss_phase ss, ss_up ss with
  | Serving c inst ch, m :: up =>
      if ended then
        Some (after_session s stream c inst ch [] (ss_down ss) now
                (GrpcSession.session_turn c inst (Incoming (Ok None) now delivered) (mk_Sent [] [])))
      else
        Some (after_session s stream c inst ch up (ss_down ss) now
                (GrpcSession.session_turn c inst (Incoming (Ok (Some (v2.mk_SfuToSignaling (Some m)))) now delivered)
                   (mk_Sent [] [])))
  | Serving c inst ch, [] =>
      if ended then
        Some (after_session s stream c inst ch [] (ss_down ss) now
                (GrpcSession.session_turn c inst (Incoming (Ok None) now delivered) (mk_Sent [] [])))
      else None
  | _, _ => None
  end.

(** [domain_rx.recv()] yields the loop's first output for the session. *)
Definition relay_down (s : System) (stream : nat) (now : Instant) (delivered : bool) : option System :=
  ss ← s_streams s !! stream;
  match ss_phase ss with
  | Serving c inst ch =>
      q ← sfu_store (s_driver s) !! ch;
      match chan_queue q with
      | o :: os =>
          let d := with_sfu_store (s_driver s)
                     (<[ch := mk_channel os (chan_capacity q) (chan_open q)]> (sfu_store (s_driver s))) in
          Some (after_session (with_driver s d) stream c inst ch (ss_up ss) (ss_down ss) now
                  (GrpcSession.session_turn c inst (Outgoing (Some o) delivered) (mk_Sent [] [])))
      | [] => None
      end
  | _ => None
  end.

(** *** Everyone else *)

Definition sfu_input_connection_id (input : ssfu.Input) : N :=
  match input with
  | ssfu.InRegister c _ _ _ | ssfu.InCommandResult c _ _ _ | ssfu.InEvent c _ _ | ssfu.InDisconnected c _ _ => c
  end.

(** A command that the sessions of this worker did not produce. *)
Definition foreign (s : System) (command : DriverCommand) : bool :=
  match command with
  | SfuConnected input ch => bool_decide ((sfu_input_connection_id input, ch) ∈ s_others s)
  | SfuInput input => bool_decide (sfu_input_connection_id input ∈ (s_others s).*1)
  | _ => true
  end.

Inductive DLabel :=
  | Number (kind : v2.Event)
  | Connect
  | Greet (open : bool)
  | Tick (open : bool)
  | TakeEvent (open : bool)
  | Read (now : Instant) (open : bool)
  | LoseSession
  | LoseUp (stream : nat) (n : nat)
  | Accept (stream : nat)
  | RelayUp (stream : nat) (now : Instant) (delivered ended : bool)
  | RelayDown (stream : nat) (now : Instant) (delivered : bool)
  | OtherSession
  | Produce (command : DriverCommand)
  | LoopTake (clock : ConnectionId → Instant)
  | LoopTimer (now : Instant) (clock : ConnectionId → Instant).

Definition dstep (config : Config) (l : DLabel) (s : System) : option System :=
  match l with
  | Number kind => number_event s kind
  | Connect => connect config s
  | Greet open =>
      match s_conn s with
      | Some (stream, Some request_id) =>
          '(m, s1) ← take_down s stream;
          let '(l, r) := greet config (Ok tt) (Ok (Some m)) open request_id (s_link s1) in
          Some (after_turn s1 stream l r (λ _, Some (stream, None)))
      | _ => None
      end
  | Tick open =>
      match s_conn s with
      | Some (stream, None) => Some (worker_turn config s stream (HealthTick open))
      | _ => None
      end
  | TakeEvent open =>
      match s_conn s, s_shards s with
      | Some (stream, None), event :: events =>
          let s1 := mk_System (s_link s) (s_conn s) events (s_streams s) (s_next_stream s) (s_connections s)
                      (s_channels s) (s_ours s) (s_others s) (s_driver s) (s_queue s) (s_handled s)
                      (s_numbered s) in
          Some (worker_turn config s1 stream (FromShard (Some event) open))
      | _, _ => None
      end
  | Read now open =>
      match s_conn s with
      | Some (stream, None) =>
          '(m, s1) ← take_down s stream;
          Some (worker_turn config s1 stream (FromSignaling (Ok (Some m)) now open))
      | _ => None
      end
  | LoseSession => Some (with_link s (s_link s) None)
  | LoseUp stream n =>
      if bool_decide (fst <$> s_conn s = Some stream) then None
      else Some (with_streams s (alter (λ ss, mk_SigSession (ss_phase ss) (take n (ss_up ss)) (ss_down ss))
                                   stream (s_streams s)))
  | Accept stream => accept_session s stream
  | RelayUp stream now delivered ended => relay_up s stream now delivered ended
  | RelayDown stream now delivered => relay_down s stream now delivered
  | OtherSession =>
      let '(counter, r) := next_connection (s_connections s) in
      match r with
      | Ok c => Some (mk_System (s_link s) (s_conn s) (s_shards s) (s_streams s) (s_next_stream s) counter
                        (S (s_channels s)) (s_ours s) (s_others s ++ [(c, s_channels s)])
                        (with_sfu_store (s_driver s)
                           (<[s_channels s := mk_channel [] COMMAND_CAPACITY true]> (sfu_store (s_driver s))))
                        (s_queue s) (s_handled s) (s_numbered s))
      | Err _ => None
      end
  | Produce command => if foreign s command then Some (with_commands s [command]) else None
  | LoopTake clock =>
      match s_queue s with
      | command :: q =>
          Some (mk_System (s_link s) (s_conn s) (s_shards s) (s_streams s) (s_next_stream s) (s_connections s)
                  (s_channels s) (s_ours s) (s_others s) (turn clock (s_driver s) (Command (Some command))).1 q
                  (s_handled s ++ [command]) (s_numbered s))
      | [] => None
      end
  | LoopTimer now clock => Some (with_driver s (turn clock (s_driver s) (Deadline now)).1)
  end.

Fixpoint dsteps (config : Config) (ls : list DLabel) (s : System) : option System :=
  match ls with
  | [] => Some s
  | l :: ls' => match dstep config l s with Some s' => dsteps config ls' s' | None => None end
  end.
End delivery.
