(* ===== verification/DeliverySpec.v ===== *)
(** * Events are delivered at least once

    An event that a shard of a worker has numbered is on its way to the session,
    pending there, or has been handled by the signaling event loop: breaking
    streams, lost messages and reconnections lose none. *)

From S2P Require Import Prelude Wire RoomIds Driver DriverSpec Stack GrpcServer GrpcServerSpec GrpcSession DriverAcks.
From S2P Require Import SfuShard SfuEvents SfuEventsSpec SfuSession SfuSessionSpec Delivery Samples SfuSamples.

Section worker_link.
Context `{L : RoomIdLib, P : v2.ProtoEnums, SL : SdpLib, E : !SfuLib, J : !SignalJson,
          LR : LeaveReasonDebug, HO : HashOrder, HL : !HashOrderLaws HO}.

(** ** What a step of the worker's session does to the pending events *)

(** Pending events are kept under their ids, which were drawn before, and there
    are [n] ids left. *)
Record link_ok (n : nat) (l : Link) : Prop := mk_link_ok {
  lo_ids : ∀ id ev, pending_events l !! id = Some ev → v2.event_request_id ev = id ∧ (id < event_counter l)%N;
  lo_counter : (0 < event_counter l)%N ∧ (event_counter l + N.of_nat n < u64_modulus)%N;
}.

(** From [l] to [l'] the event [b] was taken from a shard and the id [a]
    acknowledged; at most one id was drawn, for a health report. *)
Record link_effect (b : option v2.SfuEvent) (a : option N) (l l' : Link) : Prop := mk_link_effect {
  le_counter : (event_counter l <= event_counter l' <= event_counter l + 1)%N;
  le_sent : ∃ msgs, outgoing l' = outgoing l ++ msgs ∧
    ∀ ev, v2.MsgEvent ev ∈ msgs → pending_events l' !! v2.event_request_id ev = Some ev;
  le_new : ∀ id ev, pending_events l' !! id = Some ev →
    pending_events l !! id = Some ev ∨ (b = Some ev ∧ v2.event_request_id ev = id) ∨
    (id = event_counter l ∧ v2.event_request_id ev = id ∧ (event_counter l < event_counter l')%N);
  le_old : ∀ id ev, pending_events l !! id = Some ev →
    pending_events l' !! id = Some ev ∨ a = Some id ∨
    (∃ ev', b = Some ev' ∧ v2.event_request_id ev' = id) ∨ id = event_counter l;
  le_brought : ∀ ev, b = Some ev → pending_events l' !! v2.event_request_id ev = Some ev;
}.

Lemma link_effect_none l : link_effect None None l l.
Proof. split; [lia|exists []; rewrite app_nil_r; split; [done|by intros ? ?%elem_of_nil]|auto|auto|done]. Qed.

(** A message other than an event. *)
Lemma send_effect open m l :
  (∀ ev, m = v2.MsgEvent ev → pending_events l !! v2.event_request_id ev = Some ev) →
  link_effect None None l (send open m l).1.
Proof.
  intros Hm. unfold send. destruct open; [|apply link_effect_none]. split; cbn; [lia| |auto|auto|done].
  exists [m]. split; [done|]. intros ev Hev%list_elem_of_singleton. by apply Hm.
Qed.

Lemma resend_effect open evs l :
  (∀ ev, ev ∈ evs → pending_events l !! v2.event_request_id ev = Some ev) →
  let l' := (resend open evs l).1 in
  pending_events l' = pending_events l ∧ event_counter l' = event_counter l ∧
  ∃ sent, outgoing l' = outgoing l ++ (v2.MsgEvent <$> sent) ∧ sent ⊆ evs.
Proof.
  revert l. induction evs as [|ev evs IH]; intros l Hevs; cbn [resend].
  - cbn. split_and!; [done|done|]. exists []. by rewrite app_nil_r.
  - unfold st_bind, send. destruct open; cbn.
    + destruct (IH (mk_Link (pending_events l) (event_counter l) (link_worker l) (outgoing l ++ [v2.MsgEvent ev])))
        as (-> & -> & sent & -> & Hsub); [intros; apply Hevs; by right|].
      split_and!; [done|done|]. exists (ev :: sent). cbn. rewrite <- app_assoc. split; [done|].
      intros x [->|Hx]%elem_of_cons; [left|right; by apply Hsub].
    + split_and!; [done|done|]. exists []. rewrite app_nil_r. split; [done|]. by intros ? ?%elem_of_nil.
Qed.

Lemma queue_health_effect config open l n :
  link_ok (S n) l → link_effect None None l (queue_health config open l).1.
Proof.
  intros [Hids [Hpos Hb]]. unfold queue_health, st_bind, fresh_event_id.
  rewrite next_nonzero_spec by (unfold is_u64; lia). destruct (N.eqb_spec (event_counter l) 0); [lia|].
  rewrite wrap64_small by (unfold is_u64; lia). cbn [update_pending].
  set (ev := v2.mk_SfuEvent _ _).
  assert (Heff : ∀ out, (∃ msgs, out = outgoing l ++ msgs ∧ ∀ e, v2.MsgEvent e ∈ msgs → e = ev) →
    link_effect None None l (mk_Link (<[event_counter l := ev]> (pending_events l)) (event_counter l + 1)
      (link_worker l) out)).
  { intros out (msgs & -> & Hm). split; cbn; [lia| | | |done].
    - exists msgs. split; [done|]. intros e He%Hm. subst e. cbn. by rewrite lookup_insert_eq.
    - intros id e. rewrite lookup_insert_Some. intros [[<- <-]|[_ ?]]; [|by left]. right; right. split_and!; [done|done|lia].
    - intros id e He. destruct (Hids _ _ He) as [_ Hlt]. left. rewrite lookup_insert_ne; [done|]. lia. }
  unfold send. cbn. destruct open; cbn; apply Heff.
  - exists [v2.MsgEvent ev]. split; [done|]. by intros e [= ->]%list_elem_of_singleton.
  - exists []. rewrite app_nil_r. split; [done|]. by intros ? ?%elem_of_nil.
Qed.

(** The part of a step that only sends pending events again. *)
Lemma link_effect_resent l l1 l2 n sent :
  link_ok n l → pending_events l1 = pending_events l → event_counter l1 = event_counter l →
  outgoing l1 = outgoing l ++ (v2.MsgEvent <$> sent) →
  (∀ ev, ev ∈ sent → pending_events l !! v2.event_request_id ev = Some ev) →
  link_effect None None l1 l2 → link_effect None None l l2.
Proof.
  intros Hok Ep Ec Eo Hsent [Hc (msgs & Hm & Hp) Hnew Hold Hb]. rewrite Ep, Ec, Eo in *.
  split; [done| |done|done|done]. exists ((v2.MsgEvent <$> sent) ++ msgs). rewrite app_assoc. split; [done|].
  intros ev. rewrite elem_of_app. intros [(ev' & [= ->] & Hin)%list_elem_of_fmap|?]; [|by apply Hp].
  apply Hsent in Hin. destruct (Hold _ _ Hin) as [?|[?|[(? & ? & ?)|Heq]]]; [done..|].
  destruct (lo_ids _ _ Hok _ _ Hin) as [_ ?]. lia.
Qed.

Lemma greet_effect config reply open rid l n :
  link_ok (S n) l → link_effect None None l (greet config (Ok tt) (Ok (Some reply)) open rid l).1.
Proof.
  intros Hok. unfold greet. rewrite !st_bind_lift. cbn [ok_or]. rewrite !st_bind_lift.
  destruct (decode_registration reply rid) as [reg|e]; [|apply link_effect_none].
  assert (Hev : ∀ ev, ev ∈ hash_order _ (map_to_list (pending_events l)).*2 →
    pending_events l !! v2.event_request_id ev = Some ev).
  { intros ev. rewrite hash_order_perm.
    intros ([id e] & -> & Hin%elem_of_map_to_list)%list_elem_of_fmap. cbn.
    by destruct (lo_ids _ _ Hok _ _ Hin) as [-> _]. }
  destruct (resend_effect open _ l Hev) as (Hp & Hc & sent & Ho & Hsub). unfold st_bind at 1.
  destruct (resend _ _ l) as [l1 [u|e]]; cbn in Hp, Hc, Ho.
  - eapply link_effect_resent; [exact Hok|exact Hp|exact Hc|exact Ho|by eauto|].
    pose proof (queue_health_effect config open l1 n) as Hq. unfold st_bind.
    assert (Hok1 : link_ok (S n) l1) by (destruct Hok; split; by rewrite ?Hp, ?Hc).
    specialize (Hq Hok1). by destruct (queue_health config open l1) as [l2 [|]].
  - eapply link_effect_resent; [exact Hok|exact Hp|exact Hc|exact Ho|by eauto|]. apply link_effect_none.
Qed.

Definition acked (m : v2.SignalingToSfu) : option N :=
  match v2.to_sfu m with Some (v2.MsgEventAck id) => Some id | _ => None end.

(** The turns of an open session. *)
Definition turn_brings (t : SfuSession.Turn) : option v2.SfuEvent :=
  match t with FromShard ev _ => ev | _ => None end.

Definition turn_acks (t : SfuSession.Turn) : option N :=
  match t with FromSignaling (Ok (Some m)) _ _ => acked m | _ => None end.

Lemma session_turn_effect config t l n :
  link_ok (S n) l → link_effect (turn_brings t) (turn_acks t) l (SfuSession.session_turn config t l).1.
Proof.
  intros Hok. destruct t as [|open|[ev|] open|[[[[[r|c|id]|]]|]|e] now open]; cbn [turn_brings turn_acks acked v2.to_sfu];
    try apply link_effect_none.
  - cbn [SfuSession.session_turn]. pose proof (queue_health_effect config open l n Hok) as Hq. unfold st_bind.
    by destruct (queue_health config open l) as [l' [|]].
  - cbn. unfold st_bind, send, lift. cbn.
    assert (Heff : ∀ out, (∃ msgs, out = outgoing l ++ msgs ∧ ∀ e, v2.MsgEvent e ∈ msgs → e = ev) →
      link_effect (Some ev) None l (mk_Link (<[v2.event_request_id ev := ev]> (pending_events l)) (event_counter l)
        (link_worker l) out)).
    { intros out (msgs & -> & Hm). split; cbn; [lia| | | |].
      - exists msgs. split; [done|]. intros e He%Hm. subst e. by rewrite lookup_insert_eq.
      - intros id e. rewrite lookup_insert_Some. intros [[<- <-]|[_ ?]]; [|by left]. right; left. done.
      - intros id e He. destruct (decide (v2.event_request_id ev = id)) as [Heq|Hne]; [right; right; left; eauto|].
        left. by rewrite lookup_insert_ne.
      - intros e [= ->]. by rewrite lookup_insert_eq. }
    destruct open; cbn; apply Heff.
    + exists [v2.MsgEvent ev]. split; [done|]. by intros e [= ->]%list_elem_of_singleton.
    + exists []. rewrite app_nil_r. split; [done|]. by intros ? ?%elem_of_nil.
  - cbn. unfold st_bind, lift. cbn. destruct (dispatch_command now (link_worker l) c) as [w r].
    unfold send. destruct open; cbn; (split; cbn; [lia| |auto|auto|done]).
    + exists [v2.MsgCommandResult r]. split; [done|]. by intros ? ?%list_elem_of_singleton.
    + exists []. rewrite app_nil_r. split; [done|]. by intros ? ?%elem_of_nil.
  - cbn. unfold st_bind, update_pending, lift. split; cbn; [lia| | | |done].
    + exists []. rewrite app_nil_r. split; [done|]. by intros ? ?%elem_of_nil.
    + intros id' e. rewrite lookup_delete_Some. intros [_ ?]. auto.
    + intros id' e He. rewrite lookup_delete_Some. destruct (decide (id = id')) as [->|?]; auto.
Qed.
End worker_link.

Section delivery_spec.
Context `{L : RoomIdLib, P : v2.ProtoEnums, SL : SdpLib, E : !SfuLib, J : !SignalJson,
          LR : LeaveReasonDebug, HO : HashOrder, HL : !HashOrderLaws HO,
          C : !ColliderLib, CL : !ColliderLaws C, AL : !AckLaws C}.

(** ** The invariant of the whole system *)

Definition event_message (ev : v2.SfuEvent) : v2.SfuToSignaling := v2.mk_SfuToSignaling (Some (v2.MsgEvent ev)).

(** The loop took a command in which [ev] was decoded on one of the worker's
    connections. *)
Definition delivered_by (ours : list (N * chan_id)) (handled : list DriverCommand) (ev : v2.SfuEvent) : Prop :=
  ∃ c inst now input, c ∈ ours.*1 ∧ SfuInput input ∈ handled ∧
    decode_sfu_input now c inst (event_message ev) = Ok input.

Definition delivered (s : System) : v2.SfuEvent → Prop := delivered_by (s_ours s) (s_handled s).

(** The events numbered so far, by id. *)
Record numbered_ok (n : nat) (l : Link) (shards : list v2.SfuEvent) (numbered : gmap N v2.SfuEvent) : Prop :=
  mk_numbered_ok {
  no_ids : ∀ id ev, numbered !! id = Some ev → v2.event_request_id ev = id ∧ (id < event_counter l)%N;
  no_pending : pending_events l ⊆ numbered;
  no_shards : ∀ ev, ev ∈ shards → numbered !! v2.event_request_id ev = Some ev;
  no_counter : (0 < event_counter l)%N ∧ (event_counter l + N.of_nat n < u64_modulus)%N;
}.

(** Connection ids and channels are given out once. *)
Record conns_ok (n : nat) (conns : list (N * chan_id)) (connections : N) (channels : chan_id) : Prop := mk_conns_ok {
  co_ids : NoDup conns.*1;
  co_channels : NoDup conns.*2;
  co_below : ∀ c ch, (c, ch) ∈ conns → (c < connections)%N ∧ (ch < channels)%nat;
  co_counter : (0 < connections)%N ∧ (connections + N.of_nat n < u64_modulus)%N;
}.

(** A stream carries numbered events up and justified acknowledgements down. *)
Record stream_ok (numbered : gmap N v2.SfuEvent) (ours : list (N * chan_id)) (given : list (N * N))
    (ss : SigSession) : Prop := mk_stream_ok {
  so_up : ∀ ev, v2.MsgEvent ev ∈ ss_up ss → numbered !! v2.event_request_id ev = Some ev;
  so_down : ∀ m id, m ∈ ss_down ss → acked m = Some id → ∃ c, c ∈ ours.*1 ∧ (c, id) ∈ given;
  so_serving : ∀ c inst ch, ss_phase ss = Serving c inst ch → (c, ch) ∈ ours;
}.

(** A command of the loop's queue: its connection is known, and an event of one
    of the worker's connections was numbered by the worker. *)
Definition command_ok (numbered : gmap N v2.SfuEvent) (ours conns : list (N * chan_id)) (command : DriverCommand)
  : Prop :=
  match command with
  | SfuConnected (ssfu.InRegister c _ _ _) ch => (c, ch) ∈ conns
  | SfuInput input =>
      sfu_input_connection_id input ∈ conns.*1 ∧
      ∀ c inst e, input = ssfu.InEvent c inst e → c ∈ ours.*1 →
        ∃ ev now, numbered !! ssfu.e_request_id e = Some ev ∧
          decode_sfu_input now c inst (event_message ev) = Ok input
  | _ => True
  end.

Definition given (s : System) : list (N * N) := s_handled s ≫= events_of.
Definition commands (s : System) : list DriverCommand := s_handled s ++ s_queue s.
Definition conns (s : System) : list (N * chan_id) := s_ours s ++ s_others s.

Record dinv (n : nat) (s : System) : Prop := mk_dinv {
  di_numbered : numbered_ok n (s_link s) (s_shards s) (s_numbered s);
  di_conns : conns_ok n (conns s) (s_connections s) (s_channels s);
  di_streams : ∀ st ss, s_streams s !! st = Some ss → stream_ok (s_numbered s) (s_ours s) (given s) ss;
  di_commands : ∀ command, command ∈ commands s → command_ok (s_numbered s) (s_ours s) (conns s) command;
  di_acks : acks_inv (given s) (s_handled s ≫= registrations_of) (s_driver s);
  di_main : ∀ id ev, s_numbered s !! id = Some ev →
    ev ∈ s_shards s ∨ pending_events (s_link s) !! id = Some ev ∨ delivered s ev;
}.

Lemma numbered_ok_link n l shards numbered : numbered_ok n l shards numbered → link_ok n l.
Proof. intros [Hi Hp _ Hc]. split; [|done]. intros id ev Hev. apply Hi. by eapply lookup_weaken. Qed.

Lemma stream_ok_mono numbered numbered' ours ours' g g' ss :
  numbered ⊆ numbered' → ours ⊆ ours' → g ⊆ g' →
  stream_ok numbered ours g ss → stream_ok numbered' ours' g' ss.
Proof.
  intros Hn Ho Hg [Hu Hd Hs]. split.
  - intros ev Hev. eapply lookup_weaken; [by apply Hu|done].
  - intros m id Hm Hid. destruct (Hd _ _ Hm Hid) as (c & ([c' ch] & -> & Hc)%list_elem_of_fmap & ?).
    exists c'. split; [|by apply Hg]. apply list_elem_of_fmap. exists (c', ch). split; [done|by apply Ho].
  - intros c inst ch Hp. by eapply Ho, Hs.
Qed.

Lemma command_ok_numbered numbered numbered' ours cs command :
  numbered ⊆ numbered' → command_ok numbered ours cs command → command_ok numbered' ours cs command.
Proof.
  intros Hn. destruct command as [| | |[]| |]; cbn; try done. intros [Hc Hev]. split; [done|].
  intros c inst e Hi Ho. destruct (Hev c inst e Hi Ho) as (ev & now & ? & ?). exists ev, now.
  split; [by eapply lookup_weaken|done].
Qed.

Lemma delivered_by_mono ours ours' handled handled' ev :
  ours.*1 ⊆ ours'.*1 → handled ⊆ handled' → delivered_by ours handled ev → delivered_by ours' handled' ev.
Proof.
  intros Ho Hh (c & inst & now & input & ? & ? & ?). exists c, inst, now, input.
  split_and!; [by apply Ho|by apply Hh|done].
Qed.

(** ** Steps of the worker *)

(** What the numbered events become when a step of the session changes the
    pending ones. *)
Lemma numbered_step n b a l0 s l' shards' :
  numbered_ok (S n) (s_link s) (s_shards s) (s_numbered s) →
  pending_events l0 = pending_events (s_link s) → event_counter l0 = event_counter (s_link s) →
  link_effect b a l0 l' → (∀ ev, b = Some ev → s_numbered s !! v2.event_request_id ev = Some ev) →
  (∀ ev, ev ∈ shards' → ev ∈ s_shards s) →
  let numbered' := pending_events l' ∪ s_numbered s in
  s_numbered s ⊆ numbered' ∧ numbered_ok n l' shards' numbered'.
Proof.
  intros [Hi Hp Hsh [Hpos Hb]] Ep Ec [Hc _ Hnew _ _] Hbr Hsub numbered'. rewrite Ep, Ec in *.
  assert (Hold : ∀ id ev, pending_events l' !! id = Some ev →
    s_numbered s !! id = Some ev ∨ s_numbered s !! id = None ∧ v2.event_request_id ev = id ∧ (id < event_counter l')%N).
  { intros id ev [?|[[-> <-]|(-> & Hid & Hlt)]]%Hnew.
    - left. by eapply lookup_weaken.
    - left. by apply Hbr.
    - right. split_and!; [|done|done]. destruct (s_numbered s !! event_counter (s_link s)) as [x|] eqn:Hx; [|done].
      apply Hi in Hx as [_ ?]. lia. }
  assert (Hsubm : s_numbered s ⊆ numbered').
  { apply map_subseteq_spec. intros id ev Hev. apply lookup_union_Some_raw.
    destruct (pending_events l' !! id) as [ev'|] eqn:Hl; [left|by right].
    destruct (Hold _ _ Hl) as [?|[? _]]; congruence. }
  split; [done|]. split.
  - intros id ev [Hl|[_ Hl]]%lookup_union_Some_raw.
    + destruct (Hold _ _ Hl) as [Hn|(_ & ? & ?)]; [|done]. apply Hi in Hn. split; [apply Hn|lia].
    + apply Hi in Hl. split; [apply Hl|lia].
  - apply map_union_subseteq_l.
  - intros ev Hev. eapply lookup_weaken; [by apply Hsh, Hsub|done].
  - lia.
Qed.

Lemma dinv_worker n b a l0 s s' :
  dinv (S n) s →
  pending_events l0 = pending_events (s_link s) → event_counter l0 = event_counter (s_link s) →
  link_effect b a l0 (s_link s') →
  s_numbered s' = pending_events (s_link s') ∪ s_numbered s →
  s_connections s' = s_connections s → s_channels s' = s_channels s → s_ours s' = s_ours s →
  s_others s' = s_others s → s_driver s' = s_driver s → s_queue s' = s_queue s → s_handled s' = s_handled s →
  (∀ ev, b = Some ev → s_numbered s !! v2.event_request_id ev = Some ev) →
  (∀ id ev, a = Some id → s_numbered s !! id = Some ev → delivered s ev) →
  (∀ ev, ev ∈ s_shards s' → ev ∈ s_shards s) →
  (∀ ev, ev ∈ s_shards s → ev ∈ s_shards s' ∨ b = Some ev) →
  (∀ st ss, s_streams s' !! st = Some ss → stream_ok (s_numbered s') (s_ours s) (given s) ss) →
  dinv n s'.
Proof.
  intros [Hn Hco Hst Hcmd Hack Hmain] Ep Ec Heff En E1 E2 E3 E4 E5 E6 E7 Hb Ha Hsub Hsh Hst'.
  destruct (numbered_step n b a l0 s (s_link s') (s_shards s') Hn Ep Ec Heff Hb Hsub) as [Hsubm Hn'].
  rewrite <- En in Hsubm, Hn'.
  assert (Ecs : conns s' = conns s) by (unfold conns; congruence).
  assert (Ecm : commands s' = commands s) by (unfold commands; congruence).
  assert (Eg : given s' = given s) by (unfold given; congruence).
  split; rewrite ?Ecs, ?Ecm, ?Eg, ?E1, ?E2, ?E3, ?E5, ?E7; [done| |done| |done|].
  - destruct Hco as [? ? ? ?]. split; [done..|lia].
  - intros command Hc. eapply command_ok_numbered; [exact Hsubm|by apply Hcmd].
  - assert (Hdel : ∀ ev, delivered s ev → delivered s' ev) by (intros ev; unfold delivered; by rewrite E3, E7).
    intros id ev Hev. rewrite En in Hev. apply lookup_union_Some_raw in Hev as [?|[Hnone Hev]]; [auto|].
    destruct (Hmain _ _ Hev) as [Hin|[Hp|?]]; [| |auto].
    + destruct (Hsh _ Hin) as [?|Hbr]; [auto|]. apply (le_brought _ _ _ _ Heff) in Hbr.
      destruct (no_ids _ _ _ _ Hn _ _ Hev) as [<- _]. auto.
    + rewrite <- Ep in Hp. destruct (le_old _ _ _ _ Heff _ _ Hp) as [?|[Hid|[(ev' & Hbr & Hid)|Hid]]]; [auto| | |].
      * right; right. apply Hdel. by eapply Ha.
      * apply (le_brought _ _ _ _ Heff) in Hbr. rewrite Hid, Hnone in Hbr. done.
      * apply (no_ids _ _ _ _ Hn) in Hev as [_ ?]. rewrite Ec in Hid. lia.
Qed.

(** [s] with other events on their way and other streams. *)
Definition refit (s : System) (shards : list v2.SfuEvent) (streams : gmap nat SigSession) : System :=
  mk_System (s_link s) (s_conn s) shards streams (s_next_stream s) (s_connections s) (s_channels s)
    (s_ours s) (s_others s) (s_driver s) (s_queue s) (s_handled s) (s_numbered s).

Lemma dinv_after_turn {A} n b a s shards streams st l (r : result A string) conn :
  dinv (S n) s → link_effect b a (s_link s) l →
  (∀ ev, b = Some ev → s_numbered s !! v2.event_request_id ev = Some ev) →
  (∀ id ev, a = Some id → s_numbered s !! id = Some ev → delivered s ev) →
  (∀ ev, ev ∈ shards → ev ∈ s_shards s) → (∀ ev, ev ∈ s_shards s → ev ∈ shards ∨ b = Some ev) →
  (∀ st ss, streams !! st = Some ss → stream_ok (s_numbered s) (s_ours s) (given s) ss) →
  dinv n (after_turn (refit s shards streams) st l r conn).
Proof.
  intros Hs Heff Hb Ha Hsub Hsh Hst.
  destruct (numbered_step n b a (s_link s) s l shards (di_numbered _ _ Hs) eq_refl eq_refl Heff Hb Hsub) as [Hsubm _].
  eapply (dinv_worker n b a (s_link s) s); try done.
  intros st' ss. cbn. rewrite lookup_alter_Some. intros [(-> & ss0 & Hss0 & ->)|[_ Hss]].
  - apply Hst in Hss0 as [Hu Hd Hp]. split; cbn; [|done|done].
    destruct (le_sent _ _ _ _ Heff) as (msgs & -> & Hm). rewrite drop_app_length.
    intros ev. rewrite elem_of_app. intros [Hev|Hev].
    + eapply lookup_weaken; [by apply Hu|done].
    + eapply lookup_weaken; [by apply Hm|apply map_union_subseteq_l].
  - eapply stream_ok_mono; [exact Hsubm|done|done|by eapply Hst].
Qed.

(** Taking a message off a stream. *)
Lemma take_down_spec s st m s1 :
  take_down s st = Some (m, s1) →
  ∃ ss streams, s_streams s !! st = Some ss ∧ m ∈ ss_down ss ∧ s1 = refit s (s_shards s) streams ∧
    ∀ numbered ours g, (∀ st ss, s_streams s !! st = Some ss → stream_ok numbered ours g ss) →
      ∀ st ss, streams !! st = Some ss → stream_ok numbered ours g ss.
Proof.
  unfold take_down. destruct (s_streams s !! st) as [ss|] eqn:Hss; [|done]. cbn.
  destruct (ss_down ss) as [|m' down] eqn:Hdown; [done|]. intros [= -> <-].
  exists ss. eexists. split_and!; [done|by rewrite Hdown; left|done|].
  intros numbered ours g Hok st' ss'. rewrite lookup_insert_Some. intros [[<- <-]|[_ ?]]; [|by eapply Hok].
  destruct (Hok _ _ Hss) as [Hu Hd Hp]. split; cbn; [done| |done]. intros m' id Hm'. apply Hd. rewrite Hdown. by right.
Qed.

(** An acknowledgement in a stream is for a delivered event. *)
Lemma acked_delivered n s ss st m id ev :
  dinv n s → s_streams s !! st = Some ss → m ∈ ss_down ss → acked m = Some id →
  s_numbered s !! id = Some ev → delivered s ev.
Proof.
  intros Hs Hss Hm Hid Hev.
  destruct (so_down _ _ _ _ (di_streams _ _ Hs _ _ Hss) _ _ Hm Hid) as (c & Hc & Hg).
  unfold given in Hg. apply list_elem_of_bind in Hg as (command & Hg & Hin).
  destruct command as [| | | |[| |c' inst e|]|]; cbn in Hg; try by apply elem_of_nil in Hg.
  apply list_elem_of_singleton in Hg. simplify_eq.
  assert (Hcmd : SfuInput (ssfu.InEvent c' inst e) ∈ commands s) by (by apply elem_of_app; left).
  apply (di_commands _ _ Hs) in Hcmd as [_ Hcmd].
  destruct (Hcmd c' inst e eq_refl Hc) as (ev' & now & Hev' & Hdec). simplify_eq.
  by exists c', inst, now, (ssfu.InEvent c' inst e).
Qed.

Lemma begin_session_effect config l n l' r :
  numbered_ok (S n) l [] (pending_events l) →
  begin_session config (Ok tt) l = (l', r) →
  link_effect None None (mk_Link (pending_events l) (event_counter l) (link_worker l) []) l' ∧
  ∀ ev, v2.MsgEvent ev ∉ outgoing l'.
Proof.
  intros [_ _ _ [Hpos Hb]]. unfold begin_session, st_bind, lift, new_channel, fresh_event_id. cbn [event_counter].
  rewrite next_nonzero_spec by (unfold is_u64; lia). destruct (N.eqb_spec (event_counter l) 0); [lia|].
  rewrite wrap64_small by (unfold is_u64; lia). cbn. intros [= <- <-].
  assert (Hno : ∀ ev m, v2.MsgEvent ev ∈ [v2.MsgRegister m] → False) by (by intros ? ? ?%list_elem_of_singleton).
  split; [|by intros ev ?%Hno]. split; cbn; [lia| |auto|auto|done].
  eexists. split; [done|]. by intros ev ?%Hno.
Qed.

Lemma dinv_weaken n s : dinv (S n) s → dinv n s.
Proof.
  intros [[? ? ? ?] [? ? ? ?] ? ? ? ?]. split; [split; [done..|lia]|split; [done..|lia]|done..].
Qed.

Lemma dinv_number n s kind s' : dinv (S n) s → number_event s kind = Some s' → dinv n s'.
Proof.
  intros [[Hi Hp Hsh [Hpos Hb]] Hco Hst Hcmd Hack Hmain]. unfold number_event.
  rewrite next_nonzero_spec by (unfold is_u64; lia). destruct (N.eqb_spec (event_counter (s_link s)) 0); [lia|].
  rewrite wrap64_small by (unfold is_u64; lia). cbn. intros [= <-].
  set (ev := v2.mk_SfuEvent _ _). set (id := event_counter (s_link s)) in *.
  assert (Hnew : s_numbered s !! id = None).
  { destruct (s_numbered s !! id) as [x|] eqn:Hx; [|done]. apply Hi in Hx as [_ ?]. lia. }
  assert (Hsub : s_numbered s ⊆ <[id := ev]> (s_numbered s)) by by apply insert_subseteq.
  split; cbn.
  - split; cbn.
    + intros id' e. rewrite lookup_insert_Some. intros [[<- <-]|[_ He]]; [cbn; lia|]. apply Hi in He. split; [apply He|lia].
    + by etrans.
    + intros e. rewrite elem_of_app, list_elem_of_singleton. intros [He| ->].
      * eapply lookup_weaken; [by apply Hsh|done].
      * apply lookup_insert_eq.
    + lia.
  - destruct Hco as [? ? ? ?]. split; [done..|lia].
  - intros st ss Hss. eapply stream_ok_mono; [exact Hsub|done|done|by eapply Hst].
  - intros command Hc. eapply command_ok_numbered; [exact Hsub|by apply Hcmd].
  - exact Hack.
  - intros id' e. rewrite lookup_insert_Some. intros [[<- <-]|[_ He]].
    + left. apply elem_of_app. right. left.
    + destruct (Hmain _ _ He) as [?|[?|?]]; [left; by apply elem_of_app; left|by right; left|by right; right].
Qed.

(** The steps of the worker's session. *)
Lemma dinv_session config n s l s' :
  dinv (S n) s → dstep config l s = Some s' →
  match l with Connect | Greet _ | Tick _ | TakeEvent _ | Read _ _ | LoseSession => True | _ => False end →
  dinv n s'.
Proof.
  intros Hs Hstep Hl. pose proof (numbered_ok_link _ _ _ _ (di_numbered _ _ Hs)) as Hok.
  pose proof (di_streams _ _ Hs) as Hst.
  destruct l as [kind| |open|open|open|now open| | | | | | | | |]; cbn [dstep] in Hstep; try done.
  - unfold connect in Hstep. destruct (s_conn s); [done|].
    destruct (begin_session config (Ok tt) (s_link s)) as [l' [rid|e]] eqn:Hbegin; [|done]. simplify_eq.
    destruct (begin_session_effect config (s_link s) n l' (Ok rid)) as [Heff Hnone]; [|done|].
    { destruct Hok as [Hi Hc]. split; [done|done|by intros ? ?%elem_of_nil|done]. }
    set (l0 := mk_Link _ _ _ _) in Heff.
    destruct (numbered_step n None None l0 s l' (s_shards s) (di_numbered _ _ Hs) eq_refl eq_refl Heff) as [Hsubm _]; [done..|].
    eapply (dinv_worker n None None l0 s); [done|reflexivity|reflexivity|exact Heff|done..|auto|].
    intros st ss. cbn. rewrite lookup_insert_Some. intros [[<- <-]|[_ Hss]].
    + split; cbn; [by intros ev ?%Hnone|by intros ? ? ?%elem_of_nil|done].
    + eapply stream_ok_mono; [exact Hsubm|done|done|by eapply Hst].
  - destruct (s_conn s) as [[st [rid|]]|]; try done.
    destruct (take_down s st) as [[m s1]|] eqn:Htake; [|done]. cbn -[greet worker_turn] in Hstep.
    apply take_down_spec in Htake as (ss & streams & Hss & Hm & -> & Hmap).
    destruct (greet _ _ _ _ _ _) as [l' r] eqn:Hg. simplify_eq. cbn [refit s_link] in Hg.
    eapply (dinv_after_turn n None None); [done| |done|done|auto|auto|by apply Hmap].
    change l' with (l', r).1. rewrite <- Hg. by eapply greet_effect.
  - destruct (s_conn s) as [[st [rid|]]|]; try done. simplify_eq. unfold worker_turn.
    pose proof (session_turn_effect config (HealthTick open) (s_link s) n Hok) as Heff.
    destruct (SfuSession.session_turn _ _ _) as [l' r]. cbn in Heff.
    apply (dinv_after_turn n None None s (s_shards s) (s_streams s)); auto; done.
  - destruct (s_conn s) as [[st [rid|]]|]; try done. destruct (s_shards s) as [|ev evs] eqn:Hsh; [done|]. simplify_eq.
    unfold worker_turn. cbn [s_link].
    pose proof (session_turn_effect config (FromShard (Some ev) open) (s_link s) n Hok) as Heff.
    destruct (SfuSession.session_turn _ _ _) as [l' r]. cbn in Heff.
    apply (dinv_after_turn n (Some ev) None s evs (s_streams s)); [done|done| |done| | |done].
    + intros ev' [= <-]. apply (no_shards _ _ _ _ (di_numbered _ _ Hs)). rewrite Hsh. left.
    + intros e He. rewrite Hsh. by right.
    + intros e. rewrite Hsh, elem_of_cons. intros [->|?]; auto.
  - destruct (s_conn s) as [[st [rid|]]|]; try done.
    destruct (take_down s st) as [[m s1]|] eqn:Htake; [|done]. cbn -[greet worker_turn] in Hstep.
    apply take_down_spec in Htake as (ss & streams & Hss & Hm & -> & Hmap). simplify_eq.
    unfold worker_turn. cbn [s_link refit].
    pose proof (session_turn_effect config (FromSignaling (Ok (Some m)) now open) (s_link s) n Hok) as Heff.
    destruct (SfuSession.session_turn _ _ _) as [l' r]. cbn in Heff.
    eapply (dinv_after_turn n None (acked m)); [done|done|done| |auto|auto|by apply Hmap].
    intros id ev Hid Hev. by eapply acked_delivered.
  - simplify_eq. eapply (dinv_worker n None None (s_link s) s); try done; [apply link_effect_none|auto|].
    intros st ss Hss. cbn. eapply stream_ok_mono; [|done|done|by eapply Hst].
    by destruct (numbered_step n None None _ s (s_link s) (s_shards s) (di_numbered _ _ Hs) eq_refl eq_refl
      (link_effect_none _)).
Qed.

(** *** Steps of the others *)

Lemma dinv_env n s s' :
  dinv (S n) s → s_link s' = s_link s → s_shards s' = s_shards s → s_numbered s' = s_numbered s →
  s_ours s ⊆ s_ours s' → s_handled s ⊆ s_handled s' →
  conns_ok n (conns s') (s_connections s') (s_channels s') →
  (∀ st ss, s_streams s' !! st = Some ss → stream_ok (s_numbered s) (s_ours s') (given s') ss) →
  (∀ command, command ∈ commands s' → command_ok (s_numbered s) (s_ours s') (conns s') command) →
  acks_inv (given s') (s_handled s' ≫= registrations_of) (s_driver s') →
  dinv n s'.
Proof.
  intros [Hn _ _ _ _ Hmain] E1 E2 E3 Ho Hh Hco Hst Hcmd Hack.
  split; rewrite ?E1, ?E2, ?E3; [|done..|].
  - destruct Hn as [? ? ? ?]. split; [done..|lia].
  - intros id ev Hev. destruct (Hmain _ _ Hev) as [?|[?|Hd]]; [by left|by right; left|right; right].
    eapply delivered_by_mono; [|exact Hh|exact Hd].
    intros c (p & -> & Hin)%list_elem_of_fmap. apply list_elem_of_fmap. exists p. split; [done|by apply Ho].
Qed.

Lemma conns_ok_weaken n cs k ch : conns_ok (S n) cs k ch → conns_ok n cs k ch.
Proof. intros [? ? ? ?]. split; [done..|lia]. Qed.

(** A new connection id, with a new channel. *)
Lemma conns_ok_new n cs cs' k ch :
  conns_ok (S n) cs k ch → cs' ≡ₚ (k, ch) :: cs → conns_ok n cs' (k + 1) (S ch).
Proof.
  intros [Hi Hc Hb ?] Hperm. split.
  - rewrite Hperm. cbn. apply list.NoDup_cons. split; [|done].
    intros ([k' c'] & Hk & Hin)%list_elem_of_fmap. cbn in Hk. subst k'. apply Hb in Hin as [? _]. lia.
  - rewrite Hperm. cbn. apply list.NoDup_cons. split; [|done].
    intros ([k' c'] & Hk & Hin)%list_elem_of_fmap. cbn in Hk. subst c'. apply Hb in Hin as [_ ?]. lia.
  - intros c' ch'. rewrite Hperm, elem_of_cons. intros [[= -> ->]|Hin%Hb]; lia.
  - lia.
Qed.

(** A command stays fine when a connection is added. *)
Lemma command_ok_conns numbered ours ours' cs cs' k ch command :
  (∀ c ch', (c, ch') ∈ cs → (c < k)%N) → cs' ≡ₚ (k, ch) :: cs →
  (∀ c, c ∈ ours'.*1 → c ∈ ours.*1 ∨ c = k) →
  command_ok numbered ours cs command → command_ok numbered ours' cs' command.
Proof.
  intros Hb Hperm Ho. destruct command as [| | |[c| | |] ch'|input|]; cbn; try done.
  - rewrite Hperm. by right.
  - intros [Hc Hev]. split; [rewrite Hperm; by right|]. intros c inst e -> Hin.
    destruct (Ho _ Hin) as [?| ->]; [by eapply Hev|]. cbn in Hc.
    apply list_elem_of_fmap in Hc as ([k' ch'] & Hk & Hc). cbn in Hk. subst k'. apply Hb in Hc. lia.
Qed.

Lemma acks_inv_new_channel h regs d ch :
  acks_inv h regs d →
  acks_inv h regs (with_sfu_store d (<[ch := mk_channel [] COMMAND_CAPACITY true]> (sfu_store d))).
Proof.
  intros [H1 H2 H3]. split; cbn; [done| |done]. intros ch' q o. rewrite lookup_insert_Some.
  intros [[<- <-]|[_ ?]]; [by intros ?%elem_of_nil|by apply H2].
Qed.

(** Taking outputs off a channel, or closing it. *)
Lemma acks_inv_store h regs d m :
  (∀ ch q o, m !! ch = Some q → o ∈ chan_queue q → ∃ q0, sfu_store d !! ch = Some q0 ∧ o ∈ chan_queue q0) →
  acks_inv h regs d → acks_inv h regs (with_sfu_store d m).
Proof.
  intros Hm [H1 H2 H3]. split; cbn; [done| |done]. intros ch q o Hq Ho.
  destruct (Hm _ _ _ Hq Ho) as (q0 & ? & ?). by eapply H2.
Qed.

Lemma acks_inv_close h regs d ch : acks_inv h regs d → acks_inv h regs (close_output d ch).
Proof.
  apply acks_inv_store. intros ch' q o. rewrite lookup_alter_Some.
  intros [(-> & q0 & Hq0 & ->)|[_ ?]]; cbn; eauto.
Qed.

Lemma dinv_lose n s st k :
  dinv (S n) s →
  dinv n (with_streams s (alter (λ ss, mk_SigSession (ss_phase ss) (take k (ss_up ss)) (ss_down ss)) st (s_streams s))).
Proof.
  intros Hs. apply (dinv_env n s); [done..|apply conns_ok_weaken, Hs| |apply Hs|apply Hs].
  intros st' ss. cbn. rewrite lookup_alter_Some. intros [(-> & ss0 & Hss & ->)|[_ ?]]; [|by eapply di_streams].
  destruct (di_streams _ _ Hs _ _ Hss) as [Hu Hd Hp]. split; cbn; [|done|done].
  intros ev Hev. apply Hu. by eapply subseteq_take.
Qed.

Lemma dinv_accept n s st s' : dinv (S n) s → accept_session s st = Some s' → dinv n s'.
Proof.
  intros Hs. unfold accept_session. destruct (s_streams s !! st) as [ss|] eqn:Hss; [|done]. cbn -[open_sfu_session].
  pose proof (di_streams _ _ Hs _ _ Hss) as [Hu Hd Hp].
  destruct (ss_phase ss); [|done..]. destruct (ss_up ss) as [|m up] eqn:Hup; [done|].
  destruct (di_conns _ _ Hs) as [Hi Hc Hb [Hpos Hlt]] eqn:Hco.
  pose proof (open_sfu_session_spec (First (v2.mk_SfuToSignaling (Some m))) (s_channels s) true (s_connections s)
    Hpos ltac:(unfold is_u64; lia)) as Hopen.
  destruct (registration _) as [[ctx cap]|e].
  - rewrite Hopen. intros [= <-]. set (k := s_connections s) in *. set (ch := s_channels s) in *.
    set (s' := mk_System _ _ _ _ _ _ _ _ _ _ _ _ _).
    assert (Hperm : conns s' ≡ₚ (k, ch) :: conns s).
    { unfold conns; cbn. by rewrite <- app_assoc, Permutation_middle. }
    assert (Hours : ∀ c, c ∈ (s_ours s').*1 → c ∈ (s_ours s).*1 ∨ c = k).
    { intros c. cbn. rewrite fmap_app, elem_of_app. cbn. by rewrite list_elem_of_singleton. }
    apply (dinv_env n s s'); try done.
    + by apply list_subseteq_app_l.
    + eapply conns_ok_new; [apply Hs|done].
    + intros st' ss'. cbn. rewrite lookup_insert_Some. intros [[<- <-]|[_ Hss']].
      * split; cbn.
        -- intros ev Hev. apply Hu. by right.
        -- intros m' id Hm Hid. destruct (Hd _ _ Hm Hid) as (c & ? & ?). exists c.
           rewrite fmap_app, elem_of_app. auto.
        -- intros c inst ch' [= <- _ <-]. apply elem_of_app. right. left.
      * eapply stream_ok_mono; [done|by apply list_subseteq_app_l|done|by eapply di_streams].
    + intros command. unfold commands; cbn. rewrite app_assoc, elem_of_app, list_elem_of_singleton.
      intros [Hin| ->].
      * eapply command_ok_conns; [|exact Hperm|exact Hours|by eapply di_commands].
        intros c ch' ?%Hb. lia.
      * change ((k, ch) ∈ conns s'). rewrite Hperm. left.
    + cbn. apply acks_inv_new_channel, Hs.
  - rewrite Hopen. intros [= <-].
    apply (dinv_env n s); [done..|apply conns_ok_weaken, Hs| |apply Hs|apply Hs].
    intros st' ss'. cbn. rewrite lookup_insert_Some. intros [[<- <-]|[_ ?]]; [|by eapply di_streams].
    split; cbn; [by intros ? ?%elem_of_nil|done|done].
Qed.

Lemma dinv_other n s s' config : dinv (S n) s → dstep config OtherSession s = Some s' → dinv n s'.
Proof.
  intros Hs. cbn. intros [= <-]. destruct (di_conns _ _ Hs) as [Hi Hc Hb [Hpos Hlt]] eqn:Hco.
  rewrite N.max_l by lia. rewrite wrap64_small by (unfold is_u64; lia).
  set (k := s_connections s) in *. set (ch := s_channels s) in *. set (s' := mk_System _ _ _ _ _ _ _ _ _ _ _ _ _).
  assert (Hperm : conns s' ≡ₚ (k, ch) :: conns s).
  { unfold conns; cbn. rewrite app_assoc. by rewrite Permutation_app_comm. }
  apply (dinv_env n s s'); try done.
  - eapply conns_ok_new; [apply Hs|done].
  - apply Hs.
  - intros command Hin. eapply command_ok_conns; [|exact Hperm|by left|exact (di_commands _ _ Hs command Hin)].
    intros c ch' ?%Hb. lia.
  - cbn. apply acks_inv_new_channel, Hs.
Qed.

Lemma dinv_produce n s command :
  dinv (S n) s → foreign s command = true → dinv n (with_commands s [command]).
Proof.
  intros Hs Hf. apply (dinv_env n s); [done..|apply conns_ok_weaken, Hs|apply Hs| |apply Hs].
  intros command'. unfold commands; cbn. rewrite app_assoc, elem_of_app, list_elem_of_singleton.
  intros [Hin| ->]; [by apply (di_commands _ _ Hs)|].
  destruct command as [| | |[c inst rid cap| | |] ch|input|]; cbn in *; try done; apply bool_decide_eq_true in Hf.
  - apply elem_of_app. by right.
  - split; [rewrite fmap_app; apply elem_of_app; by right|]. intros c inst e -> Hin. exfalso. cbn in Hf.
    pose proof (co_ids _ _ _ _ (di_conns _ _ Hs)) as Hnd. unfold conns in Hnd. rewrite fmap_app in Hnd.
    apply list.NoDup_app in Hnd as (_ & Hd & _). by eapply Hd.
Qed.

Lemma dinv_take n s clock command q :
  dinv (S n) s → s_queue s = command :: q →
  dinv n (mk_System (s_link s) (s_conn s) (s_shards s) (s_streams s) (s_next_stream s) (s_connections s)
            (s_channels s) (s_ours s) (s_others s) (turn clock (s_driver s) (Command (Some command))).1 q
            (s_handled s ++ [command]) (s_numbered s)).
Proof.
  intros Hs Hq. set (s' := mk_System _ _ _ _ _ _ _ _ _ _ _ _ _).
  assert (Eg : given s' = given s ++ events_of command).
  { unfold given; cbn. rewrite bind_app. cbn. by rewrite app_nil_r. }
  apply (dinv_env n s s'); try done.
  - by apply list_subseteq_app_l.
  - apply conns_ok_weaken, Hs.
  - intros st ss Hss. rewrite Eg. eapply stream_ok_mono; [done|done|by apply list_subseteq_app_l|exact (di_streams _ _ Hs _ _ Hss)].
  - intros command' Hin. apply (di_commands _ _ Hs). unfold commands in *; cbn in Hin.
    by rewrite <- app_assoc in Hin; rewrite Hq.
  - rewrite Eg. cbn [s' s_handled s_driver]. rewrite bind_app. cbn -[turn]. rewrite app_nil_r.
    apply turn_command_acks, Hs.
Qed.

(** *** The session tasks *)

(** What a session task does with a message of the worker. *)
Lemma incoming_spec c inst m now d :
  let '(sent, v) := GrpcSession.session_turn c inst (Incoming (Ok (Some m)) now d) (mk_Sent [] []) in
  omap result_ok (to_wire sent) = [] ∧
  ∀ command, command ∈ to_driver sent → ∃ input, command = SfuInput input ∧ decode_sfu_input now c inst m = Ok input.
Proof.
  cbn. destruct (decode_sfu_input now c inst m) as [input|e]; destruct d; cbn;
    (split; [done|]); intros command Hin; try by apply elem_of_nil in Hin.
  apply list_elem_of_singleton in Hin as ->. eauto.
Qed.

(** What it does with an output of the loop. *)
Lemma outgoing_spec c inst o d :
  let '(sent, v) := GrpcSession.session_turn c inst (Outgoing (Some o) d) (mk_Sent [] []) in
  to_driver sent = [] ∧
  ∀ w id, w ∈ omap result_ok (to_wire sent) → acked w = Some id → ∃ c', o = ssfu.OutEventAck c' id.
Proof.
  destruct o as [c' rid ms res|c' rid e|c' cmd|c' rid|c']; cbn; try destruct d; cbn; (split; [done|]);
    intros w id Hin; try (by apply elem_of_nil in Hin); apply list_elem_of_singleton in Hin as ->; cbn; try done.
  intros [= ->]. by exists c'.
Qed.

Lemma ended_spec c inst now d :
  GrpcSession.session_turn c inst (Incoming (Ok None) now d) (mk_Sent [] []) = (mk_Sent [] [], Break).
Proof. done. Qed.

#[local] Opaque GrpcSession.session_turn.

(** A decoded event is a message of the worker under the session's identity. *)
Lemma decode_event_spec now c inst m input :
  decode_sfu_input now c inst (v2.mk_SfuToSignaling (Some m)) = Ok input →
  sfu_input_connection_id input = c ∧
  ∀ c' inst' e, input = ssfu.InEvent c' inst' e →
    c' = c ∧ inst' = inst ∧ ∃ ev, m = v2.MsgEvent ev ∧ ssfu.e_request_id e = v2.event_request_id ev.
Proof.
  unfold decode_sfu_input. cbn [v2.to_signaling]. destruct m as [r|r|ev]; [done| |].
  - destruct (_ =? 0)%N; [done|]. destruct (match v2.res_result r with Some _ => _ | None => _ end); [|done].
    intros [= <-]. done.
  - destruct (_ =? 0)%N; [done|]. destruct (decode_event _); [|done]. intros [= <-]. split; [done|].
    intros c' inst' e [= <- <- <-]. eauto.
Qed.

Lemma dinv_after_session n s st c inst ch up down now sv d :
  dinv (S n) s → (c, ch) ∈ s_ours s → acks_inv (given s) (s_handled s ≫= registrations_of) d →
  stream_ok (s_numbered s) (s_ours s) (given s) (mk_SigSession (Serving c inst ch) up down) →
  (∀ w id, w ∈ omap result_ok (to_wire sv.1) → acked w = Some id → ∃ c, c ∈ (s_ours s).*1 ∧ (c, id) ∈ given s) →
  (∀ command, command ∈ to_driver sv.1 → command_ok (s_numbered s) (s_ours s) (conns s) command) →
  dinv n (after_session (with_driver s d) st c inst ch up down now sv).
Proof.
  intros Hs Hc Hack [Hu Hd Hp] Hw Hcmd. destruct sv as [sent v]. cbn [fst] in *.
  assert (Hst : ∀ phase up', up' ⊆ up → phase = Serving c inst ch ∨ phase = Over →
    ∀ st' ss, <[st := mk_SigSession phase up' (down ++ omap result_ok (to_wire sent))]> (s_streams s) !! st' = Some ss →
      stream_ok (s_numbered s) (s_ours s) (given s) ss).
  { intros phase up' Hup Hph st' ss. rewrite lookup_insert_Some. intros [[<- <-]|[_ ?]]; [|by eapply di_streams].
    split; cbn; [by intros ev ?%Hup; apply Hu| |].
    - intros m id. rewrite elem_of_app. intros [?|?] Hid; [by eapply Hd|by eapply Hw].
    - intros c' inst' ch' ->. destruct Hph as [[= -> -> ->]|?]; done. }
  assert (Hcmds : ∀ extra, (∀ command, command ∈ extra → command_ok (s_numbered s) (s_ours s) (conns s) command) →
    ∀ command, command ∈ s_handled s ++ s_queue s ++ to_driver sent ++ extra →
      command_ok (s_numbered s) (s_ours s) (conns s) command).
  { intros extra Hextra command. rewrite app_assoc, !elem_of_app, <- elem_of_app.
    intros [?|[?|?]]; [by apply (di_commands _ _ Hs)|by apply Hcmd|by apply Hextra]. }
  assert (Hco : conns_ok n (conns s) (s_connections s) (s_channels s)) by apply conns_ok_weaken, Hs.
  assert (Hover : dinv n (with_commands (serve_session (with_driver (with_driver s d) (close_output d ch)) st
    (mk_SigSession Over [] (down ++ omap result_ok (to_wire sent))))
    (to_driver sent ++ [SfuInput (ssfu.InDisconnected c inst now)]))).
  { apply (dinv_env n s); [done..| | |]; cbn.
    - apply (Hst Over []); [by intros ? ?%elem_of_nil|by right].
    - unfold commands; cbn. apply Hcmds. intros command ->%list_elem_of_singleton. cbn. split; [|done].
      apply list_elem_of_fmap. exists (c, ch). split; [done|]. apply elem_of_app. by left.
    - by apply acks_inv_close. }
  unfold after_session. destruct v; [|exact Hover..].
  apply (dinv_env n s); [done..| | |exact Hack]; cbn.
  - apply (Hst (Serving c inst ch) up); [done|by left].
  - unfold commands; cbn. specialize (Hcmds []). rewrite app_nil_r in Hcmds. apply Hcmds. by intros ? ?%elem_of_nil.
Qed.

Lemma dinv_relay_up n s st now d ended s' : dinv (S n) s → relay_up s st now d ended = Some s' → dinv n s'.
Proof.
  intros Hs. unfold relay_up. destruct (s_streams s !! st) as [ss|] eqn:Hss; [|done]. cbn.
  pose proof (di_streams _ _ Hs _ _ Hss) as [Hu Hd Hp]. destruct (ss_phase ss) as [|c inst ch|] eqn:Hph; [done| |done].
  assert (Hc : (c, ch) ∈ s_ours s) by by eapply Hp.
  assert (Hend : dinv n (after_session (with_driver s (s_driver s)) st c inst ch [] (ss_down ss) now
    (GrpcSession.session_turn c inst (Incoming (Ok None) now d) (mk_Sent [] [])))).
  { rewrite ended_spec. apply (dinv_after_session n s); [done|done|apply Hs| | |]; cbn; try (intros *; by intros ?%elem_of_nil).
    split; cbn; [by intros ? ?%elem_of_nil|done|]. by intros c' inst' ch' [= -> -> ->]. }
  assert (Hsame : with_driver s (s_driver s) = s) by by destruct s. rewrite Hsame in Hend.
  destruct (ss_up ss) as [|m up] eqn:Hup; destruct ended; try done; [by intros [= <-]..|].
  clear Hend. intros [= <-]. rewrite <- Hsame at 1.
  pose proof (incoming_spec c inst (v2.mk_SfuToSignaling (Some m)) now d) as Hspec.
  destruct (GrpcSession.session_turn _ _ _ _) as [sent v]. destruct Hspec as [Hwire Hdrv].
  apply (dinv_after_session n s); [done|done|apply Hs| | |]; cbn [fst].
  - split; cbn; [|done|by intros c' inst' ch' [= -> -> ->]]. intros ev Hev. apply Hu. by right.
  - rewrite Hwire. by intros w id ?%elem_of_nil.
  - intros command (input & -> & Hdec)%Hdrv. cbn.
    destruct (decode_event_spec _ _ _ _ _ Hdec) as [Hid Hev]. rewrite Hid. split.
    { apply list_elem_of_fmap. exists (c, ch). split; [done|]. apply elem_of_app. by left. }
    intros c' inst' e -> _. destruct (Hev _ _ _ eq_refl) as (-> & -> & ev & -> & He).
    exists ev, now. split; [|exact Hdec]. rewrite He. apply Hu. left.
Qed.

Lemma dinv_relay_down n s st now d s' : dinv (S n) s → relay_down s st now d = Some s' → dinv n s'.
Proof.
  intros Hs. unfold relay_down. destruct (s_streams s !! st) as [ss|] eqn:Hss; [|done]. cbn.
  pose proof (di_streams _ _ Hs _ _ Hss) as [Hu Hd Hp]. destruct (ss_phase ss) as [|c inst ch|] eqn:Hph; [done| |done].
  assert (Hc : (c, ch) ∈ s_ours s) by by eapply Hp.
  destruct (sfu_store (s_driver s) !! ch) as [q|] eqn:Hq; [|done]. cbn.
  destruct (chan_queue q) as [|o os] eqn:Hos; [done|]. intros [= <-].
  pose proof (outgoing_spec c inst o d) as Hspec.
  destruct (GrpcSession.session_turn _ _ _ _) as [sent v]. destruct Hspec as [Hdrv Hwire].
  assert (Hregs : s_handled s ≫= registrations_of ⊆ conns s).
  { intros p (command & Hp' & Hin)%list_elem_of_bind.
    assert (Hcm : command ∈ commands s) by (by apply elem_of_app; left).
    apply (di_commands _ _ Hs) in Hcm.
    destruct command as [| | |[]| |]; cbn in Hp'; try by apply elem_of_nil in Hp'.
    by apply list_elem_of_singleton in Hp' as ->. }
  apply (dinv_after_session n s); [done|done| | | |]; cbn [fst].
  - apply acks_inv_store; [|apply Hs]. intros ch' q' o'. rewrite lookup_insert_Some.
    intros [[<- <-]|[_ ?]]; [|by eauto]. cbn. intros Ho'. exists q. split; [done|]. rewrite Hos. by right.
  - split; cbn; [done|done|by intros c' inst' ch' [= -> -> ->]].
  - intros w id Hin Hid. destruct (Hwire w id Hin Hid) as [c' ->].
    destruct (ai_queued _ _ _ (di_acks _ _ Hs) ch q (ssfu.OutEventAck c' id) Hq) as [Hreg Hgiven];
      [rewrite Hos; left|]. cbn in Hreg. apply Hregs in Hreg.
    assert (c' = c) as ->.
    { eapply same_oneshot; [apply (co_channels _ _ _ _ (di_conns _ _ Hs))|exact Hreg|].
      apply elem_of_app. by left. }
    exists c. split; [|by apply Hgiven]. apply list_elem_of_fmap. by exists (c, ch).
  - rewrite Hdrv. by intros ? ?%elem_of_nil.
Qed.

Lemma dinv_step config n s l s' : dinv (S n) s → dstep config l s = Some s' → dinv n s'.
Proof.
  intros Hs Hstep.
  destruct l; try (by eapply dinv_session; [exact Hs|exact Hstep|]); try by eapply dinv_other.
  - by eapply dinv_number.
  - cbn in Hstep. destruct (bool_decide _); [done|]. simplify_eq. by apply dinv_lose.
  - by eapply dinv_accept.
  - by eapply dinv_relay_up.
  - by eapply dinv_relay_down.
  - cbn in Hstep. destruct (foreign s command) eqn:Hf; [|done]. simplify_eq. by apply dinv_produce.
  - cbn -[turn] in Hstep. destruct (s_queue s) as [|command q] eqn:Hq; [done|]. simplify_eq. by apply dinv_take.
  - cbn -[turn] in Hstep. simplify_eq. apply (dinv_env n s); [done..|apply conns_ok_weaken, Hs|apply Hs|apply Hs|].
    apply turn_deadline_acks, Hs.
Qed.

Lemma dinv_steps config ls n s s' : dinv (length ls + n) s → dsteps config ls s = Some s' → dinv n s'.
Proof.
  revert s. induction ls as [|l ls IH]; intros s Hs; cbn; [by intros [= <-]|].
  destruct (dstep config l s) as [s1|] eqn:Hl; [|done]. apply IH. by eapply dinv_step.
Qed.

Lemma start_system_inv n engines rt dw :
  (1 + N.of_nat n < u64_modulus)%N → dinv n (start_system engines rt dw).
Proof.
  intros Hn. split; cbn.
  - split; cbn; [by intros ? ?; rewrite lookup_empty|done|by intros ? ?%elem_of_nil|lia].
  - split; cbn; [constructor|constructor|by intros ? ? ?%elem_of_nil|lia].
  - intros st ss. by rewrite lookup_empty.
  - by intros ? ?%elem_of_nil.
  - split; cbn.
    + intros c id ?%owes_dwell%owes_new. done.
    + intros ch q o. by rewrite lookup_empty.
    + intros c ch. by rewrite lookup_empty.
  - intros id ev. by rewrite lookup_empty.
Qed.

(** ** A session that opens *)

(** Once registered, a session sends every pending event again, then its health. *)
Lemma greet_sends config reply open rid l l' reg :
  greet config (Ok tt) (Ok (Some reply)) open rid l = (l', Ok reg) →
  ∃ events health, outgoing l' = outgoing l ++ (v2.MsgEvent <$> events) ++ [v2.MsgEvent health] ∧
    events ≡ₚ (map_to_list (pending_events l)).*2.
Proof.
  unfold greet. intros (o & l1 & [-> _]%lift_inv & H)%st_bind_inv.
  apply st_bind_inv in H as (r & l2 & [-> Hr]%lift_inv & H).
  apply st_bind_inv in H as (m & l3 & [-> Hm]%lift_inv & H).
  apply st_bind_inv in H as (reg' & l4 & [-> Hd]%lift_inv & H).
  apply st_bind_inv in H as ([] & l5 & Hre & H).
  apply st_bind_inv in H as ([] & l6 & Hh & [-> _]%lift_inv).
  apply resend_ok in Hre. subst l5. apply queue_health_ok in Hh as (hid & health & _ & _ & Ho). cbn in Ho.
  eexists _, health. split; [by rewrite Ho, <- app_assoc|apply hash_order_perm].
Qed.

Lemma greet_step_sends config open s s' st :
  dstep config (Greet open) s = Some s' → s_conn s' = Some (st, None) →
  ∃ ss, s_streams s' !! st = Some ss ∧
    ∀ id ev, pending_events (s_link s) !! id = Some ev → v2.MsgEvent ev ∈ ss_up ss.
Proof.
  cbn [dstep]. destruct (s_conn s) as [[st0 [rid|]]|]; try done. unfold take_down.
  destruct (s_streams s !! st0) as [ss|]; [|done]. cbn [mbind option_bind].
  destruct (ss_down ss) as [|m down]; [done|]. set (s1 := with_streams s _).
  cbn [mbind option_bind]. destruct (greet config (Ok tt) (Ok (Some m)) open rid (s_link s1)) as [l' r] eqn:Hg.
  intros Hs'. injection Hs' as <-.
  unfold after_turn. cbn [s_conn with_link s_streams with_streams].
  destruct r as [reg|e]; [|done]. intros [= <-].
  apply greet_sends in Hg as (events & health & Ho & Hperm). cbn [s1 with_streams s_link] in Ho, Hperm |- *.
  rewrite lookup_alter_eq. unfold s1. cbn [with_streams s_streams]. rewrite lookup_insert_eq. eexists. split; [reflexivity|].
  intros id ev Hev. cbn. rewrite Ho, drop_app_length, !elem_of_app. right. left.
  apply list_elem_of_fmap. exists ev. split; [done|]. rewrite Hperm. apply list_elem_of_fmap.
  exists (id, ev). split; [done|]. by apply elem_of_map_to_list.
Qed.

(** ** The property *)

(** C9: Whatever breaks between a worker and the signaling process, streams that lose what is in
    flight included, and whatever else the process serves: an event that a shard has numbered is
    still in the shards' channel, or is pending, or the event loop has handled it on a
    connection of that worker; and a session that opens while it is pending has sent it again on
    its stream. *)
Theorem events_delivered_at_least_once config engines register_timeout dwell ls s :
  (1 + N.of_nat (length ls) < u64_modulus)%N →
  dsteps config ls (start_system engines register_timeout dwell) = Some s →
  ∀ id ev, s_numbered s !! id = Some ev →
    v2.event_request_id ev = id ∧
    (ev ∈ s_shards s ∨ pending_events (s_link s) !! id = Some ev ∨
     ∃ c inst now input, c ∈ (s_ours s).*1 ∧ SfuInput input ∈ s_handled s ∧
       decode_sfu_input now c inst (event_message ev) = Ok input) ∧
    (pending_events (s_link s) !! id = Some ev →
     ∀ open s' stream, dstep config (Greet open) s = Some s' → s_conn s' = Some (stream, None) →
       ∃ ss, s_streams s' !! stream = Some ss ∧ v2.MsgEvent ev ∈ ss_up ss).
Proof.
  intros Hlen Hls id ev Hev.
  assert (Hs : dinv 0 s).
  { eapply dinv_steps; [|exact Hls]. rewrite Nat.add_0_r. by apply start_system_inv. }
  split_and!; [by apply (no_ids _ _ _ _ (di_numbered _ _ Hs))|exact (di_main _ _ Hs _ _ Hev)|].
  intros Hpending open s' stream Hgreet Hconn.
  destruct (greet_step_sends _ _ _ _ _ Hgreet Hconn) as (ss & ? & Hall). exists ss. eauto.
Qed.
End delivery_spec.

(** ** Witness *)

Section witness.
#[local] Existing Instance sample_room_id.
#[local] Existing Instance sample_enums.
#[local] Existing Instance sample_collider.

(** A shard numbers a failure; the first stream breaks before the event is read,
    a second session sends it again and it is acknowledged. *)
Definition delivery_ls : list DLabel :=
  [Number (v2.EvFailure (v2.mk_SfuFailure (Some (v2.mk_Error 14 "boom" false None)) None None None None));
   Connect; Accept 0; LoopTake (λ _, 1%N); RelayDown 0 2 true; Greet true; TakeEvent true; LoseSession; LoseUp 0 0;
   RelayUp 0 3 true true; OtherSession; Connect; Accept 1; LoopTake (λ _, 4%N); LoopTake (λ _, 5%N);
   RelayDown 1 6 true; Greet true; RelayUp 1 7 true false; RelayUp 1 8 true false;
   LoopTake (λ _, 9%N); LoopTake (λ _, 9%N); RelayDown 1 10 true; RelayDown 1 10 true; Read 11 true; Read 11 true].

Definition delivery_end : System :=
  opt_default (start_system [] 30 60) (dsteps sample_config delivery_ls (start_system [] 30 60)).

Definition delivery_runs : bool :=
  match dsteps sample_config delivery_ls (start_system [] 30 60) with Some _ => true | None => false end.

Lemma delivery_end_reached :
  delivery_runs = true → dsteps sample_config delivery_ls (start_system [] 30 60) = Some delivery_end.
Proof. unfold delivery_runs, delivery_end. by destruct (dsteps _ _ _). Qed.

(** Looking one event up in a map computes its id only. *)
Lemma lookup_id_none (m : gmap N v2.SfuEvent) id : v2.event_request_id <$> m !! id = None → m !! id = None.
Proof. by intros ?%fmap_None. Qed.

Lemma lookup_id_some (m : gmap N v2.SfuEvent) id x :
  v2.event_request_id <$> m !! id = Some x → ∃ ev, m !! id = Some ev.
Proof. intros (ev & ? & _)%fmap_Some. by exists ev. Qed.

(** With no event on its way and none pending, the third case is left. *)
Lemma only_delivered (s : System) id ev (Q : Prop) :
  s_shards s = [] → pending_events (s_link s) !! id = None →
  ev ∈ s_shards s ∨ pending_events (s_link s) !! id = Some ev ∨ Q → Q.
Proof. intros -> ->. by intros [?%elem_of_nil|[?|?]]. Qed.

(** The second session, when its registration has been answered. *)
Definition reconnecting : System :=
  opt_default (start_system [] 30 60) (dsteps sample_config (take 16 delivery_ls) (start_system [] 30 60)).

Definition reconnecting_runs : bool :=
  match dsteps sample_config (take 16 delivery_ls) (start_system [] 30 60) with Some _ => true | None => false end.

Lemma reconnecting_reached :
  reconnecting_runs = true →
  dsteps sample_config (take 16 delivery_ls) (start_system [] 30 60) = Some reconnecting.
Proof. unfold reconnecting_runs, reconnecting. by destruct (dsteps _ _ _). Qed.

Definition session_greets (s : System) (stream : nat) : bool :=
  match dstep sample_config (Greet true) s with
  | Some s' => bool_decide (s_conn s' = Some (stream, None))
  | None => false
  end.

Lemma session_greets_spec s stream :
  session_greets s stream = true →
  ∃ s', dstep sample_config (Greet true) s = Some s' ∧ s_conn s' = Some (stream, None).
Proof. unfold session_greets. destruct (dstep _ _ _) as [s'|]; [|done]. intros ?%bool_decide_eq_true. by exists s'. Qed.

Lemma events_delivered_at_least_once_witness :
  (∃ ev c inst now input, s_numbered delivery_end !! 1%N = Some ev ∧
     SfuInput input ∈ s_handled delivery_end ∧ decode_sfu_input now c inst (event_message ev) = Ok input) ∧
  (∃ ev s' ss, s_numbered reconnecting !! 1%N = Some ev ∧
     dstep sample_config (Greet true) reconnecting = Some s' ∧ s_streams s' !! 1%nat = Some ss ∧
     v2.MsgEvent ev ∈ ss_up ss).
Proof.
  split.
  - destruct (lookup_id_some (s_numbered delivery_end) 1 1) as [ev Hev]; [vm_compute; reflexivity|].
    assert (Hpending : pending_events (s_link delivery_end) !! 1%N = None)
      by (apply lookup_id_none; vm_compute; reflexivity).
    assert (Hshards : length (s_shards delivery_end) = 0%nat) by (vm_compute; reflexivity).
    apply length_zero_iff_nil in Hshards.
    destruct (events_delivered_at_least_once sample_config [] 30 60 delivery_ls delivery_end) with (id := 1%N) (ev := ev)
      as (_ & Hcases & _).
    + vm_compute. reflexivity.
    + apply delivery_end_reached. vm_compute. reflexivity.
    + exact Hev.
    + apply (only_delivered _ _ _ _ Hshards Hpending) in Hcases as (c & inst & now & input & _ & Hin & Hdec).
      exists ev, c, inst, now, input. exact (conj Hev (conj Hin Hdec)).
  - destruct (lookup_id_some (s_numbered reconnecting) 1 1) as [ev Hev]; [vm_compute; reflexivity|].
    assert (Hpending : pending_events (s_link reconnecting) !! 1%N = Some ev).
    { rewrite <- Hev. vm_compute. reflexivity. }
    destruct (session_greets_spec reconnecting 1) as (s' & Hgreet & Hconn); [vm_compute; reflexivity|].
    destruct (events_delivered_at_least_once sample_config [] 30 60 (take 16 delivery_ls) reconnecting) with (id := 1%N) (ev := ev)
      as (_ & _ & Hagain).
    + vm_compute. reflexivity.
    + apply reconnecting_reached. vm_compute. reflexivity.
    + exact Hev.
    + destruct (Hagain Hpending true s' 1%nat Hgreet Hconn) as (ss & Hss & Hin).
      exists ev, s', ss. exact (conj Hev (conj Hgreet (conj Hss Hin))).
Defined.
End witness.
