(* ===== verification/Answers.v ===== *)
(** * Commands are answered in order, at most once

    The direction from the event loop to the worker, on the system of Delivery.v:
    every command that the state machine addresses to a connection of the worker
    is on its way down, answered on its way up, or its answer has been handed to
    the loop, in the order of the commands. *)

From S2P Require Import Prelude Wire RoomIds Driver DriverSpec Stack GrpcServer GrpcServerSpec GrpcSession DriverAcks.
From S2P Require Import SfuShard SfuEvents SfuEventsSpec SfuSession SfuSessionSpec Delivery DeliverySpec Samples SfuSamples.

(** ** The history of relayed commands *)

Section answers.
Context `{L : RoomIdLib, P : v2.ProtoEnums, SL : SdpLib, E : !SfuLib, J : !SignalJson,
          LR : LeaveReasonDebug, HO : HashOrder, HL : !HashOrderLaws HO,
          C : !ColliderLib, CL : !ColliderLaws C, AL : !AckLaws C}.

(** The command of the loop, with its connection, that a step puts on a stream. *)
Definition relayed (l : DLabel) (s : System) : list (N * N) :=
  match l with
  | RelayDown stream _ true =>
      match s_streams s !! stream with
      | Some ss =>
          match ss_phase ss with
          | Serving c _ ch =>
              match sfu_store (s_driver s) !! ch with
              | Some q => match chan_queue q with ssfu.OutCommand _ k :: _ => [(c, ssfu.k_request_id k)] | _ => [] end
              | None => []
              end
          | _ => []
          end
      | None => []
      end
  | _ => []
  end.

(** [dsteps] with that history. *)
Fixpoint dsteps_log (config : Config) (ls : list DLabel) (s : System) (log : list (N * N))
  : option (System * list (N * N)) :=
  match ls with
  | [] => Some (s, log)
  | l :: ls' =>
      match dstep config l s with
      | Some s' => dsteps_log config ls' s' (log ++ relayed l s)
      | None => None
      end
  end.

(** The request ids of the commands relayed on a connection, of the commands in
    flight down a stream, of the answers in flight up, and of the answers from a
    connection among the loop's commands. *)
Definition relayed_on (c : N) (log : list (N * N)) : list N :=
  omap (λ p, if decide (p.1 = c) then Some p.2 else None) log.

Definition commands_down (down : list v2.SignalingToSfu) : list N :=
  omap (λ m, match v2.to_sfu m with Some (v2.MsgCommand k) => Some (v2.cmd_request_id k) | _ => None end) down.

Definition answers_up (up : list v2.ToSignaling) : list N :=
  omap (λ m, match m with v2.MsgCommandResult r => Some (v2.res_request_id r) | _ => None end) up.

Definition answered_on (c : N) (cmds : list DriverCommand) : list N :=
  omap (λ command, match command with
                   | SfuInput (ssfu.InCommandResult c' _ r _) =>
                       if decide (c' = c) then Some (ssfu.cr_request_id r) else None
                   | _ => None
                   end) cmds.

(** ** A step of the worker's session *)

(** The session has read the commands [ids] and sent answers to them, to all of
    them if it goes on. *)
Record answers_effect (ids : list N) (goes_on : bool) (l l' : Link) : Prop := mk_answers_effect {
  ae_sent : ∃ msgs, outgoing l' = outgoing l ++ msgs ∧ answers_up msgs `prefix_of` ids ∧
    (goes_on = true → answers_up msgs = ids);
  ae_worker : ids_agree (link_worker l) → ids_agree (link_worker l');
}.

Definition is_Ok {A X} (r : result A X) : bool := match r with Ok _ => true | Err _ => false end.

(** A step that reads no command and keeps the worker. *)
Lemma answers_effect_none goes_on msgs l l' :
  outgoing l' = outgoing l ++ msgs → answers_up msgs = [] → link_worker l' = link_worker l →
  answers_effect [] goes_on l l'.
Proof.
  intros Ho Hm Hw. split; [|by rewrite Hw]. exists msgs. rewrite Hm. split_and!; [done| |done]. apply prefix_nil.
Qed.

Lemma answers_up_events evs : answers_up (v2.MsgEvent <$> evs) = [].
Proof. by induction evs. Qed.

Lemma queue_health_answers config open l :
  ∃ msgs, outgoing (queue_health config open l).1 = outgoing l ++ msgs ∧ answers_up msgs = [] ∧
    link_worker (queue_health config open l).1 = link_worker l.
Proof.
  unfold queue_health, st_bind, fresh_event_id. destruct (next_nonzero (event_counter l)) as [[id c]|]; cbn.
  - unfold update_pending, send. destruct open; cbn.
    + by eexists [_].
    + exists []. by rewrite app_nil_r.
  - exists []. by rewrite app_nil_r.
Qed.

Lemma resend_answers open evs l :
  ∃ msgs, outgoing (resend open evs l).1 = outgoing l ++ msgs ∧ answers_up msgs = [] ∧
    link_worker (resend open evs l).1 = link_worker l.
Proof.
  revert l. induction evs as [|ev evs IH]; intros l; cbn [resend].
  - exists []. by rewrite app_nil_r.
  - unfold st_bind, send. destruct open; cbn.
    + destruct (IH (mk_Link (pending_events l) (event_counter l) (link_worker l) (outgoing l ++ [v2.MsgEvent ev])))
        as (msgs & -> & Hm & Hw). exists (v2.MsgEvent ev :: msgs). cbn. rewrite <- app_assoc. done.
    + exists []. by rewrite app_nil_r.
Qed.

Lemma greet_answers config m open rid l :
  let '(l', r) := greet config (Ok tt) (Ok (Some m)) open rid l in
  answers_effect (commands_down [m]) (is_Ok r) l l'.
Proof.
  unfold greet. rewrite !st_bind_lift. cbn [ok_or]. rewrite !st_bind_lift.
  destruct (decode_registration m rid) as [reg|e] eqn:Hreg.
  - assert (commands_down [m] = []) as ->.
    { unfold decode_registration in Hreg. cbn. by destruct (v2.to_sfu m) as [[]|]. }
    unfold st_bind at 1. destruct (resend_answers open (hash_order _ (map_to_list (pending_events l)).*2) l) as (m1 & H1 & A1 & W1).
    destruct (resend _ _ l) as [l1 [u|e]]; cbn in H1, W1; [|by eapply answers_effect_none].
    destruct (queue_health_answers config open l1) as (m2 & H2 & A2 & W2). unfold st_bind.
    destruct (queue_health _ _ l1) as [l2 r2]; cbn in H2, W2.
    assert (Heff : ∀ b, answers_effect [] b l l2).
    { intros b. apply (answers_effect_none _ (m1 ++ m2)); [by rewrite H2, H1, app_assoc| |congruence].
      unfold answers_up in *. by rewrite omap_app, A1, A2. }
    destruct r2; apply Heff.
  - split; [|done]. exists []. rewrite app_nil_r. split_and!; [done|apply prefix_nil|done].
Qed.

(** The command a turn of the session reads. *)
Definition turn_reads (t : SfuSession.Turn) : list N :=
  match t with FromSignaling (Ok (Some m)) _ _ => commands_down [m] | _ => [] end.

Definition stays_open (r : result (option bool) string) : bool :=
  match r with Ok None => true | _ => false end.

Lemma session_turn_answers config t l :
  ids_agree (link_worker l) →
  let '(l', r) := SfuSession.session_turn config t l in answers_effect (turn_reads t) (stays_open r) l l'.
Proof.
  intros Hw. assert (Hnone : ∀ b l', link_worker l' = link_worker l → outgoing l' = outgoing l → answers_effect [] b l l').
  { intros b l' Hl Ho. apply (answers_effect_none _ []); [by rewrite app_nil_r|done|done]. }
  destruct t as [|open|[ev|] open|[[[[[r|k|id]|]]|]|e] now open]; cbn [turn_reads]; try by apply Hnone.
  - cbn. unfold st_bind. destruct (queue_health_answers config open l) as (msgs & Ho & Ha & Hlw).
    destruct (queue_health config open l) as [l' [|]]; cbn in *; by eapply answers_effect_none.
  - cbn. unfold st_bind, update_pending, send, lift. destruct open; cbn.
    + by apply (answers_effect_none _ [v2.MsgEvent ev]).
    + by apply Hnone.
  - cbn. unfold st_bind, lift. cbn. destruct (dispatch_command_ids now (link_worker l) k Hw) as [Hw' Hid].
    destruct (dispatch_command now (link_worker l) k) as [w r]. cbn in Hw', Hid. unfold send.
    destruct open; cbn; (split; cbn; [|done]).
    + exists [v2.MsgCommandResult r]. cbn. by rewrite Hid.
    + exists []. rewrite app_nil_r. split_and!; [done|apply prefix_nil|done].
Qed.

(** ** The invariant *)

(** Of the commands relayed on connection [c], the stream of the connection
    carries the last ones down; the others were read, and their answers are the
    loop's or on their way, except that a session that is over may leave the last
    ones unanswered. *)
Definition on_way (c : N) (current : Prop) (cmds : list DriverCommand) (log : list (N * N)) (ss : SigSession) : Prop :=
  ∃ read, relayed_on c log = read ++ commands_down (ss_down ss) ∧
    answered_on c cmds ++ answers_up (ss_up ss) `prefix_of` read ∧
    (current → answered_on c cmds ++ answers_up (ss_up ss) = read).

Definition is_current (s : System) (st : nat) : Prop := fst <$> s_conn s = Some st.

Record ainv (s : System) (log : list (N * N)) : Prop := mk_ainv {
  av_worker : ids_agree (link_worker (s_link s));
  av_log : ∀ p, p ∈ log → p.1 ∈ (s_ours s).*1;
  av_answers : ∀ c, c ∈ (s_ours s).*1 → answered_on c (commands s) `prefix_of` relayed_on c log;
  av_waiting : ∀ st ss, s_streams s !! st = Some ss → ss_phase ss = AwaitFirst →
    commands_down (ss_down ss) = [] ∧ answers_up (ss_up ss) = [];
  av_serving : ∀ st ss c inst ch, s_streams s !! st = Some ss → ss_phase ss = Serving c inst ch →
    on_way c (is_current s st) (commands s) log ss;
  av_distinct : ∀ st st' ss ss' c inst ch inst' ch', s_streams s !! st = Some ss → s_streams s !! st' = Some ss' →
    ss_phase ss = Serving c inst ch → ss_phase ss' = Serving c inst' ch' → st = st';
}.

Lemma on_way_weaken c (current current' : Prop) cmds log ss :
  (current' → current) → on_way c current cmds log ss → on_way c current' cmds log ss.
Proof. intros Hc (read & ? & ? & ?). exists read. auto. Qed.

(** Losing the end of what is on its way up. *)
Lemma on_way_lose c (current : Prop) cmds log ss n :
  ¬ current → on_way c current cmds log ss →
  on_way c current cmds log (mk_SigSession (ss_phase ss) (take n (ss_up ss)) (ss_down ss)).
Proof.
  intros Hn (read & ? & Hp & ?). exists read. split_and!; [done| |done]. cbn. etrans; [|exact Hp].
  apply prefix_app. exists (answers_up (drop n (ss_up ss))). unfold answers_up. by rewrite <- omap_app, take_drop.
Qed.

(** *** Steps of the worker *)

Lemma ainv_after_turn {A} goes_on ids s log shards streams st l (r : result A string) conn :
  ainv s log → is_current s st → answers_effect ids goes_on (s_link s) l →
  (∀ st' ss, streams !! st' = Some ss → ∃ ss0, s_streams s !! st' = Some ss0 ∧ ss_phase ss = ss_phase ss0 ∧
     ss_up ss = ss_up ss0 ∧
     commands_down (ss_down ss0) = (if decide (st' = st) then ids else []) ++ commands_down (ss_down ss)) →
  (∀ st', fst <$> (match r with Ok a => conn a | Err _ => None end) = Some st' → st' = st ∧ goes_on = true) →
  ainv (after_turn (refit s shards streams) st l r conn) log.
Proof.
  intros [Hw Hlog Ha Hwait Hserv Hdis] Hcur [(msgs & Hout & Hpre & Hall) Hw'] Hst Hconn.
  assert (Hlook : ∀ st' ss, s_streams (after_turn (refit s shards streams) st l r conn) !! st' = Some ss →
    ∃ ss0 ids' msgs', s_streams s !! st' = Some ss0 ∧ ss_phase ss = ss_phase ss0 ∧
      commands_down (ss_down ss0) = ids' ++ commands_down (ss_down ss) ∧
      answers_up (ss_up ss) = answers_up (ss_up ss0) ++ msgs' ∧ msgs' `prefix_of` ids' ∧
      (st' = st → goes_on = true → msgs' = ids') ∧ (st' ≠ st → msgs' = [] ∧ ids' = [])).
  { intros st' ss. cbn. rewrite lookup_alter_Some. intros [(-> & ss1 & Hss1 & ->)|[Hne Hss]].
    - destruct (Hst _ _ Hss1) as (ss0 & ? & Hph & Hup & Hdown). rewrite decide_True in Hdown by done.
      exists ss0, ids, (answers_up msgs). rewrite Hout, drop_app_length. cbn.
      unfold answers_up. rewrite omap_app, Hup. split_and!; auto. done.
    - destruct (Hst _ _ Hss) as (ss0 & ? & Hph & Hup & Hdown). rewrite decide_False in Hdown by done.
      exists ss0, [], []. rewrite app_nil_r, Hup. split_and!; auto; done. }
  split; cbn -[after_turn]; [by apply Hw'|done|done| | |].
  - intros st' ss Hss Hph. destruct (Hlook _ _ Hss) as (ss0 & ids' & msgs' & Hss0 & Hph0 & Hd & Hu & Hp & _ & _).
    rewrite Hph0 in Hph. destruct (Hwait _ _ Hss0 Hph) as [Hd0 Hu0]. rewrite Hd in Hd0.
    apply app_eq_nil in Hd0 as [-> Hd']. apply prefix_nil_inv in Hp as ->. rewrite Hu, Hu0. done.
  - intros st' ss c inst ch Hss Hph. destruct (Hlook _ _ Hss) as (ss0 & ids' & msgs' & Hss0 & Hph0 & Hd & Hu & Hp & Hg & Hne).
    rewrite Hph0 in Hph. destruct (Hserv _ _ _ _ _ Hss0 Hph) as (read & Hr & Hpr & Heq).
    change (commands (after_turn _ _ _ _ _)) with (commands s).
    exists (read ++ ids'). rewrite Hu, Hr, Hd, !app_assoc. split; [done|].
    destruct (decide (st' = st)) as [->|Hst'].
    + rewrite Heq by done. split; [by apply prefix_app|]. intros Hc. apply Hconn in Hc as [_ Hgo]. by rewrite Hg.
    + destruct (Hne Hst') as [-> ->]. rewrite !app_nil_r. split; [done|]. intros Hc. by apply Hconn in Hc as [? _].
  - intros st1 st2 ss1 ss2 c i1 h1 i2 h2 Hs1 Hs2 Hp1 Hp2.
    destruct (Hlook _ _ Hs1) as (a & ? & ? & Ha1 & Hpa & _). destruct (Hlook _ _ Hs2) as (b & ? & ? & Hb1 & Hpb & _).
    rewrite Hpa in Hp1. rewrite Hpb in Hp2. by eapply Hdis.
Qed.

(** A turn that takes no message off the stream. *)
Lemma ainv_turn config t s log shards st :
  ainv s log → is_current s st → turn_reads t = [] →
  ainv (worker_turn config (refit s shards (s_streams s)) st t) log.
Proof.
  intros Hs Hcur Hr. unfold worker_turn. cbn [refit s_link].
  pose proof (session_turn_answers config t (s_link s) (av_worker _ _ Hs)) as Heff.
  destruct (SfuSession.session_turn _ _ _) as [l r]. rewrite Hr in Heff.
  eapply ainv_after_turn; [exact Hs|exact Hcur|exact Heff| |].
  - intros st' ss Hss. exists ss. by case_decide.
  - intros st'. destruct r as [[[]|]|]; try done. cbn. by intros [= ->].
Qed.

(** Taking the first message off the stream of the session. *)
Lemma take_down_reads s st m s1 :
  take_down s st = Some (m, s1) →
  ∃ streams, s1 = refit s (s_shards s) streams ∧
    ∀ st' ss, streams !! st' = Some ss → ∃ ss0, s_streams s !! st' = Some ss0 ∧ ss_phase ss = ss_phase ss0 ∧
      ss_up ss = ss_up ss0 ∧
      commands_down (ss_down ss0) = (if decide (st' = st) then commands_down [m] else []) ++ commands_down (ss_down ss).
Proof.
  unfold take_down. destruct (s_streams s !! st) as [ss0|] eqn:Hss0; [|done]. cbn.
  destruct (ss_down ss0) as [|m' down] eqn:Hdown; [done|]. intros [= -> <-]. eexists. split; [done|].
  intros st' ss. rewrite lookup_insert_Some. intros [[<- <-]|[Hne Hss]].
  - exists ss0. rewrite decide_True, Hdown by done. split_and!; try done. cbn. by destruct (v2.to_sfu m) as [[]|].
  - exists ss. by rewrite decide_False.
Qed.

Lemma ainv_session config s log l s' :
  ainv s log → dstep config l s = Some s' →
  match l with Number _ | Connect | Greet _ | Tick _ | TakeEvent _ | Read _ _ | LoseSession => True | _ => False end →
  ainv s' log.
Proof.
  intros Hs Hstep Hl.
  destruct l as [kind| |open|open|open|now open| | | | | | | | |]; cbn [dstep] in Hstep; try done.
  - unfold number_event in Hstep. destruct (next_nonzero _) as [[id next]|]; [|done]. simplify_eq/=.
    destruct Hs as [? ? ? ? ? ?]. by split.
  - unfold connect in Hstep. destruct (s_conn s); [done|].
    unfold begin_session, st_bind, lift, new_channel, fresh_event_id in Hstep. cbn [event_counter] in Hstep.
    destruct (next_nonzero _) as [[id next]|]; [|done]. cbn in Hstep. simplify_eq.
    destruct Hs as [? ? ? Hwait Hserv Hdis]. split; cbn; [done..| | |].
    + intros st ss. rewrite lookup_insert_Some. intros [[<- <-]|[_ ?]]; [done|by eapply Hwait].
    + intros st ss c inst ch. rewrite lookup_insert_Some. intros [[<- <-]|[Hne Hss]] Hph; [done|].
      eapply on_way_weaken; [|by eapply Hserv]. by intros [= ?].
    + intros st st' ss ss' c inst ch inst' ch'. rewrite !lookup_insert_Some.
      intros [[<- <-]|[_ ?]] [[<- <-]|[_ ?]] ? ?; [done..|by eapply Hdis].
  - destruct (s_conn s) as [[st [rid|]]|] eqn:Hc; try done.
    destruct (take_down s st) as [[m s1]|] eqn:Htake; [|done]. cbn -[greet] in Hstep.
    apply take_down_reads in Htake as (streams & -> & Hst). cbn [refit s_link] in Hstep.
    pose proof (greet_answers config m open rid (s_link s)) as Heff.
    destruct (greet _ _ _ _ _ _) as [l' r]. simplify_eq.
    eapply ainv_after_turn; [exact Hs|by unfold is_current; rewrite Hc|exact Heff|exact Hst|].
    intros st'. destruct r; cbn; [|done]. by intros [= ->].
  - destruct (s_conn s) as [[st [rid|]]|] eqn:Hc; try done. simplify_eq.
    assert (Hsame : refit s (s_shards s) (s_streams s) = s) by by destruct s.
    pose proof (ainv_turn config (HealthTick open) s log (s_shards s) st) as Ht. rewrite Hsame in Ht.
    apply Ht; [done|by unfold is_current; rewrite Hc|done].
  - destruct (s_conn s) as [[st [rid|]]|] eqn:Hc; try done. destruct (s_shards s) as [|ev evs]; [done|]. simplify_eq.
    apply (ainv_turn config (FromShard (Some ev) open) s log evs st); [done|by unfold is_current; rewrite Hc|done].
  - destruct (s_conn s) as [[st [rid|]]|] eqn:Hc; try done.
    destruct (take_down s st) as [[m s1]|] eqn:Htake; [|done]. cbn -[worker_turn] in Hstep.
    apply take_down_reads in Htake as (streams & -> & Hst). simplify_eq. unfold worker_turn. cbn [refit s_link].
    pose proof (session_turn_answers config (FromSignaling (Ok (Some m)) now open) (s_link s) (av_worker _ _ Hs)) as Heff.
    destruct (SfuSession.session_turn _ _ _) as [l' r].
    eapply ainv_after_turn; [exact Hs|by unfold is_current; rewrite Hc|exact Heff|exact Hst|].
    intros st'. destruct r as [[[]|]|]; try done. cbn. by intros [= ->].
  - simplify_eq. destruct Hs as [? ? ? ? Hserv ?]. split; [done..| |done].
    intros st ss c inst ch Hss Hph. eapply on_way_weaken; [|by eapply Hserv]. done.
Qed.

(** *** Steps of the signaling process *)

#[local] Arguments answered_on : simpl never.
#[local] Arguments relayed_on : simpl never.
#[local] Arguments commands_down : simpl never.
#[local] Arguments answers_up : simpl never.

Lemma answered_on_app c l1 l2 : answered_on c (l1 ++ l2) = answered_on c l1 ++ answered_on c l2.
Proof. apply omap_app. Qed.

Lemma relayed_on_app c l1 l2 : relayed_on c (l1 ++ l2) = relayed_on c l1 ++ relayed_on c l2.
Proof. apply omap_app. Qed.

Lemma commands_down_app l1 l2 : commands_down (l1 ++ l2) = commands_down l1 ++ commands_down l2.
Proof. apply omap_app. Qed.

Lemma answered_on_none c cmds :
  (∀ input, SfuInput input ∈ cmds → sfu_input_connection_id input ≠ c) → answered_on c cmds = [].
Proof.
  induction cmds as [|command cmds IH]; intros Hc; [done|].
  assert (Htl : answered_on c cmds = []) by (apply IH; intros; apply Hc; by right).
  unfold answered_on in *. cbn. rewrite Htl. destruct command as [| | | |[|c' inst r now| |]|]; try done.
  rewrite decide_False; [done|]. apply (Hc (ssfu.InCommandResult c' inst r now)). left.
Qed.

Lemma relayed_on_none c log : (∀ p, p ∈ log → p.1 ≠ c) → relayed_on c log = [].
Proof.
  induction log as [|p log IH]; intros Hc; [done|]. unfold relayed_on in *. cbn.
  rewrite decide_False by (apply Hc; left). apply IH. intros; apply Hc. by right.
Qed.

(** A connection that serves is one of the worker's. *)
Lemma serving_ours n s st ss c inst ch :
  dinv n s → s_streams s !! st = Some ss → ss_phase ss = Serving c inst ch → c ∈ (s_ours s).*1.
Proof.
  intros Hs Hss Hph. apply list_elem_of_fmap. exists (c, ch). split; [done|].
  by eapply (so_serving _ _ _ _ (di_streams _ _ Hs _ _ Hss)).
Qed.

(** Steps that change neither the streams nor the answers of the worker. *)
Lemma ainv_env n s s' log :
  dinv n s → ainv s log → s_link s' = s_link s → s_conn s' = s_conn s → s_ours s' = s_ours s →
  s_streams s' = s_streams s →
  (∀ c, c ∈ (s_ours s).*1 → answered_on c (commands s') = answered_on c (commands s)) → ainv s' log.
Proof.
  intros Hd [Hw Hlog Ha Hwait Hserv Hdis] E1 E2 E3 E4 Hans.
  split; rewrite ?E1, ?E3, ?E4; [done|done| |done| |done].
  - intros c Hc. rewrite Hans by done. by apply Ha.
  - intros st ss c inst ch Hss Hph. unfold on_way, is_current. rewrite E2.
    rewrite Hans by by eapply serving_ours. by eapply Hserv.
Qed.

Lemma ainv_lose s log st k :
  ¬ is_current s st → ainv s log →
  ainv (with_streams s (alter (λ ss, mk_SigSession (ss_phase ss) (take k (ss_up ss)) (ss_down ss)) st (s_streams s))) log.
Proof.
  intros Hn [Hw Hlog Ha Hwait Hserv Hdis].
  split; cbn; [done..| | |].
  - intros st' ss. rewrite lookup_alter_Some. intros [(-> & ss0 & Hss & ->)|[_ ?]]; [|by eapply Hwait].
    cbn. intros [Hd Hu]%(Hwait _ _ Hss). split; [done|].
    rewrite <- (take_drop k (ss_up ss0)) in Hu. unfold answers_up in *. rewrite omap_app in Hu. by apply app_eq_nil in Hu as [? _].
  - intros st' ss c inst ch. rewrite lookup_alter_Some. intros [(-> & ss0 & Hss & ->)|[_ Hss]] Hph.
    + apply (on_way_lose _ (is_current s st')); [done|]. by eapply Hserv.
    + by eapply Hserv.
  - intros st1 st2 ss1 ss2 c i1 h1 i2 h2. rewrite !lookup_alter_Some.
    intros [(-> & a & Ha1 & ->)|[_ Ha1]] [(-> & b & Hb1 & ->)|[_ Hb1]]; cbn; intros; by eapply Hdis.
Qed.

Lemma ainv_accept n s log st s' :
  dinv (S n) s → ainv s log → accept_session s st = Some s' → ainv s' log.
Proof.
  intros Hd [Hw Hlog Ha Hwait Hserv Hdis]. unfold accept_session.
  destruct (s_streams s !! st) as [ss|] eqn:Hss; [|done]. cbn -[open_sfu_session].
  destruct (ss_phase ss) eqn:Hph; [|done..]. destruct (ss_up ss) as [|m up] eqn:Hup; [done|].
  destruct (di_conns _ _ Hd) as [_ _ Hb [Hpos Hlt]].
  pose proof (open_sfu_session_spec (First (v2.mk_SfuToSignaling (Some m))) (s_channels s) true (s_connections s)
    Hpos ltac:(unfold is_u64; lia)) as Hopen.
  destruct (Hwait _ _ Hss Hph) as [Hdown Hans]. rewrite Hup in Hans.
  destruct (registration _) as [[ctx cap]|e]; rewrite Hopen; intros [= <-].
  - set (k := s_connections s) in *.
    assert (Hnew : ∀ c, c ∈ (conns s).*1 → c ≠ k).
    { intros c ([c' ch] & -> & [Hc _]%Hb)%list_elem_of_fmap. cbn. lia. }
    assert (Hours : ∀ c, c ∈ (s_ours s).*1 → c ≠ k).
    { intros c Hc. apply Hnew. unfold conns. rewrite fmap_app. apply elem_of_app. by left. }
    assert (Hak : answered_on k (commands s) = []).
    { apply answered_on_none. intros input Hin%(di_commands _ _ Hd). apply Hnew, Hin. }
    assert (Hrk : relayed_on k log = []) by (apply relayed_on_none; intros p ?%Hlog; by apply Hours).
    assert (Hupn : answers_up up = []) by (unfold answers_up in *; by destruct m).
    assert (Hsame : ∀ c q, answered_on c (s_handled s ++ s_queue s ++ [SfuConnected q (s_channels s)]) =
      answered_on c (commands s)).
    { intros c q. unfold commands. rewrite app_assoc, answered_on_app. cbn. by rewrite app_nil_r. }
    split; cbn; [done| | | | |].
    + intros p Hp%Hlog. rewrite fmap_app. apply elem_of_app. by left.
    + intros c. rewrite fmap_app, elem_of_app. unfold commands; cbn. rewrite Hsame. intros [?|Hc]; [by apply Ha|].
      apply list_elem_of_singleton in Hc as ->. rewrite Hak. apply prefix_nil.
    + intros st' ss'. rewrite lookup_insert_Some. intros [[<- <-]|[_ ?]]; [done|by eapply Hwait].
    + intros st' ss' c inst ch. unfold commands; cbn. rewrite lookup_insert_Some. intros [[<- <-]|[_ Hss']] Hph'.
      * injection Hph' as <- <- <-. exists []. cbn. rewrite Hsame, Hak, Hrk, Hdown, Hupn. done.
      * destruct (Hserv _ _ _ _ _ Hss' Hph') as (read & ? & ? & ?). exists read. by rewrite Hsame.
    + intros st1 st2 ss1 ss2 c i1 h1 i2 h2. rewrite !lookup_insert_Some.
      intros [[<- <-]|[_ Hs1]] [[<- <-]|[_ Hs2]] Hp1 Hp2; [done| | |by eapply Hdis].
      * injection Hp1 as <- _ _. destruct (Hours k); [|done]. by eapply serving_ours.
      * injection Hp2 as <- _ _. destruct (Hours k); [|done]. by eapply serving_ours.
  - split; cbn; [done..| | |].
    + intros st' ss'. rewrite lookup_insert_Some. intros [[<- <-]|[_ ?]]; [done|by eapply Hwait].
    + intros st' ss' c inst ch. rewrite lookup_insert_Some. intros [[<- <-]|[_ ?]] ?; [done|by eapply Hserv].
    + intros st1 st2 ss1 ss2 c i1 h1 i2 h2. rewrite !lookup_insert_Some.
      intros [[<- <-]|[_ ?]] [[<- <-]|[_ ?]] ? ?; [done..|by eapply Hdis].
Qed.

(** What a session task did on its stream: the answers [a] went from the stream to
    the loop, the commands [g] from the loop to the stream. *)
Lemma ainv_serve n s log st ss c inst ch phase up down extra lg s' :
  dinv n s → ainv s log → s_streams s !! st = Some ss → ss_phase ss = Serving c inst ch →
  s_link s' = s_link s → s_conn s' = s_conn s → s_ours s' = s_ours s →
  s_streams s' = <[st := mk_SigSession phase up down]> (s_streams s) → commands s' = commands s ++ extra →
  commands_down down = commands_down (ss_down ss) ++ relayed_on c lg →
  answered_on c extra `prefix_of` answers_up (ss_up ss) →
  phase = Over ∨ phase = Serving c inst ch ∧ answers_up (ss_up ss) = answered_on c extra ++ answers_up up →
  (∀ c', c' ≠ c → answered_on c' extra = []) → (∀ p, p ∈ lg → p.1 = c) →
  ainv s' (log ++ lg).
Proof.
  intros Hd [Hw Hlog Ha Hwait Hserv Hdis] Hss Hph E1 E2 E3 E4 E5 Hdown Hpre Hphase Hother Hlg.
  assert (Hc : c ∈ (s_ours s).*1) by by eapply serving_ours.
  assert (Hrel : ∀ c', c' ≠ c → relayed_on c' lg = []).
  { intros c' Hne. apply relayed_on_none. intros p Hp%Hlg. congruence. }
  destruct (Hserv _ _ _ _ _ Hss Hph) as (read & Hr & Hp & Heq).
  split; rewrite ?E1, ?E3, ?E4, ?E5; [done| | | | |].
  - intros p [?|Hp']%elem_of_app; [by apply Hlog|]. apply Hlg in Hp'. by subst.
  - intros c' Hc'. rewrite answered_on_app, relayed_on_app. destruct (decide (c' = c)) as [->|Hne].
    + rewrite Hr, <- !app_assoc. apply prefix_app_r. etrans; [|exact Hp]. by apply prefix_app.
    + rewrite Hother, Hrel, !app_nil_r by done. by apply Ha.
  - intros st' ss'. rewrite lookup_insert_Some. intros [[<- <-]|[_ ?]] Hp'; [|by eapply Hwait].
    cbn in Hp'. destruct Hphase as [?|[? _]]; congruence.
  - intros st' ss' c' inst' ch'. rewrite lookup_insert_Some. unfold is_current. rewrite E2.
    intros [[<- <-]|[Hne Hss']] Hp'.
    + cbn in Hp'. destruct Hphase as [->|[-> Hup]]; [done|]. injection Hp' as <- <- <-.
      exists read. cbn. rewrite relayed_on_app, Hr, Hdown, answered_on_app, <- !app_assoc, <- Hup. done.
    + assert (c' ≠ c) by (intros ->; apply Hne; by eapply Hdis).
      destruct (Hserv _ _ _ _ _ Hss' Hp') as (read' & ? & ? & ?). exists read'.
      by rewrite relayed_on_app, answered_on_app, Hother, Hrel, !app_nil_r.
  - intros st1 st2 ss1 ss2 c' i1 h1 i2 h2. rewrite !lookup_insert_Some.
    assert (Hsrv : ∀ i h, phase = Serving c' i h → ss_phase ss = Serving c' inst ch).
    { intros i h ->. destruct Hphase as [?|[[= -> -> ->] _]]; done. }
    intros [[<- <-]|[_ ?]] [[<- <-]|[_ ?]] Hp1 Hp2; cbn in *; [done| | |by eapply Hdis].
    + by eapply (Hdis st st2 ss); [| |by eapply Hsrv|].
    + by eapply (Hdis st1 st ss1 ss); [| | |by eapply Hsrv].
Qed.

(** [after_session] on it. *)
Lemma ainv_after_session n s log d st ss c inst ch up now sent v lg :
  dinv n s → ainv s log → s_streams s !! st = Some ss → ss_phase ss = Serving c inst ch →
  commands_down (omap result_ok (to_wire sent)) = relayed_on c lg →
  answered_on c (to_driver sent) `prefix_of` answers_up (ss_up ss) →
  (v = Continue → answers_up (ss_up ss) = answered_on c (to_driver sent) ++ answers_up up) →
  (∀ c', c' ≠ c → answered_on c' (to_driver sent) = []) → (∀ p, p ∈ lg → p.1 = c) →
  ainv (after_session (with_driver s d) st c inst ch up (ss_down ss) now (sent, v)) (log ++ lg).
Proof.
  intros Hd Hs Hss Hph Hdown Hpre Hup Hother Hlg.
  assert (Hdis : ∀ c', answered_on c' (to_driver sent ++ [SfuInput (ssfu.InDisconnected c inst now)]) =
    answered_on c' (to_driver sent)).
  { intros c'. rewrite answered_on_app. apply app_nil_r. }
  set (over := mk_SigSession Over [] (ss_down ss ++ omap result_ok (to_wire sent))).
  assert (Hover : ainv (with_commands (serve_session (with_driver (with_driver s d) (close_output d ch)) st over)
    (to_driver sent ++ [SfuInput (ssfu.InDisconnected c inst now)])) (log ++ lg)).
  { eapply (ainv_serve n s log st ss c inst ch Over [] _
      (to_driver sent ++ [SfuInput (ssfu.InDisconnected c inst now)])); try done.
    - unfold commands. cbn. by rewrite app_assoc.
    - by rewrite commands_down_app, Hdown.
    - by rewrite Hdis.
    - by left.
    - intros c' Hne. rewrite Hdis. by apply Hother. }
  unfold after_session. destruct v.
  - eapply (ainv_serve n s log st ss c inst ch (Serving c inst ch) up _ (to_driver sent)); try done.
    + unfold commands. cbn. by rewrite app_assoc.
    + by rewrite commands_down_app, Hdown.
    + right. split; [done|]. by apply Hup.
  - apply Hover.
  - apply Hover.
Qed.

(** A message decoded on a connection is an answer on it exactly when it carries
    one, under the same request id. *)
Lemma decode_answer now c inst m input :
  decode_sfu_input now c inst (v2.mk_SfuToSignaling (Some m)) = Ok input →
  answered_on c [SfuInput input] = answers_up [m] ∧ ∀ c', c' ≠ c → answered_on c' [SfuInput input] = [].
Proof.
  unfold decode_sfu_input, answered_on, answers_up. cbn [v2.to_signaling]. destruct m as [r|r|ev]; [done| |].
  - destruct (_ =? 0)%N; [done|]. destruct (match v2.res_result r with Some _ => _ | None => _ end); [|done].
    intros [= <-]. cbn. rewrite decide_True by done. split; [done|]. intros c' Hne. by rewrite decide_False.
  - destruct (_ =? 0)%N; [done|]. destruct (decode_event _); [|done]. by intros [= <-].
Qed.

Lemma ainv_relay_up n s log st now d ended s' :
  dinv n s → ainv s log → relay_up s st now d ended = Some s' → ainv s' log.
Proof.
  intros Hd Hs. unfold relay_up. destruct (s_streams s !! st) as [ss|] eqn:Hss; [|done]. cbn -[GrpcSession.session_turn].
  destruct (ss_phase ss) as [|c inst ch|] eqn:Hph; [done| |done].
  assert (Hsame : with_driver s (s_driver s) = s) by by destruct s. rewrite <- (app_nil_r log).
  assert (Hend : ainv (after_session s st c inst ch [] (ss_down ss) now
    (GrpcSession.session_turn c inst (Incoming (Ok None) now d) (mk_Sent [] []))) (log ++ [])).
  { rewrite <- Hsame at 1. eapply ainv_after_session; try done.
    - apply prefix_nil.
    - by intros p ?%elem_of_nil. }
  destruct (ss_up ss) as [|m up] eqn:Hup; destruct ended; try done; [by intros [= <-]..|]. clear Hend.
  intros [= <-]. rewrite <- Hsame at 1. cbn [GrpcSession.session_turn].
  assert (Hm : answers_up (m :: up) = answers_up [m] ++ answers_up up) by apply (omap_app _ [m] up).
  assert (Hnil : ∀ p : N * N, p ∈ [] → p.1 = c) by (by intros p ?%elem_of_nil).
  destruct (decode_sfu_input now c inst (v2.mk_SfuToSignaling (Some m))) as [input|e] eqn:Hdec.
  - destruct (decode_answer _ _ _ _ _ Hdec) as [Hans Hother].
    destruct d; eapply ainv_after_session; try done; rewrite ?Hup, ?Hm; cbn.
    + rewrite Hans. by apply prefix_app_r.
    + by rewrite Hans.
    + apply prefix_nil.
  - destruct d; eapply ainv_after_session; try done; rewrite Hup; apply prefix_nil.
Qed.

Lemma ainv_relay_down n s log st now d s' :
  dinv n s → ainv s log → relay_down s st now d = Some s' → ainv s' (log ++ relayed (RelayDown st now d) s).
Proof.
  intros Hd Hs. unfold relay_down, relayed. destruct (s_streams s !! st) as [ss|] eqn:Hss; [|done].
  cbn -[GrpcSession.session_turn].
  destruct (ss_phase ss) as [|c inst ch|] eqn:Hph; [done| |done].
  destruct (sfu_store (s_driver s) !! ch) as [q|] eqn:Hq; [|done]. cbn -[GrpcSession.session_turn].
  destruct (chan_queue q) as [|o os] eqn:Hos; [done|]. intros [= <-].
  destruct o as [c' rid ms res|c' rid e|c' k|c' rid|c'], d; cbn [GrpcSession.session_turn];
    eapply ainv_after_session; try done; try apply prefix_nil; try (by intros p ?%elem_of_nil).
  - unfold relayed_on. cbn. by rewrite decide_True.
  - by intros p ->%list_elem_of_singleton.
Qed.

Lemma ainv_step config n s log l s' :
  dinv (S n) s → ainv s log → dstep config l s = Some s' → ainv s' (log ++ relayed l s).
Proof.
  intros Hd Hs Hstep.
  destruct l as [| | | | | | |st k|st|st now d ended|st now d| |command|clock|now clock];
    try (cbn [relayed]; rewrite app_nil_r; by eapply ainv_session).
  - cbn in Hstep. destruct (bool_decide _) eqn:Hcur; [done|]. simplify_eq. cbn. rewrite app_nil_r.
    apply bool_decide_eq_false in Hcur. by apply ainv_lose.
  - cbn. rewrite app_nil_r. by eapply ainv_accept.
  - cbn [relayed]. rewrite app_nil_r. by eapply ainv_relay_up.
  - by eapply ainv_relay_down.
  - cbn in Hstep. simplify_eq. cbn [relayed]. rewrite app_nil_r. by eapply (ainv_env _ s).
  - cbn in Hstep. destruct (foreign s command) eqn:Hf; [|done]. simplify_eq. cbn [relayed]. rewrite app_nil_r.
    eapply (ainv_env _ s); try done. intros c Hc. unfold commands. cbn. rewrite app_assoc, answered_on_app.
    rewrite (answered_on_none c [command]); [by rewrite app_nil_r|]. intros input Hin%list_elem_of_singleton.
    subst command. cbn in Hf. apply bool_decide_eq_true in Hf. intros <-.
    pose proof (co_ids _ _ _ _ (di_conns _ _ Hd)) as Hnd. unfold conns in Hnd. rewrite fmap_app in Hnd.
    apply list.NoDup_app in Hnd as (_ & Hdis & _). by eapply Hdis.
  - cbn -[turn] in Hstep. destruct (s_queue s) as [|command q] eqn:Hq; [done|]. simplify_eq. cbn [relayed].
    rewrite app_nil_r. eapply (ainv_env _ s); try done. intros c _. unfold commands. cbn. by rewrite Hq, <- app_assoc.
  - cbn -[turn] in Hstep. simplify_eq. cbn [relayed]. rewrite app_nil_r. by eapply (ainv_env _ s).
Qed.

Lemma ainv_steps config ls n s log s' log' :
  dinv (length ls + n) s → ainv s log → dsteps_log config ls s log = Some (s', log') → dinv n s' ∧ ainv s' log'.
Proof.
  revert s log. induction ls as [|l ls IH]; intros s log Hd Hs; cbn; [by intros [= <- <-]|].
  destruct (dstep config l s) as [s1|] eqn:Hl; [|done]. apply IH; [by eapply dinv_step|].
  by apply (ainv_step config (length ls + n) s log l s1).
Qed.

Lemma start_system_ainv engines rt dw : ainv (start_system engines rt dw) [].
Proof.
  split; cbn; try (by intros ? ?%elem_of_nil).
  - apply new_worker_ids.
  - intros st ss. by rewrite lookup_empty.
  - intros st ss c inst ch. by rewrite lookup_empty.
  - intros st st' ss ss' c inst ch inst' ch'. by rewrite lookup_empty.
Qed.

(** ** The property *)

(** C20: Commands to a worker are answered in order and at most once: on every connection that
    the worker ever registered, the answers handed to the event loop carry the request ids of
    the first commands relayed on it, in their order. While the connection is the session of the
    worker, nothing is lost either: answers handed over, answers on their way up and commands on
    their way down are together the commands relayed. *)
Theorem commands_answered_in_order config engines register_timeout dwell ls s log :
  (1 + N.of_nat (length ls) < u64_modulus)%N →
  dsteps_log config ls (start_system engines register_timeout dwell) [] = Some (s, log) →
  ∀ c, c ∈ (s_ours s).*1 →
    answered_on c (s_handled s ++ s_queue s) `prefix_of` relayed_on c log ∧
    ∀ st ss inst ch request_id,
      s_conn s = Some (st, request_id) → s_streams s !! st = Some ss → ss_phase ss = Serving c inst ch →
      relayed_on c log =
        answered_on c (s_handled s ++ s_queue s) ++ answers_up (ss_up ss) ++ commands_down (ss_down ss).
Proof.
  intros Hlen Hls c Hc.
  destruct (ainv_steps config ls 0 (start_system engines register_timeout dwell) [] s log) as [Hd Hs];
    [rewrite Nat.add_0_r; by apply start_system_inv|apply start_system_ainv|exact Hls|].
  split; [by apply (av_answers _ _ Hs)|]. intros st ss inst ch rid Hconn Hss Hph.
  destruct (av_serving _ _ Hs _ _ _ _ _ Hss Hph) as (read & -> & _ & Heq).
  rewrite app_assoc. f_equal. symmetry. apply Heq. unfold is_current. by rewrite Hconn.
Qed.
End answers.

(** ** Witness *)

Section witness.
#[local] Existing Instance sample_room_id.
#[local] Existing Instance sample_enums.

(** A state machine that orders two clients into a room of every new worker. *)
Definition order (c request_id client_id : N) : BrowserOutput :=
  OSfu (ssfu.OutCommand c (ssfu.mk_Command request_id (ssfu.KJoin (ssfu.mk_JoinMember room_a client_id 1 1)))).

#[local] Instance ordering_collider : ColliderLib := {
  Collider := SampleCollider;
  collider_new := collider_new (ColliderLib := sample_collider);
  set_downgrade_dwell _ k := k;
  handle_read := handle_read (ColliderLib := sample_collider);
  handle_write := handle_write (ColliderLib := sample_collider);
  handle_sfu_input i k :=
    match i with
    | ssfu.InRegister c _ request_id _ =>
        (sc_push (order c 12 6) (sc_push (order c 11 5)
           (sc_push (OSfu (ssfu.OutRegistered c request_id 30000 false)) k)), Ok tt)
    | _ => (k, Ok tt)
    end;
  handle_timeout _ k := (k, Ok tt);
  collider_close k := k;
  poll_write := poll_write (ColliderLib := sample_collider);
  poll_event := poll_event (ColliderLib := sample_collider);
  poll_timeout _ := None;
}.

#[local] Instance ordering_collider_laws : ColliderLaws ordering_collider.
Proof.
  refine {| Wire.pending_outputs (k : @Collider _ ordering_collider) := length (sc_outputs k);
            Wire.pending_events (k : @Collider _ ordering_collider) := length (sc_events k) |};
    intros [os es] o k'; cbn; [destruct os|destruct es]; try done; intros [= <- <-]; cbn; lia.
Defined.

#[local] Instance ordering_ack_laws : AckLaws ordering_collider.
Proof.
  refine {| owes (k : @Collider _ ordering_collider) c id := OSfu (ssfu.OutEventAck c id) ∈ sc_outputs k |}; cbn.
  - by intros ? ? ? ?%elem_of_nil.
  - done.
  - intros i [os es] c id. destruct i; cbn; [done| |].
    + destruct (String.eqb _ _); cbn; [done|]. rewrite elem_of_app, list_elem_of_singleton. by intros [?|?].
    + rewrite elem_of_app, list_elem_of_singleton. by intros [?|?].
  - done.
  - done.
  - done.
  - intros [os es] c id. by destruct es.
  - intros [os es] c id. destruct os; cbn; [done|]. by right.
  - intros i [os es] c id. left. destruct i; cbn in *; try done.
    rewrite !elem_of_app, !list_elem_of_singleton in *. naive_solver.
  - intros [os es] k' c id. destruct os; cbn; [done|]. intros [= -> _]. left.
Defined.

(** Both commands are relayed, the worker answers the first one. *)
Definition answers_ls : list DLabel :=
  [Connect; Accept 0; LoopTake (λ _, 1%N); RelayDown 0 2 true; RelayDown 0 3 true; RelayDown 0 4 true; Greet true;
   Read 5 true; RelayUp 0 6 true false; RelayUp 0 7 true false; LoopTake (λ _, 8%N)].

Definition answers_run : option (System * list (N * N)) :=
  dsteps_log sample_config answers_ls (start_system [sample_engine] 30 60) [].

Definition answers_end : System * list (N * N) :=
  opt_default (start_system [sample_engine] 30 60, []) answers_run.

Lemma answers_end_reached :
  match answers_run with Some _ => true | None => false end = true →
  dsteps_log sample_config answers_ls (start_system [sample_engine] 30 60) [] = Some (answers_end.1, answers_end.2).
Proof. unfold answers_end, answers_run. by destruct (dsteps_log _ _ _ _) as [[]|]. Qed.

(** The session of the worker is served as its first connection. *)
Lemma served_stream (s : System) st ss :
  s_streams s !! st = Some ss → is_current s st →
  match ss_phase ss with Serving c _ _ => (c =? 1)%N | _ => false end = true →
  ∃ inst ch rid, s_conn s = Some (st, rid) ∧ ss_phase ss = Serving 1 inst ch.
Proof.
  intros _ Hc Hph. destruct (ss_phase ss) as [|c inst ch|]; try done. apply N.eqb_eq in Hph as ->.
  unfold is_current in Hc. destruct (s_conn s) as [[st' rid]|]; [|done]. injection Hc as ->. by exists inst, ch, rid.
Qed.

Definition first_stream : SigSession :=
  opt_default (mk_SigSession Over [] []) (s_streams answers_end.1 !! 0).

Lemma first_stream_found :
  match s_streams answers_end.1 !! 0 with Some _ => true | None => false end = true →
  s_streams answers_end.1 !! 0 = Some first_stream.
Proof. unfold first_stream. by destruct (s_streams _ !! 0). Qed.

Lemma commands_answered_in_order_witness :
  relayed_on 1 answers_end.2 = [11; 12]%N ∧
  relayed_on 1 answers_end.2 =
    answered_on 1 (s_handled answers_end.1 ++ s_queue answers_end.1) ++
    answers_up (ss_up first_stream) ++ commands_down (ss_down first_stream).
Proof.
  assert (Hss : s_streams answers_end.1 !! 0 = Some first_stream)
    by (apply first_stream_found; vm_compute; reflexivity).
  destruct (served_stream answers_end.1 0 first_stream Hss) as (inst & ch & rid & Hconn & Hph);
    [unfold is_current; vm_compute; reflexivity|vm_compute; reflexivity|].
  assert (Hours : (s_ours answers_end.1).*1 = [1%N]) by (vm_compute; reflexivity).
  destruct (commands_answered_in_order sample_config [sample_engine] 30 60 answers_ls answers_end.1 answers_end.2)
    with (c := 1%N) as [_ Hall].
  - vm_compute. reflexivity.
  - apply answers_end_reached. vm_compute. reflexivity.
  - rewrite Hours. left.
  - split; [vm_compute; reflexivity|]. exact (Hall 0 first_stream inst ch rid Hconn Hss Hph).
Defined.
End witness.
