(* ===== verification/SfuPipeline.v ===== *)
(** * The queues between the session and the media shards
      ([run_session], [dispatch_command], [media_loop] and [drain_engine] of
      [src/src/sfu_server.rs])

    The session task and the shards are concurrent: the session reads the shared
    event queue and waits for a shard's answer, a shard reads its command queue
    and waits for room in the event queue.  One label per await that completes. *)

From S2P Require Import Prelude.

Definition CHANNEL_CAPACITY : N := 1024.

(** [run_session] is in its [select!], awaits the answer of a shard inside
    [dispatch_command], or has returned for good, whereupon [run] drops the
    receiver of the event queue. *)
Inductive SessionState := Selecting | AwaitingShard (i : nat) | Ended.

(** A shard is in its [select!], inside [drain_engine] with events still to
    send, or has returned. *)
Inductive ShardState := Listening | Draining (events : nat) | Stopped.

#[export] Instance session_state_eq_dec : EqDecision SessionState.
Proof. solve_decision. Defined.

#[export] Instance shard_state_eq_dec : EqDecision ShardState.
Proof. solve_decision. Defined.

(** [queued] is the length of the event queue, [commands] of each shard's
    command queue. *)
Record Pipeline := mk_Pipeline {
  session : SessionState;
  shard_states : gmap nat ShardState;
  commands : gmap nat nat;
  queued : N;
}.

Definition new_pipeline (shards : nat) : Pipeline :=
  mk_Pipeline Selecting
    (list_to_map ((λ i, (i, Listening)) <$> seq 0 shards))
    (list_to_map ((λ i, (i, 0%nat)) <$> seq 0 shards)) 0.

Inductive Label :=
  | SessionStop
  | SessionTakesEvent
  | SessionDispatches (i : nat)
  | SessionReleased
  | ShardStops (i : nat)
  | ShardTakesCommand (i events : nat)
  | ShardWakes (i events : nat)
  | ShardSends (i : nat)
  | ShardSendFails (i : nat)
  | ShardDrained (i : nat).

Definition set_shard (p : Pipeline) (i : nat) (s : ShardState) : gmap nat ShardState :=
  <[i := s]> (shard_states p).

(** One await that completes; [None] when it cannot.  A shard that stops drops
    its command queue: a command sent to it fails, and one already sent is
    answered by the drop of its one-shot sender. *)
Definition step (l : Label) (p : Pipeline) : option Pipeline :=
  match l with
  | SessionStop =>
      match session p with
      | Selecting => Some (mk_Pipeline Ended (shard_states p) (commands p) (queued p))
      | _ => None
      end
  | SessionTakesEvent =>
      match session p with
      | Selecting =>
          if (0 <? queued p)%N
          then Some (mk_Pipeline Selecting (shard_states p) (commands p) (queued p - 1))
          else None
      | _ => None
      end
  | SessionDispatches i =>
      match session p, commands p !! i with
      | Selecting, Some n =>
          if bool_decide (shard_states p !! i = Some Stopped) then Some p
          else if (N.of_nat n <? CHANNEL_CAPACITY)%N
          then Some (mk_Pipeline (AwaitingShard i) (shard_states p) (<[i := S n]> (commands p)) (queued p))
          else None
      | _, _ => None
      end
  | SessionReleased =>
      match session p with
      | AwaitingShard i =>
          if bool_decide (shard_states p !! i = Some Stopped)
          then Some (mk_Pipeline Selecting (shard_states p) (commands p) (queued p))
          else None
      | _ => None
      end
  | ShardStops i =>
      match shard_states p !! i with
      | Some Listening => Some (mk_Pipeline (session p) (set_shard p i Stopped) (<[i := 0%nat]> (commands p)) (queued p))
      | _ => None
      end
  | ShardTakesCommand i events =>
      match shard_states p !! i, commands p !! i with
      | Some Listening, Some (S n) =>
          let session' := if decide (session p = AwaitingShard i) then Selecting else session p in
          Some (mk_Pipeline session' (set_shard p i (Draining events)) (<[i := n]> (commands p)) (queued p))
      | _, _ => None
      end
  | ShardWakes i events =>
      match shard_states p !! i with
      | Some Listening =>
          Some (mk_Pipeline (session p) (set_shard p i (Draining events)) (commands p) (queued p))
      | _ => None
      end
  | ShardSends i =>
      match shard_states p !! i with
      | Some (Draining (S k)) =>
          if (queued p <? CHANNEL_CAPACITY)%N && bool_decide (session p ≠ Ended)
          then Some (mk_Pipeline (session p) (set_shard p i (Draining k)) (commands p) (queued p + 1))
          else None
      | _ => None
      end
  | ShardSendFails i =>
      match session p, shard_states p !! i with
      | Ended, Some (Draining (S _)) =>
          Some (mk_Pipeline Ended (set_shard p i Listening) (commands p) (queued p))
      | _, _ => None
      end
  | ShardDrained i =>
      match shard_states p !! i with
      | Some (Draining 0) =>
          Some (mk_Pipeline (session p) (set_shard p i Listening) (commands p) (queued p))
      | _ => None
      end
  end.

Inductive reachable (p0 : Pipeline) : Pipeline → Prop :=
  | reachable_start : reachable p0 p0
  | reachable_next p l p' : reachable p0 p → step l p = Some p' → reachable p0 p'.

(** The event queue never exceeds its capacity. *)
Lemma reachable_queued p0 p :
  (queued p0 <= CHANNEL_CAPACITY)%N → reachable p0 p → (queued p <= CHANNEL_CAPACITY)%N.
Proof.
  intros H0 Hr. induction Hr as [|p l p' _ IH Hs]; [done|].
  destruct l; cbn in Hs; repeat (case_match; simplify_eq/=); bool_to_prop; try done; lia.
Qed.

(** ** A circular wait *)

(** The session waits for shard [i], which waits for room in the full queue
    that only the session reads. *)
Definition circular_wait (i : nat) (p : Pipeline) : Prop :=
  session p = AwaitingShard i ∧ (∃ k, shard_states p !! i = Some (Draining (S k))) ∧
  queued p = CHANNEL_CAPACITY.

Lemma circular_wait_step i l p p' : circular_wait i p → step l p = Some p' → circular_wait i p'.
Proof.
  intros (Hs & [k Hk] & Hq) Hstep.
  assert (Hset : ∀ j st c, (shard_states p !! j = Some Listening ∨ shard_states p !! j = Some (Draining 0)) →
    circular_wait i (mk_Pipeline (session p) (set_shard p j st) c (queued p))).
  { intros j st c Hj. split_and!; [done| |done]. exists k. cbn. unfold set_shard.
    rewrite lookup_insert_ne; [done|]. intros ->. destruct Hj; congruence. }
  destruct l as [| |j| |j|j n|j n|j|j|j]; cbn in Hstep; rewrite ?Hs, ?Hq in Hstep; try done.
  - by rewrite Hk in Hstep.
  - destruct (shard_states p !! j) as [[]|] eqn:Hj; simplify_eq. rewrite <- Hs, <- Hq. auto.
  - destruct (shard_states p !! j) as [[]|] eqn:Hj; [|done..].
    destruct (commands p !! j) as [[|m]|]; [done| |done]. rewrite decide_False in Hstep by congruence.
    simplify_eq. rewrite <- Hs, <- Hq. auto.
  - destruct (shard_states p !! j) as [[]|] eqn:Hj; simplify_eq. rewrite <- Hs, <- Hq. auto.
  - by destruct (shard_states p !! j) as [[|[]|]|].
  - destruct (shard_states p !! j) as [[|[]|]|] eqn:Hj; simplify_eq. rewrite <- Hs, <- Hq. auto.
Qed.

(** Filling the queue from one shard. *)
Lemma shard_fills i n k p :
  session p ≠ Ended → shard_states p !! i = Some (Draining (n + k)) → (queued p + N.of_nat n <= CHANNEL_CAPACITY)%N →
  ∀ p0, reachable p0 p →
  ∃ p', reachable p0 p' ∧ shard_states p' !! i = Some (Draining k) ∧
    queued p' = (queued p + N.of_nat n)%N ∧ session p' = session p ∧ commands p' = commands p.
Proof.
  revert p. induction n as [|n IH]; intros p Hse Hi Hq p0 Hr; cbn [Nat.add] in *.
  - exists p. rewrite N.add_0_r. by split_and!.
  - assert (Hs : step (ShardSends i) p = Some (mk_Pipeline (session p) (set_shard p i (Draining (n + k)))
      (commands p) (queued p + 1))).
    { cbn. rewrite Hi. rewrite (proj2 (N.ltb_lt _ _)) by lia. by rewrite bool_decide_true. }
    destruct (IH (mk_Pipeline (session p) (set_shard p i (Draining (n + k))) (commands p) (queued p + 1)))
      with (p0 := p0) as (p' & Hr' & Hi' & Hq' & Hs' & Hc'); cbn.
    + done.
    + unfold set_shard. by rewrite lookup_insert_eq.
    + lia.
    + by eapply reachable_next.
    + exists p'. split_and!; [done|done| |done|done]. rewrite Hq'. cbn. lia.
Qed.

Lemma new_pipeline_lookup {A} (x : A) n i :
  (i < n)%nat → (list_to_map ((λ i, (i, x)) <$> seq 0 n) : gmap nat A) !! i = Some x.
Proof.
  intros Hi. apply elem_of_list_to_map_1.
  - rewrite <- list_fmap_compose. cbn. rewrite list_fmap_id. apply NoDup_seq.
  - apply list_elem_of_fmap. exists i. split; [done|]. apply elem_of_seq. lia.
Qed.

(** C35: A state is reachable, whichever shard, in which the session waits for a shard that
    waits for room in the event queue only the session reads: no step ever leaves it, and
    neither stop signal is observed. *)
Theorem session_and_shard_can_deadlock n i :
  (i < n)%nat →
  ∃ p, reachable (new_pipeline n) p ∧ circular_wait i p ∧
    ∀ p', reachable p p' → circular_wait i p' ∧
      step SessionStop p' = None ∧ step SessionTakesEvent p' = None ∧ step (ShardStops i) p' = None.
Proof.
  intros Hi. set (p0 := new_pipeline n).
  assert (H0 : shard_states p0 !! i = Some Listening) by by apply new_pipeline_lookup.
  set (full := N.to_nat CHANNEL_CAPACITY).
  set (pw := mk_Pipeline (session p0) (set_shard p0 i (Draining (full + 1))) (commands p0) (queued p0)).
  assert (Hw : reachable p0 pw).
  { eapply (reachable_next _ _ (ShardWakes i (full + 1))); [apply reachable_start|]. cbn [step]. by rewrite H0. }
  assert (Hsw : shard_states pw !! i = Some (Draining (full + 1))) by apply lookup_insert_eq.
  destruct (shard_fills i full 1 pw ltac:(done) Hsw) with (p0 := p0) as (p1 & Hr1 & Hi1 & Hq1 & Hs1 & Hc1);
    [unfold full; by rewrite N2Nat.id|done|].
  unfold full in Hq1. rewrite N2Nat.id in Hq1.
  assert (Hcmd : commands pw !! i = Some 0%nat) by by apply new_pipeline_lookup.
  set (p2 := mk_Pipeline (AwaitingShard i) (shard_states p1) (<[i := 1%nat]> (commands pw)) (queued p1)).
  assert (Hr2 : reachable p0 p2).
  { eapply (reachable_next _ _ (SessionDispatches i)); [exact Hr1|]. cbn [step].
    rewrite Hs1, Hc1, Hcmd, Hi1. reflexivity. }
  assert (Hc2 : circular_wait i p2).
  { split_and!; [done|by exists 0%nat|exact Hq1]. }
  exists p2. split_and!; [done|done|]. intros p' Hp'.
  assert (Hc : circular_wait i p').
  { clear - Hc2 Hp'. induction Hp' as [|p l p' _ IH Hs]; [done|]. by eapply circular_wait_step. }
  split; [done|]. destruct Hc as (Hse & [k Hk] & Hq). cbn. by rewrite Hse, Hk.
Qed.

Lemma session_and_shard_can_deadlock_witness :
  (0 < 2)%nat ∧ ∃ p, reachable (new_pipeline 2) p ∧ circular_wait 0 p ∧ step SessionStop p = None.
Proof.
  assert (H : (0 < 2)%nat) by lia. split; [exact H|].
  destruct (session_and_shard_can_deadlock 2 0 H) as (p & Hr & Hc & Hall).
  exists p. split_and!; [exact Hr|exact Hc|].
  exact (proj1 (proj2 (Hall p (reachable_start p)))).
Defined.
