(* ===== verification/Params.v ===== *)
(** * Room parameters ([src/src/config.rs], [src/src/params.rs])

    The configuration, the parameters embedded in the pages and in the join
    responses, and the ICE configuration.  URLs and the text of JSON values are
    the work of other crates. *)

From S2P Require Import Prelude.

#[local] Set Warnings "-register-all".

(** ** JSON values

    [serde_json::Value], as the [json!] literals build it. *)

Inductive Value :=
  | VNull
  | VBool (b : bool)
  | VString (s : string)
  | VArray (items : list Value)
  | VObject (fields : list (string * Value)).

(** [object["key"] = value]. *)
Fixpoint set_field (key : string) (value : Value) (fields : list (string * Value))
  : list (string * Value) :=
  match fields with
  | [] => [(key, value)]
  | (k, v) :: fields' =>
      if String.eqb k key then (k, value) :: fields' else (k, v) :: set_field key value fields'
  end.

Definition set_index (key : string) (value : Value) (v : Value) : Value :=
  match v with VObject fields => VObject (set_field key value fields) | _ => v end.

(** [serde_json::to_string] of a value. *)
Class JsonText : Type := json_text : Value → string.

(** [url::Url]: the query pairs, decoded, and the raw query. *)
Class UrlLib : Type := {
  Url : Type;
  url_parse : string → result Url string;
  query_pairs : Url → list (string * string);
  url_query : Url → option string;
}.

(** ** Configuration *)

Record IceServer := mk_IceServer {
  urls : list string;
  username : string;
  credential : string;
}.

(** [Config]. *)
Record Config := mk_Config {
  web_root : string;
  host : string;
  force_tls : bool;
  signaling_ws_url : string;
  ice_server_override : list IceServer;
  ice_server_urls : list string;
  ice_server_base_url : string;
  ice_server_api_key : string;
  header_message : string;
  bypass_join_confirmation : bool;
}.

(** The derived [Serialize] of [IceServer]: empty credentials are left out. *)
Definition ice_server_value (s : IceServer) : Value :=
  VObject ([("urls", VArray (VString <$> urls s))]
           ++ (if is_empty (username s) then [] else [("username", VString (username s))])
           ++ (if is_empty (credential s) then [] else [("credential", VString (credential s))])).

(** ** Strings *)

(** [str::trim_end_matches('/')]. *)
Fixpoint trim_end_slashes (s : string) : string :=
  match s with
  | EmptyString => EmptyString
  | String c s' =>
      let t := trim_end_slashes s' in
      if is_empty t && Ascii.eqb c (Ascii.ascii_of_N 47) then EmptyString else String c t
  end.

(** [str::replacen(pattern, replacement, 1)]. *)
Fixpoint replace_first (pattern replacement s : string) : string :=
  match strip_prefix pattern s with
  | Some rest => replacement +:+ rest
  | None =>
      match s with
      | EmptyString => EmptyString
      | String c s' => String c (replace_first pattern replacement s')
      end
  end.

(** [generate_random]; [draw] is what the generator yields, taken into
    [0..DIGITS.len()]. *)
Fixpoint generate_random (length : nat) (draw : nat → N) : string :=
  match length with
  | O => EmptyString
  | S length' => String (digit_char (draw O mod 10)) (generate_random length' (λ i, draw (S i)))
  end.

(** [split('/')] keeping the segments that are not empty. *)
Fixpoint split_slash (s : string) (segment : string) : list string :=
  match s with
  | EmptyString => [segment]
  | String c s' =>
      if Ascii.eqb c (Ascii.ascii_of_N 47) then segment :: split_slash s' EmptyString
      else split_slash s' (segment +:+ String c EmptyString)
  end.

(** [trim_collider_path]. *)
Definition trim_collider_path (p : string) : list string :=
  filter (λ s, is_empty s = false) (split_slash p EmptyString).

Definition bool_str (b : bool) : string := if b then "true" else "false".

(** ** Room parameters *)

(** [RoomParameters]. *)
Record RoomParameters := mk_RoomParameters {
  signaling_version : N;
  p_client_id : string;
  p_room_id : string;
  room_link : string;
  wss_url : string;
  wss_post_url : string;
  ice_server_url : string;
  ice_server_transports : string;
  p_header_message : string;
  is_initiator : string;
  is_loopback : string;
  pc_config : string;
  pc_constraints : string;
  offer_options : string;
  media_constraints : string;
  p_bypass_join_confirmation : string;
  version_info : string;
  include_loopback_js : string;
  messages : list string;
  error_messages : list string;
  warning_messages : list string;
}.

Section params.
Context `{JsonText, UrlLib}.

(** [must_json] of a value. *)
Definition must_json (v : Value) : string := json_text v.

(** [query_get]. *)
Definition query_get (url : Url) (key : string) : string :=
  match list_find (λ kv, kv.1 = key) (query_pairs url) with
  | Some (_, (_, v)) => v
  | None => EmptyString
  end.

(** [Config::self_origin]. *)
Definition self_origin (c : Config) (request_host : string) : string * string * string :=
  let h := if is_empty (host c) then request_host else host c in
  if force_tls c then ("https", "wss", h) else ("http", "ws", h).

(** The [room_link] of a non-empty room. *)
Definition room_link_for (http_scheme h : string) (url : Url) (room_id : string) : string :=
  let link := http_scheme +:+ "://" +:+ h +:+ "/r/" +:+ room_id in
  match url_query url with
  | Some q => if is_empty q then link else link +:+ "?" +:+ q
  | None => link
  end.

(** [Config::build_room_parameters]. *)
Definition build_room_parameters (c : Config) (request_host : string) (url : Url)
    (room_id client_id : string) (initiator : option bool) : RoomParameters :=
  let '(http_scheme, ws_scheme, h) := self_origin c request_host in
  let wss := if is_empty (signaling_ws_url c) then ws_scheme +:+ "://" +:+ h +:+ "/ws"
             else trim_end_slashes (signaling_ws_url c) in
  let wss_post := http_scheme +:+ "://" +:+ h in
  let pc := VObject [("iceServers", VArray []); ("bundlePolicy", VString "max-bundle");
                     ("rtcpMuxPolicy", VString "require")] in
  let pc := match ice_server_override c with
            | [] => pc
            | servers => set_index "iceServers" (VArray (ice_server_value <$> servers)) pc
            end in
  let it := query_get url "it" in
  let pc := if is_empty it then pc else set_index "iceTransports" (VString it) pc in
  let base := query_get url "ts" in
  let base := if is_empty base then ice_server_base_url c else base in
  let base := if is_empty base then http_scheme +:+ "://" +:+ h else base in
  let ice := if is_empty base then EmptyString
             else base +:+ "/v1alpha/iceconfig?key=" +:+ ice_server_api_key c in
  let loopback := String.eqb (query_get url "debug") "loopback" in
  mk_RoomParameters 1
    (if is_empty client_id then EmptyString else client_id)
    (if is_empty room_id then EmptyString else room_id)
    (if is_empty room_id then EmptyString else room_link_for http_scheme h url room_id)
    wss wss_post ice (query_get url "tt") (header_message c)
    (match initiator with Some b => bool_str b | None => EmptyString end)
    (must_json (VBool loopback)) (must_json pc)
    (must_json (VObject [("optional", VArray [])])) "{}"
    (must_json (VObject [("audio", VBool true); ("video", VBool true)]))
    (must_json (VBool (bypass_join_confirmation c))) "null"
    (if loopback
     then "<script src=" +:+ dquote +:+ "/js/loopback.js" +:+ dquote +:+ "></script>"
     else EmptyString)
    [] [] [].

(** [Config::build_v2_room_parameters]. *)
Definition build_v2_room_parameters (c : Config) (request_host : string) (url : Url)
    (room_id : string) : RoomParameters :=
  let p := build_room_parameters c request_host url room_id EmptyString None in
  mk_RoomParameters 2 (p_client_id p) (p_room_id p)
    (if is_empty room_id then room_link p else replace_first "/r/" "/v2/r/" (room_link p))
    (wss_url p) EmptyString (ice_server_url p) (ice_server_transports p) (p_header_message p)
    (is_initiator p) "false" (pc_config p) (pc_constraints p) (offer_options p)
    (media_constraints p) (p_bypass_join_confirmation p) (version_info p) EmptyString
    (messages p) (error_messages p) (warning_messages p).

(** [Config::ice_config]. *)
Definition ice_config (c : Config) : Value :=
  match ice_server_override c with
  | [] =>
      VObject [("iceServers", VArray
        match ice_server_urls c with
        | [] => []
        | us => [VObject [("urls", VArray (VString <$> us))]]
        end)]
  | servers => VObject [("iceServers", VArray (ice_server_value <$> servers))]
  end.
End params.

(** ** Lemmas *)

Fixpoint has_char (c : Ascii.ascii) (s : string) : bool :=
  match s with EmptyString => false | String d s' => Ascii.eqb c d || has_char c s' end.

Definition slash : Ascii.ascii := Ascii.ascii_of_N 47.
Definition letter_r : Ascii.ascii := Ascii.ascii_of_N 114.

Lemma replace_first_cons pattern replacement c s :
  strip_prefix pattern (String c s) = None →
  replace_first pattern replacement (String c s) = String c (replace_first pattern replacement s).
Proof. intros Hn. cbn [replace_first]. by rewrite Hn. Qed.

Lemma strip_prefix_app p s : strip_prefix p (p +:+ s) = Some s.
Proof. induction p as [|c p IH]; [done|]. rewrite string_app_cons. cbn. by rewrite Ascii.eqb_refl. Qed.

(** The first match of a pattern that starts with a slash is not inside text
    without slashes. *)
Lemma replace_first_skip p r h s :
  has_char slash h = false →
  replace_first (String slash p) r (h +:+ s) = h +:+ replace_first (String slash p) r s.
Proof.
  induction h as [|c h IH]; intros Hh; [done|]. rewrite !string_app_cons. cbn [has_char] in Hh.
  apply orb_false_iff in Hh as [Hc Hh]. rewrite replace_first_cons.
  - by rewrite IH.
  - cbn [strip_prefix]. by rewrite Hc.
Qed.

Lemma replace_first_here p r s : replace_first p r (p +:+ s) = r +:+ s.
Proof. destruct (p +:+ s) eqn:E; cbn [replace_first]; rewrite <- E; by rewrite strip_prefix_app. Qed.

(** The link of a V2 room, when the host is a plain host name. *)
Lemma v2_link scheme h rest :
  has_char slash scheme = false → has_char slash h = false → h ≠ "r" → h ≠ EmptyString →
  replace_first "/r/" "/v2/r/" (scheme +:+ "://" +:+ h +:+ "/r/" +:+ rest) =
    scheme +:+ "://" +:+ h +:+ "/v2/r/" +:+ rest.
Proof.
  intros Hs Hh Hr He. rewrite (replace_first_skip "r/" _ scheme) by done. f_equal.
  rewrite !string_app_cons. change (EmptyString +:+ ?x) with x.
  do 2 (rewrite replace_first_cons by (cbn; done); f_equal).
  assert (Hn : strip_prefix "/r/" (String slash (h +:+ "/r/" +:+ rest)) = None).
  { destruct h as [|c h]; [done|]. cbn [has_char] in Hh. apply orb_false_iff in Hh as [Hc Hh].
    change ("/r/") with (String slash (String letter_r (String slash EmptyString))).
    rewrite string_app_cons. cbn [strip_prefix]. rewrite Ascii.eqb_refl.
    destruct (Ascii.eqb_spec letter_r c) as [<-|]; [|done].
    destruct h as [|d h]; [done|]. rewrite string_app_cons. cbn [has_char] in Hh.
    apply orb_false_iff in Hh as [Hd _]. cbn [strip_prefix]. by rewrite Hd. }
  rewrite replace_first_cons by exact Hn. f_equal.
  rewrite (replace_first_skip "r/" _ h) by done. f_equal.
Qed.

(** A generated id is that many decimal digits. *)
Lemma generate_random_shape length draw :
  String.length (generate_random length draw) = length ∧
  string_forallb is_ascii_digit (generate_random length draw) = true.
Proof.
  revert draw. induction length as [|length IH]; intros draw; [done|]. cbn.
  destruct (IH (λ i, draw (S i))) as [-> ->]. split; [done|].
  by rewrite is_ascii_digit_char by (apply N.mod_lt; lia).
Qed.
