(* ===== verification/Templates.v ===== *)
(** * Pages and counters ([src/src/templates.rs], [src/src/dashboard.rs])

    The escaping of plain fields, the context handed to the template engine, and
    the status counters.  The engine itself is another crate's. *)

From S2P Require Import Prelude Params.

(** ** Escaping *)

Definition ampersand : Ascii.ascii := Ascii.ascii_of_N 38.
Definition less_than : Ascii.ascii := Ascii.ascii_of_N 60.
Definition greater_than : Ascii.ascii := Ascii.ascii_of_N 62.
Definition double_quote : Ascii.ascii := Ascii.ascii_of_N 34.
Definition single_quote : Ascii.ascii := Ascii.ascii_of_N 39.

(** What one character becomes.  The escaped characters are ASCII, so working on
    the bytes of the UTF-8 text is the same as working on its characters. *)
Definition escape_char (c : Ascii.ascii) : string :=
  if Ascii.eqb c ampersand then "&amp;"
  else if Ascii.eqb c less_than then "&lt;"
  else if Ascii.eqb c greater_than then "&gt;"
  else if Ascii.eqb c double_quote then "&#34;"
  else if Ascii.eqb c single_quote then "&#39;"
  else String c EmptyString.

(** [escape]. *)
Fixpoint escape (s : string) : string :=
  match s with
  | EmptyString => EmptyString
  | String c s' => escape_char c +:+ escape s'
  end.

(** [context_for]: the variables of the page templates, in order. *)
Definition context_for `{JsonText} (p : RoomParameters) : list (string * string) :=
  [("room_id", escape (p_room_id p));
   ("room_link", escape (room_link p));
   ("header_message", escape (p_header_message p));
   ("wss_url", escape (wss_url p));
   ("wss_post_url", escape (wss_post_url p));
   ("signaling_version", show_u64 (signaling_version p));
   ("ice_server_url", escape (ice_server_url p));
   ("ice_server_transports", escape (ice_server_transports p));
   ("error_messages", json_text (VArray (VString <$> error_messages p)));
   ("warning_messages", json_text (VArray (VString <$> warning_messages p)));
   ("is_loopback", is_loopback p);
   ("media_constraints", media_constraints p);
   ("offer_options", offer_options p);
   ("pc_config", pc_config p);
   ("pc_constraints", pc_constraints p);
   ("bypass_join_confirmation", p_bypass_join_confirmation p);
   ("version_info", version_info p);
   ("include_loopback_js", include_loopback_js p)].

(** ** Loading and rendering

    Paths and files belong to the standard library, parsing and rendering to the
    template engine. *)

(** [Path::join] and [fs::read_to_string]. *)
Class PageFiles : Type := {
  path_join : string → string → string;
  read_to_string : string → result string string;
}.

Inductive AutoEscape := AutoEscapeNone | AutoEscapeHtml | AutoEscapeJson.

(** What is used of [minijinja]: environments, and templates borrowed from one. *)
Class MiniJinja : Type := {
  Environment : Type;
  Template : Type;
  new_environment : Environment;
  set_auto_escape_callback : (string → AutoEscape) → Environment → Environment;
  add_template_owned : string → string → Environment → result Environment string;
  get_template : Environment → string → result Template string;
  render : Template → list (string * string) → result string string;
  template_source : Template → string;
}.

Definition source_of `{MiniJinja} (env : Environment) (name : string) : option string :=
  match get_template env name with Ok t => Some (template_source t) | Err _ => None end.

(** As documented: a template that was added is found under its name with its
    source, and the other names keep theirs. *)
Class MiniJinjaLaws `(MJ : MiniJinja) : Prop :=
  added_template_found : ∀ name source env env', add_template_owned name source env = Ok env' →
    source_of env' name = Some source ∧ ∀ other, other ≠ name → source_of env' other = source_of env other.

Section templates.
Context `{PF : PageFiles, MJ : MiniJinja}.

(** [Templates]: its environment. *)
Record Templates := mk_Templates { template_env : Environment }.

Definition from_sources_with_grid (index full grid : string) : result Templates string :=
  let env := set_auto_escape_callback (λ _, AutoEscapeNone) new_environment in
  let? env := add_template_owned "index" index env in
  let? env := add_template_owned "full" full env in
  let? env := add_template_owned "grid" grid env in
  Ok (mk_Templates env).

(** A double-quoted attribute value. *)
Definition quoted (s : string) : string := String double_quote (s +:+ String double_quote EmptyString).

Definition from_sources (index full : string) : result Templates string :=
  from_sources_with_grid index full
    ("<div id=" +:+ quoted "sfu-grid" +:+ " class=" +:+ quoted "sfu-grid hidden" +:+ "></div>").

Definition load (web_root : string) : result Templates string :=
  let dir := path_join web_root "html" in
  let? index := read_to_string (path_join dir "index_template.html") in
  let? full := read_to_string (path_join dir "full_template.html") in
  let? grid := read_to_string (path_join dir "grid_template.html") in
  from_sources_with_grid index full grid.

(** The body of [render_index] and [render_full]. *)
Definition render_page (name : string) (t : Templates) (context : list (string * string)) : result string string :=
  let? template := get_template (template_env t) name in
  render template context.

(** The sources a set of templates was parsed from are the ones its environment
    knows, whatever their contents. *)
Lemma from_sources_with_grid_sources `{!MiniJinjaLaws MJ} index full grid t :
  from_sources_with_grid index full grid = Ok t →
  source_of (template_env t) "index" = Some index ∧ source_of (template_env t) "full" = Some full ∧
  source_of (template_env t) "grid" = Some grid.
Proof.
  unfold from_sources_with_grid.
  destruct (add_template_owned "index" _ _) as [e1|] eqn:H1; [|done].
  destruct (add_template_owned "full" _ _) as [e2|] eqn:H2; [|done].
  destruct (add_template_owned "grid" _ _) as [e3|] eqn:H3; [|done]. intros [= <-]. cbn.
  apply added_template_found in H1 as [Hi _], H2 as [Hf Hk2], H3 as [Hg Hk3].
  split_and!; [|by rewrite Hk3|done]. by rewrite Hk3, Hk2.
Qed.

(** Loading reads the three files of the [html] directory of the web root and fails when one of
    them cannot be read; afterwards both pages are found, each parsed from its own file. *)
Theorem loaded_pages_found `{!MiniJinjaLaws MJ} web_root t :
  load web_root = Ok t →
  let file name := read_to_string (path_join (path_join web_root "html") name) in
  ∃ index full grid i f,
    file "index_template.html" = Ok index ∧ file "full_template.html" = Ok full ∧
    file "grid_template.html" = Ok grid ∧ from_sources_with_grid index full grid = Ok t ∧
    template_source i = index ∧ template_source f = full ∧
    (∀ context, render_page "index" t context = render i context) ∧
    (∀ context, render_page "full" t context = render f context).
Proof.
  unfold load. intros Hload.
  destruct (read_to_string (path_join _ "index_template.html")) as [index|]; [|done].
  destruct (read_to_string (path_join _ "full_template.html")) as [full|]; [|done].
  destruct (read_to_string (path_join _ "grid_template.html")) as [grid|]; [|done].
  destruct (from_sources_with_grid_sources _ _ _ _ Hload) as (Hi & Hf & _).
  unfold source_of in Hi, Hf. unfold render_page.
  destruct (get_template (template_env t) "index") as [i|]; [|done].
  destruct (get_template (template_env t) "full") as [f|]; [|done].
  exists index, full, grid, i, f. by simplify_eq/=.
Qed.
End templates.

(** ** Dashboard

    Counters are [u64]; an overflowing increment wraps, as in a release build. *)

Record Dashboard := mk_Dashboard {
  start_time : N;
  total_ws : N;
  total_recv_msgs : N;
  total_send_msgs : N;
  ws_errs : N;
  http_errs : N;
}.

Record StatusReport := mk_StatusReport {
  r_up_time : N;
  r_open_ws : N;
  r_total_ws : N;
  r_ws_errs : N;
  r_http_errs : N;
}.

(** [Dashboard::new]. *)
Definition new_dashboard (now : N) : Dashboard := mk_Dashboard now 0 0 0 0 0.

(** [Dashboard::get_report]; uptime in clock ticks, which never goes below zero. *)
Definition get_report (d : Dashboard) (now open_ws : N) : StatusReport :=
  mk_StatusReport (now - start_time d) open_ws (total_ws d) (ws_errs d) (http_errs d).

Definition incr_ws (d : Dashboard) : Dashboard :=
  mk_Dashboard (start_time d) (wrap64 (total_ws d + 1)) (total_recv_msgs d) (total_send_msgs d)
    (ws_errs d) (http_errs d).

Definition on_ws_err (d : Dashboard) : Dashboard :=
  mk_Dashboard (start_time d) (total_ws d) (total_recv_msgs d) (total_send_msgs d)
    (wrap64 (ws_errs d + 1)) (http_errs d).

Definition on_http_err (d : Dashboard) : Dashboard :=
  mk_Dashboard (start_time d) (total_ws d) (total_recv_msgs d) (total_send_msgs d)
    (ws_errs d) (wrap64 (http_errs d + 1)).

(** ** Lemmas *)

(** The inverse of [escape]. *)
Fixpoint unescape (fuel : nat) (s : string) : string :=
  match fuel with
  | O => EmptyString
  | S fuel' =>
      match strip_prefix "&amp;" s, strip_prefix "&lt;" s, strip_prefix "&gt;" s,
            strip_prefix "&#34;" s, strip_prefix "&#39;" s with
      | Some r, _, _, _, _ => String ampersand (unescape fuel' r)
      | _, Some r, _, _, _ => String less_than (unescape fuel' r)
      | _, _, Some r, _, _ => String greater_than (unescape fuel' r)
      | _, _, _, Some r, _ => String double_quote (unescape fuel' r)
      | _, _, _, _, Some r => String single_quote (unescape fuel' r)
      | _, _, _, _, _ =>
          match s with EmptyString => EmptyString | String c s' => String c (unescape fuel' s') end
      end
  end.

Definition markup (c : Ascii.ascii) : bool :=
  Ascii.eqb c less_than || Ascii.eqb c greater_than || Ascii.eqb c double_quote || Ascii.eqb c single_quote.

Lemma escape_char_no_markup c : string_forallb (λ d, negb (markup d)) (escape_char c) = true.
Proof. destruct c as [[] [] [] [] [] [] [] []]; reflexivity. Qed.

Lemma unescape_step fuel c s :
  (0 < fuel)%nat → unescape fuel (escape_char c +:+ s) = String c (unescape (fuel - 1) s).
Proof.
  intros Hf. destruct fuel as [|fuel]; [lia|]. cbn [Nat.sub]. rewrite Nat.sub_0_r.
  destruct c as [[] [] [] [] [] [] [] []]; reflexivity.
Qed.

Lemma unescape_fuel s n : (String.length s < n)%nat → unescape n (escape s) = s.
Proof.
  revert n. induction s as [|c s IH]; intros n Hn; [destruct n; [lia|reflexivity]|].
  cbn [escape String.length] in *. rewrite unescape_step by lia. by rewrite IH by lia.
Qed.

(** C40: Escaped text holds none of the characters that end an attribute, a tag or a string
    literal, text without them is unchanged, and escaping loses nothing. *)
Theorem escape_safe_and_lossless s :
  string_forallb (λ d, negb (markup d)) (escape s) = true ∧
  (string_forallb (λ d, negb (markup d || Ascii.eqb d ampersand)) s = true → escape s = s) ∧
  ∀ s', escape s = escape s' → s = s'.
Proof.
  split_and!.
  - induction s as [|c s IH]; [done|]. cbn [escape]. by rewrite string_forallb_app, escape_char_no_markup, IH.
  - induction s as [|c s IH]; [done|]. cbn [escape string_forallb]. intros [Hc Hs]%andb_true_iff.
    rewrite IH by done. unfold escape_char, markup in *.
    destruct (Ascii.eqb c ampersand), (Ascii.eqb c less_than), (Ascii.eqb c greater_than),
      (Ascii.eqb c double_quote), (Ascii.eqb c single_quote); by cbn in *.
  - intros s' Heq. rewrite <- (unescape_fuel s (S (String.length s + String.length s'))) by lia.
    rewrite Heq. apply unescape_fuel. lia.
Qed.

(** A template engine that knows one construct: a template is its own rendering. *)
#[local] Instance sample_files : PageFiles := {
  path_join dir name := dir +:+ String slash name;
  read_to_string path := if String.eqb path "web/html/missing.html" then Err "not found" else Ok path;
}.

#[local] Instance sample_engine : MiniJinja := {
  Environment := gmap string string;
  Template := string;
  new_environment := ∅;
  set_auto_escape_callback _ env := env;
  add_template_owned name source env := Ok (<[name := source]> env);
  get_template env name := match env !! name with Some s => Ok s | None => Err "template not found" end;
  render template _ := Ok template;
  template_source template := template;
}.

#[local] Instance sample_engine_laws : MiniJinjaLaws sample_engine.
Proof.
  intros name source env env' [= <-]. unfold source_of. cbn.
  split; [by rewrite lookup_insert_eq|]. intros other Hne. by rewrite lookup_insert_ne.
Qed.

Lemma loaded_pages_found_witness :
  ∃ t : Templates, load "web" = Ok t ∧
    ∀ context, render_page "full" t context = Ok "web/html/full_template.html".
Proof.
  eexists. split; [reflexivity|].
  edestruct (loaded_pages_found "web") as (index & full & grid & i & f & Hi & Hf & Hg & _ & _ & Hs & _ & Hr);
    [reflexivity|].
  intros context. rewrite Hr. cbn in Hf. by simplify_eq/=.
Defined.
