(* ===== verification/RoomServer.v ===== *)
(** * The HTTP handlers of the AppRTC process ([src/src/room_server.rs])

    Each handler over any [RoomAuthority]: what it asks of the authority, what it
    answers, and the count of internal errors.  Rendering, URL parsing and JSON
    text are other crates' work. *)

From S2P Require Import Prelude Wire GrpcClient Params Templates.

Definition MAX_ROOM_CAPACITY : N := 2.

(** ** Pieces of requests *)

(** [canonical_u64]. *)
Definition canonical_u64 (value : string) : option N :=
  if String.eqb value "0" then Some 0%N
  else if is_empty value || starts_with "0" value || negb (string_forallb is_ascii_digit value) then None
  else parse_u64 value.

(** [bearer_token], of the [Authorization] header when it is readable text. *)
Definition bearer_token (authorization : option string) : option string :=
  header ← authorization;
  token ← strip_prefix "Bearer " header;
  if is_empty token then None else Some token.

(** ** Responses *)

(** [JoinResponse]. *)
Record JoinResponse := mk_JoinResponse { jr_result : string; jr_params : option RoomParameters }.

(** [V2JoinParameters]. *)
Record V2JoinParameters := mk_V2JoinParameters {
  vj_client_id : string;
  vj_room_id : string;
  vj_room_link : string;
  vj_mode : string;
  vj_epoch : string;
  vj_wss_url : string;
  vj_admission_token : string;
  vj_is_initiator : option bool;
}.

(** The bodies the handlers produce; [JoinBody] with no parameters is a default
    [RoomParameters]. *)
Inductive Body :=
  | EmptyBody
  | TextBody (text : string)
  | HtmlBody (html : string)
  | ResultBody (r : string)
  | JoinBody (r : JoinResponse)
  | V2JoinBody (r : string) (p : option V2JoinParameters)
  | ParamsBody (p : RoomParameters)
  | ValueBody (v : Value)
  | StatusBody (r : StatusReport).

(** Status code, CORS methods when the CORS headers are set, and body. *)
Record Response := mk_Response { rsp_status : N; rsp_cors : option string; rsp_body : Body }.

Definition ok (b : Body) : Response := mk_Response 200 None b.

(** [cors]. *)
Definition cors (r : Response) (methods : string) : Response :=
  mk_Response (rsp_status r) (Some methods) (rsp_body r).

(** [cors_text]. *)
Definition cors_text (body : string) : Response := cors (ok (TextBody body)) "POST, DELETE".

(** The template engine. *)
Class TemplateEngine : Type := {
  render_index : list (string * string) → result string string;
  render_full : list (string * string) → result string string;
}.

(** The engine over a loaded set of templates: [Templates::render_index] and
    [Templates::render_full]. *)
Definition loaded_engine `{MiniJinja} (t : Templates) : TemplateEngine := {|
  render_index context := render_page "index" t context;
  render_full context := render_page "full" t context;
|}.

(** What a request brings besides its path: the [Host] header when readable, the
    [uri], and the [Authorization] header when readable. *)
Record RequestHead := mk_RequestHead {
  head_host : option string;
  head_uri : string;
  head_authorization : option string;
}.

Section room_server.
Context `{L : RoomIdLib, U : UrlLib, JT : JsonText, T : TemplateEngine, S : Type, A : !RoomAuthority S}.
Context (config : Config).

(** [Inner]: the error counter and the authority's state. *)
Record Server := mk_Server { http_errors : N; authority : S }.

(** [RoomServer::new]: the templates are loaded before anything is served. *)
Definition new_room_server `{PageFiles, MiniJinja} (initial : S) : result (TemplateEngine * Server) string :=
  let? templates := load (web_root config) in
  Ok (loaded_engine templates, mk_Server 0 initial).

(** A handler's result; [None] is a panic. *)
Abbreviation Handler := (Server → option (Server * Response)).

Definition answer (r : Response) : Handler := λ s, Some (s, r).

(** [http_error]. *)
Definition http_error (message : string) (wrap : Response → Response) : Handler :=
  λ s, Some (mk_Server (fetch_add (http_errors s) 1).2 (authority s),
             wrap (mk_Response 500 None (TextBody (message +:+ String (Ascii.ascii_of_N 10) EmptyString)))).

(** Asking the authority. *)
Definition ask {X} (m : stateful S string X) (k : result X string → Handler) : Handler :=
  λ s, let '(a, r) := m (authority s) in k r (mk_Server (http_errors s) a).

(** [request_context]. *)
Definition request_context (head : RequestHead) : result (string * Url) string :=
  let h := opt_default "localhost" (head_host head) in
  let? url := map_err (λ e, "Invalid request URL: " +:+ e)
                (url_parse ("http://" +:+ h +:+ head_uri head)) in
  Ok (h, url).

Definition with_context (head : RequestHead) (k : string → Url → Handler) : Handler :=
  match request_context head with
  | Ok (h, url) => k h url
  | Err e => http_error e (λ r, r)
  end.

Definition rendered (r : result string string) (failure : string) : Handler :=
  match r with
  | Ok body => answer (ok (HtmlBody body))
  | Err e => http_error (failure +:+ e) (λ r, r)
  end.

(** [main_page]. *)
Definition main_page (head : RequestHead) : Handler :=
  with_context head (λ h url,
    rendered (render_index (context_for (build_room_parameters config h url EmptyString EmptyString None)))
      "Failed to render index: ").

(** [room_page]. *)
Definition room_page (roomid : string) (head : RequestHead) : Handler :=
  with_context head (λ h url,
    ask (occupancy roomid) (λ r,
      match r with
      | Err e => http_error e (λ r, r)
      | Ok count =>
          let params := context_for (build_room_parameters config h url roomid EmptyString None) in
          rendered (if (MAX_ROOM_CAPACITY <=? count)%N then render_full params else render_index params)
            "Failed to render page: "
      end)).

(** [v2_room_page]. *)
Definition v2_room_page (roomid : string) (head : RequestHead) : Handler :=
  match parse_room_token roomid with
  | None => answer (ok (ResultBody "INVALID_ROOM_ID"))
  | Some _ =>
      with_context head (λ h url,
        rendered (render_index (context_for (build_v2_room_parameters config h url roomid)))
          "Failed to render V2 page: ")
  end.

(** [params]. *)
Definition params (head : RequestHead) : Handler :=
  with_context head (λ h url,
    answer (ok (ParamsBody (build_room_parameters config h url EmptyString EmptyString None)))).

(** [v2_params]. *)
Definition v2_params (head : RequestHead) : Handler :=
  with_context head (λ h url,
    answer (ok (ParamsBody (build_v2_room_parameters config h url EmptyString)))).

(** [ice_config]. *)
Definition ice_config_page : Handler := answer (ok (ValueBody (ice_config config))).

(** [params.messages = admission.messages]. *)
Definition with_messages (p : RoomParameters) (m : list string) : RoomParameters :=
  mk_RoomParameters (signaling_version p) (p_client_id p) (p_room_id p) (room_link p) (wss_url p)
    (wss_post_url p) (ice_server_url p) (ice_server_transports p) (p_header_message p)
    (is_initiator p) (is_loopback p) (pc_config p) (pc_constraints p) (offer_options p)
    (media_constraints p) (p_bypass_join_confirmation p) (version_info p) (include_loopback_js p)
    m (error_messages p) (warning_messages p).

(** [join]; [draw] is the random generator. *)
Definition join (draw : nat → N) (roomid : string) (head : RequestHead) : Handler :=
  with_context head (λ h url,
    let clientid := generate_random 8 draw in
    let is_loopback :=
      existsb (λ kv, String.eqb kv.1 "debug" && String.eqb kv.2 "loopback") (query_pairs url) in
    ask (admit_room roomid clientid is_loopback) (λ r,
      match r with
      | Ok admission =>
          answer (ok (JoinBody (mk_JoinResponse "SUCCESS" (Some (with_messages
            (build_room_parameters config h url roomid clientid (Some (adm_is_initiator admission)))
            (adm_messages admission))))))
      | Err e => answer (ok (JoinBody (mk_JoinResponse e None)))
      end)).

Definition CLIENT_ID_ATTEMPTS : nat := 8.

(** The mode string of [v2_join]; [None] is the [unreachable!] arm. *)
Definition mode_str (mode : v2.RoomMode) : option string :=
  match mode with
  | v2.ModeP2p => Some "p2p"
  | v2.ModeSfu => Some "sfu"
  | _ => None
  end.

(** The [for attempt in 1..=CLIENT_ID_ATTEMPTS] loop; [ids] are the random ids
    still to come, and [remaining] the attempts after this one. *)
Fixpoint v2_join_loop (attempts : nat) (ids : nat → N) (roomid : string) (room_id : RoomId)
    (h : string) (url : Url) : Handler :=
  match attempts with
  | O => answer (ok (V2JoinBody "RESOURCE_EXHAUSTED" None))
  | Datatypes.S remaining =>
      let client_id := ids remaining in
      ask (admit_v2 room_id client_id) (λ r,
        match r with
        | Ok admission =>
            match mode_str (adm2_mode admission) with
            | None => λ _, None
            | Some mode =>
                let p := build_v2_room_parameters config h url roomid in
                answer (ok (V2JoinBody "SUCCESS" (Some (mk_V2JoinParameters (show_u64 client_id) roomid
                  (room_link p) mode (show_u64 (adm2_signal_epoch admission)) (wss_url p)
                  (adm2_admission_token admission) (adm2_is_initiator admission)))))
            end
        | Err e =>
            if String.eqb e "DUPLICATE_CLIENT" && (0 <? remaining)%nat
            then v2_join_loop remaining ids roomid room_id h url
            else answer (ok (V2JoinBody e None))
        end)
  end.

(** [v2_join]. *)
Definition v2_join (ids : nat → N) (roomid : string) (head : RequestHead) : Handler :=
  match parse_room_token roomid with
  | None => answer (ok (V2JoinBody "INVALID_ROOM_ID" None))
  | Some room_id =>
      with_context head (λ h url, v2_join_loop CLIENT_ID_ATTEMPTS ids roomid room_id h url)
  end.

(** [leave]. *)
Definition leave (roomid clientid : string) : Handler :=
  ask (remove roomid clientid) (λ r,
    match r with
    | Ok _ => answer (ok EmptyBody)
    | Err e => http_error e (λ r, r)
    end).

(** [v2_leave]. *)
Definition v2_leave (roomid clientid : string) (head : RequestHead) : Handler :=
  match parse_room_token roomid with
  | None => answer (ok (ResultBody "INVALID_ROOM_ID"))
  | Some room_id =>
      match canonical_u64 clientid with
      | None => answer (ok (ResultBody "INVALID_CLIENT_ID"))
      | Some client_id =>
          match bearer_token (head_authorization head) with
          | None => answer (ok (ResultBody "UNAUTHORIZED"))
          | Some admission_token =>
              ask (remove_v2 room_id client_id admission_token) (λ r,
                match r with
                | Ok _ => answer (ok (ResultBody "SUCCESS"))
                | Err e => answer (ok (ResultBody e))
                end)
          end
      end
  end.

(** [message]. *)
Definition message (roomid clientid body : string) : Handler :=
  ask (inject roomid clientid body) (λ r,
    match r with
    | Ok _ => answer (ok (ResultBody "SUCCESS"))
    | Err e => answer (ok (ResultBody e))
    end).

(** [bridge_post]. *)
Definition bridge_post (roomid clientid body : string) : Handler :=
  if is_empty body then http_error "Empty request body" (λ r, cors r "POST, DELETE")
  else ask (inject roomid clientid body) (λ r,
    match r with
    | Ok _ => answer (cors_text ("OK" +:+ String (Ascii.ascii_of_N 10) EmptyString))
    | Err e => http_error ("Failed to send the message: " +:+ e) (λ r, cors r "POST, DELETE")
    end).

(** [bridge_delete]. *)
Definition bridge_delete (roomid clientid : string) : Handler :=
  ask (remove roomid clientid) (λ r,
    match r with
    | Ok _ => answer (cors_text ("OK" +:+ String (Ascii.ascii_of_N 10) EmptyString))
    | Err e => http_error e (λ r, cors r "POST, DELETE")
    end).

(** [status]; [uptime] is what the clock says since the start. *)
Definition status (uptime : N) : Handler :=
  ask authority_status (λ r,
    match r with
    | Ok snapshot => λ s,
        answer (cors (ok (StatusBody (mk_StatusReport uptime (snap_websocket_connections snapshot)
          (snap_total_websocket_connections snapshot) (snap_websocket_errors snapshot) (http_errors s))))
          "GET") s
    | Err e => http_error e (λ r, r)
    end).

(** ** All routes *)

(** One constructor per handler that [router] installs. *)
Inductive Route :=
  | MainPage | RoomPage (roomid : string) | V2RoomPage (roomid : string)
  | Join (draw : nat → N) (roomid : string) | V2Join (ids : nat → N) (roomid : string)
  | Leave (roomid clientid : string) | V2Leave (roomid clientid : string)
  | Message (roomid clientid body : string) | Params | V2Params | IceConfig | Status (uptime : N)
  | BridgePost (roomid clientid body : string) | BridgeDelete (roomid clientid : string).

Definition handle (route : Route) (head : RequestHead) : Handler :=
  match route with
  | MainPage => main_page head
  | RoomPage r => room_page r head
  | V2RoomPage r => v2_room_page r head
  | Join draw r => join draw r head
  | V2Join ids r => v2_join ids r head
  | Leave r c => leave r c
  | V2Leave r c => v2_leave r c head
  | Message r c b => message r c b
  | Params => params head
  | V2Params => v2_params head
  | IceConfig => ice_config_page
  | Status uptime => status uptime
  | BridgePost r c b => bridge_post r c b
  | BridgeDelete r c => bridge_delete r c
  end.
End room_server.
