(* ===== verification/RoomServerSpec.v ===== *)
(** * What the HTTP handlers promise

    Stated against any authority whose V2 admissions are in a stable mode; the
    gRPC authority is one. *)

From S2P Require Import Prelude Wire Samples GrpcServer GrpcClient EndToEnd Params RoomServer.

(** ** What the handlers ask of an authority *)

(** An admission is never in a transition mode: what the [unreachable!] of
    [v2_join] relies on. *)
Class StableAdmissions `{RoomIdLib} (S : Type) `{A : !RoomAuthority S} : Prop :=
  admissions_stable : ∀ room_id client_id s s' admission,
    admit_v2 room_id client_id s = (s', Ok admission) →
    adm2_mode admission = v2.ModeP2p ∨ adm2_mode admission = v2.ModeSfu.

Section grpc.
Context `{L : RoomIdLib, P : v2.ProtoEnums, D : StatusDisplay, W : Type, Ch : !SignalingChannel W}.

(** The filter in [GrpcAuthority::admit_v2] discharges it. *)
#[export] Instance grpc_authority_stable instance_id :
  StableAdmissions GrpcAuthority (A := grpc_authority (W := W) instance_id).
Proof.
  intros room_id client_id s s' admission. cbn [admit_v2 grpc_authority].
  unfold client_admit_v2, request. repeat case_step; try done; simplify_eq/=; intros Heq; simplify_eq/=.
  all: bool_to_prop; repeat match goal with H : bool_decide _ = true |- _ => apply bool_decide_eq_true in H end.
  all: repeat match goal with H : negb _ = false |- _ => apply negb_false_iff in H end.
  all: repeat match goal with H : orb _ _ = true |- _ => apply orb_true_iff in H end.
  all: rewrite ?bool_decide_eq_true in *; naive_solver.
Qed.
End grpc.

(** ** Decimal client ids *)

Lemma show_u64_zero : show_u64 0 = "0".
Proof. reflexivity. Qed.

Lemma show_digits_shape fuel n acc :
  (0 < n)%N → (n < 10 ^ N.of_nat fuel)%N →
  ∃ d s, show_digits fuel n acc = String (digit_char d) s ∧ (0 < d < 10)%N ∧
         (string_forallb is_ascii_digit acc = true → string_forallb is_ascii_digit s = true).
Proof.
  revert n acc. induction fuel as [|fuel IH]; intros n acc Hn Hlt; [cbn in Hlt; lia|].
  cbn [show_digits]. destruct (n <? 10)%N eqn:Hlow; bool_to_prop.
  - exists n, acc. rewrite N.mod_small by done. split; [done|]. split; [lia|done].
  - destruct (IH (n / 10)%N (String (digit_char (n mod 10)) acc)) as (d & s & -> & Hd & Hs).
    + apply N.div_str_pos. lia.
    + apply N.Div0.div_lt_upper_bound. rewrite <- N.pow_succ_r', <- Nat2N.inj_succ. done.
    + exists d, s. split; [done|]. split; [done|]. intros Hacc. apply Hs. cbn [string_forallb].
      by rewrite is_ascii_digit_char by (apply N.mod_lt; lia).
Qed.

Lemma canonical_u64_show n : (n <= u64_max)%N → canonical_u64 (show_u64 n) = Some n.
Proof.
  intros Hn. destruct (decide (n = 0%N)) as [->|Hz]; [reflexivity|].
  pose proof (parse_digits_show_u64 n Hn) as Hp.
  destruct (show_digits_shape 20 n EmptyString) as (d & s & Hs & Hd & Hdig);
    [lia|by apply u64_max_digits|].
  unfold show_u64 in *. rewrite Hs in *. unfold canonical_u64.
  assert (Hne : digit_char d ≠ Ascii.ascii_of_N 48).
  { intros Heq. apply (f_equal byte_value) in Heq. rewrite byte_value_digit in Heq by lia.
    cbn in Heq. lia. }
  assert (Hplus : Ascii.eqb (digit_char d) (Ascii.ascii_of_N 43) = false).
  { apply Ascii.eqb_neq. intros Heq. apply (f_equal byte_value) in Heq.
    rewrite byte_value_digit in Heq by lia. cbn in Heq. lia. }
  replace (String.eqb _ _) with false
    by (symmetry; apply String.eqb_neq; intros [=]; done).
  cbn [is_empty orb]. unfold starts_with. cbn [strip_prefix string_forallb].
  replace (Ascii.eqb _ (digit_char d)) with false
    by (symmetry; apply Ascii.eqb_neq; intros Heq; by apply Hne).
  rewrite is_ascii_digit_char, Hdig by (done || lia). cbn [orb negb andb].
  unfold parse_u64. by rewrite Hplus.
Qed.

Lemma canonical_u64_only value n :
  canonical_u64 value = Some n → (n <= u64_max)%N ∧ value = show_u64 n.
Proof.
  unfold canonical_u64. destruct (String.eqb_spec value "0") as [->|Hz].
  { intros [= <-]. split; [apply N.le_0_l|reflexivity]. }
  destruct value as [|c s]; [done|]. cbn [is_empty orb]. unfold starts_with. cbn [strip_prefix].
  destruct (Ascii.eqb_spec (Ascii.Ascii false false false false true true false false) c) as [<-|Hc];
    [done|]. cbn [orb string_forallb].
  destruct (is_ascii_digit c) eqn:Hd. 2: done. cbn [andb orb negb].
  destruct (string_forallb is_ascii_digit s); [|done]. cbn [negb]. unfold parse_u64.
  destruct (Ascii.eqb_spec c (Ascii.ascii_of_N 43)) as [->|_]; [done|]. intros Hp. split.
  - eapply parse_digits_u64; [|exact Hp]. done.
  - symmetry. apply show_u64_parse; [done| |done]. intros Heq. apply Hc.
    apply (f_equal Ascii.ascii_of_N) in Heq. unfold byte_value in Heq.
    by rewrite Ascii.ascii_N_embedding in Heq.
Qed.

(** [canonical_u64] accepts exactly the decimal renderings of 64-bit numbers. *)
Theorem canonical_u64_exact value n :
  canonical_u64 value = Some n ↔ (n <= u64_max)%N ∧ value = show_u64 n.
Proof. split; [apply canonical_u64_only|]. intros [Hn ->]. by apply canonical_u64_show. Qed.

Lemma strip_prefix_inv p s t : strip_prefix p s = Some t → s = p +:+ t.
Proof.
  revert s. induction p as [|a p IH]; intros s; [by intros [= ->]|]. destruct s as [|b s]; [done|].
  cbn [strip_prefix]. destruct (Ascii.eqb_spec a b) as [<-|]; [|done]. intros H.
  by rewrite string_app_cons, (IH _ H).
Qed.

Lemma bearer_token_exact header token :
  bearer_token header = Some token ↔ token ≠ EmptyString ∧ header = Some ("Bearer " +:+ token).
Proof.
  unfold bearer_token. destruct header as [h|]; [|naive_solver]. cbn [mbind option_bind].
  split.
  - destruct (strip_prefix "Bearer " h) as [t|] eqn:Hp; [|done]. cbn [mbind option_bind].
    destruct t as [|c t]; [done|]. cbn [is_empty]. intros. simplify_eq. split; [done|].
    by rewrite (strip_prefix_inv _ _ _ Hp).
  - intros [Hne [= ->]]. rewrite strip_prefix_app. cbn [mbind option_bind].
    by destruct token.
Qed.

Section room_server_spec.
Context `{L : RoomIdLib, U : UrlLib, JT : JsonText, T : TemplateEngine, S : Type, A : !RoomAuthority S}.
Context (config : Config).
Abbreviation Handler := (Server (S := S) → option (Server (S := S) * Response)).
Implicit Types (s : Server (S := S)) (room_id : RoomId) (client_id : N).

(** ** Internal errors are counted *)

(** The counter after a request that was answered with [r]. *)
Definition counted (r : Response) (before : N) : N :=
  if (rsp_status r =? 500)%N then wrap64 (before + 1) else before.

(** A handler answers 200 or 500, and counts the 500s. *)
Definition counts (h : Handler) : Prop :=
  ∀ s s' r, h s = Some (s', r) →
    (rsp_status r = 200%N ∨ rsp_status r = 500%N) ∧ http_errors s' = counted r (http_errors s).

Lemma counts_answer b : counts (answer (ok b)).
Proof. intros s s' r [= <- <-]. split; [by left|done]. Qed.

Lemma counts_answer_cors b m : counts (answer (cors (ok b) m)).
Proof. intros s s' r [= <- <-]. split; [by left|done]. Qed.

Lemma counts_error message : counts (http_error message (λ r, r)).
Proof. intros s s' r [= <- <-]. split; [by right|done]. Qed.

Lemma counts_error_cors message m : counts (http_error message (λ r, cors r m)).
Proof. intros s s' r [= <- <-]. split; [by right|done]. Qed.

Lemma counts_panic : counts (λ _, None).
Proof. done. Qed.

Lemma counts_ask {X} (m : stateful S string X) k : (∀ r, counts (k r)) → counts (ask m k).
Proof.
  intros Hk s s' r. unfold ask. destruct (m (authority s)) as [a x]. intros H.
  by apply (Hk x) in H.
Qed.

Lemma counts_context head k : (∀ h url, counts (k h url)) → counts (with_context head k).
Proof.
  intros Hk. unfold with_context. destruct (request_context head) as [[h url]|e]; [apply Hk|].
  apply counts_error.
Qed.

Lemma counts_rendered r failure : counts (rendered r failure).
Proof. destruct r; [apply counts_answer|apply counts_error]. Qed.

#[local] Hint Resolve counts_answer counts_answer_cors counts_error counts_error_cors counts_panic
  counts_rendered : core.
#[local] Hint Extern 1 (counts (ask _ _)) => apply counts_ask; intros ? : core.
#[local] Hint Extern 1 (counts (with_context _ _)) => apply counts_context; intros ? ? : core.
#[local] Hint Extern 2 (counts (match ?x with _ => _ end)) => destruct x : core.

Lemma counts_v2_join_loop attempts ids roomid room_id h url :
  counts (v2_join_loop config attempts ids roomid room_id h url).
Proof.
  induction attempts as [|remaining IH]; cbn [v2_join_loop]; [auto|].
  apply counts_ask. intros [admission|e].
  - destruct (mode_str _); auto.
  - case_step; auto.
Qed.

Lemma counts_status uptime : counts (status uptime).
Proof.
  apply counts_ask. intros [snapshot|e]; [|auto]. intros s s' r [= <- <-]. split; [by left|done].
Qed.

#[local] Hint Resolve counts_v2_join_loop counts_status : core.

(** Every route counts its 500s. *)
Lemma handle_counts route head : counts (handle config route head).
Proof.
  destruct route; cbn [handle]; [.. | auto | |];
  unfold main_page, room_page, v2_room_page, join, v2_join, leave,
    v2_leave, message, params, v2_params, ice_config_page, bridge_post, bridge_delete, cors_text;
    auto 12.
Qed.

(** Requests served one after the other; [None] when a handler panics. *)
Fixpoint serve (requests : list (Route * RequestHead)) s : option (Server (S := S) * list Response) :=
  match requests with
  | [] => Some (s, [])
  | (route, head) :: requests =>
      '(s, r) ← handle config route head s;
      '(s, rs) ← serve requests s;
      Some (s, r :: rs)
  end.

Definition internal_error (r : Response) : Prop := rsp_status r = 500%N.

#[local] Instance internal_error_dec r : Decision (internal_error r).
Proof. unfold internal_error. apply _. Defined.

(** Over any sequence of requests to any route, each answer is a 200 or a 500, and the error
    counter has moved by the number of 500s, modulo 2^64. *)
Theorem internal_errors_counted requests s s' rs :
  is_u64 (http_errors s) → serve requests s = Some (s', rs) →
  Forall (λ r, rsp_status r = 200%N ∨ rsp_status r = 500%N) rs ∧
  http_errors s' = wrap64 (http_errors s + N.of_nat (length (filter internal_error rs))).
Proof.
  revert s rs. induction requests as [|[route head] requests IH]; intros s rs Hs Hrun; cbn in Hrun.
  - simplify_eq. split; [done|]. by rewrite N.add_0_r, wrap64_small.
  - destruct (handle config route head s) as [[s1 r]|] eqn:Hh; [|done]. cbn in Hrun.
    destruct (serve requests s1) as [[s2 rs']|] eqn:Hr; [|done]. cbn in Hrun. simplify_eq.
    apply handle_counts in Hh as [Hst Hc].
    assert (Hs1 : is_u64 (http_errors s1)).
    { rewrite Hc. unfold counted. case_match; [apply wrap64_u64|done]. }
    destruct (IH _ _ Hs1 Hr) as [Hf ->]. split; [by constructor|].
    rewrite Hc. unfold counted. rewrite filter_cons.
    destruct Hst as [Hst|Hst].
    + rewrite decide_False by (unfold internal_error; by rewrite Hst). by rewrite Hst.
    + rewrite decide_True by done. rewrite Hst. cbn [length N.eqb Pos.eqb].
      unfold wrap64. rewrite N.Div0.add_mod_idemp_l. f_equal. lia.
Qed.

(** ** Joining a V2 room *)

(** [k] admissions in a row, the first with [remaining] attempts left after it,
    refused as duplicates; from the authority's state [a] to [a']. *)
Inductive refused (ids : nat → N) room_id : nat → nat → S → S → Prop :=
  | refused_none remaining a : refused ids room_id remaining 0 a a
  | refused_more remaining k a a1 a2 :
      admit_v2 room_id (ids (Datatypes.S remaining)) a = (a1, Err "DUPLICATE_CLIENT") →
      refused ids room_id remaining k a1 a2 →
      refused ids room_id (Datatypes.S remaining) (Datatypes.S k) a a2.

(** What the browser is told about the outcome [r] of admitting [client_id]. *)
Definition join_answer roomid h url client_id (r : result V2Admission string) : Body :=
  match r with
  | Ok admission =>
      let p := build_v2_room_parameters config h url roomid in
      V2JoinBody "SUCCESS" (Some (mk_V2JoinParameters (show_u64 client_id) roomid (room_link p)
        (if bool_decide (adm2_mode admission = v2.ModeSfu) then "sfu" else "p2p")
        (show_u64 (adm2_signal_epoch admission)) (wss_url p) (adm2_admission_token admission)
        (adm2_is_initiator admission)))
  | Err e => V2JoinBody e None
  end.

Lemma v2_join_loop_outcome `{!StableAdmissions S} remaining ids roomid room_id h url s :
  ∃ k a a' r,
    k ≤ remaining ∧ refused ids room_id remaining k (authority s) a ∧
    admit_v2 room_id (ids (remaining - k)) a = (a', r) ∧
    (r = Err "DUPLICATE_CLIENT" → k = remaining) ∧
    v2_join_loop config (Datatypes.S remaining) ids roomid room_id h url s =
      Some (mk_Server (http_errors s) a', ok (join_answer roomid h url (ids (remaining - k)) r)).
Proof.
  revert s. induction remaining as [|remaining IH]; intros s.
  all: cbn [v2_join_loop]; unfold ask; destruct (admit_v2 room_id (ids _) (authority s)) as [a1 r1] eqn:Ha.
  all: destruct r1 as [admission|e].
  1, 3: eexists 0, (authority s), a1, (Ok admission);
    (split; [lia|]); (split; [constructor|]); (split; [done|]); (split; [done|]);
    rewrite Nat.sub_0_r; unfold join_answer;
    by destruct (admissions_stable _ _ _ _ _ Ha) as [Hm|Hm]; rewrite Hm.
  - exists 0, (authority s), a1, (Err e). rewrite andb_false_r. by repeat (split; [done || constructor|]).
  - destruct (String.eqb_spec e "DUPLICATE_CLIENT") as [->|Hne].
    + destruct (IH (mk_Server (http_errors s) a1)) as (k & a & a' & r & Hk & Href & Hadm & Hdup & Hrun).
      exists (Datatypes.S k), a, a', r. cbn [authority http_errors] in *.
      split; [lia|]. split; [by econstructor|]. split; [done|]. split; [intros; f_equal; auto|].
      exact Hrun.
    + exists 0, (authority s), a1, (Err e). split; [lia|]. split; [constructor|]. split; [done|].
      split; [congruence|done].
Qed.

(** C23: [v2_join] tries at most eight random client ids, retries only on [DUPLICATE_CLIENT],
    and answers with the first other outcome, or the eighth: the parameters under the admitted
    id, or the authority's error.  It never panics. *)
Theorem v2_join_retries_duplicates `{!StableAdmissions S} ids roomid room_id head h url s :
  parse_room_token roomid = Some room_id → request_context head = Ok (h, url) →
  ∃ k a a' r,
    k ≤ 7 ∧ refused ids room_id 7 k (authority s) a ∧
    admit_v2 room_id (ids (7 - k)) a = (a', r) ∧
    (r = Err "DUPLICATE_CLIENT" → k = 7) ∧
    v2_join config ids roomid head s =
      Some (mk_Server (http_errors s) a', ok (join_answer roomid h url (ids (7 - k)) r)).
Proof.
  intros Hroom Hctx. unfold v2_join. rewrite Hroom. unfold with_context. rewrite Hctx.
  apply v2_join_loop_outcome.
Qed.

(** ** Leaving a V2 room *)

(** C24: [v2_leave] changes the authority only through [remove_v2] with a valid room token, the
    canonical decimal of a 64-bit client id, and a non-empty bearer token, all taken from the
    request. *)
Theorem v2_leave_needs_credentials roomid clientid head s s' r :
  v2_leave roomid clientid head s = Some (s', r) → authority s' ≠ authority s →
  ∃ room_id n token,
    parse_room_token roomid = Some room_id ∧
    clientid = show_u64 n ∧ (n <= u64_max)%N ∧
    head_authorization head = Some ("Bearer " +:+ token) ∧ token ≠ EmptyString ∧
    (remove_v2 room_id n token (authority s)).1 = authority s'.
Proof.
  unfold v2_leave. destruct (parse_room_token roomid) as [room_id|] eqn:Hroom; [|by intros [= <- <-]].
  destruct (canonical_u64 clientid) as [n|] eqn:Hn; [|by intros [= <- <-]].
  destruct (bearer_token _) as [token|] eqn:Ht; [|by intros [= <- <-]].
  apply canonical_u64_only in Hn as [Hn ->]. apply bearer_token_exact in Ht as [Hne Ht].
  unfold ask. destruct (remove_v2 _ _ _ _) as [a x] eqn:Hrem. intros Hans _.
  exists room_id, n, token. rewrite Hrem. repeat (split; [done|]).
  by destruct x; injection Hans as <- <-.
Qed.
End room_server_spec.

(** ** Links to V2 rooms *)

(** The link of a V2 room is its page under [/v2/r/], with the query of the request, for every
    host that is not the single letter of that path. *)
Theorem v2_room_link `{JT : JsonText, U : UrlLib} c request_host url room_id http_scheme ws_scheme h :
  self_origin c request_host = (http_scheme, ws_scheme, h) →
  has_char slash h = false → h ≠ "r" → h ≠ EmptyString → room_id ≠ EmptyString →
  room_link (build_v2_room_parameters c request_host url room_id) =
    http_scheme +:+ "://" +:+ h +:+ "/v2/r/" +:+ room_id +:+
      match url_query url with
      | Some q => if is_empty q then EmptyString else "?" +:+ q
      | None => EmptyString
      end.
Proof.
  intros Horigin Hslash Hr He Hroom.
  assert (Hscheme : has_char slash http_scheme = false).
  { unfold self_origin in Horigin. destruct (force_tls c); by injection Horigin as <- <- _. }
  assert (Hne : is_empty room_id = false) by (by destruct room_id).
  unfold build_v2_room_parameters. cbn [room_link]. rewrite Hne.
  unfold build_room_parameters. rewrite Horigin. cbn [room_link]. rewrite Hne.
  unfold room_link_for.
  destruct (url_query url) as [q|]; [destruct (is_empty q)|];
    rewrite ?string_app_assoc; change EmptyString with ""; rewrite ?string_app_nil_r; by apply v2_link.
Qed.

(** A host named [r] is taken for the path: the link leads elsewhere. *)
Example v2_link_of_host_r :
  replace_first "/r/" "/v2/r/" ("http" +:+ "://" +:+ "r" +:+ "/r/" +:+ "room") = "http://v2/r/r/room".
Proof. reflexivity. Qed.

(** ** Witnesses *)

Module Witnesses.
(** A URL is its text, its query what follows the first question mark. *)
Fixpoint after_mark (s : string) : option string :=
  match s with
  | EmptyString => None
  | String c s' => if Ascii.eqb c (Ascii.ascii_of_N 63) then Some s' else after_mark s'
  end.

#[local] Instance sample_url : UrlLib := {
  Url := string;
  url_parse s := Ok s;
  query_pairs u := match after_mark u with Some "debug=loopback" => [("debug", "loopback")] | _ => [] end;
  url_query := after_mark;
}.

#[local] Instance sample_json_text : JsonText := λ v,
  match v with VBool b => bool_str b | VNull => "null" | _ => "{}" end.

#[local] Instance sample_templates : TemplateEngine := {
  render_index fields := Ok (show_u64 (N.of_nat (length fields)));
  render_full fields := Err "no template";
}.

(** One room with its members and their token. *)
#[local] Instance sample_authority : RoomAuthority (list N) := {
  admit_room _ _ _ := λ l, (l, Err "FULL");
  remove _ _ := λ l, (l, Err "UNKNOWN_CLIENT");
  occupancy _ := λ l, (l, Ok (N.of_nat (length l)));
  inject _ _ _ := λ l, (l, Err "UNKNOWN_CLIENT");
  admit_v2 _ c := λ l,
    if bool_decide (c ∈ l) then (l, Err "DUPLICATE_CLIENT")
    else (c :: l, Ok (mk_V2Admission v2.ModeP2p 1 "token" (Some (bool_decide (l = [])))));
  remove_v2 _ c token := λ l,
    if String.eqb token "token" && bool_decide (c ∈ l) then (filter (λ x, x ≠ c) l, Ok tt)
    else (l, Err "STALE_TOKEN");
  occupancy_v2 _ := λ l, (l, Ok (N.of_nat (length l)));
  authority_status := λ l, (l, Ok (mk_StatusSnapshot 1 (N.of_nat (length l)) 0 0 0));
}.

#[local] Instance sample_authority_stable : StableAdmissions (list N).
Proof.
  intros r c l l' adm. cbn. case_bool_decide; [done|]. intros [= <- <-]. by left.
Qed.

Definition sample_config : Config :=
  mk_Config "web" "" false "" [] [] "" "" "" false.

Definition sample_head (authorization : option string) : RequestHead :=
  mk_RequestHead (Some "apprtc.example") "/" authorization.

(** A room token, a v8 UUID in its raw form. *)
Definition sample_token : string :=
  String.string_of_list_byte (replicate 6 Byte.x00 ++ [Byte.x80; Byte.x00; Byte.x80] ++ replicate 7 Byte.x00).

Definition sample_requests : list (Route * RequestHead) :=
  [(BridgePost "room" "1" EmptyString, sample_head None); (RoomServer.Params, sample_head None)].

Lemma internal_errors_counted_witness : ∃ s' rs,
  serve sample_config sample_requests (mk_Server u64_max []) = Some (s', rs) ∧
  http_errors s' = wrap64 (u64_max + 1).
Proof.
  assert (Hs : ∃ s' rs, serve sample_config sample_requests (mk_Server u64_max []) = Some (s', rs) ∧
    length (filter internal_error rs) = 1).
  { eexists _, _. split; vm_compute; reflexivity. }
  destruct Hs as (s' & rs & Hs & Hlen). exists s', rs. split; [exact Hs|].
  replace 1%N with (N.of_nat 1) by reflexivity. rewrite <- Hlen.
  apply (internal_errors_counted sample_config sample_requests (mk_Server u64_max []) s' rs);
    [reflexivity|exact Hs].
Defined.

(** The first id drawn is taken, the second is not. *)
Definition sample_ids (remaining : nat) : N := if (remaining =? 7)%nat then 5 else 9.

Lemma v2_join_retries_duplicates_witness : ∃ room_id,
  parse_room_token sample_token = Some room_id ∧
  ∃ k a a' r,
    k ≤ 7 ∧ refused sample_ids room_id 7 k [5%N] a ∧
    admit_v2 room_id (sample_ids (7 - k)) a = (a', r) ∧ (r = Err "DUPLICATE_CLIENT" → k = 7) ∧
    v2_join sample_config sample_ids sample_token (sample_head None) (mk_Server 0 [5%N]) =
      Some (mk_Server 0 a', ok (join_answer (U := sample_url) sample_config sample_token "apprtc.example"
                                  "http://apprtc.example/" (sample_ids (7 - k)) r)).
Proof.
  assert (Hroom : ∃ room_id, parse_room_token sample_token = Some room_id)
    by (eexists; vm_compute; reflexivity).
  destruct Hroom as [room_id Hroom]. exists room_id. split; [exact Hroom|].
  apply (v2_join_retries_duplicates (U := sample_url) sample_config sample_ids sample_token room_id (sample_head None)
           "apprtc.example" "http://apprtc.example/" (mk_Server 0 [5%N])); [exact Hroom|reflexivity].
Defined.

Lemma v2_leave_needs_credentials_witness : ∃ room_id n token,
  parse_room_token sample_token = Some room_id ∧ "5" = show_u64 n ∧ (n <= u64_max)%N ∧
  Some "Bearer token" = Some ("Bearer " +:+ token) ∧ token ≠ EmptyString ∧
  (remove_v2 room_id n token [5%N; 6%N]).1 = [6%N].
Proof.
  apply (v2_leave_needs_credentials sample_token "5" (sample_head (Some "Bearer token"))
    (mk_Server 0 [5%N; 6%N]) (mk_Server 0 [6%N]) (ok (ResultBody "SUCCESS"))).
  - vm_compute. reflexivity.
  - done.
Defined.

Lemma v2_room_link_witness :
  room_link (build_v2_room_parameters (H0 := sample_url) sample_config "apprtc.example" "http://apprtc.example/?hd=true" "room") =
    "http://apprtc.example/v2/r/room?hd=true".
Proof.
  by rewrite (v2_room_link (U := sample_url) sample_config "apprtc.example" "http://apprtc.example/?hd=true" "room"
    "http" "ws" "apprtc.example").
Defined.
End Witnesses.
