(* ===== verification/Bodies.v ===== *)
(** * The JSON bodies of the HTTP API

    The derived [Serialize] of the response types of [src/src/room_server.rs],
    [src/src/params.rs] and [src/src/dashboard.rs]: which fields a body has, under
    which names, and which are left out.  A client that takes a missing field as
    empty reads every parameter back. *)

From S2P Require Import Prelude Params Templates RoomServer.

(** ** Reading JSON *)

(** [value.get(key)]. *)
Definition get_field (key : string) (v : Value) : option Value :=
  match v with
  | VObject fields => snd ∘ snd <$> list_find (λ kv, kv.1 = key) fields
  | _ => None
  end.

(** [value[key]]. *)
Definition field (key : string) (v : Value) : Value := opt_default VNull (get_field key v).

(** A text, and a list of texts, that are empty when the field is missing. *)
Definition text_field (key : string) (v : Value) : string :=
  match field key v with VString s => s | _ => EmptyString end.

Definition as_text (v : Value) : option string := match v with VString s => Some s | _ => None end.

Definition texts_field (key : string) (v : Value) : list string :=
  match field key v with VArray items => omap as_text items | _ => [] end.

(** ** Serializing *)

(** [skip_serializing_if = "String::is_empty"] and [Vec::is_empty]. *)
Definition unless_empty (key s : string) : list (string * Value) :=
  if is_empty s then [] else [(key, VString s)].

Definition texts (l : list string) : Value := VArray (VString <$> l).

(** [RoomParameters]: the version is skipped. *)
Definition room_parameters_value (p : RoomParameters) : Value :=
  VObject
    (unless_empty "client_id" (p_client_id p) ++ unless_empty "room_id" (p_room_id p) ++
     unless_empty "room_link" (room_link p) ++ [("wss_url", VString (wss_url p))] ++
     unless_empty "wss_post_url" (wss_post_url p) ++
     [("ice_server_url", VString (ice_server_url p));
      ("ice_server_transports", VString (ice_server_transports p));
      ("header_message", VString (p_header_message p))] ++
     unless_empty "is_initiator" (is_initiator p) ++
     [("is_loopback", VString (is_loopback p)); ("pc_config", VString (pc_config p));
      ("pc_constraints", VString (pc_constraints p)); ("offer_options", VString (offer_options p));
      ("media_constraints", VString (media_constraints p));
      ("bypass_join_confirmation", VString (p_bypass_join_confirmation p));
      ("version_info", VString (version_info p)); ("include_loopback_js", VString (include_loopback_js p))] ++
     match messages p with [] => [] | l => [("messages", texts l)] end ++
     [("error_messages", texts (error_messages p)); ("warning_messages", texts (warning_messages p))]).

(** [RoomParameters::default()]. *)
Definition default_room_parameters : RoomParameters :=
  let e := EmptyString in mk_RoomParameters 0 e e e e e e e e e e e e e e e e e [] [] [].

(** [JoinResponse]. *)
Definition join_response_value (r : JoinResponse) : Value :=
  VObject [("result", VString (jr_result r));
           ("params", room_parameters_value (opt_default default_room_parameters (jr_params r)))].

(** [V2JoinParameters]. *)
Definition v2_join_parameters_value (p : V2JoinParameters) : Value :=
  VObject
    ([("client_id", VString (vj_client_id p)); ("room_id", VString (vj_room_id p));
      ("room_link", VString (vj_room_link p)); ("mode", VString (vj_mode p)); ("epoch", VString (vj_epoch p));
      ("wss_url", VString (vj_wss_url p)); ("admission_token", VString (vj_admission_token p))] ++
     match vj_is_initiator p with Some b => [("is_initiator", VBool b)] | None => [] end).

(** [V2JoinResponse]. *)
Definition v2_join_response_value (r : string) (p : option V2JoinParameters) : Value :=
  VObject (("result", VString r) :: match p with Some p => [("params", v2_join_parameters_value p)] | None => [] end).

(** [StatusReport], whose values are numbers. *)
Definition status_report_fields (r : StatusReport) : list (string * N) :=
  [("upsec", r_up_time r); ("openws", r_open_ws r); ("totalws", r_total_ws r); ("wserrors", r_ws_errs r);
   ("httperrors", r_http_errs r)].

(** The JSON value of a body; pages, texts and the numbers of the status are none. *)
Definition body_value (b : Body) : option Value :=
  match b with
  | ResultBody r => Some (VObject [("result", VString r)])
  | JoinBody r => Some (join_response_value r)
  | V2JoinBody r p => Some (v2_join_response_value r p)
  | ParamsBody p => Some (room_parameters_value p)
  | ValueBody v => Some v
  | EmptyBody | TextBody _ | HtmlBody _ | StatusBody _ => None
  end.

(** ** Reading back *)

Definition read_room_parameters (version : N) (v : Value) : RoomParameters :=
  mk_RoomParameters version (text_field "client_id" v) (text_field "room_id" v) (text_field "room_link" v)
    (text_field "wss_url" v) (text_field "wss_post_url" v) (text_field "ice_server_url" v)
    (text_field "ice_server_transports" v) (text_field "header_message" v) (text_field "is_initiator" v)
    (text_field "is_loopback" v) (text_field "pc_config" v) (text_field "pc_constraints" v)
    (text_field "offer_options" v) (text_field "media_constraints" v) (text_field "bypass_join_confirmation" v)
    (text_field "version_info" v) (text_field "include_loopback_js" v) (texts_field "messages" v)
    (texts_field "error_messages" v) (texts_field "warning_messages" v).

Definition read_v2_join_parameters (v : Value) : V2JoinParameters :=
  mk_V2JoinParameters (text_field "client_id" v) (text_field "room_id" v) (text_field "room_link" v)
    (text_field "mode" v) (text_field "epoch" v) (text_field "wss_url" v) (text_field "admission_token" v)
    (match get_field "is_initiator" v with Some (VBool b) => Some b | _ => None end).

Lemma omap_texts (l : list string) : omap as_text (VString <$> l) = l.
Proof. induction l as [|s l IH]; [done|]. cbn. by rewrite IH. Qed.

(** A field of a list, in front, further on, or of a skipped empty text. *)
Definition pick (key : string) (fields : list (string * Value)) : option Value :=
  snd ∘ snd <$> list_find (λ kv, kv.1 = key) fields.

Lemma pick_cons key k v fields : pick key ((k, v) :: fields) = if String.eqb k key then Some v else pick key fields.
Proof.
  unfold pick. cbn. destruct (String.eqb_spec k key); [by rewrite decide_True|].
  rewrite decide_False by done. by destruct (list_find _ fields) as [[]|].
Qed.

Lemma pick_unless_empty key k s fields :
  pick key (unless_empty k s ++ fields) =
    if String.eqb k key && negb (is_empty s) then Some (VString s) else pick key fields.
Proof. unfold unless_empty. destruct (is_empty s); cbn [app]; rewrite ?pick_cons; by destruct (String.eqb k key). Qed.

Lemma pick_nil key : pick key [] = None.
Proof. done. Qed.

Lemma text_field_pick key fields s :
  pick key fields = Some (VString s) ∨ pick key fields = None ∧ s = EmptyString → text_field key (VObject fields) = s.
Proof. unfold text_field, field, get_field. fold (pick key fields). by intros [->|[-> ->]]. Qed.

Lemma texts_field_pick key fields l :
  pick key fields = Some (texts l) ∨ pick key fields = None ∧ l = [] → texts_field key (VObject fields) = l.
Proof. unfold texts_field, field, get_field. fold (pick key fields). intros [->|[-> ->]]; [apply omap_texts|done]. Qed.

(** Finds a field among concrete names. *)
Ltac find_field :=
  repeat (first [rewrite pick_cons|rewrite pick_unless_empty|rewrite pick_nil];
          cbn [String.eqb Ascii.eqb Bool.eqb andb app]).

(** Every parameter of a body is read back as it was set, a skipped one as empty; only the
    version, which is not sent, has to be known from the path. *)
Theorem room_parameters_read_back p :
  read_room_parameters (signaling_version p) (room_parameters_value p) = p.
Proof.
  destruct p as [ver cid rid link wss post ice tr hm ini loop pc pcc oo mc byp vi inc ms es ws].
  unfold read_room_parameters, room_parameters_value. cbn -[text_field texts_field app].
  destruct ms as [|m ms]; f_equal; first [apply text_field_pick|apply texts_field_pick]; cbn [app]; find_field; auto.
  all: match goal with |- context [negb (is_empty ?s)] => destruct s; auto end.
Qed.

(** The parameters of a V2 join are read back as they were set. *)
Lemma v2_join_parameters_read_back p : read_v2_join_parameters (v2_join_parameters_value p) = p.
Proof. by destruct p as [? ? ? ? ? ? ? [[]|]]. Qed.
