(* ===== verification/Router.v ===== *)
(** * The routes of the AppRTC process ([RoomServer::router] of
      [src/src/room_server.rs])

    The table of paths, methods and handlers.  Matching a path against the table
    is axum's: of the patterns that match, it takes the most specific one, where
    at the first segment that differs a literal goes before a capture and a
    capture before the rest of a nested service. *)

From S2P Require Import Prelude Wire RoomServer.

(** ** Patterns *)

(** A literal segment, a captured one, and everything below a nested service. *)
Inductive Seg := Lit (s : string) | Capture | Rest.

#[export] Instance seg_eq_dec : EqDecision Seg.
Proof. solve_decision. Defined.

(** The captures, when the pattern matches; a capture is never empty. *)
Fixpoint matches (p : list Seg) (path : list string) : option (list string) :=
  match p, path with
  | [], [] => Some []
  | Rest :: _, _ => Some []
  | Lit s :: p', x :: path' => if String.eqb s x then matches p' path' else None
  | Capture :: p', x :: path' => if is_empty x then None else cons x <$> matches p' path'
  | _, _ => None
  end.

Definition rank (s : Seg) : nat := match s with Lit _ => 2 | Capture => 1 | Rest => 0 end.

(** A pattern that ends goes before one that goes on with the rest. *)
Fixpoint more_specific (p q : list Seg) : bool :=
  match p, q with
  | a :: p', b :: q' => if (rank a =? rank b)%nat then more_specific p' q' else (rank b <? rank a)%nat
  | [], Rest :: _ => true
  | _, _ => false
  end.

(** What axum accepts as a table: no pattern twice, and the rest only last. *)
Fixpoint well_formed (p : list Seg) : bool :=
  match p with [] => true | Rest :: p' => bool_decide (p' = []) | _ :: p' => well_formed p' end.

Definition table_ok (ps : list (list Seg)) : Prop := NoDup ps ∧ Forall (λ p, well_formed p = true) ps.

(** The index of the pattern a path goes to. *)
Class PathMatcher : Type := best_match : list (list Seg) → list string → option nat.

Class PathMatcherLaws (M : PathMatcher) : Prop := {
  best_match_none : ∀ ps path, table_ok ps → best_match ps path = None → ∀ p, p ∈ ps → matches p path = None;
  best_match_some : ∀ ps path i, table_ok ps → best_match ps path = Some i →
    ∃ p, ps !! i = Some p ∧ is_Some (matches p path) ∧
      ∀ j q, ps !! j = Some q → j ≠ i → is_Some (matches q path) → more_specific p q = true;
}.

(** ** The table *)

Inductive Method := GET | HEAD | POST | DELETE | OtherMethod.

Section router.
Context {M : PathMatcher}.

(** [decode] is the decoding of a captured segment.  The rest is what handlers
    draw and read besides the path. *)
Context (decode : string → option string).
Context (draw ids : nat → N) (uptime : N) (body : string).

(** What a pattern leads to: the methods with their handlers, or files. *)
Inductive Target :=
  | Methods (handler : Method → option (list string → Route))
  | NestedFiles.

(** [get], [post] and [delete]; [get] also answers [HEAD]. *)
Definition get (h : list string → Route) : Method → option (list string → Route) :=
  λ m, match m with GET | HEAD => Some h | _ => None end.

Definition post (h : list string → Route) : Method → option (list string → Route) :=
  λ m, match m with POST => Some h | _ => None end.

(** [first.second(..)]. *)
Definition also (first second : Method → option (list string → Route)) : Method → option (list string → Route) :=
  λ m, match first m with Some h => Some h | None => second m end.

Definition delete (h : list string → Route) : Method → option (list string → Route) :=
  λ m, match m with DELETE => Some h | _ => None end.

Definition cap (n : nat) (captures : list string) : string := nth n captures EmptyString.

Definition bridge : Method → option (list string → Route) :=
  also (post (λ c, BridgePost (cap 0 c) (cap 1 c) body)) (delete (λ c, BridgeDelete (cap 0 c) (cap 1 c))).

(** The routes in the order of [router]; ["/"] is one empty segment. *)
Definition table : list (list Seg * Target) :=
  [([Lit ""], Methods (get (λ _, MainPage)));
   ([Lit "r"; Capture], Methods (get (λ c, RoomPage (cap 0 c))));
   ([Lit "v2"; Lit "r"; Capture], Methods (get (λ c, V2RoomPage (cap 0 c))));
   ([Lit "join"; Capture], Methods (post (λ c, Join draw (cap 0 c))));
   ([Lit "v2"; Lit "join"; Capture], Methods (post (λ c, V2Join ids (cap 0 c))));
   ([Lit "leave"; Capture; Capture], Methods (post (λ c, Leave (cap 0 c) (cap 1 c))));
   ([Lit "v2"; Lit "leave"; Capture; Capture], Methods (post (λ c, V2Leave (cap 0 c) (cap 1 c))));
   ([Lit "message"; Capture; Capture], Methods (post (λ c, Message (cap 0 c) (cap 1 c) body)));
   ([Lit "params"], Methods (get (λ _, Params)));
   ([Lit "v2"; Lit "params"], Methods (get (λ _, V2Params)));
   ([Lit "v1alpha"; Lit "iceconfig"], Methods (also (get (λ _, IceConfig)) (post (λ _, IceConfig))));
   ([Lit "status"], Methods (get (λ _, Status uptime)));
   ([Capture; Capture], Methods bridge);
   ([Lit "_internal"; Capture; Capture], Methods bridge);
   ([Lit "js"; Rest], NestedFiles);
   ([Lit "css"; Rest], NestedFiles);
   ([Lit "images"; Rest], NestedFiles);
   ([Lit "html"; Rest], NestedFiles)].

(** A handler, a 405, a 400 for a capture that does not decode, or the files of
    the web root. *)
Inductive Routed := Handled (r : Route) | MethodNotAllowed | BadPath | Files.

(** [router]. *)
Definition router (m : Method) (path : list string) : Routed :=
  match best_match table.*1 path ≫= (table !!.) with
  | None | Some (_, NestedFiles) => Files
  | Some (p, Methods handler) =>
      match handler m, matches p path ≫= mapM decode with
      | Some h, Some captures => Handled (h captures)
      | Some _, None => BadPath
      | None, _ => MethodNotAllowed
      end
  end.

(** ** Which pattern wins *)

Lemma more_specific_asym p q : more_specific p q = true → more_specific q p = false.
Proof.
  revert q. induction p as [|a p IH]; intros [|b q]; cbn [more_specific]; try done.
  rewrite (Nat.eqb_sym (rank b)).
  destruct (rank a =? rank b)%nat; [apply IH|]. rewrite Nat.ltb_lt, Nat.ltb_ge. lia.
Qed.

Context {laws : PathMatcherLaws M}.

(** A pattern that matches and is more specific than every other that does. *)
Lemma best_match_unique ps path i p :
  table_ok ps → ps !! i = Some p → is_Some (matches p path) →
  (∀ j q, ps !! j = Some q → j ≠ i → matches q path = None ∨ more_specific p q = true) →
  best_match ps path = Some i.
Proof.
  intros Hok Hi Hp Hall. destruct (best_match ps path) as [j|] eqn:Hb.
  - apply best_match_some in Hb as (q & Hj & Hq & Hbest); [|done]. destruct (decide (j = i)) as [->|Hne]; [done|].
    destruct (Hall _ _ Hj Hne) as [Hn|Hs]; [destruct Hq; congruence|].
    apply more_specific_asym in Hs. rewrite (Hbest _ _ Hi (not_eq_sym Hne) Hp) in Hs. done.
  - apply list_elem_of_lookup_2 in Hi. eapply best_match_none in Hb; [|done..]. destruct Hp. congruence.
Qed.

Definition matching (p : list Seg) (path : list string) : bool :=
  match matches p path with Some _ => true | None => false end.

Lemma matching_spec p path : matching p path = true ↔ is_Some (matches p path).
Proof. unfold matching. destruct (matches p path); split; [eauto|done|done|by intros [? ?]]. Qed.

Lemma router_table_ok : table_ok table.*1.
Proof. split; [apply (bool_decide_unpack _)|repeat constructor]. vm_compute. exact I. Qed.

(** The [i]th row of the table wins. *)
Definition wins (i : nat) (path : list string) : bool :=
  match table.*1 !! i with
  | Some p =>
      matching p path &&
      forallb (λ j, (j =? i)%nat || match table.*1 !! j with
                                    | Some q => negb (matching q path) || more_specific p q
                                    | None => true
                                    end) (seq 0 (length table))
  | None => false
  end.

Lemma wins_best i path : wins i path = true → best_match table.*1 path = Some i.
Proof.
  unfold wins. destruct (table.*1 !! i) as [p|] eqn:Hi; [|done].
  intros [Hp%matching_spec Hall]%andb_prop. apply (best_match_unique _ _ _ p); [apply router_table_ok|done|done|].
  intros j q Hj Hne. rewrite forallb_forall in Hall. specialize (Hall j). rewrite Hj in Hall.
  pose proof (lookup_lt_Some _ _ _ Hj) as Hlt. rewrite length_fmap in Hlt.
  assert (Hin : In j (seq 0 (length table))) by (apply in_seq; lia).
  apply Hall in Hin. apply orb_prop in Hin as [->%Nat.eqb_eq|Hin]; [done|].
  apply orb_prop in Hin as [Hn|?]; [left|auto]. unfold matching in Hn. by destruct (matches q path).
Qed.

Lemma router_row i m path p t :
  wins i path = true → table !! i = Some (p, t) →
  router m path = match t with
                  | NestedFiles => Files
                  | Methods handler =>
                      match handler m, matches p path ≫= mapM decode with
                      | Some h, Some captures => Handled (h captures)
                      | Some _, None => BadPath
                      | None, _ => MethodNotAllowed
                      end
                  end.
Proof. intros Hw%wins_best Hi. unfold router. rewrite Hw. cbn [mbind option_bind]. by rewrite Hi. Qed.

(** Row [i] of the table serves the path, as evaluation shows. *)
Ltac row i :=
  erewrite (router_row i);
  [|unfold wins, matching; cbn;
    repeat match goal with H : is_empty _ = false |- _ => progress (rewrite H; cbn) end; reflexivity|reflexivity];
  cbn; repeat (match goal with H : is_empty _ = false |- _ => rewrite H; cbn end);
  repeat match goal with H : decode _ = _ |- _ => rewrite H; cbn end; reflexivity.

(** Every documented endpoint of the two APIs is routed to its handler with the decoded
    parameters of its path, whatever they are. *)
Theorem endpoints_reach_their_handlers a b a' b' :
  a ≠ EmptyString → b ≠ EmptyString → decode a = Some a' → decode b = Some b' →
  router GET ["r"; a] = Handled (RoomPage a') ∧
  router GET ["v2"; "r"; a] = Handled (V2RoomPage a') ∧
  router POST ["join"; a] = Handled (Join draw a') ∧
  router POST ["v2"; "join"; a] = Handled (V2Join ids a') ∧
  router POST ["leave"; a; b] = Handled (Leave a' b') ∧
  router POST ["v2"; "leave"; a; b] = Handled (V2Leave a' b') ∧
  router POST ["message"; a; b] = Handled (Message a' b' body) ∧
  router POST ["_internal"; a; b] = Handled (BridgePost a' b' body) ∧
  router DELETE ["_internal"; a; b] = Handled (BridgeDelete a' b').
Proof.
  intros Ha Hb Hda Hdb.
  assert (He : is_empty a = false ∧ is_empty b = false) by (by destruct a, b). destruct He as [Hea Heb].
  split_and!; [row 1|row 2|row 3|row 4|row 5|row 6|row 7|row 13|row 13].
Qed.

(** Room names that are the first segment of another endpoint. *)
Definition shadowed : list string := ["r"; "join"; "js"; "css"; "images"; "html"].

Definition two_segment_pages : list (string * string) := [("v2", "params"); ("v1alpha", "iceconfig")].

(** C25: The bridge paths of V1 clients, [/room/client], reach the bridge for every room except
    those named like another endpoint: of these, [join] admits a client to a room named after
    the client instead of relaying its message, and the others answer with an error or with
    files. *)
Theorem bridge_routing a b a' b' :
  a ≠ EmptyString → b ≠ EmptyString → decode a = Some a' → decode b = Some b' →
  (a ∉ shadowed → (a, b) ∉ two_segment_pages →
     router POST [a; b] = Handled (BridgePost a' b' body) ∧
     router DELETE [a; b] = Handled (BridgeDelete a' b')) ∧
  router POST ["join"; b] = Handled (Join draw b') ∧
  router POST ["r"; b] = MethodNotAllowed ∧
  Forall (λ d, router POST [d; b] = Files) ["js"; "css"; "images"; "html"].
Proof.
  intros Ha Hb Hda Hdb.
  assert (He : is_empty a = false ∧ is_empty b = false) by (by destruct a, b). destruct He as [Hea Heb].
  split_and!; [intros Hs Hp|row 3|row 1|repeat constructor; [row 14|row 15|row 16|row 17]].
  unfold shadowed, two_segment_pages in *. rewrite !not_elem_of_cons in Hs. destruct_and! Hs.
  assert (Hw : wins 12 [a; b] = true).
  { unfold wins, matching. cbn -[String.eqb]. rewrite Hea; cbn -[String.eqb]; rewrite Heb; cbn -[String.eqb].
    rewrite !not_elem_of_cons in Hp. destruct Hp as (Hp1 & Hp2 & _).
    repeat match goal with |- context [String.eqb ?s a] =>
      destruct (String.eqb_spec s a); [subst a; try done|]; cbn -[String.eqb] end; try done.
    all: repeat match goal with |- context [String.eqb ?s ?x] =>
      is_var x; destruct (String.eqb_spec s x); [subst x|]; cbn -[String.eqb] end; first [reflexivity|by destruct Hp1|by destruct Hp2]. }
  split; (erewrite (router_row 12); [|exact Hw|reflexivity]); cbn; rewrite Hea; cbn; rewrite Heb; cbn;
    rewrite Hda; cbn; by rewrite Hdb.
Qed.
End router.

(** ** Witnesses *)

Section witnesses.

(** The first matching pattern that no other matching one beats. *)
Definition beaten (ps : list (list Seg)) (path : list string) (p : list Seg) : bool :=
  existsb (λ q, matching q path && more_specific q p) ps.

#[local] Instance sample_matcher : PathMatcher := λ ps path,
  fst <$> list_find (λ p, matching p path && negb (beaten ps path p) = true) ps.

Lemma more_specific_trans p q r :
  more_specific p q = true → more_specific q r = true → more_specific p r = true.
Proof.
  revert q r. induction p as [|a p IH]; intros [|b q] [|c r]; cbn [more_specific]; try done.
  - destruct b; try done. destruct c; try done.
  - destruct (Nat.eqb_spec (rank a) (rank b)), (Nat.eqb_spec (rank b) (rank c)), (Nat.eqb_spec (rank a) (rank c));
      rewrite ?Nat.ltb_lt; try lia; eauto.
Qed.

(** Two patterns of a path compare. *)
Lemma more_specific_total p q path :
  well_formed p = true → well_formed q = true → matching p path = true → matching q path = true → p ≠ q →
  more_specific p q = true ∨ more_specific q p = true.
Proof.
  unfold matching. revert q path. induction p as [|a p IH]; intros [|b q] path Hp Hq Hmp Hmq Hne.
  - done.
  - destruct path; [|done]. destruct b; cbn in *; auto; done.
  - destruct path; [|done]. destruct a; cbn in *; auto; done.
  - cbn [more_specific]. destruct a as [s| |], b as [t| |]; cbn [rank Nat.eqb Nat.ltb Nat.leb]; auto.
    + destruct path as [|x path]; [done|]. cbn in Hmp, Hmq.
      destruct (String.eqb_spec s x), (String.eqb_spec t x); try done. subst. cbn in Hp, Hq.
      apply (IH _ path); try done. congruence.
    + destruct path as [|x path]; [done|]. cbn in Hmp, Hmq, Hp, Hq. destruct (is_empty x); [done|].
      apply (IH _ path); [done|done|by destruct (matches p path)|by destruct (matches q path)|congruence].
    + cbn in Hp, Hq. apply bool_decide_eq_true in Hp, Hq. by subst.
Qed.

Lemma unbeaten_exists (l : list (list Seg)) : l ≠ [] → ∃ p, p ∈ l ∧ ∀ q, q ∈ l → more_specific q p = false.
Proof.
  assert (Hirr : ∀ p, more_specific p p = false).
  { intros p. destruct (more_specific p p) eqn:H; [|done]. by rewrite (more_specific_asym _ _ H) in H. }
  induction l as [|x l IH]; [done|]. intros _. destruct l as [|y l].
  { exists x. split; [left|]. by intros q ->%list_elem_of_singleton. }
  destruct IH as (p & Hp & Hall); [done|]. destruct (more_specific x p) eqn:Hx.
  - exists x. split; [left|]. intros q [->|Hq]%elem_of_cons; [apply Hirr|].
    destruct (more_specific q x) eqn:Hqx; [|done].
    pose proof (more_specific_trans _ _ _ Hqx Hx) as H. by rewrite (Hall _ Hq) in H.
  - exists p. split; [by right|]. intros q [->|Hq]%elem_of_cons; auto.
Qed.

Lemma beaten_spec ps path p :
  beaten ps path p = false ↔ ∀ q, q ∈ ps → matching q path = true → more_specific q p = false.
Proof.
  unfold beaten. rewrite <- not_true_iff_false, existsb_exists. split.
  - intros Hn q Hq Hm. destruct (more_specific q p) eqn:H; [|done]. destruct Hn. exists q.
    rewrite Hm, H. by apply list_elem_of_In in Hq.
  - intros Hall (q & Hq%list_elem_of_In & [Hm Hs]%andb_prop). by rewrite Hall in Hs.
Qed.

#[local] Instance sample_matcher_laws : PathMatcherLaws sample_matcher.
Proof.
  split; unfold best_match, sample_matcher.
  - intros ps path [Hnd Hwf] Hf%fmap_None p Hp. apply list_find_None in Hf. rewrite list.Forall_forall in Hf.
    destruct (matching p path) eqn:Hm; [|unfold matching in Hm; by destruct (matches p path)].
    destruct (unbeaten_exists (filter (λ q, matching q path = true) ps)) as (b & Hb & Hall).
    { intros Hnil. assert (Hin : p ∈ filter (λ q, matching q path = true) ps) by by apply list_elem_of_filter.
      rewrite Hnil in Hin. by apply elem_of_nil in Hin. }
    apply list_elem_of_filter in Hb as [Hmb Hb]. destruct (Hf _ Hb).
    rewrite Hmb. cbn. apply negb_true_iff, beaten_spec. intros q Hq Hmq. apply Hall. by apply list_elem_of_filter.
  - intros ps path i [Hnd Hwf] ([j p] & Hf & [= <-])%fmap_Some. apply list_find_Some in Hf as (Hi & Hp & _).
    cbn in Hi. apply andb_prop in Hp as [Hm Hbt%negb_true_iff]. rewrite beaten_spec in Hbt.
    exists p. split_and!; [done|by apply matching_spec|]. intros j' q Hj Hne Hq%matching_spec.
    rewrite list.Forall_forall in Hwf.
    destruct (more_specific_total p q path) as [H|H]; try done.
    + apply Hwf. by eapply list_elem_of_lookup_2.
    + apply Hwf. by eapply list_elem_of_lookup_2.
    + intros <-. apply Hne. by eapply NoDup_lookup.
    + rewrite Hbt in H; [done| |done]. by eapply list_elem_of_lookup_2.
Qed.

Example sample_routes :
  (router Some (λ _, 1%N) (λ _, 2%N) 3 "text" POST ["join"; "7"],
   router Some (λ _, 1%N) (λ _, 2%N) 3 "text" POST ["room"; "7"],
   router Some (λ _, 1%N) (λ _, 2%N) 3 "text" GET ["js"; "apprtc.js"]) =
  (Handled (Join (λ _, 1%N) "7"), Handled (BridgePost "room" "7" "text"), Files).
Proof. vm_compute. reflexivity. Qed.

Lemma endpoints_reach_their_handlers_witness :
  router Some (λ _, 1%N) (λ _, 2%N) 3 "text" POST ["leave"; "room"; "7"] = Handled (Leave "room" "7").
Proof.
  destruct (endpoints_reach_their_handlers Some (λ _, 1%N) (λ _, 2%N) 3 "text" "room" "7" "room" "7")
    as (_ & _ & _ & _ & Hleave & _); [discriminate|discriminate|reflexivity|reflexivity|exact Hleave].
Defined.

Lemma bridge_routing_witness :
  router Some (λ _, 1%N) (λ _, 2%N) 3 "text" POST ["join"; "7"] = Handled (Join (λ _, 1%N) "7").
Proof.
  destruct (bridge_routing Some (λ _, 1%N) (λ _, 2%N) 3 "text" "room" "7" "room" "7")
    as (_ & Hjoin & _); [discriminate|discriminate|reflexivity|reflexivity|exact Hjoin].
Defined.
End witnesses.
