(* ===== verification/WsServer.v ===== *)
(** * The browsers' WebSocket server ([src/src/ws_server.rs])

    The HTTP request head, the upgrade, and the session of one browser between
    its socket and the event loop.  Framing, TLS and the accept key are other
    crates' work. *)

From S2P Require Import Prelude Wire Driver.

Definition SOCKET_OUTPUT_CAPACITY : nat := 1024.
Definition MAX_WS_MESSAGE_SIZE : N := 1024 * 1024.

(** Durations in milliseconds. *)
Definition WS_IDLE_TIMEOUT : N := 60 * 60 * 24 * 1000.

(** ** Streams *)

(** [AsyncRead] and [AsyncWrite]: each poll changes the transport. *)
Class Transport (X : Type) : Type := {
  poll_read : nat → X → X * option (result bytes string);
  poll_write : bytes → X → X * option (result nat string);
  poll_flush : X → X * option (result unit string);
  poll_shutdown : X → X * option (result unit string);
}.

(** [Stream], over the two transports. *)
Inductive Stream (Tcp Tls : Type) := Plain (tcp : Tcp) | OverTls (tls : Tls).

Arguments Plain {Tcp Tls} _.
Arguments OverTls {Tcp Tls} _.

(** A poll of whichever transport there is. *)
Definition either {Tcp Tls R} (f : Tcp → Tcp * R) (g : Tls → Tls * R) (s : Stream Tcp Tls)
  : Stream Tcp Tls * R :=
  match s with
  | Plain tcp => let '(tcp, r) := f tcp in (Plain tcp, r)
  | OverTls tls => let '(tls, r) := g tls in (OverTls tls, r)
  end.

#[export] Instance stream_transport {Tcp Tls} `{Transport Tcp, Transport Tls} : Transport (Stream Tcp Tls) := {
  poll_read room := either (poll_read room) (poll_read room);
  poll_write buf := either (poll_write buf) (poll_write buf);
  poll_flush := either poll_flush poll_flush;
  poll_shutdown := either poll_shutdown poll_shutdown;
}.

(** ** Text

    A Rust [String] as the list of its characters' code points. *)

Abbreviation text := (list N).

(** The characters of an ASCII literal. *)
Definition chars (s : string) : text := Ascii.N_of_ascii <$> String.list_ascii_of_string s.

(** [char::REPLACEMENT_CHARACTER]. *)
Definition replacement : N := 65533.

Definition between (a n b : N) : bool := (a <=? n)%N && (n <=? b)%N.

Definition continuation (n : N) : bool := between 128 n 191.

(** The second bytes that may follow a first byte, for three and four bytes. *)
Definition second_of_three (a b : N) : bool :=
  ((a =? 224)%N && between 160 b 191) || (between 225 a 236 && continuation b)
  || ((a =? 237)%N && between 128 b 159) || (between 238 a 239 && continuation b).

Definition second_of_four (a b : N) : bool :=
  ((a =? 240)%N && between 144 b 191) || (between 241 a 243 && continuation b)
  || ((a =? 244)%N && between 128 b 143).

(** [String::from_utf8_lossy]: each longest prefix of a character that the next
    byte breaks, and each byte that starts none, becomes one replacement. *)
Fixpoint from_utf8_lossy (s : list N) : text :=
  match s with
  | [] => []
  | a :: s1 =>
      if (a <? 128)%N then a :: from_utf8_lossy s1
      else if between 194 a 223 then
        match s1 with
        | b :: s2 =>
            if continuation b then ((a - 192) * 64 + (b - 128))%N :: from_utf8_lossy s2
            else replacement :: from_utf8_lossy s1
        | [] => [replacement]
        end
      else if between 224 a 239 then
        match s1 with
        | b :: s2 =>
            if second_of_three a b then
              match s2 with
              | c :: s3 =>
                  if continuation c
                  then (((a - 224) * 64 + (b - 128)) * 64 + (c - 128))%N :: from_utf8_lossy s3
                  else replacement :: from_utf8_lossy s2
              | [] => [replacement]
              end
            else replacement :: from_utf8_lossy s1
        | [] => [replacement]
        end
      else if between 240 a 244 then
        match s1 with
        | b :: s2 =>
            if second_of_four a b then
              match s2 with
              | c :: s3 =>
                  if continuation c then
                    match s3 with
                    | d :: s4 =>
                        if continuation d
                        then ((((a - 240) * 64 + (b - 128)) * 64 + (c - 128)) * 64 + (d - 128))%N
                               :: from_utf8_lossy s4
                        else replacement :: from_utf8_lossy s3
                    | [] => [replacement]
                    end
                  else replacement :: from_utf8_lossy s2
              | [] => [replacement]
              end
            else replacement :: from_utf8_lossy s1
        | [] => [replacement]
        end
      else replacement :: from_utf8_lossy s1
  end.

(** [char::is_whitespace]. *)
Definition is_whitespace (c : N) : bool :=
  between 9 c 13 || (c =? 32)%N || (c =? 133)%N || (c =? 160)%N || (c =? 5760)%N
  || between 8192 c 8202 || (c =? 8232)%N || (c =? 8233)%N || (c =? 8239)%N || (c =? 8287)%N
  || (c =? 12288)%N.

(** [str::split] at each carriage return and line feed. *)
Fixpoint split_crlf (line s : text) : list text :=
  match s with
  | 13%N :: 10%N :: s' => line :: split_crlf [] s'
  | c :: s' => split_crlf (line ++ [c]) s'
  | [] => [line]
  end.

(** [str::split_whitespace]. *)
Fixpoint split_whitespace (word s : text) : list text :=
  match s with
  | [] => match word with [] => [] | _ => [word] end
  | c :: s' =>
      if is_whitespace c
      then match word with [] => split_whitespace [] s' | _ => word :: split_whitespace [] s' end
      else split_whitespace (word ++ [c]) s'
  end.

(** [str::trim]. *)
Fixpoint trim_start (s : text) : text :=
  match s with c :: s' => if is_whitespace c then trim_start s' else s | [] => [] end.

Definition trim (s : text) : text := rev (trim_start (rev (trim_start s))).

(** [str::split_once(':')]. *)
Fixpoint split_colon (before s : text) : option (text * text) :=
  match s with
  | [] => None
  | c :: s' => if (c =? 58)%N then Some (before, s') else split_colon (before ++ [c]) s'
  end.

Definition ascii_lower (c : N) : N := if between 65 c 90 then c + 32 else c.

(** [str::eq_ignore_ascii_case]. *)
Definition eq_ignore_ascii_case (a b : text) : bool :=
  bool_decide (ascii_lower <$> a = ascii_lower <$> b).

(** ** The request head *)

Record HttpRequest := mk_HttpRequest {
  method : text;
  path : text;
  headers : list (text * text);
}.

Fixpoint take_while {A} (p : A → bool) (l : list A) : list A :=
  match l with x :: l' => if p x then x :: take_while p l' else [] | [] => [] end.

Definition parse_header (line : text) : option (text * text) :=
  '(key, value) ← split_colon [] line;
  Some (trim key, trim value).

(** [HttpRequest::parse]. *)
Definition parse (head : list N) : HttpRequest :=
  let lines := split_crlf [] (from_utf8_lossy head) in
  let request_line := split_whitespace [] (opt_default [] (lines !! 0)) in
  mk_HttpRequest (opt_default [] (request_line !! 0)) (opt_default (chars "/") (request_line !! 1))
    (omap parse_header (take_while (λ line, negb (bool_decide (line = []))) (tail lines))).

(** [HttpRequest::header]. *)
Definition header (r : HttpRequest) (name : text) : option text :=
  match list_find (λ kv, eq_ignore_ascii_case kv.1 name = true) (headers r) with
  | Some (_, (_, v)) => Some v
  | None => None
  end.

(** The blank line that ends a head. *)
Fixpoint has_blank_line (s : list N) : bool :=
  match s with
  | [] => false
  | _ :: s' =>
      match s with
      | 13%N :: 10%N :: 13%N :: 10%N :: _ => true
      | _ => has_blank_line s'
      end
  end.

Definition MAX_HEAD : N := 64 * 1024.

(** [read_http_head]: [reads] are the results of the reads, an empty chunk being
    the end of the stream.  [None] while it waits for more; otherwise the head
    and the reads left. *)
Fixpoint read_http_head (buf : list N) (reads : list (result (list N) string))
  : option (result (list N) string * list (result (list N) string)) :=
  match reads with
  | [] => None
  | Err e :: reads => Some (Err e, reads)
  | Ok [] :: reads => Some (Err "connection closed before request head", reads)
  | Ok chunk :: reads =>
      let buf := buf ++ chunk in
      if has_blank_line buf then Some (Ok buf, reads)
      else if (N.of_nat (length buf) <=? MAX_HEAD)%N then read_http_head buf reads
      else Some (Err "request head too large", reads)
  end.

(** ** One connection *)

Definition crlf : string := String (Ascii.ascii_of_N 13) (String (Ascii.ascii_of_N 10) EmptyString).

(** [tungstenite]'s accept key of the bytes of a header. *)
Class AcceptKey : Type := derive_accept_key : text → string.

(** The text [respond] writes. *)
Definition respond (status body : string) : string :=
  "HTTP/1.1 " +:+ status +:+ crlf +:+
  "Content-Type: text/plain; charset=utf-8" +:+ crlf +:+
  "Content-Length: " +:+ show_u64 (N.of_nat (String.length body)) +:+ crlf +:+
  "Connection: close" +:+ crlf +:+ crlf +:+ body.

Definition switching_protocols (accept : string) : string :=
  "HTTP/1.1 101 Switching Protocols" +:+ crlf +:+
  "Upgrade: websocket" +:+ crlf +:+
  "Connection: Upgrade" +:+ crlf +:+
  "Sec-WebSocket-Accept: " +:+ accept +:+ crlf +:+ crlf.

(** What a request is answered with, and whether a session follows. *)
Inductive Reply := Closing (response : string) | Upgrading (response : string).

Definition is_upgrade (r : HttpRequest) : bool :=
  match header r (chars "upgrade") with
  | Some v => eq_ignore_ascii_case v (chars "websocket")
  | None => false
  end && match header r (chars "sec-websocket-key") with Some _ => true | None => false end.

(** From [let is_upgrade] on in [handle_connection]; [None] is the [unwrap] on a
    missing key. *)
Definition reply `{AcceptKey} (r : HttpRequest) : option Reply :=
  if negb (bool_decide (path r = chars "/ws") || bool_decide (path r = chars "/ws/"))
  then Some (Closing (respond "404 Not Found" "not found"))
  else if negb (is_upgrade r)
  then Some (Closing (respond "426 Upgrade Required" "upgrade required"))
  else key ← header r (chars "sec-websocket-key");
       Some (Upgrading (switching_protocols (derive_accept_key key))).

(** What the [select!] over the handshake ends with: the stop signal, the
    timeout, or the handshake with the outcome of TLS and the reads. *)
Inductive Handshake :=
  | HStopped
  | HTimedOut
  | HDone (tls : result unit string) (reads : list (result (list N) string)).

(** How a connection goes on: it ends with a result, having written a response
    or not, or it becomes a WebSocket session. *)
Inductive Fate :=
  | Ended (r : result unit string) (response : option string)
  | Session (response : string)
  | Panicked.

(** [handle_connection] up to the session; [written] is the outcome of writing
    and flushing the response.  [None] while the head is being read. *)
Definition handle_connection `{AcceptKey} (h : Handshake) (written : result unit string) : option Fate :=
  match h with
  | HStopped => Some (Ended (Ok tt) None)
  | HTimedOut => Some (Ended (Err "TLS/HTTP handshake timed out") None)
  | HDone (Err e) _ => Some (Ended (Err e) None)
  | HDone (Ok _) reads =>
      match read_http_head [] reads with
      | None => None
      | Some (Err e, _) => Some (Ended (Err e) None)
      | Some (Ok head, _) =>
          Some match reply (parse head) with
               | None => Panicked
               | Some (Closing response) => Ended written (Some response)
               | Some (Upgrading response) =>
                   match written with
                   | Ok _ => Session response
                   | Err e => Ended (Err e) (Some response)
                   end
               end
      end
  end.

(** ** One session *)

(** Frames the session writes. *)
Inductive Frame := FText (text : string) | FClose.

(** Messages the socket yields; [MEnd] is an error or the end of the stream. *)
Inductive Incoming :=
  | MText (text : string)
  | MBinary
  | MPing
  | MPong
  | MFrame
  | MClose
  | MEnd.

Section session.
Context `{C : ColliderLib}.

(** What wakes the [select!], with what the environment answers: whether the
    write, or the send to the event loop, goes through, and the clocks. *)
Inductive Event :=
  | EStop (written : bool)
  | EOutput (output : option SocketOutput) (written : bool)
  | EIncoming (m : Incoming) (accepted : bool) (now : N) (instant : Instant)
  | EIdle (now : N).

(** The deadline, the commands the event loop has been sent and the frames
    written. *)
Record WsSession := mk_WsSession {
  idle_deadline : N;
  told : list DriverCommand;
  frames : list Frame;
}.

Definition tell (s : WsSession) (sent : bool) (c : DriverCommand) : WsSession :=
  if sent then mk_WsSession (idle_deadline s) (told s ++ [c]) (frames s) else s.

Definition write (s : WsSession) (written : bool) (f : Frame) : WsSession :=
  if written then mk_WsSession (idle_deadline s) (told s) (frames s ++ [f]) else s.

Definition restart (s : WsSession) (now : N) : WsSession :=
  mk_WsSession (now + WS_IDLE_TIMEOUT) (told s) (frames s).

(** One turn of the loop of [ws_session]; the flag is false when it breaks.  The
    idle branch can only be taken once the deadline has passed. *)
Definition session_step (connection_id : ConnectionId) (s : WsSession) (e : Event) : WsSession * bool :=
  match e with
  | EStop written => (write s written FClose, false)
  | EOutput (Some (SText text)) written => (write s written (FText text), written)
  | EOutput (Some SClose) written | EOutput None written => (write s written FClose, false)
  | EIncoming (MText text) accepted now instant =>
      let s := tell s accepted (Text connection_id text instant) in
      if accepted then (restart s now, true) else (s, false)
  | EIncoming MPing _ now _ => (restart s now, true)
  | EIncoming MPong _ _ _ | EIncoming MFrame _ _ _ => (s, true)
  | EIncoming (MBinary | MClose | MEnd) _ _ _ => (s, false)
  | EIdle now => if (idle_deadline s <=? now)%N then (s, false) else (s, true)
  end.

(** The loop; the flag is true while it is still running. *)
Fixpoint session_turns (connection_id : ConnectionId) (s : WsSession) (es : list Event)
  : WsSession * bool :=
  match es with
  | [] => (s, true)
  | e :: es =>
      match session_step connection_id s e with
      | (s, true) => session_turns connection_id s es
      | (s, false) => (s, false)
      end
  end.

(** [ws_session]: [connected] and [disconnected] say whether the event loop takes
    the first and the last command. *)
Definition ws_session (connection_id : ConnectionId) (output : chan_id) (start : N)
    (connected : bool) (es : list Event) (disconnected : bool) (end_instant : Instant) : WsSession * bool :=
  let s := mk_WsSession (start + WS_IDLE_TIMEOUT) [] [] in
  if connected then
    match session_turns connection_id (tell s true (Connected connection_id output)) es with
    | (s, true) => (s, true)
    | (s, false) => (tell s disconnected (Disconnected connection_id end_instant), false)
    end
  else (s, false).

(** ** The accept loop *)

(** What wakes the [select!] of [run]. *)
Inductive AcceptEvent :=
  | AStop
  | AJoined (connection_id : ConnectionId)
  | AAccepted (accepted : bool).

(** The next id, the connections whose tasks have not been joined, and all ids
    given out, newest last. *)
Record AcceptLoop := mk_AcceptLoop {
  next_connection_id : N;
  connections : list N;
  given : list N;
}.

(** The initial state of [run]. *)
Definition new_accept_loop : AcceptLoop := mk_AcceptLoop 1 [] [].

(** One turn of [run]; the counter wraps in a release build.  A join only
    happens for a task there is. *)
Definition accept_step (s : AcceptLoop) (e : AcceptEvent) : AcceptLoop * bool :=
  match e with
  | AStop => (s, false)
  | AJoined id => (mk_AcceptLoop (next_connection_id s) (filter (λ c, c ≠ id) (connections s)) (given s), true)
  | AAccepted false => (s, true)
  | AAccepted true =>
      let connection_id := next_connection_id s in
      (mk_AcceptLoop (wrap64 (connection_id + 1)) (connections s ++ [connection_id])
         (given s ++ [connection_id]), true)
  end.

(** The loop of [run]. *)
Fixpoint accept_turns (s : AcceptLoop) (es : list AcceptEvent) : AcceptLoop * bool :=
  match es with
  | [] => (s, true)
  | e :: es =>
      match accept_step s e with
      | (s, true) => accept_turns s es
      | (s, false) => (s, false)
      end
  end.
End session.
