(* ===== verification/WsServerSpec.v ===== *)
(** * What the WebSocket server promises

    Heads are bounded and parsed back as they were sent, only well-formed
    upgrades become sessions, and a session tells the event loop of its
    connection, its texts and its end in that order. *)

From S2P Require Import Prelude Wire Samples Driver WsServer.

(** ** Reading heads *)

Definition chunk_size (r : result (list N) string) : nat :=
  match r with Ok chunk => length chunk | Err _ => 0 end.

Lemma read_http_head_ok buf reads head rest :
  has_blank_line buf = false → (N.of_nat (length buf) <= MAX_HEAD)%N → Forall (λ r, chunk_size r ≤ 1024) reads →
  read_http_head buf reads = Some (Ok head, rest) →
  has_blank_line head = true ∧ (N.of_nat (length head) <= MAX_HEAD + 1024)%N ∧
  ∃ chunks, reads = (Ok <$> chunks) ++ rest ∧ head = buf ++ concat chunks ∧
    ∀ before chunk, chunks = before ++ [chunk] → has_blank_line (buf ++ concat before) = false.
Proof.
  revert buf. induction reads as [|r reads IH]; intros buf Hb Hlen Hall Hread; [done|].
  apply list.Forall_cons in Hall as [Hr Hall]. cbn [read_http_head] in Hread.
  destruct r as [[|b chunk]|e]; try done. cbn [chunk_size] in Hr. revert Hread Hr.
  generalize (b :: chunk). clear b chunk. intros chunk Hread Hr.
  destruct (has_blank_line (buf ++ chunk)) eqn:Hbl.
  - injection Hread as <- <-. split; [done|]. rewrite length_app. split; [lia|].
    exists [chunk]. split; [done|]. cbn. rewrite app_nil_r. split; [done|].
    intros before c Heq. destruct before as [|x [|y before]]; try done. cbn. by rewrite app_nil_r.
  - destruct (N.of_nat (length (buf ++ chunk)) <=? MAX_HEAD)%N eqn:Hle; [|done]. apply N.leb_le in Hle.
    destruct (IH _ Hbl Hle Hall Hread) as (H1 & H2 & chunks & -> & -> & H3).
    split; [done|]. split; [done|]. exists (chunk :: chunks). cbn. rewrite app_assoc.
    split; [done|]. split; [done|]. intros before c Heq.
    destruct before as [|x before]; injection Heq as <- Heq; cbn; [by rewrite app_nil_r|].
    rewrite app_assoc. by eapply H3.
Qed.

Lemma read_http_head_ends buf reads :
  Forall (λ r, r ≠ Ok []) reads → (MAX_HEAD < N.of_nat (length buf + length reads))%N →
  (N.of_nat (length buf) <= MAX_HEAD)%N → is_Some (read_http_head buf reads).
Proof.
  revert buf. induction reads as [|r reads IH]; intros buf Hall Hlen Hbuf; [cbn in Hlen; lia|].
  apply list.Forall_cons in Hall as [Hr Hall]. cbn [read_http_head length] in *.
  destruct r as [[|b chunk]|e]; [done| |done]. case_match; [done|].
  destruct (_ <=? MAX_HEAD)%N eqn:Hle; [|done]. apply N.leb_le in Hle.
  apply IH; [done| |done]. rewrite length_app in *. cbn [length] in *. lia.
Qed.

(** C39: Reading a head stops within 64 KiB plus one chunk, after finitely many reads, exactly
    at the first chunk that completes a blank line; the head is the concatenation of the chunks
    read. *)
Theorem head_bounded_and_complete reads :
  Forall (λ r, r ≠ Ok [] ∧ chunk_size r ≤ 1024) reads →
  ((MAX_HEAD < N.of_nat (length reads))%N → is_Some (read_http_head [] reads)) ∧
  ∀ head rest, read_http_head [] reads = Some (Ok head, rest) →
    has_blank_line head = true ∧ (N.of_nat (length head) <= MAX_HEAD + 1024)%N ∧
    ∃ chunks, reads = (Ok <$> chunks) ++ rest ∧ head = concat chunks ∧
      ∀ before chunk, chunks = before ++ [chunk] → has_blank_line (concat before) = false.
Proof.
  intros Hall. split.
  - intros Hlen. apply read_http_head_ends; [|done|done].
    by eapply list.Forall_impl; [exact Hall|intros r [H _]].
  - intros head rest. apply (read_http_head_ok []); [done|done|].
    by eapply list.Forall_impl; [exact Hall|intros r [_ H]].
Qed.

(** ** Parsing heads *)

Definition ascii_byte (n : N) : Prop := (n < 128)%N.

(** Words of a request line: ASCII without white space. *)
Definition word_char (n : N) : Prop := ascii_byte n ∧ is_whitespace n = false.

(** Header text: ASCII without carriage returns, and no space at either end. *)
Definition header_text (t : text) : Prop :=
  Forall (λ n, ascii_byte n ∧ n ≠ 13%N) t ∧ trim t = t.

Definition well_formed (r : HttpRequest) : Prop :=
  method r ≠ [] ∧ Forall word_char (method r) ∧ path r ≠ [] ∧ Forall word_char (path r) ∧
  Forall (λ kv, header_text kv.1 ∧ header_text kv.2 ∧ 58%N ∉ kv.1) (headers r).

Definition line_end : list N := [13; 10]%N.

Definition render_header (kv : text * text) : list N := kv.1 ++ [58; 32]%N ++ kv.2.

(** A request as a client sends it. *)
Definition render_lines (r : HttpRequest) : list (list N) :=
  (method r ++ [32%N] ++ path r ++ [32%N] ++ chars "HTTP/1.1") :: (render_header <$> headers r).

Definition render (r : HttpRequest) : list N :=
  concat ((λ line, line ++ line_end) <$> render_lines r) ++ line_end.

Lemma lossy_ascii s s' : Forall ascii_byte s → from_utf8_lossy (s ++ s') = s ++ from_utf8_lossy s'.
Proof.
  induction 1 as [|a s Ha _ IH]; [done|]. cbn [app from_utf8_lossy].
  apply N.ltb_lt in Ha. by rewrite Ha, IH.
Qed.

Lemma split_crlf_cons acc c s :
  c ≠ 13%N → split_crlf acc (c :: s) = split_crlf (acc ++ [c]) s.
Proof. intros Hc. cbn [split_crlf]. repeat case_match; try done; by subst. Qed.

Lemma split_crlf_line acc line s :
  13%N ∉ line → split_crlf acc (line ++ line_end ++ s) = (acc ++ line) :: split_crlf [] s.
Proof.
  revert acc. induction line as [|c line IH]; intros acc Hn; [by rewrite app_nil_r|].
  apply not_elem_of_cons in Hn as [Hc Hn]. rewrite <- app_comm_cons, split_crlf_cons by done.
  rewrite IH by done. by rewrite <- app_assoc.
Qed.

Lemma split_crlf_lines lines s :
  Forall (λ line, 13%N ∉ line) lines →
  split_crlf [] (concat ((λ line, line ++ line_end) <$> lines) ++ s) = lines ++ split_crlf [] s.
Proof.
  induction 1 as [|line lines Hl _ IH]; [done|]. cbn [fmap list_fmap concat].
  rewrite <- !app_assoc, split_crlf_line by done. cbn. by rewrite IH.
Qed.

Lemma split_whitespace_word acc word s :
  Forall (λ n, is_whitespace n = false) word →
  split_whitespace acc (word ++ s) = split_whitespace (acc ++ word) s.
Proof.
  intros Hw. revert acc. induction Hw as [|c word Hc _ IH]; intros acc; [by rewrite app_nil_r|].
  cbn [app split_whitespace]. rewrite Hc, IH. by rewrite <- app_assoc.
Qed.

Lemma split_whitespace_two a b s :
  Forall word_char a → a ≠ [] → Forall word_char b → b ≠ [] →
  ∃ words, split_whitespace [] (a ++ [32%N] ++ b ++ [32%N] ++ s) = a :: b :: words.
Proof.
  intros Ha Hna Hb Hnb.
  assert (Hws : ∀ w, Forall word_char w → Forall (λ n, is_whitespace n = false) w).
  { intros w Hw. eapply list.Forall_impl; [exact Hw|]. by intros n [_ H]. }
  rewrite split_whitespace_word by auto. cbn [app split_whitespace]. change (is_whitespace 32) with true.
  cbn iota. destruct a as [|x a]; [done|]. rewrite split_whitespace_word by auto.
  cbn [app split_whitespace]. change (is_whitespace 32) with true. cbn iota.
  destruct b as [|y b]; [done|]. by eexists.
Qed.

Lemma split_colon_key acc key s :
  58%N ∉ key → split_colon acc (key ++ 58%N :: s) = Some (acc ++ key, s).
Proof.
  revert acc. induction key as [|c key IH]; intros acc Hn; cbn [app split_colon].
  - by rewrite app_nil_r.
  - apply not_elem_of_cons in Hn as [Hc Hn]. destruct (N.eqb_spec c 58) as [->|_]; [done|].
    rewrite IH by done. by rewrite <- app_assoc.
Qed.

Lemma parse_render_header kv :
  header_text kv.1 → header_text kv.2 → 58%N ∉ kv.1 → parse_header (render_header kv) = Some kv.
Proof.
  destruct kv as [k v]. cbn [fst snd]. intros [_ Hk] [_ Hv] Hcolon. unfold parse_header, render_header. cbn [fst snd app].
  rewrite split_colon_key by done. cbn [mbind option_bind app]. rewrite Hk.
  replace (trim (32%N :: v)) with (trim v) by done. by rewrite Hv.
Qed.

Lemma word_char_no_cr w : Forall word_char w → 13%N ∉ w.
Proof. intros Hw Hin. rewrite list.Forall_forall in Hw. by destruct (Hw _ Hin) as [_ H]. Qed.

Lemma header_text_no_cr t : header_text t → 13%N ∉ t.
Proof. intros [Ht _] Hin. rewrite list.Forall_forall in Ht. by destruct (Ht _ Hin) as [_ H]. Qed.

Lemma render_lines_no_cr r : well_formed r → Forall (λ line, 13%N ∉ line) (render_lines r).
Proof.
  intros (_ & Hm & _ & Hp & Hh). unfold render_lines. constructor.
  - apply word_char_no_cr in Hm, Hp. rewrite !not_elem_of_app. repeat split; try done.
    all: intros H; vm_compute in H; repeat (apply elem_of_cons in H as [H|H]; [done|]);
      by apply elem_of_nil in H.
  - rewrite list.Forall_fmap. eapply list.Forall_impl; [exact Hh|]. intros [k v] (Hk & Hv & _). cbn in *.
    apply header_text_no_cr in Hk, Hv. unfold render_header. cbn.
    rewrite !not_elem_of_app, !not_elem_of_cons. done.
Qed.

Lemma render_lines_ascii r : well_formed r → Forall ascii_byte (render r).
Proof.
  intros (_ & Hm & _ & Hp & Hh). unfold render. apply Forall_app. split; [|by repeat constructor].
  rewrite Forall_concat, list.Forall_fmap.
  assert (Hend : ∀ line, Forall ascii_byte line → Forall ascii_byte (line ++ line_end)).
  { intros line Hl. apply Forall_app. split; [done|]. by repeat constructor. }
  assert (Hw : ∀ w, Forall word_char w → Forall ascii_byte w).
  { intros w Hw. eapply list.Forall_impl; [exact Hw|]. by intros n [H _]. }
  assert (Ht : ∀ t, header_text t → Forall ascii_byte t).
  { intros t [H _]. eapply list.Forall_impl; [exact H|]. by intros n [? _]. }
  constructor.
  - apply Hend. rewrite !Forall_app. repeat split; auto; by repeat constructor.
  - rewrite list.Forall_fmap. eapply list.Forall_impl; [exact Hh|]. intros [k v] (Hk & Hv & _). apply Hend.
    unfold render_header. rewrite !Forall_app. repeat split; auto; by repeat constructor.
Qed.

Lemma take_while_headers kvs rest :
  take_while (λ line, negb (bool_decide (line = []))) ((render_header <$> kvs) ++ [] :: rest) =
    render_header <$> kvs.
Proof.
  induction kvs as [|[k v] kvs IH]; [done|]. cbn [fmap list_fmap app take_while].
  rewrite bool_decide_eq_false_2; [by rewrite IH|]. unfold render_header. cbn. by destruct k.
Qed.

(** C38: A request head written by a client in the standard form parses to the request it was
    written from, whatever bytes follow the blank line. *)
Theorem parse_render r body : well_formed r → parse (render r ++ body) = r.
Proof.
  intros Hwf. unfold parse. rewrite lossy_ascii by by apply render_lines_ascii.
  unfold render. rewrite <- app_assoc, split_crlf_lines by by apply render_lines_no_cr.
  change (split_crlf [] (line_end ++ ?x)) with ([] :: split_crlf [] x).
  destruct Hwf as (Hnm & Hm & Hnp & Hp & Hh). unfold render_lines. cbn [app lookup list_lookup opt_default tail].
  destruct (split_whitespace_two (method r) (path r) (chars "HTTP/1.1") Hm Hnm Hp Hnp) as [words Hwords].
  cbn [app] in Hwords. rewrite Hwords. cbn [lookup list_lookup opt_default]. rewrite take_while_headers.
  destruct r as [m p hs]. cbn in *. f_equal. clear -Hh.
  induction Hh as [|kv hs (Hk & Hv & Hc) _ IH]; [done|]. cbn [fmap list_fmap omap list_omap].
  rewrite parse_render_header by done. by rewrite IH.
Qed.

(** ** Who becomes a session *)

(** The upgrade requests the server takes. *)
Definition upgrades (r : HttpRequest) (key : text) : Prop :=
  (path r = chars "/ws" ∨ path r = chars "/ws/") ∧
  (∃ v, header r (chars "upgrade") = Some v ∧ eq_ignore_ascii_case v (chars "websocket") = true) ∧
  header r (chars "sec-websocket-key") = Some key.

Section fates.
Context `{K : AcceptKey}.

Lemma reply_cases r :
  (∃ key, upgrades r key ∧ reply r = Some (Upgrading (switching_protocols (derive_accept_key key)))) ∨
  ((∀ key, ¬ upgrades r key) ∧
   reply r = Some (Closing (if bool_decide (path r = chars "/ws" ∨ path r = chars "/ws/")
                            then respond "426 Upgrade Required" "upgrade required"
                            else respond "404 Not Found" "not found"))).
Proof.
  unfold reply. rewrite <- bool_decide_or. case_bool_decide as Hpath; cbn [negb].
  - unfold is_upgrade. destruct (header r (chars "upgrade")) as [v|] eqn:Hv.
    + destruct (eq_ignore_ascii_case v (chars "websocket")) eqn:Heq; cbn [andb].
      * destruct (header r (chars "sec-websocket-key")) as [key|] eqn:Hkey; cbn [negb].
        -- left. exists key. split; [|done]. split; [done|]. eauto.
        -- right. split; [|done]. intros key (_ & _ & H). congruence.
      * right. split; [|done]. intros key (_ & (v' & H1 & H2) & _). congruence.
    + right. split; [|done]. intros key (_ & (v' & H1 & _) & _). congruence.
  - right. split; [|done]. by intros key (H & _).
Qed.

(** A connection becomes a session exactly when its head arrived in time, asks for [/ws] with an
    upgrade to [websocket] and a key, and the answer could be written; the [unwrap] on the key
    never panics. *)
Theorem sessions_are_upgrades h written :
  handle_connection h written ≠ Some Panicked ∧
  ∀ response, handle_connection h written = Some (Session response) ↔
    ∃ reads head rest key,
      h = HDone (Ok tt) reads ∧ read_http_head [] reads = Some (Ok head, rest) ∧
      upgrades (parse head) key ∧ written = Ok tt ∧
      response = switching_protocols (derive_accept_key key).
Proof.
  destruct h as [| |[[]|e] reads]; cbn [handle_connection];
    try (split; [done|]; intros response; split; [done|]; intros (? & ? & ? & ? & ? & ?); done).
  destruct (read_http_head [] reads) as [[[head|e] rest]|] eqn:Hread.
  2, 3: split; [done|]; intros response; split; [done|];
    intros (reads' & head' & rest' & key & [= <-] & Hr & _); congruence.
  destruct (reply_cases (parse head)) as [(key & Hup & ->)|[Hno ->]].
  - split; [by destruct written|]. intros response. split.
    + destruct written as [[]|e]; [|done]. intros [= <-]. by exists reads, head, rest, key.
    + intros (reads' & head' & rest' & key' & [= <-] & Hr & (_ & _ & Hk') & -> & ->).
      destruct Hup as (_ & _ & Hk). rewrite Hread in Hr. simplify_eq. congruence.
  - split; [done|]. intros response. split; [done|].
    intros (reads' & head' & rest' & key' & [= <-] & Hr & Hup & _).
    rewrite Hread in Hr. simplify_eq. by destruct (Hno key').
Qed.
End fates.

(** ** Sessions *)

Section sessions.
Context `{C : ColliderLib}.
Implicit Types (s : WsSession) (e : Event) (id : ConnectionId).

(** The command a processed event sends to the event loop. *)
Definition text_of id e : option DriverCommand :=
  match e with
  | EIncoming (MText text) true _ instant => Some (Text id text instant)
  | _ => None
  end.

(** The frame a processed event writes to the browser. *)
Definition frame_of e : option Frame :=
  match e with
  | EOutput (Some (SText text)) true => Some (FText text)
  | EStop true | EOutput (Some SClose) true | EOutput None true => Some FClose
  | _ => None
  end.

(** The clock at an event that restarts the idle deadline. *)
Definition activity e : option N :=
  match e with
  | EIncoming (MText _) true now _ | EIncoming MPing _ now _ => Some now
  | _ => None
  end.

Definition last_activity (start : N) (es : list Event) : N := opt_default start (list.last (omap activity es)).

Lemma session_step_effects id s e s' b :
  session_step id s e = (s', b) →
  told s' = told s ++ option_list (text_of id e) ∧ frames s' = frames s ++ option_list (frame_of e) ∧
  idle_deadline s' = match activity e with Some now => (now + WS_IDLE_TIMEOUT)%N | None => idle_deadline s end ∧
  (frame_of e = Some FClose → b = false).
Proof.
  destruct e as [[]|[[text|]|] []|m accepted now instant|now]; cbn; intros Hs; simplify_eq/=.
  9: destruct m, accepted; simplify_eq/=.
  all: try case_match; simplify_eq/=; by rewrite ?app_nil_r.
Qed.

Lemma session_turns_effects id s es s' b :
  session_turns id s es = (s', b) →
  ∃ done rest, es = done ++ rest ∧
    told s' = told s ++ omap (text_of id) done ∧ frames s' = frames s ++ omap frame_of done ∧
    idle_deadline s' =
      match list.last (omap activity done) with Some now => (now + WS_IDLE_TIMEOUT)%N | None => idle_deadline s end ∧
    (b = true → rest = []) ∧
    (∀ before e after, done = before ++ e :: after → frame_of e = Some FClose → b = false ∧ after = []).
Proof.
  revert s. induction es as [|e es IH]; intros s Hrun; cbn [session_turns] in Hrun.
  - injection Hrun as <- <-. exists [], []. cbn. rewrite !app_nil_r. split_and!; try done.
    intros before e after Hb. by destruct before.
  - destruct (session_step id s e) as [s1 b1] eqn:Hstep.
    destruct (session_step_effects _ _ _ _ _ Hstep) as (Ht & Hf & Hd & Hc). destruct b1.
    + destruct (IH _ Hrun) as (done & rest & -> & Ht' & Hf' & Hd' & Hr & Hclose).
      exists (e :: done), rest. split; [done|]. rewrite Ht', Hf', Ht, Hf, Hd', Hd, <- !app_assoc.
      cbn [omap list_omap]. split; [by destruct (text_of id e)|]. split; [by destruct (frame_of e)|].
      split.
      { destruct (activity e) as [now|]; [|done]. rewrite list.last_cons. by destruct (list.last _). }
      split; [done|]. intros before x after Heq Hx. destruct before as [|y before]; injection Heq as -> Heq.
      * by specialize (Hc Hx).
      * by eapply Hclose.
    + injection Hrun as <- <-. exists [e], es. rewrite Ht, Hf, Hd. cbn [omap list_omap].
      split; [done|]. split; [by destruct (text_of id e)|]. split; [by destruct (frame_of e)|].
      split; [by destruct (activity e)|]. split; [done|].
      intros before x after Heq _. destruct before as [|y [|]]; by injection Heq.
Qed.

(** The commands of a session, for its clients. *)
Lemma ws_session_told id output start es last_sent instant s alive :
  ws_session id output start true es last_sent instant = (s, alive) →
  ∃ processed, told s = Connected id output :: omap (text_of id) processed ++
                 (if alive || negb last_sent then [] else [Disconnected id instant]).
Proof.
  unfold ws_session. cbn [tell]. destruct (session_turns _ _ es) as [s1 b] eqn:Hrun.
  destruct (session_turns_effects _ _ _ _ _ Hrun) as (done & rest & _ & Ht & _). cbn in Ht.
  intros Hs. exists done. destruct b; [|destruct last_sent]; simplify_eq/=; rewrite Ht; cbn; by rewrite ?app_nil_r.
Qed.

(** C22: A browser's session tells the event loop of its connection first, then each text in
    order, then of its end exactly once when it ends; it writes the event loop's texts in order
    and nothing after a close frame; and its idle deadline always counts from the last text or
    ping. *)
Theorem session_reports_its_life id output start es last_sent instant s alive :
  ws_session id output start true es last_sent instant = (s, alive) →
  ∃ processed rest, es = processed ++ rest ∧ (alive = true → rest = []) ∧
    told s = Connected id output :: omap (text_of id) processed ++
               (if alive || negb last_sent then [] else [Disconnected id instant]) ∧
    frames s = omap frame_of processed ∧
    idle_deadline s = (last_activity start processed + WS_IDLE_TIMEOUT)%N ∧
    (FClose ∈ frames s → alive = false ∧ ∃ texts, frames s = (FText <$> texts) ++ [FClose]).
Proof.
  unfold ws_session. cbn [tell]. destruct (session_turns _ _ es) as [s1 b] eqn:Hrun.
  destruct (session_turns_effects _ _ _ _ _ Hrun) as (done & rest & -> & Ht & Hf & Hd & Hr & Hclose).
  cbn in Ht, Hf, Hd. intros Hs.
  assert (Hsame : frames s = frames s1 ∧ idle_deadline s = idle_deadline s1 ∧ alive = b).
  { destruct b; [by simplify_eq|]. destruct last_sent; by simplify_eq/=. }
  destruct Hsame as (Hfs & Hds & ->). exists done, rest. split; [done|]. split; [done|].
  rewrite Hfs, Hds, Hf. split_and!; [|done| |].
  - destruct b; [|destruct last_sent]; simplify_eq/=; rewrite Ht; cbn; by rewrite ?app_nil_r.
  - rewrite Hd. unfold last_activity. by destruct (list.last _).
  - intros Hin. apply list_elem_of_omap in Hin as (e & He & Hx).
    apply list_elem_of_split in He as (before & after & ->).
    destruct (Hclose before e after eq_refl Hx) as [-> ->]. split; [done|].
    rewrite omap_app. cbn. rewrite Hx.
    assert (Hno : ∀ y, y ∈ before → frame_of y ≠ Some FClose).
    { intros y Hy Hfy. apply list_elem_of_split in Hy as (b1 & b2 & ->).
      rewrite <- app_assoc in Hclose. destruct (Hclose b1 y (b2 ++ [e]) eq_refl Hfy) as [_ Hb].
      by destruct b2. }
    clear -Hno. induction before as [|y before IH]; [by exists []|].
    destruct IH as [texts Htexts]; [intros z Hz; apply Hno; by right|].
    assert (Hy := Hno y ltac:(by left)). cbn [omap list_omap app].
    destruct (frame_of y) as [[t|]|]; [exists (t :: texts)|done|exists texts]; cbn; by rewrite Htexts.
Qed.

Lemma session_turns_app id s es es' :
  session_turns id s (es ++ es') =
    match session_turns id s es with
    | (s', true) => session_turns id s' es'
    | (s', false) => (s', false)
    end.
Proof.
  revert s. induction es as [|e es IH]; intros s; [done|]. cbn [app session_turns].
  destruct (session_step id s e) as [s' []]; [apply IH|done].
Qed.

(** A session in which nothing happened for the idle timeout ends when its deadline fires. *)
Theorem idle_sessions_end id output start es now rest last_sent instant :
  (last_activity start es + WS_IDLE_TIMEOUT <= now)%N →
  ∃ s, ws_session id output start true (es ++ EIdle now :: rest) last_sent instant = (s, false).
Proof.
  intros Hnow. unfold ws_session. cbn [tell]. rewrite session_turns_app.
  destruct (session_turns id _ es) as [s1 b] eqn:Hrun. destruct b; [|by eexists].
  destruct (session_turns_effects _ _ _ _ _ Hrun) as (done & rest' & -> & _ & _ & Hd & Hr & _).
  rewrite Hr, app_nil_r in Hnow by done. cbn [session_turns session_step idle_deadline] in *.
  replace (idle_deadline s1) with (last_activity start done + WS_IDLE_TIMEOUT)%N.
  - apply N.leb_le in Hnow. rewrite Hnow. by eexists.
  - rewrite Hd. unfold last_activity. by destruct (list.last _).
Qed.
End sessions.

(** ** Ids of connections *)

(** The ids the loop has given out are [1], [2], ... up to the counter. *)
Definition numbered_from_one (s : AcceptLoop) : Prop :=
  given s = (λ i, wrap64 (1 + N.of_nat i)) <$> seq 0 (length (given s)) ∧
  next_connection_id s = wrap64 (1 + N.of_nat (length (given s))).

Lemma accept_step_numbered s e s' b :
  numbered_from_one s → accept_step s e = (s', b) → numbered_from_one s'.
Proof.
  intros [Hg Hn] Hstep. destruct e as [|id|[]]; cbn in Hstep; simplify_eq; [done..| |done].
  split; cbn.
  - rewrite length_app, seq_app, fmap_app, <- Hg. cbn. by rewrite Hn.
  - rewrite Hn, length_app. cbn. unfold wrap64. rewrite N.Div0.add_mod_idemp_l. f_equal. lia.
Qed.

Lemma accept_turns_numbered s es s' b :
  numbered_from_one s → accept_turns s es = (s', b) → numbered_from_one s'.
Proof.
  revert s. induction es as [|e es IH]; intros s Hs Hrun; cbn in Hrun; [by simplify_eq|].
  destruct (accept_step s e) as [s1 []] eqn:Hstep; [|simplify_eq]; eauto using accept_step_numbered.
Qed.

Lemma accept_turns_live s es s' b :
  connections s ⊆ given s → accept_turns s es = (s', b) → connections s' ⊆ given s'.
Proof.
  revert s. induction es as [|e es IH]; intros s Hs Hrun; cbn in Hrun; [by simplify_eq|].
  destruct e as [|id|[]]; cbn in Hrun.
  - by simplify_eq.
  - eapply IH; [|exact Hrun]. cbn. intros x Hx. apply list_elem_of_filter in Hx as [_ Hx]. auto.
  - eapply IH; [|exact Hrun]. cbn. set_solver.
  - by eapply IH.
Qed.

(** The ids the accept loop gives out are consecutive from one, and distinct for the first 2^64
    connections. *)
Theorem connection_ids_unique es s b :
  accept_turns new_accept_loop es = (s, b) → (N.of_nat (length (given s)) <= u64_modulus)%N →
  NoDup (given s) ∧ connections s ⊆ given s ∧
  ∀ i id, given s !! i = Some id → id = wrap64 (1 + N.of_nat i).
Proof.
  intros Hrun Hlen.
  assert (Hnew : numbered_from_one new_accept_loop) by (split; reflexivity).
  destruct (accept_turns_numbered _ _ _ _ Hnew Hrun) as [Hg _].
  split_and!.
  - rewrite Hg. apply NoDup_fmap_2_strong; [|apply NoDup_seq].
    intros i j Hi Hj. rewrite !elem_of_seq in *. unfold wrap64. intros Heq.
    apply (f_equal (λ n, n mod u64_modulus)%N) in Heq.
    assert (Hdec : ∀ k, (N.of_nat k < u64_modulus)%N →
      (((1 + N.of_nat k) mod u64_modulus + (u64_modulus - 1)) mod u64_modulus = N.of_nat k)%N).
    { intros k Hk. rewrite N.Div0.add_mod_idemp_l.
      replace (1 + N.of_nat k + (u64_modulus - 1))%N with (N.of_nat k + 1 * u64_modulus)%N by lia.
      rewrite N.Div0.mod_add. by apply N.mod_small. }
    rewrite !N.Div0.mod_mod in Heq. apply Nat2N.inj.
    rewrite <- (Hdec i), <- (Hdec j), Heq by lia. done.
  - eapply accept_turns_live; [|exact Hrun]. done.
  - intros i id Hi. rewrite Hg in Hi. apply list_lookup_fmap_Some in Hi as (k & -> & Hk).
    apply lookup_seq in Hk as [-> _]. done.
Qed.

(** ** Witnesses *)

Definition sample_request : HttpRequest :=
  mk_HttpRequest (chars "GET") (chars "/ws")
    [(chars "Host", chars "apprtc.example"); (chars "Upgrade", chars "WebSocket");
     (chars "Sec-WebSocket-Key", chars "a2V5")].

#[local] Instance sample_accept_key : AcceptKey := λ key, show_u64 (N.of_nat (length key)).

#[local] Instance header_text_dec t : Decision (header_text t).
Proof. unfold header_text, ascii_byte. apply _. Defined.

#[local] Instance word_char_dec n : Decision (word_char n).
Proof. unfold word_char, ascii_byte. apply _. Defined.

Lemma sample_well_formed : well_formed sample_request.
Proof.
  assert (Hw : bool_decide (Forall word_char (chars "GET") ∧ Forall word_char (chars "/ws") ∧
    Forall (λ kv, header_text kv.1 ∧ header_text kv.2 ∧ 58%N ∉ kv.1) (headers sample_request)) = true)
    by (vm_compute; reflexivity).
  apply bool_decide_eq_true in Hw as (Hm & Hp & Hh). by split_and!.
Qed.

Lemma parse_render_witness :
  parse (render sample_request ++ [255; 13; 10]%N) = sample_request.
Proof. apply parse_render. apply sample_well_formed. Defined.

(** A head cut in two reads, the second holding more than the head. *)
Definition sample_reads : list (result (list N) string) :=
  [Ok (chars "GET /ws HTTP/1.1"); Ok [13; 10; 13]%N; Ok [10; 1]%N; Err "reset"].

Lemma head_bounded_and_complete_witness : ∃ head rest,
  read_http_head [] sample_reads = Some (Ok head, rest) ∧ has_blank_line head = true ∧
  ∃ chunks, sample_reads = (Ok <$> chunks) ++ rest ∧ head = concat chunks.
Proof.
  assert (Hs : ∃ head rest, read_http_head [] sample_reads = Some (Ok head, rest))
    by (eexists _, _; vm_compute; reflexivity).
  destruct Hs as (head & rest & Hs). exists head, rest. split; [exact Hs|].
  destruct (head_bounded_and_complete sample_reads) as [_ H].
  - repeat constructor; try done; vm_compute; lia.
  - destruct (H _ _ Hs) as (H1 & _ & chunks & H2 & H3 & _). eauto.
Defined.

Lemma connection_ids_unique_witness :
  ∃ s, accept_turns new_accept_loop [AAccepted true; AJoined 1; AAccepted false; AAccepted true] = (s, true) ∧
    given s = [1; 2]%N ∧ NoDup (given s).
Proof.
  eexists. split; [vm_compute; reflexivity|]. split; [reflexivity|].
  apply (connection_ids_unique [AAccepted true; AJoined 1; AAccepted false; AAccepted true] _ true);
    [vm_compute; reflexivity|vm_compute; done].
Defined.

(** A session that takes two texts, delivers one, and is stopped. *)
Definition sample_events : list Event :=
  [EIncoming (MText "register") true 10 0%N; EOutput (Some (SText "hello")) true;
   EIncoming MPing true 20 0%N; EIncoming (MText "bye") true 30 0%N; EStop true; EIdle 40].

Lemma session_reports_its_life_witness :
  ∃ s, ws_session 7 0 0 true sample_events true 0%N = (s, false) ∧
    frames s = [FText "hello"; FClose] ∧
    ∃ processed rest, sample_events = processed ++ rest ∧
      told s = Connected 7 0 :: omap (text_of 7) processed ++ [Disconnected 7 0%N].
Proof.
  eexists. split; [reflexivity|]. split; [reflexivity|].
  destruct (session_reports_its_life 7 0 0 sample_events true 0%N _ false eq_refl)
    as (processed & rest & H1 & _ & H2 & _).
  by exists processed, rest.
Defined.

Lemma idle_sessions_end_witness :
  ∃ s, ws_session 7 0 0 true
         ([EIncoming MPing true 20 0%N] ++ EIdle (20 + WS_IDLE_TIMEOUT) :: []) true 0%N = (s, false).
Proof. apply (idle_sessions_end). vm_compute. done. Defined.
