(* ===== verification/Transport.v ===== *)
(** * Browser sessions and the event loop together

    The commands of [ws_server.rs] as [signaling_server.rs] handles them: which
    sockets the event loop knows follows from what the sessions told it. *)

From S2P Require Import Prelude Wire Samples Driver WsServer WsServerSpec.

Section transport.
Context `{C : ColliderLib}.
Implicit Types (d : Driver) (c : DriverCommand) (i : ConnectionId).

(** ** What the sessions say of a connection *)

(** The commands that open and close a connection, and all that concern it. *)
Definition about i c : bool :=
  match c with Connected j _ | Disconnected j _ => (j =? i)%N | _ => false end.

Definition concerns i c : bool :=
  match c with Text j _ _ => (j =? i)%N | _ => about i c end.

Definition last_word i (cs : list DriverCommand) : option DriverCommand :=
  list.last (filter (λ c, about i c = true) cs).

Definition wakeup_command (w : Wakeup) : list DriverCommand :=
  match w with Command (Some c) => [c] | _ => [] end.

(** Every socket the loop knows was opened by the last word on its connection. *)
Definition sockets_explained (cs : list DriverCommand) d : Prop :=
  ∀ i ch, sockets d !! i = Some ch → last_word i cs = Some (Connected i ch).

Lemma last_word_snoc i cs c :
  last_word i (cs ++ [c]) = if about i c then Some c else last_word i cs.
Proof.
  unfold last_word. rewrite list.filter_app, filter_cons, filter_nil.
  destruct (about i c); [by rewrite decide_True, list.last_snoc|].
  by rewrite decide_False, app_nil_r.
Qed.

(** ** Only a connection adds a socket *)

Lemma explained_shrink cs d d' : sockets d' ⊆ sockets d → sockets_explained cs d → sockets_explained cs d'.
Proof. intros Hsub Hd i ch Hi. apply Hd. by eapply lookup_weaken. Qed.

Lemma explained_other cs d c :
  (∀ i, about i c = false) → sockets_explained cs d → sockets_explained (cs ++ [c]) d.
Proof. intros Hc Hd i ch Hi. rewrite last_word_snoc, Hc. by apply Hd. Qed.

Lemma send_socket_sockets d ch out : sockets (send_socket d ch out).1 = sockets d.
Proof. unfold send_socket. by destruct (try_send _ _ _). Qed.

Lemma send_sfu_sockets d ch out : sockets (send_sfu d ch out).1 = sockets d.
Proof. unfold send_sfu. by destruct (try_send _ _ _). Qed.

Lemma handle_command_explained cs d c :
  sockets_explained cs d → sockets_explained (cs ++ [c]) (handle_command d c).
Proof.
  intros Hd. destruct c as [i output|i text now|command response|input output|input|i now]; cbn.
  - destruct (handle_read _ _) as [c' r]. cbn. intros j ch. rewrite last_word_snoc. cbn.
    destruct (N.eqb_spec i j) as [<-|Hne].
    + destruct (is_ok r); cbn; [by rewrite lookup_insert_eq; intros [= ->]|by rewrite lookup_delete_eq].
    + destruct (is_ok r); cbn; [|rewrite lookup_delete_ne by done]; rewrite lookup_insert_ne by done; apply Hd.
  - destruct (handle_read _ _) as [c' r]. apply explained_other; [done|].
    destruct (is_ok r); [exact Hd|]. cbn. destruct (sockets d !! i); [|exact Hd].
    eapply explained_shrink; [|exact Hd]. rewrite send_socket_sockets. cbn. apply delete_subseteq.
  - destruct (handle_write _ _) as [c' r]. apply explained_other; [done|]. cbn.
    destruct (is_ok r); [exact Hd|]. by case_match.
  - apply explained_other; [done|]. destruct (register_connection_id input); [|exact Hd].
    destruct (handle_sfu_input _ _) as [c' r]. by destruct (is_ok r).
  - by apply explained_other.
  - intros j ch. rewrite last_word_snoc. cbn. destruct (N.eqb_spec i j) as [<-|Hne].
    + by rewrite lookup_delete_eq.
    + rewrite lookup_delete_ne by done. apply Hd.
Qed.

Lemma route_output_sockets d o : sockets (route_output d o).1 ⊆ sockets d.
Proof.
  destruct o as [i text|i|output]; cbn.
  - destruct (sockets d !! i); [|done]. pose proof (send_socket_sockets d c (SText text)) as Hs.
    destruct (send_socket _ _ _) as [d' []]; cbn in *; by rewrite Hs.
  - destruct (sockets d !! i); [|done]. rewrite send_socket_sockets. apply delete_subseteq.
  - destruct (sfu_sessions d !! _); [|done]. pose proof (send_sfu_sockets d c output) as Hs.
    destruct (send_sfu _ _ _) as [d' []]; cbn in *; by rewrite Hs.
Qed.

Lemma drain_writes_sockets fuel d gone d' gone' :
  drain_writes fuel d gone = Some (d', gone') → sockets d' ⊆ sockets d.
Proof.
  revert d gone. induction fuel as [|fuel IH]; intros d gone Hrun; [done|]. cbn in Hrun.
  destruct (Wire.poll_write (d_collider d)) as [[o|] c].
  - pose proof (route_output_sockets (with_collider d c) o) as Hr.
    destruct (route_output _ o) as [d1 g]. apply IH in Hrun. by etrans.
  - by simplify_eq.
Qed.

Lemma disconnects_sockets clock l d : sockets (foldl (disconnect_one clock) d l) ⊆ sockets d.
Proof.
  revert d. induction l as [|i l IH]; intros d; [done|]. cbn [foldl]. etrans; [apply IH|]. cbn.
  apply delete_subseteq.
Qed.

Lemma drain_authority_sockets fuel d d' :
  drain_authority_responses fuel d = Some d' → sockets d' = sockets d.
Proof.
  revert d. induction fuel as [|fuel IH]; intros d Hrun; [done|]. cbn in Hrun.
  destruct (poll_event (d_collider d)) as [[r|] c]; [|by simplify_eq].
  case_match; by apply IH in Hrun.
Qed.

Lemma drain_sockets fuel clock d d' : drain fuel clock d = Some d' → sockets d' ⊆ sockets d.
Proof.
  unfold drain, drain_outputs. destruct (drain_writes fuel d []) as [[d1 gone]|] eqn:Hw; [|done].
  intros ->%drain_authority_sockets. etrans; [apply disconnects_sockets|].
  by eapply drain_writes_sockets.
Qed.

(** ** The whole run *)

Lemma loop_body_explained fuel clock cs d w d' b :
  sockets_explained cs d → loop_body fuel clock d w = Some (d', b) →
  (b = false ∧ sockets_explained cs d') ∨ (b = true ∧ sockets_explained (cs ++ wakeup_command w) d').
Proof.
  intros Hd. destruct w as [|[c|]|now]; cbn.
  - intros [= <- <-]. by left.
  - destruct (drain _ _ _) as [d1|] eqn:Hdr; [|done]. intros [= <- <-]. right. split; [done|].
    eapply explained_shrink; [by eapply drain_sockets|]. by apply handle_command_explained.
  - intros [= <- <-]. by left.
  - rewrite app_nil_r. destruct (poll_timeout _); [|intros [= <- <-]; by right].
    destruct (handle_timeout _ _) as [c r]. destruct (is_ok r); [|intros [= <- <-]; by left].
    destruct (drain _ _ _) as [d1|] eqn:Hdr; [|done]. intros [= <- <-]. right. split; [done|].
    eapply explained_shrink; [by eapply drain_sockets|]. done.
Qed.

(** The wake-ups that the loop gets through, the one that breaks it left out. *)
Fixpoint completed (fuel : nat) (clock : ConnectionId → Instant) d (ws : list Wakeup) : list Wakeup :=
  match ws with
  | [] => []
  | w :: ws' =>
      match loop_body fuel clock d w with
      | Some (d', true) => w :: completed fuel clock d' ws'
      | _ => []
      end
  end.

(** A command never breaks the loop. *)
Definition may_break (w : Wakeup) : bool := match w with Command (Some _) => false | _ => true end.

Lemma loop_body_breaks fuel clock d w d' : loop_body fuel clock d w = Some (d', false) → may_break w = true.
Proof. destruct w as [|[c|]|now]; cbn; try done. by destruct (drain _ _ _). Qed.

Lemma event_loop_completed fuel clock d ws d' :
  event_loop fuel clock d ws = Some d' →
  ws = completed fuel clock d ws ∨
  ∃ w rest, ws = completed fuel clock d ws ++ w :: rest ∧ may_break w = true.
Proof.
  revert d. induction ws as [|w ws IH]; intros d; cbn [event_loop completed]; [by left|].
  destruct (loop_body fuel clock d w) as [[d1 []]|] eqn:Hbody; [| |done].
  - intros [Heq|(w' & rest & Heq & Hw)]%IH; [left; by rewrite <- Heq|right].
    exists w', rest. split; [cbn; by rewrite <- Heq|done].
  - intros _. right. exists w, ws. split; [done|]. by eapply loop_body_breaks.
Qed.

Lemma event_loop_explained fuel clock cs d ws d' :
  sockets_explained cs d → event_loop fuel clock d ws = Some d' →
  sockets_explained (cs ++ (completed fuel clock d ws ≫= wakeup_command)) d'.
Proof.
  revert cs d. induction ws as [|w ws IH]; intros cs d Hd Hrun; cbn in Hrun |- *.
  - simplify_eq. by rewrite app_nil_r.
  - destruct (loop_body fuel clock d w) as [[d1 b]|] eqn:Hbody; [|done].
    destruct (loop_body_explained _ _ _ _ _ _ _ Hd Hbody) as [[-> H1]|[-> H1]].
    + simplify_eq. cbn. by rewrite app_nil_r.
    + specialize (IH _ _ H1 Hrun). cbn. by rewrite app_assoc.
Qed.

Lemma handle_commands_explained cs d queued :
  sockets_explained cs d → sockets_explained (cs ++ queued) (foldl handle_command d queued).
Proof.
  revert cs d. induction queued as [|c queued IH]; intros cs d Hd; [by rewrite app_nil_r|].
  cbn [foldl]. replace (cs ++ c :: queued) with ((cs ++ [c]) ++ queued) by by rewrite <- app_assoc.
  by apply IH, handle_command_explained.
Qed.

Lemma new_driver_explained timeout dwell socks sfus : sockets_explained [] (new_driver timeout dwell socks sfus).
Proof. intros i ch Hi. cbn in Hi. by rewrite lookup_empty in Hi. Qed.

Lemma run_explained fuel clock timeout dwell socks sfus ws queued d :
  run fuel clock timeout dwell socks sfus ws queued = Some d →
  sockets_explained
    ((completed fuel clock (new_driver timeout dwell socks sfus) ws ≫= wakeup_command) ++ queued) d.
Proof.
  unfold run. destruct (event_loop _ _ _ _) as [d1|] eqn:Hloop; [|done].
  apply (event_loop_explained _ _ []) in Hloop; [|apply new_driver_explained].
  intros Hstop. unfold graceful_stop in Hstop.
  eapply explained_shrink; [by eapply drain_sockets|]. cbn. by apply handle_commands_explained.
Qed.

(** ** Sessions *)

Lemma filter_about i (cs : list DriverCommand) :
  filter (λ c, about i c = true) (filter (λ c, concerns i c = true) cs) = filter (λ c, about i c = true) cs.
Proof.
  induction cs as [|c cs IH]; [done|]. rewrite !filter_cons.
  destruct (concerns i c) eqn:Hc; [rewrite decide_True by done; rewrite filter_cons; by rewrite IH|].
  rewrite (decide_False (P := false = true)) by done. rewrite decide_False; [done|].
  destruct c; cbn in *; congruence.
Qed.

(** All a finished session says of its connection ends with its disconnection. *)
Lemma session_over i output start es instant s cs d :
  ws_session i output start true es true instant = (s, false) →
  filter (λ c, concerns i c = true) cs = told s → sockets_explained cs d → sockets d !! i = None.
Proof.
  intros Hs Htold Hd. destruct (sockets d !! i) as [ch|] eqn:Hi; [|done]. exfalso.
  specialize (Hd i ch Hi). unfold last_word in Hd. rewrite <- filter_about, Htold in Hd.
  destruct (ws_session_told _ _ _ _ _ _ _ _ Hs) as (processed & Hp).
  cbn [orb negb] in Hp. rewrite Hp in Hd.
  rewrite app_comm_cons, list.filter_app, (filter_cons _ (Disconnected _ _)), filter_nil, decide_True in Hd
    by (cbn; apply N.eqb_refl).
  by rewrite list.last_snoc in Hd.
Qed.

(** C27: Whatever the order in which sessions and deadlines reach the event loop: it handles all
    it is woken by up to a stop, a closed queue or a deadline, and once the commands it has
    handled, in the loop or in the loop and the graceful stop, include all that a browser's
    finished session told it, it knows no socket of that connection any more. *)
Theorem no_socket_outlives_its_session fuel clock timeout dwell socks sfus ws d :
  let d0 := new_driver timeout dwell socks sfus in
  let handled := completed fuel clock d0 ws ≫= wakeup_command in
  event_loop fuel clock d0 ws = Some d →
  (ws = completed fuel clock d0 ws ∨
   ∃ w rest, ws = completed fuel clock d0 ws ++ w :: rest ∧ may_break w = true) ∧
  ∀ i output start es instant s, ws_session i output start true es true instant = (s, false) →
    (filter (λ c, concerns i c = true) handled = told s → sockets d !! i = None) ∧
    (∀ queued d', run fuel clock timeout dwell socks sfus ws queued = Some d' →
       filter (λ c, concerns i c = true) (handled ++ queued) = told s → sockets d' !! i = None).
Proof.
  intros d0 handled Hloop. split; [by eapply event_loop_completed|].
  intros i output start es instant s Hs. split.
  - intros Htold. eapply session_over; [exact Hs|exact Htold|].
    apply (event_loop_explained _ _ [] d0 _ _ (new_driver_explained _ _ _ _) Hloop).
  - intros queued d' Hrun Htold. eapply session_over; [exact Hs|exact Htold|]. by apply (run_explained _ _ _ _ _ _ _ _ _ Hrun).
Qed.
End transport.

(** ** Witness *)

(** The loop handles all a finished session said, and then stops. *)
Definition sample_session : WsSession * bool := ws_session 7 0 0 true sample_events true 0%N.

Definition sample_wakeups : list Wakeup := (λ c, Command (Some c)) <$> told sample_session.1.

Lemma no_socket_outlives_its_session_witness :
  ∃ d, event_loop (C := sample_collider) 10 (λ _, 5%N) (new_driver 30 60 {[ 0%nat := mk_channel [] 2 true ]} ∅)
         (sample_wakeups ++ [Stop]) = Some d ∧ sockets d !! 7%N = None.
Proof.
  assert (Hr : replies <$> event_loop (C := sample_collider) 10 (λ _, 5%N)
    (new_driver 30 60 {[ 0%nat := mk_channel [] 2 true ]} ∅) (sample_wakeups ++ [Stop]) = Some [])
    by (vm_compute; reflexivity).
  apply fmap_Some in Hr as (d & Hd & _). exists d. split; [exact Hd|].
  destruct (no_socket_outlives_its_session _ _ _ _ _ _ _ _ Hd) as [_ H].
  destruct (H 7%N 0 0%N sample_events 0%N sample_session.1) as [Hgone _]; [reflexivity|].
  apply Hgone. vm_compute. reflexivity.
Defined.
