(* ===== verification/Tls.v ===== *)
(** * The TLS listener ([TlsListener] of [src/src/tls.rs])

    One task accepts TCP connections and starts a task for each handshake; a
    connection whose handshake has succeeded in time goes into a channel of 1024,
    from which the HTTP server takes it.  One label per task that moves; the
    handshake itself is the TLS library's. *)

From S2P Require Import Prelude.

Definition STREAMS_CAPACITY : nat := 1024.

Section listener.
Context {SocketAddr : Type}.

(** How [tokio::time::timeout(.., acceptor.accept(stream))] ends. *)
Inductive Handshake := Established | Refused | TimedOut.

(** Connections are numbered in the order they were accepted.  [shaking]: in
    their handshake; [sending]: waiting for room in the channel; [streams]: the
    channel; [taken]: what [accept] has returned; [listening]: the [TlsListener],
    which owns the receiver, still exists. *)
Record Listener := mk_Listener {
  connections : nat;
  shaking : gmap nat SocketAddr;
  sending : gmap nat SocketAddr;
  streams : list (nat * SocketAddr);
  taken : list (nat * SocketAddr);
  listening : bool;
}.

(** [TlsListener::new]. *)
Definition new_listener : Listener := mk_Listener 0 ∅ ∅ [] [] true.

Inductive Label :=
  | Connects (peer : SocketAddr)
  | AcceptFails
  | Ends (t : nat) (h : Handshake)
  | Sends (t : nat)
  | Takes
  | Drops.

(** One move; [None] when it is not enabled.  The accept loop never ends. *)
Definition step (l : Label) (s : Listener) : option Listener :=
  match l with
  | Connects peer =>
      Some (mk_Listener (S (connections s)) (<[connections s := peer]> (shaking s)) (sending s) (streams s)
              (taken s) (listening s))
  | AcceptFails => Some s
  | Ends t h =>
      peer ← shaking s !! t;
      Some (mk_Listener (connections s) (delete t (shaking s))
              (match h with Established => <[t := peer]> (sending s) | _ => sending s end)
              (streams s) (taken s) (listening s))
  | Sends t =>
      peer ← sending s !! t;
      if negb (listening s)
      then Some (mk_Listener (connections s) (shaking s) (delete t (sending s)) (streams s) (taken s) false)
      else if (length (streams s) <? STREAMS_CAPACITY)%nat
      then Some (mk_Listener (connections s) (shaking s) (delete t (sending s)) (streams s ++ [(t, peer)])
                   (taken s) true)
      else None
  | Takes =>
      match streams s with
      | x :: rest =>
          if listening s
          then Some (mk_Listener (connections s) (shaking s) (sending s) rest (taken s ++ [x]) true) else None
      | [] => None
      end
  | Drops =>
      if listening s
      then Some (mk_Listener (connections s) (shaking s) (sending s) [] (taken s) false) else None
  end.

Fixpoint steps (ls : list Label) (s : Listener) : option Listener :=
  match ls with
  | [] => Some s
  | l :: ls' => s' ← step l s; steps ls' s'
  end.

(** [accept]: [recv().await.expect(..)].  The channel is closed when no sender
    is left; the accept loop keeps one. *)
Inductive Accept := Accepted (x : nat * SocketAddr) | Waits | Panics.

Definition senders (s : Listener) : nat := S (size (shaking s) + size (sending s)).

Definition accept (s : Listener) : Accept :=
  match streams s with
  | x :: _ => Accepted x
  | [] => if (senders s =? 0)%nat then Panics else Waits
  end.

(** ** Who reaches the server *)

(** The peers that connected, in order. *)
Definition peers (ls : list Label) : list SocketAddr :=
  ls ≫= λ l, match l with Connects peer => [peer] | _ => [] end.

(** Every connection is in one place, under its peer, and past the handshake
    only if that succeeded. *)
Record listener_ok (ls : list Label) (s : Listener) : Prop := {
  ok_count : connections s = length (peers ls);
  ok_shaking : ∀ t p, shaking s !! t = Some p → peers ls !! t = Some p;
  ok_sending : ∀ t p, sending s !! t = Some p →
    peers ls !! t = Some p ∧ Ends t Established ∈ ls ∧ shaking s !! t = None;
  ok_passed : ∀ t p, (t, p) ∈ taken s ++ streams s →
    peers ls !! t = Some p ∧ Ends t Established ∈ ls ∧ shaking s !! t = None ∧ sending s !! t = None;
  ok_once : NoDup (taken s ++ streams s).*1;
  ok_bound : (length (streams s) ≤ STREAMS_CAPACITY)%nat;
}.

Lemma peers_snoc ls l : peers (ls ++ [l]) = peers ls ++ match l with Connects p => [p] | _ => [] end.
Proof. unfold peers. rewrite bind_app. cbn. by rewrite app_nil_r. Qed.

Lemma new_listener_ok : listener_ok [] new_listener.
Proof.
  split; cbn; [done|by intros ??; rewrite lookup_empty|by intros ??; rewrite lookup_empty
              |by intros t p ?%elem_of_nil|constructor|lia].
Qed.

Lemma listener_ok_snoc ls l s :
  (∀ p, l ≠ Connects p) → listener_ok ls s → listener_ok (ls ++ [l]) s.
Proof.
  intros Hl. assert (Hp : peers (ls ++ [l]) = peers ls).
  { rewrite peers_snoc. destruct l; [by destruct (Hl peer)|..]; by rewrite app_nil_r. }
  intros [Hn Hsh Hse Hpa Ho Hb]. split; rewrite ?Hp; [done|done| | |done|done].
  - intros t p (? & ? & ?)%Hse. split_and!; [done|apply elem_of_app; auto|done].
  - intros t p (? & ? & ? & ?)%Hpa. split_and!; [done|apply elem_of_app; auto|done|done].
Qed.

Lemma connects_ok ls peer s s' :
  listener_ok ls s → step (Connects peer) s = Some s' → listener_ok (ls ++ [Connects peer]) s'.
Proof.
  intros [Hn Hsh Hse Hpa Ho Hb] [= <-].
  assert (Hp : ∀ t p, peers ls !! t = Some p → peers (ls ++ [Connects peer]) !! t = Some p ∧ t ≠ connections s).
  { intros t p Ht. pose proof (lookup_lt_Some _ _ _ Ht). rewrite peers_snoc. split; [by apply lookup_app_l_Some|lia]. }
  split; cbn [connections shaking sending streams taken]; [| | | |done|done].
  - rewrite peers_snoc, length_app. cbn. lia.
  - intros t p [[<- <-]|[_ Ht]]%lookup_insert_Some; [|by apply Hp, Hsh].
    rewrite peers_snoc, Hn. by apply list_lookup_middle.
  - intros t p (Ht & ? & ?)%Hse. apply Hp in Ht as [? ?].
    split_and!; [done|apply elem_of_app; auto|by rewrite lookup_insert_ne].
  - intros t p (Ht & ? & ? & ?)%Hpa. apply Hp in Ht as [? ?].
    split_and!; [done|apply elem_of_app; auto|by rewrite lookup_insert_ne|done].
Qed.

Lemma ends_ok ls t h s s' :
  listener_ok ls s → Ends t h ∈ ls → step (Ends t h) s = Some s' → listener_ok ls s'.
Proof.
  intros [Hn Hsh Hse Hpa Ho Hb] Hin (peer & Ht & [= <-])%bind_Some.
  split; cbn [connections shaking sending streams taken]; [done| | | |done|done].
  - intros u p [_ Hu]%lookup_delete_Some. auto.
  - intros u p Hu. assert (Hcases : (u = t ∧ p = peer ∧ h = Established) ∨ sending s !! u = Some p).
    { destruct h; [|by right..]. apply lookup_insert_Some in Hu as [[<- <-]|[_ Hu]]; auto. }
    destruct Hcases as [(-> & -> & ->)|(? & ? & Hnone)%Hse].
    + split_and!; [by apply Hsh|done|apply lookup_delete_eq].
    + split_and!; [done|done|]. by rewrite lookup_delete_None; auto.
  - intros u p (Hu & ? & Hnone & Hs)%Hpa. split_and!; [done|done|by rewrite lookup_delete_None; auto|].
    destruct h; [|done..]. rewrite lookup_insert_ne; [done|]. intros ->. congruence.
Qed.

Lemma sends_ok ls t s s' : listener_ok ls s → step (Sends t) s = Some s' → listener_ok ls s'.
Proof.
  intros [Hn Hsh Hse Hpa Ho Hb] (peer & Ht & Hs)%bind_Some.
  assert (Hse' : ∀ u p, delete t (sending s) !! u = Some p →
    peers ls !! u = Some p ∧ Ends u Established ∈ ls ∧ shaking s !! u = None)
    by (intros u p [_ Hu]%lookup_delete_Some; auto).
  assert (Hpa' : ∀ u p, (u, p) ∈ taken s ++ streams s → peers ls !! u = Some p ∧ Ends u Established ∈ ls ∧
    shaking s !! u = None ∧ delete t (sending s) !! u = None).
  { intros u p (? & ? & ? & ?)%Hpa. split_and!; try done. rewrite lookup_delete_None. auto. }
  destruct (listening s); cbn [negb] in Hs; [|by simplify_eq; split].
  destruct (_ <? _)%nat eqn:Hroom; simplify_eq. apply Nat.ltb_lt in Hroom.
  split; cbn [connections shaking sending streams taken]; [done|done|done| | |].
  - intros u p. rewrite app_assoc, elem_of_app, list_elem_of_singleton. intros [Hu|[= -> ->]]; [auto|].
    destruct (Hse _ _ Ht) as (? & ? & ?). split_and!; try done. apply lookup_delete_eq.
  - rewrite app_assoc, fmap_app. apply list.NoDup_app. split_and!; [done| |apply NoDup_singleton].
    intros u ([u' p] & -> & Hu)%list_elem_of_fmap Heq%list_elem_of_singleton. cbn in Heq. subst u'.
    apply Hpa in Hu as (_ & _ & _ & Hu). cbn in Hu. congruence.
  - rewrite length_app. cbn. lia.
Qed.

Lemma takes_ok ls s s' : listener_ok ls s → step Takes s = Some s' → listener_ok ls s'.
Proof.
  intros [Hn Hsh Hse Hpa Ho Hb] Hs. cbn in Hs. destruct (streams s) as [|x rest] eqn:Hst; [done|].
  destruct (listening s); [|done]. injection Hs as <-. cbn [length] in Hb.
  split; cbn [connections shaking sending streams taken]; rewrite <- ?app_assoc; [done|done|done|done|done|lia].
Qed.

Lemma drops_ok ls s s' : listener_ok ls s → step Drops s = Some s' → listener_ok ls s'.
Proof.
  intros [Hn Hsh Hse Hpa Ho Hb] Hs. cbn in Hs. destruct (listening s); [|done]. injection Hs as <-.
  split; cbn [connections shaking sending streams taken]; [done|done|done| | |apply Nat.le_0_l]; rewrite app_nil_r.
  - intros t p Hin. apply Hpa, elem_of_app. auto.
  - rewrite fmap_app in Ho. by apply list.NoDup_app in Ho as [? _].
Qed.

Lemma listener_step_ok ls l s s' : listener_ok ls s → step l s = Some s' → listener_ok (ls ++ [l]) s'.
Proof.
  intros Hok Hs. destruct l as [peer| |t h|t| |]; [by eapply connects_ok|..];
    match goal with |- listener_ok (_ ++ [?l]) _ => apply (listener_ok_snoc ls l s ltac:(done)) in Hok end.
  - by injection Hs as <-.
  - eapply ends_ok; [exact Hok| |exact Hs]. apply elem_of_app. right. left.
  - by eapply sends_ok.
  - by eapply takes_ok.
  - by eapply drops_ok.
Qed.

Lemma listener_steps_snoc ls l s s' : steps (ls ++ [l]) s = Some s' → ∃ s1, steps ls s = Some s1 ∧ step l s1 = Some s'.
Proof.
  revert s. induction ls as [|x ls IH]; intros s; cbn.
  - intros (s1 & Hs & [= <-])%bind_Some. eauto.
  - intros (s1 & Hs & (s2 & ? & ?)%IH)%bind_Some. rewrite Hs. eauto.
Qed.

Lemma listener_steps_ok ls s : steps ls new_listener = Some s → listener_ok ls s.
Proof.
  revert s. induction ls as [|l ls IH] using rev_ind; intros s.
  - intros [= <-]. apply new_listener_ok.
  - intros (s1 & Hs1%IH & Hl)%listener_steps_snoc. by eapply listener_step_ok.
Qed.

(** C31: In any interleaving of connections, handshakes and takes, the HTTP server is handed
    each connection at most once, under its own peer and only after its handshake succeeded in
    time; at most 1024 wait; and [accept] never panics. *)
Theorem only_established_reach_the_server ls s :
  steps ls new_listener = Some s →
  (∀ t p, (t, p) ∈ taken s → peers ls !! t = Some p ∧ Ends t Established ∈ ls) ∧
  NoDup (taken s).*1 ∧ (length (streams s) ≤ STREAMS_CAPACITY)%nat ∧ accept s ≠ Panics.
Proof.
  intros [_ _ _ Hpa Ho Hb]%listener_steps_ok. split_and!; [| |done|].
  - intros t p Hin. destruct (Hpa t p) as (? & ? & _); [apply elem_of_app; auto|done].
  - rewrite fmap_app in Ho. by apply list.NoDup_app in Ho as [? _].
  - unfold accept. by destruct (streams s).
Qed.

(** ** Stalled handshakes *)

(** A move of connection [t] or of the server. *)
Definition own_move (t : nat) (l : Label) : Prop :=
  match l with Connects _ | Takes => True | Ends u _ | Sends u => u = t | _ => False end.

Lemma take_all s :
  listening s = true →
  steps (replicate (length (streams s)) Takes) s =
    Some (mk_Listener (connections s) (shaking s) (sending s) [] (taken s ++ streams s) true).
Proof.
  remember (streams s) as q eqn:Hq. revert s Hq. induction q as [|x q IH]; intros s Hq Hl; cbn [length replicate steps].
  - rewrite app_nil_r. destruct s; cbn in *; by subst.
  - cbn [step]. rewrite <- Hq, Hl. cbn. rewrite IH by done. cbn. by rewrite <- app_assoc.
Qed.

Lemma listener_steps_app ls1 ls2 s s1 : steps ls1 s = Some s1 → steps (ls1 ++ ls2) s = steps ls2 s1.
Proof.
  revert s. induction ls1 as [|l ls1 IH]; intros s; cbn; [by intros [= ->]|].
  intros (s2 & Hs & H)%bind_Some. rewrite Hs. cbn. by apply IH.
Qed.

(** A stalled handshake holds up nobody: from any reachable state, whatever handshakes are under
    way, a new connection can reach the server by moves of its own and of the server alone, and
    the other handshakes are where they were. *)
Theorem stalled_handshakes_block_nobody ls s peer :
  steps ls new_listener = Some s → listening s = true →
  ∃ more s', steps more s = Some s' ∧ Forall (own_move (connections s)) more ∧
    (connections s, peer) ∈ taken s' ∧ shaking s' = shaking s.
Proof.
  intros Hok%listener_steps_ok Hl. set (t := connections s).
  assert (Hsh : shaking s !! t = None).
  { destruct (shaking s !! t) as [p|] eqn:Ht; [|done]. apply (ok_shaking _ _ Hok), lookup_lt_Some in Ht.
    rewrite <- (ok_count _ _ Hok) in Ht. unfold t in Ht. lia. }
  set (s1 := mk_Listener (S t) (shaking s) (<[t := peer]> (sending s)) (streams s) (taken s) true).
  assert (H1 : steps [Connects peer; Ends t Established] s = Some s1).
  { cbn. fold t. rewrite lookup_insert_eq. cbn. rewrite delete_insert_id by done. by rewrite Hl. }
  pose proof (take_all s1 eq_refl) as H2. cbn [streams s1] in H2. cbn in H2.
  exists ([Connects peer; Ends t Established] ++ replicate (length (streams s)) Takes ++ [Sends t; Takes]).
  eexists. split_and!.
  - rewrite (listener_steps_app _ _ _ _ H1), (listener_steps_app _ _ _ _ H2). cbn. rewrite lookup_insert_eq. cbn. reflexivity.
  - apply list.Forall_app. split; [by repeat constructor|]. apply list.Forall_app.
    split; [|by repeat constructor]. by apply Forall_replicate.
  - cbn. apply elem_of_app. right. left.
  - done.
Qed.
End listener.

Arguments Label SocketAddr : clear implicits.
Arguments Listener SocketAddr : clear implicits.

(** ** Witnesses *)

Section witnesses.

(** The first client never speaks TLS, the second does. *)
Definition sample_labels : list (Label N) :=
  [Connects 11%N; AcceptFails; Connects 12%N; Ends 1 Established; Sends 1; Takes].

Definition sample_listener : Listener N := mk_Listener 2 {[ 0 := 11%N ]} ∅ [] [(1, 12%N)] true.

Lemma sample_steps : steps sample_labels new_listener = Some sample_listener.
Proof. vm_compute. reflexivity. Qed.

Lemma only_established_reach_the_server_witness :
  taken sample_listener = [(1, 12%N)] ∧ NoDup (taken sample_listener).*1.
Proof.
  split; [reflexivity|]. exact (proj1 (proj2 (only_established_reach_the_server _ _ sample_steps))).
Defined.

Lemma stalled_handshakes_block_nobody_witness :
  ∃ more s', steps more sample_listener = Some s' ∧ (2, 13%N) ∈ taken s' ∧ shaking s' = shaking sample_listener.
Proof.
  destruct (stalled_handshakes_block_nobody _ _ 13%N sample_steps eq_refl) as (more & s' & H1 & _ & H2 & H3).
  exists more, s'. split_and!; [exact H1|exact H2|exact H3].
Defined.
End witnesses.
