(* ===== verification/Shutdown.v ===== *)
(** * Stopping the signaling process ([main] of [src/src/bin/signaling.rs])

    After the interrupt, [main] stops the two transports, waits for the browsers'
    server and then for the gRPC server, and only then stops the event loop.  One
    label per task that moves.  The gRPC server is another crate's: as documented,
    a graceful stop takes no new streams and ends once the open ones have. *)

From S2P Require Import Prelude.

(** Where [main] is: before the interrupt, or awaiting one of the three tasks. *)
Inductive Main := Serving | AwaitWs | AwaitGrpc | AwaitCollider | Down.

#[export] Instance main_eq_dec : EqDecision Main.
Proof. solve_decision. Defined.

(** The open browser and worker sessions, whether each server still takes new
    ones, and whether the event loop runs. *)
Record Process := mk_Process {
  main : Main;
  browsers : nat;
  ws_listening : bool;
  workers : nat;
  grpc_listening : bool;
  event_loop_running : bool;
}.

(** The state once [main] has spawned the tasks. *)
Definition new_process : Process := mk_Process Serving 0 true 0 true true.

(** [transport_stop_tx] has been sent on. *)
Definition transports_stopped (p : Process) : bool := negb (bool_decide (main p = Serving)).

Inductive Label :=
  | Interrupt
  | BrowserConnects
  | BrowserEnds
  | WsServerStops
  | WorkerOpens
  | WorkerHangsUp
  | EventLoopClosesWorker
  | GrpcServerStops
  | WsJoined
  | GrpcJoined
  | EventLoopJoined.

Definition with_main (p : Process) (m : Main) : Process :=
  mk_Process m (browsers p) (ws_listening p) (workers p) (grpc_listening p) (event_loop_running p).

Definition with_browsers (p : Process) (n : nat) : Process :=
  mk_Process (main p) n (ws_listening p) (workers p) (grpc_listening p) (event_loop_running p).

Definition with_workers (p : Process) (n : nat) : Process :=
  mk_Process (main p) (browsers p) (ws_listening p) n (grpc_listening p) (event_loop_running p).

(** One move; [None] when it is not enabled.  The event loop closes a worker's
    session on its own account while it runs ([EventLoopClosesWorker]); joining
    it is its graceful stop, which closes the sessions that are left. *)
Definition step (l : Label) (p : Process) : option Process :=
  match l with
  | Interrupt => if bool_decide (main p = Serving) then Some (with_main p AwaitWs) else None
  | BrowserConnects => if ws_listening p then Some (with_browsers p (S (browsers p))) else None
  | BrowserEnds => match browsers p with S n => Some (with_browsers p n) | O => None end
  | WsServerStops =>
      if transports_stopped p && ws_listening p
      then Some (mk_Process (main p) (browsers p) false (workers p) (grpc_listening p) (event_loop_running p))
      else None
  | WorkerOpens => if grpc_listening p then Some (with_workers p (S (workers p))) else None
  | WorkerHangsUp => match workers p with S n => Some (with_workers p n) | O => None end
  | EventLoopClosesWorker =>
      match workers p with
      | S n => if event_loop_running p then Some (with_workers p n) else None
      | O => None
      end
  | GrpcServerStops =>
      if transports_stopped p && grpc_listening p
      then Some (mk_Process (main p) (browsers p) (ws_listening p) (workers p) false (event_loop_running p))
      else None
  | WsJoined =>
      if bool_decide (main p = AwaitWs) && negb (ws_listening p) && (browsers p =? 0)%nat
      then Some (with_main p AwaitGrpc) else None
  | GrpcJoined =>
      if bool_decide (main p = AwaitGrpc) && negb (grpc_listening p) && (workers p =? 0)%nat
      then Some (with_main p AwaitCollider) else None
  | EventLoopJoined =>
      if bool_decide (main p = AwaitCollider)
      then Some (mk_Process Down (browsers p) (ws_listening p) 0 (grpc_listening p) false) else None
  end.

Fixpoint steps (ls : list Label) (p : Process) : option Process :=
  match ls with
  | [] => Some p
  | l :: ls => p ← step l p; steps ls p
  end.

(** ** The order of the stop *)

Definition past_ws (m : Main) : bool :=
  match m with AwaitGrpc | AwaitCollider | Down => true | _ => false end.

Definition past_grpc (m : Main) : bool := match m with AwaitCollider | Down => true | _ => false end.

(** The browsers' server is gone before the gRPC server is awaited, and both
    before the event loop is told to stop. *)
Definition ordered (p : Process) : Prop :=
  (past_ws (main p) = true → ws_listening p = false ∧ browsers p = 0) ∧
  (past_grpc (main p) = true → grpc_listening p = false ∧ workers p = 0) ∧
  event_loop_running p = negb (bool_decide (main p = Down)).

(** Case analysis of one move; the invariant's implications are used where they
    apply. *)
Ltac run_step H :=
  repeat (case_match; simplify_eq/=); bool_to_prop; simplify_eq/=;
  repeat match goal with K : true = true → _ |- _ => specialize (K eq_refl) end;
  destruct_and?; subst; split_and?; intros; destruct_and?; try done.

Lemma step_ordered l p p' : ordered p → step l p = Some p' → ordered p'.
Proof.
  destruct p as [m b ws w g e]. unfold ordered. cbn. intros (Hw & Hg & He) Hstep.
  destruct l, m; cbn in *; run_step Hstep.
Qed.

Lemma steps_ordered ls p p' : ordered p → steps ls p = Some p' → ordered p'.
Proof.
  revert p. induction ls as [|l ls IH]; intros p Hp Hrun; cbn in Hrun; [by simplify_eq|].
  destruct (step l p) as [p1|] eqn:Hstep; [|done]. cbn in Hrun. eauto using step_ordered.
Qed.

Lemma moves_app ls ls' p p1 p2 :
  steps ls p = Some p1 → steps ls' p1 = Some p2 → steps (ls ++ ls') p = Some p2.
Proof.
  revert p. induction ls as [|l ls IH]; intros p H1 H2; cbn in *; [by simplify_eq|].
  destruct (step l p) as [p'|]; [|done]. cbn in *. eauto.
Qed.

(** The worker's session ends only when the worker hangs up or the event loop
    closes it. *)
Definition ends_worker (l : Label) : bool :=
  match l with WorkerHangsUp | EventLoopClosesWorker => true | _ => false end.

Lemma steps_keep_workers ls p p' :
  ordered p → past_grpc (main p) = false → 0 < workers p →
  Forall (λ l, ends_worker l = false) ls → steps ls p = Some p' →
  past_grpc (main p') = false ∧ workers p ≤ workers p'.
Proof.
  revert p. induction ls as [|l ls IH]; intros p Hp Hm Hw Hall Hrun; cbn in Hrun; [by simplify_eq|].
  apply list.Forall_cons in Hall as [Hl Hall]. destruct (step l p) as [p1|] eqn:Hstep; [|done].
  assert (H1 : past_grpc (main p1) = false ∧ workers p ≤ workers p1).
  { clear Hrun Hp. destruct p as [m b ws w g e].
    destruct l, m; cbn in *; try done; run_step Hstep; lia. }
  destruct H1 as [H1 H2]. destruct (IH p1) as [H3 H4]; [by eapply step_ordered|done|lia|done|done|].
  split; [done|lia].
Qed.

(** ** Theorems *)

(** The moves left to a stopping process whose browsers' server still listens,
    or not, and which has no worker. *)
Definition finish (p : Process) : list Label :=
  match main p with
  | Serving | Down => []
  | AwaitWs =>
      (if ws_listening p then [WsServerStops] else []) ++ replicate (browsers p) BrowserEnds ++
      [WsJoined] ++ (if grpc_listening p then [GrpcServerStops] else []) ++ [GrpcJoined; EventLoopJoined]
  | AwaitGrpc => (if grpc_listening p then [GrpcServerStops] else []) ++ [GrpcJoined; EventLoopJoined]
  | AwaitCollider => [EventLoopJoined]
  end.

Lemma steps_browsers_end n m ws w g e :
  steps (replicate n BrowserEnds) (mk_Process m n ws w g e) = Some (mk_Process m 0 ws w g e).
Proof. induction n as [|n IH]; [done|]. exact IH. Qed.

(** Once interrupted, a process without workers reaches its end by its own moves. *)
Theorem shutdown_completes ls p :
  steps ls new_process = Some p → main p ≠ Serving → workers p = 0 →
  ∃ p', steps (finish p) p = Some p' ∧ main p' = Down ∧
    Forall (λ l, ends_worker l = false ∧ l ≠ BrowserConnects ∧ l ≠ WorkerOpens) (finish p).
Proof.
  intros Hrun Hm Hw. assert (Hp : ordered p) by (eapply steps_ordered; [|exact Hrun]; by split_and!).
  destruct p as [m b ws w g e]. unfold ordered in Hp. cbn in *. destruct Hp as (Hb & Hg & _). subst w.
  assert (Hrep : ∀ n, Forall (λ l, ends_worker l = false ∧ l ≠ BrowserConnects ∧ l ≠ WorkerOpens)
                       (replicate n BrowserEnds)) by (intros n; by apply Forall_replicate).
  destruct m; [done| | | |].
  - exists (mk_Process Down 0 false 0 false false). split_and!; [|done|].
    + unfold finish. cbn. destruct ws; eapply moves_app; try (apply steps_browsers_end || reflexivity);
        (eapply moves_app; [apply steps_browsers_end|]); by destruct g.
    + unfold finish. cbn. rewrite !Forall_app. split_and!; [by destruct ws; repeat constructor|done|].
      destruct g; by repeat constructor.
  - destruct (Hb eq_refl) as [-> ->]. exists (mk_Process Down 0 false 0 false false).
    destruct g; split_and!; try done; by repeat constructor.
  - destruct (Hb eq_refl) as [-> ->], (Hg eq_refl) as [-> _]. exists (mk_Process Down 0 false 0 false false).
    split_and!; try done; by repeat constructor.
  - exists (mk_Process Down b ws 0 g e). split_and!; try done; by repeat constructor.
Qed.

(** C29: As long as a worker's session is open the interrupted signaling process does not stop:
    the event loop, whose end would close that session, is told to stop only after the gRPC
    server has ended, which waits for the session. *)
Theorem shutdown_waits_for_workers ls p ls' p' :
  steps ls new_process = Some p → past_grpc (main p) = false → 0 < workers p →
  Forall (λ l, ends_worker l = false) ls' → steps ls' p = Some p' →
  main p' ≠ Down ∧ event_loop_running p' = true ∧ workers p ≤ workers p' ∧
  step GrpcJoined p' = None ∧ step EventLoopJoined p' = None.
Proof.
  intros Hrun Hm Hw Hall Hrun'.
  assert (Hp : ordered p) by (eapply steps_ordered; [|exact Hrun]; by split_and!).
  destruct (steps_keep_workers _ _ _ Hp Hm Hw Hall Hrun') as [Hm' Hw'].
  destruct (steps_ordered _ _ _ Hp Hrun') as (_ & _ & He).
  destruct p' as [m b ws w g e]. cbn in *. assert (Hz : (w =? 0)%nat = false) by (apply Nat.eqb_neq; lia).
  rewrite He. split_and!; [by destruct m|by destruct m|done| |by destruct m].
  rewrite Hz, andb_false_r. done.
Qed.

(** ** Witnesses *)

(** A browser and a worker connect, then the process is interrupted. *)
Definition sample_run : list Label := [BrowserConnects; WorkerOpens; Interrupt].

Lemma shutdown_completes_witness :
  ∃ p p', steps [BrowserConnects; Interrupt] new_process = Some p ∧ steps (finish p) p = Some p' ∧
    main p' = Down.
Proof.
  destruct (shutdown_completes [BrowserConnects; Interrupt] (mk_Process AwaitWs 1 true 0 true true))
    as (p' & H1 & H2 & _); [reflexivity|done|reflexivity|]. by eexists _, p'.
Defined.

Lemma shutdown_waits_for_workers_witness :
  ∃ p, steps (sample_run ++ [WsServerStops; BrowserEnds; WsJoined; GrpcServerStops]) new_process = Some p ∧
    main p = AwaitGrpc ∧ step GrpcJoined p = None.
Proof.
  eexists. split; [reflexivity|]. split; [reflexivity|].
  refine (proj1 (proj2 (proj2 (proj2 (shutdown_waits_for_workers sample_run
    (mk_Process AwaitWs 1 true 1 true true) [WsServerStops; BrowserEnds; WsJoined; GrpcServerStops] _
    _ _ _ _ _))))); [reflexivity|reflexivity|vm_compute; lia|by repeat constructor|reflexivity].
Defined.
