(* ===== verification/Cli.v ===== *)
(** * Command lines ([src/src/bin/apprtc.rs], [src/src/bin/sfu.rs],
      [src/src/tls.rs]) and the construction of gRPC endpoints

    From the arguments to the configurations of the services: the checks on the
    URLs, the generated instance ids, the certificates. *)

From S2P Require Import Prelude Wire GrpcServer Params SfuSession.

(** ** URLs and files *)

(** The parts of a [url::Url]; [url_text] is [to_string]. *)
Class UrlParts `{UrlLib} : Type := {
  url_scheme : Url → string;
  host_str : Url → option string;
  url_port : Url → option N;
  url_path : Url → string;
  url_fragment : Url → option string;
  url_text : Url → string;
}.

(** What the URL standard says of the web schemes: such a URL has a host. *)
Class UrlPartsLaws `{U : UrlLib} (UP : UrlParts) : Prop :=
  host_nonempty : ∀ u h, url_scheme u = "http" ∨ url_scheme u = "https" →
    host_str u = Some h → h ≠ EmptyString.

(** [std::fs::read], and the two files compiled into the binaries. *)
Class Files : Type := {
  read_file : string → result bytes string;
  bundled_certificate : bytes;
  bundled_private_key : bytes;
}.

(** ** Certificates *)

(** [tls_pem]. *)
Definition tls_pem `{Files} (certificate private_key : string) : result (bytes * bytes) string :=
  if is_empty certificate && is_empty private_key then Ok (bundled_certificate, bundled_private_key)
  else if negb (is_empty certificate) && negb (is_empty private_key) then
    let? c := map_err (λ _, "failed to read certificate " +:+ certificate) (read_file certificate) in
    let? k := map_err (λ _, "failed to read private key " +:+ private_key) (read_file private_key) in
    Ok (c, k)
  else Err "--certificate and --private-key must be supplied together".

(** ** Instance ids *)

(** [{:032x}] of a [u128], for 32 digits. *)
Fixpoint show_hex (digits : nat) (n : N) (acc : string) : string :=
  match digits with
  | O => acc
  | S digits' => show_hex digits' (n / 16) (String (hex_digit (n mod 16)) acc)
  end.

Definition show_hex32 (n : N) : string := show_hex 32 n EmptyString.

(** The instance id that [GrpcAuthority::connect] draws. *)
Definition apprtc_instance_id (random : N) : string := "apprtc-" +:+ show_hex32 random.

(** The instance id of a worker: the one given, or a drawn one. *)
Definition sfu_instance_id (given : string) (random : N) : string :=
  if is_empty given then "sfu-" +:+ show_hex32 random else given.

(** ** Log levels *)

Inductive Level := Error | Warn | Info | Debug | Trace.

(** [log::LevelFilter]. *)
Inductive LevelFilter := FilterOff | FilterError | FilterWarn | FilterInfo | FilterDebug | FilterTrace.

(** [From<Level> for LevelFilter]. *)
Definition level_filter (level : Level) : LevelFilter :=
  match level with
  | Error => FilterError
  | Warn => FilterWarn
  | Info => FilterInfo
  | Debug => FilterDebug
  | Trace => FilterTrace
  end.

(** ** Endpoints *)

(** How a channel is secured: not at all, with the certificate checked against
    the public roots, or with any certificate. *)
Inductive Security :=
  | Cleartext
  | Verified (domain : string)
  | Unverified (domain : string).

(** [Endpoint::from_shared]. *)
Class EndpointLib : Type := endpoint_from_shared : string → result unit string.

Section cli.
Context `{U : UrlLib, UP : !UrlParts, EL : EndpointLib}.

(** The two endpoint constructors, which differ in their messages. *)
Definition endpoint (scheme_message host_message url : string) (insecure_tls : bool)
  : result Security string :=
  let? parsed := url_parse url in
  ensure? String.eqb (url_scheme parsed) "http" || String.eqb (url_scheme parsed) "https"
    else scheme_message in
  let? shared := endpoint_from_shared url in
  if String.eqb (url_scheme parsed) "https" then
    let? domain := ok_or (host_str parsed) host_message in
    Ok (if insecure_tls then Unverified domain else Verified domain)
  else Ok Cleartext.

(** [grpc_endpoint] of the worker. *)
Definition grpc_endpoint : string → bool → result Security string :=
  endpoint "--grpc-url must use http or https" "gRPC URL has no host".

(** [GrpcAuthority::connect]: the security of the channel and the instance id. *)
Definition connect (url : string) (insecure_tls : bool) (random : N) : result (Security * string) string :=
  let? security := endpoint "signaling gRPC URL must use http or https" "signaling gRPC URL has no host"
                     url insecure_tls in
  Ok (security, apprtc_instance_id random).

(** ** AppRTC *)

(** The arguments of [apprtc]. *)
Record ApprtcCli := mk_ApprtcCli {
  c_host_ip : string;
  c_port : N;
  c_web_root : string;
  c_public_url : string;
  c_ws_url : string;
  c_grpc_url : string;
  c_insecure_tls : bool;
  c_tls : bool;
  c_certificate : string;
  c_private_key : string;
  c_ice_server_urls : list string;
  c_ice_server_base_url : string;
  c_ice_server_api_key : string;
  c_header_message : string;
  c_bypass_join_confirmation : bool;
  c_debug : bool;
  c_level : Level;
  c_output_log_file : string;
}.

(** The host of the public URL, with its port when it is not the scheme's. *)
Definition public_host (host : string) (port : option N) : string :=
  match port with
  | Some port => host +:+ ":" +:+ show_u64 port
  | None => host
  end.

(** [main] of [apprtc] up to the room server: the configuration, the security of
    the signaling channel and the instance id. *)
Definition apprtc_main (cli : ApprtcCli) (random : N) : result (Params.Config * Security * string) string :=
  let? public := url_parse (c_public_url cli) in
  let scheme := url_scheme public in
  ensure? String.eqb scheme "http" || String.eqb scheme "https"
    else "--public-url must use http or https" in
  let? host := ok_or (host_str public) "--public-url has no host" in
  let? ws_url := url_parse (trim_end_slashes (c_ws_url cli)) in
  ensure? (String.eqb (url_scheme ws_url) "ws" || String.eqb (url_scheme ws_url) "wss")
          && bool_decide (host_str ws_url ≠ None) && String.eqb (url_path ws_url) "/ws"
          && bool_decide (url_query ws_url = None) && bool_decide (url_fragment ws_url = None)
    else "--ws-url must be a ws:// or wss:// URL ending in /ws" in
  let? connected := connect (c_grpc_url cli) (c_insecure_tls cli) random in
  Ok (Params.mk_Config (c_web_root cli) (public_host host (url_port public))
        (String.eqb scheme "https") (url_text ws_url) [] (c_ice_server_urls cli)
        (c_ice_server_base_url cli) (c_ice_server_api_key cli) (c_header_message cli)
        (c_bypass_join_confirmation cli), connected.1, connected.2).
End cli.

(** ** SFU *)

(** The arguments of [sfu]. *)
Record SfuCli := mk_SfuCli {
  s_host_ip : IpAddr;
  s_port : N;
  s_tls : bool;
  s_redirect_url : string;
  s_certificate : string;
  s_private_key : string;
  s_media_public_ip : option IpAddr;
  s_media_port_min : N;
  s_media_port_max : N;
  s_grpc_url : string;
  s_insecure_tls : bool;
  s_max_rooms : N;
  s_max_clients : N;
  s_instance_id : string;
  s_debug : bool;
  s_level : Level;
  s_output_log_file : string;
}.

(** The configuration that [main] of [sfu] runs the service with. *)
Definition sfu_main (cli : SfuCli) (random : N) : SfuSession.Config :=
  SfuSession.mk_Config (s_host_ip cli) (opt_default (s_host_ip cli) (s_media_public_ip cli))
    (s_media_port_min cli) (s_media_port_max cli) (s_grpc_url cli) (s_insecure_tls cli)
    (s_max_rooms cli) (s_max_clients cli) (sfu_instance_id (s_instance_id cli) random).
