(* ===== verification/CliSpec.v ===== *)
(** * What the command lines guarantee

    Certificate checks are only left out on request, generated instance ids are
    accepted by the services and distinct, and the public origin fixed on the
    command line is the only one that pages and joins hand out. *)

From S2P Require Import Prelude Wire GrpcServer GrpcServerSpec GrpcClient Params RoomServer SfuSession Cli.

(** ** Instance ids *)

Lemma hex_digit_inj a b : (a < 16)%N → (b < 16)%N → hex_digit a = hex_digit b → a = b.
Proof.
  intros Ha Hb Heq.
  assert (H : ∀ n, (n < 16)%N → ∃ k, n = N.of_nat k ∧ k ∈ seq 0 16).
  { intros n Hn. exists (N.to_nat n). rewrite N2Nat.id, elem_of_seq. split; [done|lia]. }
  destruct (H a Ha) as (i & -> & Hi), (H b Hb) as (j & -> & Hj). clear H Ha Hb.
  assert (Hall : Forall (λ x, Forall (λ y, hex_digit (N.of_nat x) = hex_digit (N.of_nat y) → x = y) (seq 0 16))
                   (seq 0 16)).
  { apply (bool_decide_unpack _). vm_compute. done. }
  rewrite list.Forall_forall in Hall. specialize (Hall i Hi). rewrite list.Forall_forall in Hall.
  by rewrite (Hall j Hj Heq).
Qed.

Lemma show_hex_inj digits n m a b :
  (n < 16 ^ N.of_nat digits)%N → (m < 16 ^ N.of_nat digits)%N →
  show_hex digits n a = show_hex digits m b → n = m ∧ a = b.
Proof.
  revert n m a b. induction digits as [|digits IH]; intros n m a b Hn Hm Heq.
  - cbn in *. split; [lia|done].
  - rewrite Nat2N.inj_succ, N.pow_succ_r' in Hn, Hm. cbn [show_hex] in Heq.
    apply IH in Heq as [Hq Hs]; [|by apply N.Div0.div_lt_upper_bound..]. injection Hs as Hd ->.
    apply hex_digit_inj in Hd; [|by apply N.mod_lt..]. split; [|done].
    rewrite (N.div_mod n 16), (N.div_mod m 16) by done. by rewrite Hq, Hd.
Qed.

Lemma show_hex32_inj n m : (n < 2 ^ 128)%N → (m < 2 ^ 128)%N → show_hex32 n = show_hex32 m → n = m.
Proof. intros Hn Hm Heq. by apply show_hex_inj in Heq as [-> _]. Qed.

Lemma string_app_inj p a b : p +:+ a = p +:+ b → a = b.
Proof. induction p as [|c p IH]; [done|]. rewrite !string_app_cons. intros [= H]. auto. Qed.

(** Ids generated from distinct 128-bit draws are distinct and never empty, and no AppRTC id is
    a worker's. *)
Theorem generated_instance_ids r1 r2 :
  (r1 < 2 ^ 128)%N → (r2 < 2 ^ 128)%N →
  (apprtc_instance_id r1 = apprtc_instance_id r2 → r1 = r2) ∧
  (sfu_instance_id EmptyString r1 = sfu_instance_id EmptyString r2 → r1 = r2) ∧
  apprtc_instance_id r1 ≠ sfu_instance_id EmptyString r2 ∧
  apprtc_instance_id r1 ≠ EmptyString ∧ (∀ given, sfu_instance_id given r1 ≠ EmptyString) ∧
  (∀ given, given ≠ EmptyString → sfu_instance_id given r1 = given).
Proof.
  intros H1 H2. unfold apprtc_instance_id, sfu_instance_id. cbn [is_empty]. split_and!.
  - intros Heq%string_app_inj. by apply show_hex32_inj.
  - intros Heq%string_app_inj. by apply show_hex32_inj.
  - done.
  - done.
  - by intros [|c s].
  - by intros [|c s].
Qed.

(** ** Certificates *)

(** Certificates come from both files or, when neither is named, from the binaries. *)
Theorem tls_pem_all_or_nothing `{F : Files} certificate private_key c k :
  tls_pem certificate private_key = Ok (c, k) ↔
  (certificate = EmptyString ∧ private_key = EmptyString ∧ c = bundled_certificate ∧ k = bundled_private_key) ∨
  (certificate ≠ EmptyString ∧ private_key ≠ EmptyString ∧
   read_file certificate = Ok c ∧ read_file private_key = Ok k).
Proof.
  unfold tls_pem. destruct certificate as [|x certificate], private_key as [|y private_key]; cbn [is_empty andb negb].
  - naive_solver.
  - naive_solver.
  - naive_solver.
  - destruct (read_file (String x certificate)) as [c'|]; cbn; [|naive_solver].
    destruct (read_file (String y private_key)) as [k'|]; cbn; naive_solver.
Qed.

Section cli_spec.
Context `{U : UrlLib, UP : !UrlParts, EL : EndpointLib}.

(** The channel to the signaling service is in clear text exactly for an [http] URL, and its
    certificate goes unchecked only when the command line asked for that. *)
Theorem certificates_checked scheme_message host_message url insecure_tls security :
  endpoint scheme_message host_message url insecure_tls = Ok security →
  ∃ parsed, url_parse url = Ok parsed ∧
    match security with
    | Cleartext => url_scheme parsed = "http"
    | Verified domain =>
        url_scheme parsed = "https" ∧ insecure_tls = false ∧ host_str parsed = Some domain
    | Unverified domain =>
        url_scheme parsed = "https" ∧ insecure_tls = true ∧ host_str parsed = Some domain
    end.
Proof.
  unfold endpoint. destruct (url_parse url) as [parsed|]; [|done]. intros Hok. exists parsed. split; [done|].
  destruct (String.eqb_spec (url_scheme parsed) "https") as [Hs|Hs].
  - rewrite orb_true_r in Hok. destruct (endpoint_from_shared url); [|done].
    destruct (host_str parsed); [|done]. cbn in Hok. destruct insecure_tls; by simplify_eq/=.
  - rewrite orb_false_r in Hok. destruct (String.eqb_spec (url_scheme parsed) "http"); [|done].
    destruct (endpoint_from_shared url); [|done]. by simplify_eq/=.
Qed.

(** ** The public origin *)

Lemma public_host_nonempty h port : h ≠ EmptyString → public_host h port ≠ EmptyString.
Proof. destruct h as [|c h]; [done|]. intros _. unfold public_host. by destruct port. Qed.

(** The base of the ICE server's URL: the request's [ts], the one configured, or
    [origin]. *)
Definition ice_base (ts configured origin : string) : string :=
  if is_empty ts then (if is_empty configured then origin else configured) else ts.

(** C28: With the configuration [apprtc] builds, pages and joins carry the origin of the public
    URL and the WebSocket URL of the command line, whatever the [Host] header; but the URL of a
    request is parsed from that header, and its query is told on: [ts] replaces the ICE server,
    and the query is appended to the room link. Requests whose URLs have the same query are told
    the same. In the witness a [Host] header brings the query, and the ICE server with it. *)
Theorem public_origin_fixed `{JT : JsonText, Laws : !UrlPartsLaws UP} cli random c security instance_id :
  apprtc_main cli random = Ok (c, security, instance_id) →
  ∃ public h ws,
    url_parse (c_public_url cli) = Ok public ∧ host_str public = Some h ∧
    url_parse (trim_end_slashes (c_ws_url cli)) = Ok ws ∧
    let authority := public_host h (url_port public) in
    let origin := url_scheme public +:+ "://" +:+ authority in
    ∀ head request_host url room_id client_id initiator,
      request_context head = Ok (request_host, url) →
      let p := build_room_parameters c request_host url room_id client_id initiator in
      wss_url p = (if is_empty (url_text ws)
                   then (if String.eqb (url_scheme public) "https" then "wss" else "ws") +:+ "://" +:+
                        authority +:+ "/ws"
                   else trim_end_slashes (url_text ws)) ∧
      wss_post_url p = origin ∧
      room_link p = (if is_empty room_id then EmptyString
                     else origin +:+ "/r/" +:+ room_id +:+
                          match url_query url with
                          | Some (String x q) => "?" +:+ String x q
                          | _ => EmptyString
                          end) ∧
      ice_server_url p = ice_base (query_get url "ts") (c_ice_server_base_url cli) origin +:+
                         "/v1alpha/iceconfig?key=" +:+ c_ice_server_api_key cli ∧
      ∀ head' other_host url', request_context head' = Ok (other_host, url') →
        query_pairs url' = query_pairs url → url_query url' = url_query url →
        build_room_parameters c other_host url' room_id client_id initiator = p.
Proof.
  unfold apprtc_main. destruct (url_parse (c_public_url cli)) as [public|] eqn:Hpub; [|done].
  destruct (String.eqb_spec (url_scheme public) "http") as [Hh|Hh];
    [|destruct (String.eqb_spec (url_scheme public) "https") as [Hhs|]; [|done]]; cbn [orb].
  all: destruct (host_str public) as [h|] eqn:Hhost; [|done]; cbn [ok_or].
  all: assert (Hne := host_nonempty public h ltac:(tauto) Hhost).
  all: destruct (url_parse (trim_end_slashes (c_ws_url cli))) as [ws|] eqn:Hws; [|done].
  all: case_match; [|done]; destruct (connect _ _ _) as [conn|]; [|done].
  all: apply (public_host_nonempty h (url_port public)) in Hne; intros [= <- _ _].
  all: exists public, h, ws; split_and!; [done..|]; intros head rh url room client init _.
  all: assert (Hempty : is_empty (public_host h (url_port public)) = false)
    by (by destruct (public_host h (url_port public))).
  all: unfold build_room_parameters, self_origin; cbn [Params.host force_tls signaling_ws_url].
  all: rewrite Hempty, ?Hh, ?Hhs; cbn [String.eqb]; cbn -[room_link_for public_host trim_end_slashes query_get ice_base].
  all: split_and!; try done.
  all: try (intros head' oh url' _ Hpairs Hquery; unfold room_link_for, query_get; by rewrite Hpairs, Hquery).
  all: try by (unfold ice_base; destruct (query_get url "ts"); [|done]; by destruct (c_ice_server_base_url cli)).
  all: destruct room as [|r room]; [done|]; unfold room_link_for; cbn [is_empty];
    destruct (url_query url) as [[|x q]|]; cbn [is_empty];
    by rewrite ?string_app_nil_r, ?string_app_assoc.
Qed.
End cli_spec.

(** ** Witnesses *)

(** The text before the first [stop], and what follows it. *)
Fixpoint until (stop : Ascii.ascii) (s : string) : string * string :=
  match s with
  | EmptyString => (EmptyString, EmptyString)
  | String c s' =>
      if Ascii.eqb c stop then (EmptyString, s')
      else let '(a, b) := until stop s' in (String c a, b)
  end.

Definition question_mark : Ascii.ascii := Ascii.ascii_of_N 63.

(** The pieces of [s] between [stop]s; [fuel] bounds their number. *)
Fixpoint pieces (fuel : nat) (stop : Ascii.ascii) (s : string) : list string :=
  match fuel with
  | O => []
  | S fuel' => let '(a, b) := until stop s in if is_empty b then [a] else a :: pieces fuel' stop b
  end.

(** URLs without port or fragment: scheme, host and path, and the query. *)
Definition split_url (s : string) : string * string * string :=
  let '(scheme, rest) := until (Ascii.ascii_of_N 58) (until question_mark s).1 in
  let '(h, p) := until slash (opt_default EmptyString (strip_prefix "//" rest)) in
  (scheme, h, String slash p).

#[local] Instance sample_urls : UrlLib := {
  Url := string;
  url_parse s := if is_empty (split_url s).1.2 then Err "empty host" else Ok s;
  query_pairs u := until (Ascii.ascii_of_N 61) <$> pieces 10 (Ascii.ascii_of_N 38) (until question_mark u).2;
  url_query u := if has_char question_mark u then Some (until question_mark u).2 else None;
}.

#[local] Instance sample_parts : UrlParts := {
  url_scheme u := (split_url u).1.1;
  host_str u := if is_empty (split_url u).1.2 then None else Some (split_url u).1.2;
  url_port _ := None;
  url_path u := (split_url u).2;
  url_fragment _ := None;
  url_text u := u;
}.

#[local] Instance sample_parts_laws : UrlPartsLaws sample_parts.
Proof. intros u h _. cbn. destruct (is_empty _) eqn:He; [done|]. intros [= <-] Hx. by rewrite Hx in He. Qed.

#[local] Instance sample_endpoints : EndpointLib := λ _, Ok tt.

#[local] Instance sample_text : JsonText := λ _, "{}".

#[local] Instance sample_files : Files := {
  read_file name := if String.eqb name "missing.pem" then Err "not found" else Ok [];
  bundled_certificate := [Byte.x01];
  bundled_private_key := [Byte.x02];
}.

Definition sample_cli : ApprtcCli :=
  mk_ApprtcCli "127.0.0.1" 8080 "web" "https://apprtc.example/" "wss://signal.example/ws/"
    "https://signal.example/" true false EmptyString EmptyString [] EmptyString EmptyString EmptyString
    false false Info EmptyString.

Lemma generated_instance_ids_witness :
  apprtc_instance_id 255 ≠ sfu_instance_id EmptyString 255.
Proof. apply generated_instance_ids; vm_compute; done. Defined.

Lemma certificates_checked_witness :
  ∃ parsed : string, url_parse "https://signal.example/" = Ok parsed ∧
    url_scheme parsed = "https" ∧ true = true ∧ host_str parsed = Some "signal.example".
Proof.
  exact (certificates_checked (UP := sample_parts) (EL := sample_endpoints) "scheme" "host"
    "https://signal.example/" true (Unverified "signal.example") eq_refl).
Defined.

(** A request whose [Host] header ends the authority of the URL and begins its query. *)
Definition odd_host : RequestHead := mk_RequestHead (Some "a?ts=https://evil.example&x=") "/params" None.

Lemma public_origin_fixed_witness :
  ∃ c security instance_id request_host url, apprtc_main sample_cli 7 = Ok (c, security, instance_id) ∧
    request_context odd_host = Ok (request_host, url) ∧
    let p := build_room_parameters c request_host url "room" "1" None in
    wss_post_url p = "https://apprtc.example" ∧
    ice_server_url p = "https://evil.example/v1alpha/iceconfig?key=".
Proof.
  assert (Hmain : ∃ c security instance_id, apprtc_main sample_cli 7 = Ok (c, security, instance_id))
    by (eexists _, _, _; reflexivity).
  destruct Hmain as (c & security & instance_id & Hmain).
  assert (Hhead : ∃ request_host url, request_context odd_host = Ok (request_host, url) ∧
    query_get url "ts" = "https://evil.example") by (eexists _, _; split; vm_compute; reflexivity).
  destruct Hhead as (request_host & url & Hhead & Hts). exists c, security, instance_id, request_host, url.
  split; [exact Hmain|]. split; [exact Hhead|].
  destruct (public_origin_fixed sample_cli 7 c security instance_id Hmain) as (public & h & ws & H1 & H2 & _ & H).
  destruct (H odd_host request_host url "room" "1" None Hhead) as (_ & Hpost & _ & Hice & _).
  cbn in H1. injection H1 as <-. cbn in H2. injection H2 as <-. split.
  - rewrite Hpost. reflexivity.
  - rewrite Hice, Hts. reflexivity.
Defined.
