(* ===== verification/Startup.v ===== *)
(** * From the command line to running services (the three [main]s of
      [src/src/bin/], [tls_config] of [src/src/tls.rs], the first lines of [run] of
      [src/src/grpc_server.rs] and [src/src/sfu_server.rs])

    Which sockets a program holds when it starts to serve, what secures them, and
    that a start that fails leaves no socket behind.  Sockets, certificates and
    log files are the operating system's and the TLS library's. *)

From S2P Require Import Prelude Wire GrpcServer Params Templates RoomServer SfuSession Cli.

(** ** Sockets *)

#[export] Instance IpAddr_eq_dec : EqDecision IpAddr.
Proof. solve_decision. Defined.

#[export] Instance IpAddr_countable : Countable IpAddr.
Proof.
  refine (inj_countable' (λ a, match a with V4 b => inl b | V6 b => inr b end)
            (λ s, match s with inl b => V4 b | inr b => V6 b end) _).
  by intros [].
Defined.

(** [std::net::SocketAddr]. *)
Abbreviation SocketAddr := (IpAddr * N)%type.

Inductive Socket := Tcp (a : SocketAddr) | Udp (a : SocketAddr).

#[export] Instance Socket_eq_dec : EqDecision Socket.
Proof. solve_decision. Defined.

#[export] Instance Socket_countable : Countable Socket.
Proof.
  refine (inj_countable' (λ s, match s with Tcp a => inl a | Udp a => inr a end)
            (λ s, match s with inl a => Tcp a | inr a => Udp a end) _).
  by intros [].
Defined.

(** The address a socket is bound to, when the sockets in the set are taken; a
    name is resolved first.  [parse_socket_addr] is [str::parse]. *)
Class Network : Type := {
  tcp_bind : gset Socket → SocketAddr → result SocketAddr string;
  tcp_bind_name : gset Socket → string → N → result SocketAddr string;
  udp_bind : gset Socket → SocketAddr → result SocketAddr string;
  parse_socket_addr : string → result SocketAddr string;
}.

(** A socket gets an address that nobody holds, under the port asked for unless
    that is zero. *)
Class NetworkLaws `(NW : Network) : Prop := {
  tcp_bound s a b : tcp_bind s a = Ok b → (Tcp b ∉ s) ∧ (a.2 ≠ 0%N → b = a);
  tcp_name_bound s h p b : tcp_bind_name s h p = Ok b → (Tcp b ∉ s) ∧ (p ≠ 0%N → b.2 = p);
  udp_bound s a b : udp_bind s a = Ok b → (Udp b ∉ s) ∧ (a.2 ≠ 0%N → b = a);
}.

Section sockets.
Context `{NW : Network}.

(** What changes the sockets of the host. *)
Abbreviation Net A := (stateful (gset Socket) string A).

(** Binding, [to] telling which kind of socket it is. *)
Definition bind_with (to : SocketAddr → Socket) (r : gset Socket → result SocketAddr string) : Net Socket :=
  λ s, match r s with
       | Ok b => ({[to b]} ∪ s, Ok (to b))
       | Err e => (s, Err e)
       end.

(** An early return drops the sockets that are already held. *)
Definition dropping {A} (held : list Socket) (m : Net A) : Net A :=
  λ s, match m s with
       | (s', Ok a) => (s', Ok a)
       | (s', Err e) => (s' ∖ list_to_set held, Err e)
       end.

(** [TcpListener::bind] and [UdpSocket::bind]. *)
Definition bind_tcp (a : SocketAddr) : Net Socket := bind_with Tcp (λ s, tcp_bind s a).
Definition bind_tcp_name (host : string) (port : N) : Net Socket := bind_with Tcp (λ s, tcp_bind_name s host port).
Definition bind_udp (a : SocketAddr) : Net Socket := bind_with Udp (λ s, udp_bind s a).

(** [s'] is [s] with the sockets of [held] in addition. *)
Definition gained (s s' : gset Socket) (held : list Socket) : Prop :=
  s' = list_to_set held ∪ s ∧ (∀ x, x ∈ held → x ∉ s) ∧ NoDup held.

(** What the programs rely on: a computation leaves the sockets of its result, and
    none when it fails. *)
Definition keeps_only {A} (m : Net A) (held : A → list Socket) : Prop :=
  ∀ s, match m s with (s', Ok a) => gained s s' (held a) | (s', Err _) => s' = s end.

Lemma gained_nil s : gained s s [].
Proof. split_and!; [set_solver| |constructor]. intros x Hx. by apply not_elem_of_nil in Hx. Qed.

Lemma gained_snoc s s' held x : gained s s' held → x ∉ s' → gained s ({[x]} ∪ s') (held ++ [x]).
Proof.
  intros (-> & Hnew & Hnd) Hx. split_and!.
  - rewrite list_to_set_app_L. set_solver.
  - intros y [Hy|Hy%list_elem_of_singleton]%elem_of_app; [auto|]. subst y. set_solver.
  - apply NoDup_snoc. split; [done|]. intros Hh. set_solver.
Qed.

Lemma gained_dropped s s' held : gained s s' held → s' ∖ list_to_set held = s.
Proof.
  intros (-> & Hnew & _). apply set_eq. intros x. rewrite elem_of_difference, elem_of_union, !elem_of_list_to_set.
  split; [tauto|]. intros Hx. split; [by right|]. intros Hh. by apply (Hnew x Hh).
Qed.

(** One more socket on top of those held. *)
Lemma bind_more `{!NetworkLaws NW} to r s s' held :
  (∀ s b, r s = Ok b → to b ∉ s) → gained s s' held →
  match dropping held (bind_with to r) s' with
  | (s2, Ok x) => gained s s2 (held ++ [x])
  | (s2, Err _) => s2 = s
  end.
Proof.
  intros Hr Hg. unfold dropping, bind_with. destruct (r s') as [b|] eqn:Hb.
  - apply gained_snoc; [done|by apply Hr].
  - by apply gained_dropped.
Qed.
End sockets.

(** ** What [main] sets up *)

(** [rustls] and [rustls_pemfile], and the [tls_config] of the gRPC server, which
    takes the PEM texts. *)
Class TlsLib : Type := {
  CertificateDer : Type;
  PrivateKeyDer : Type;
  ServerConfig : Type;
  pem_certs : bytes → result (list CertificateDer) string;
  pem_private_key : bytes → result (option PrivateKeyDer) string;
  with_single_cert : list CertificateDer → PrivateKeyDer → result ServerConfig string;
  server_tls_config : bytes → bytes → result unit string;
}.

(** [OpenOptions::open] on the log file. *)
Class LogFiles : Type := open_log_file : string → result unit string.

(** The start of each [main]: the filter of the logger, when there is one. *)
Definition init_logging `{LogFiles} (debug : bool) (level : Level) (output_log_file : string)
  : result (option LevelFilter) string :=
  if debug then
    let? target := if is_empty output_log_file then Ok tt else open_log_file output_log_file in
    Ok (Some (level_filter level))
  else Ok None.

(** The arguments of [signaling]. *)
Record SignalingCli := mk_SignalingCli {
  g_host_ip : string;
  g_port : N;
  g_grpc_port : N;
  g_tls : bool;
  g_certificate : string;
  g_private_key : string;
  g_downgrade_dwell : N;
  g_debug : bool;
  g_level : Level;
  g_output_log_file : string;
}.

(** In milliseconds. *)
Definition REGISTER_TIMEOUT : N := 10000.

Section startup.
Context `{F : Files, TL : TlsLib, LF : LogFiles, NW : Network}.

(** [tls_config]. *)
Definition tls_config (certificate private_key : string) : result ServerConfig string :=
  let? pem := tls_pem certificate private_key in
  let? certificates := pem_certs pem.1 in
  let? key := pem_private_key pem.2 in
  let? key := ok_or key "no private key found in PEM input" in
  with_single_cert certificates key.

(** The configuration of a server that speaks TLS when [tls] is set. *)
Definition optional_tls (tls : bool) (certificate private_key : string) : result (option ServerConfig) string :=
  if tls then let? c := tls_config certificate private_key in Ok (Some c) else Ok None.

(** *** signaling *)

(** What the three tasks are spawned with. *)
Record SignalingServices := mk_SignalingServices {
  ws_listener : Socket;
  ws_tls : option ServerConfig;
  grpc_listener : Socket;
  grpc_tls_files : option (string * string);
  loop_register_timeout : N;
  loop_downgrade_dwell : N;
}.

(** [main] of [signaling] up to the tasks. *)
Definition signaling_main (cli : SignalingCli) : stateful (gset Socket) string SignalingServices :=
  let! log := lift (init_logging (g_debug cli) (g_level cli) (g_output_log_file cli)) in
  let! tls := lift (optional_tls (g_tls cli) (g_certificate cli) (g_private_key cli)) in
  let! ws := bind_tcp_name (g_host_ip cli) (g_port cli) in
  let! grpc := dropping [ws] (bind_tcp_name (g_host_ip cli) (g_grpc_port cli)) in
  lift (Ok (mk_SignalingServices ws tls grpc
              (if g_tls cli then Some (g_certificate cli, g_private_key cli) else None)
              REGISTER_TIMEOUT (g_downgrade_dwell cli * 1000))).

(** The identity that [grpc_server::run] configures, if any.  It reads the files by
    itself, later than [main] did, so that [later] need not find in them what
    [main] found. *)
Definition grpc_identity (later : Files) (tls_files : option (string * string))
  : result (option (bytes * bytes)) string :=
  match tls_files with
  | Some (certificate, private_key) =>
      let? pem := tls_pem (H:=later) certificate private_key in
      let? configured := server_tls_config pem.1 pem.2 in
      Ok (Some pem)
  | None => Ok None
  end.

(** The start of the task of [grpc_server::run]: an error ends it and drops its
    listener, and [main] only looks at the task when it stops. *)
Definition grpc_start (later : Files) (services : SignalingServices)
  : stateful (gset Socket) string (option (bytes * bytes)) :=
  dropping [grpc_listener services] (lift (grpc_identity later (grpc_tls_files services))).

(** *** apprtc *)

(** The listener, its TLS configuration, and the server with its pages. *)
Record ApprtcService (S : Type) := mk_ApprtcService {
  app_listener : Socket;
  app_tls : option ServerConfig;
  app_engine : TemplateEngine;
  app_server : Server (S:=S);
  app_config : Params.Config;
}.

(** [main] of [apprtc] up to [axum::serve]. *)
Definition apprtc_start `{U : UrlLib, UP : !UrlParts, EL : EndpointLib, PF : PageFiles, MJ : MiniJinja} {S : Type}
    (cli : ApprtcCli) (random : N) (initial : S) : stateful (gset Socket) string (ApprtcService S) :=
  let! log := lift (init_logging (c_debug cli) (c_level cli) (c_output_log_file cli)) in
  let! built := lift (apprtc_main cli random) in
  let! server := lift (new_room_server built.1.1 initial) in
  let! address := lift (parse_socket_addr (c_host_ip cli +:+ ":" +:+ show_u64 (c_port cli))) in
  let! listener := bind_tcp address in
  let! tls := dropping [listener] (lift (optional_tls (c_tls cli) (c_certificate cli) (c_private_key cli))) in
  lift (Ok (mk_ApprtcService S listener tls server.1 server.2 built.1.1)).

(** *** sfu *)

(** The sockets of the media ports; one that cannot be had drops the others. *)
Fixpoint bind_range (host : IpAddr) (ports : list N) (held : list Socket)
  : stateful (gset Socket) string (list Socket) :=
  match ports with
  | [] => lift (Ok held)
  | port :: ports' =>
      let! socket := dropping held (bind_udp (host, port)) in
      bind_range host ports' (held ++ [socket])
  end.

(** [sfu_server::run] up to the shards: the security of the channel to the
    signaling service, and a socket for each shard. *)
Definition service_start `{U : UrlLib, UP : !UrlParts, EL : EndpointLib} (config : SfuSession.Config)
  : stateful (gset Socket) string (Security * list Socket) :=
  let! checked := lift (check_config config) in
  let! endpoint := lift (grpc_endpoint (SfuSession.grpc_url config) (SfuSession.insecure_tls config)) in
  let! sockets := bind_range (SfuSession.host_ip config) (media_ports config) [] in
  lift (Ok (endpoint, sockets)).

(** [run_redirect] up to [axum::serve]. *)
Definition redirect_start (address : SocketAddr) (tls : bool) (certificate private_key : string)
  : stateful (gset Socket) string (Socket * option ServerConfig) :=
  let! listener := bind_tcp address in
  let! tls := dropping [listener] (lift (optional_tls tls certificate private_key)) in
  lift (Ok (listener, tls)).

(** ** Theorems *)

Context `{NL : !NetworkLaws NW}.

Lemma bind_range_exact host ports held s s' :
  gained s s' held →
  match bind_range host ports held s' with
  | (s2, Ok all) => gained s s2 all ∧ ∃ more, all = held ++ more ∧
      Forall2 (λ port socket, ∃ a, socket = Udp a ∧ (port ≠ 0%N → a = (host, port))) ports more
  | (s2, Err _) => s2 = s
  end.
Proof.
  revert held s'. induction ports as [|port ports IH]; intros held s' Hg.
  - split; [done|]. exists []. split; [by rewrite app_nil_r|constructor].
  - cbn [bind_range]. unfold st_bind.
    assert (Hm := bind_more Udp (λ s, udp_bind s (host, port)) s s' held (λ s b, λ H, proj1 (udp_bound _ _ _ H)) Hg).
    fold (bind_udp (host, port)) in Hm.
    destruct (dropping held (bind_udp (host, port)) s') as [s1 [x|e]] eqn:Hx; [|done].
    specialize (IH _ _ Hm). destruct (bind_range host ports (held ++ [x]) s1) as [s2 [all|e]]; [|done].
    destruct IH as (Hall & more & -> & Hmore). split; [done|]. exists (x :: more).
    split; [by rewrite <-app_assoc|]. constructor; [|done].
    unfold dropping, bind_udp, bind_with in Hx. destruct (udp_bind s' (host, port)) as [a|] eqn:Ha; [|done].
    apply udp_bound in Ha as [_ Ha]. exists a. by simplify_eq/=.
Qed.

Lemma media_ports_length config :
  length (media_ports config) = N.to_nat (media_port_max config + 1 - media_port_min config).
Proof. unfold media_ports. by rewrite length_fmap, length_seq. Qed.

(** The media service starts with one socket for each port of its range, in order, at its own
    address, and a checked configuration; or it fails and holds no socket. *)
Theorem service_starts_whole `{U : UrlLib, UP : !UrlParts, EL : EndpointLib} (config : SfuSession.Config) s :
  match service_start config s with
  | (s', Ok (security, sockets)) =>
      gained s s' sockets ∧ check_config config = Ok tt ∧
      Forall2 (λ port socket, ∃ a, socket = Udp a ∧ (port ≠ 0%N → a = (SfuSession.host_ip config, port)))
        (media_ports config) sockets ∧
      0 < length sockets
  | (s', Err _) => s' = s
  end.
Proof.
  unfold service_start, st_bind, lift. destruct (check_config config) as [[]|] eqn:Hc; [|done].
  destruct (grpc_endpoint _ _) as [security|]; [|done].
  assert (Hb := bind_range_exact (SfuSession.host_ip config) (media_ports config) [] s s (gained_nil s)).
  destruct (bind_range _ _ _ _) as [s' [sockets|]]; [|done]. destruct Hb as (Hg & more & -> & Hall).
  split_and!; [done|done|done|]. apply Forall2_length in Hall. rewrite app_nil_l, <-Hall, media_ports_length.
  unfold check_config in Hc. destruct (N.leb_spec (media_port_min config) (media_port_max config)); [lia|done].
Qed.

(** [later] finds in the files what [main] found. *)
Definition files_unchanged (later : Files) : Prop :=
  (∀ name, read_file (Files:=later) name = read_file (Files:=F) name) ∧
  bundled_certificate (Files:=later) = bundled_certificate (Files:=F) ∧
  bundled_private_key (Files:=later) = bundled_private_key (Files:=F).

Lemma tls_pem_unchanged later certificate private_key :
  files_unchanged later → tls_pem (H:=later) certificate private_key = tls_pem (H:=F) certificate private_key.
Proof. intros (Hr & Hc & Hk). unfold tls_pem. by rewrite !Hr, Hc, Hk. Qed.

(** The socket of the gRPC server is gone, the other one stays. *)
Lemma gained_second s a b : gained s ({[b]} ∪ ({[a]} ∪ s)) [a; b] → gained s (({[b]} ∪ ({[a]} ∪ s)) ∖ list_to_set [b]) [a].
Proof.
  intros (_ & Hnew & Hnd). apply list.NoDup_cons in Hnd as [Hab _].
  assert (Ha : a ∉ s) by (apply Hnew; left). assert (Hb : b ∉ s) by (apply Hnew; right; left).
  split_and!; [|intros x ->%list_elem_of_singleton; done|repeat constructor; by intros ?%elem_of_nil].
  apply set_eq. intros x. cbn. set_solver.
Qed.

(** C30: With --tls the WebSocket endpoint of the signaling process speaks TLS with the
    certificate found at the start; the gRPC endpoint, which reads the files again, speaks TLS
    with the certificate found then, the same if the files have not changed, or is gone while
    the other one stays; it never falls back to clear text. Without --tls neither speaks TLS.
    The process listens on the two ports of its command line, or on nothing: a start that fails
    holds no socket. *)
Theorem signaling_secured_as_asked cli s :
  match signaling_main cli s with
  | (s', Ok services) =>
      (∃ ws grpc, ws_listener services = Tcp ws ∧ grpc_listener services = Tcp grpc ∧ ws ≠ grpc ∧
        gained s s' [Tcp ws; Tcp grpc] ∧
        (g_port cli ≠ 0%N → ws.2 = g_port cli) ∧ (g_grpc_port cli ≠ 0%N → grpc.2 = g_grpc_port cli)) ∧
      if g_tls cli then
        ∃ pem certificates key config, tls_pem (g_certificate cli) (g_private_key cli) = Ok pem ∧
          pem_certs pem.1 = Ok certificates ∧ pem_private_key pem.2 = Ok (Some key) ∧
          with_single_cert certificates key = Ok config ∧ ws_tls services = Some config ∧
          ∀ later, match grpc_start later services s' with
                   | (s2, Ok shown) => s2 = s' ∧ ∃ pem',
                       tls_pem (H:=later) (g_certificate cli) (g_private_key cli) = Ok pem' ∧
                       server_tls_config pem'.1 pem'.2 = Ok tt ∧ shown = Some pem' ∧
                       (files_unchanged later → pem' = pem)
                   | (s2, Err _) => gained s s2 [ws_listener services]
                   end
      else ws_tls services = None ∧ ∀ later, grpc_start later services s' = (s', Ok None)
  | (s', Err _) => s' = s
  end.
Proof.
  unfold signaling_main, st_bind, lift. destruct (init_logging _ _ _); [|done].
  destruct (optional_tls _ _ _) as [tls|] eqn:Htls; [|done].
  unfold bind_tcp_name, bind_with at 1. destruct (tcp_bind_name s _ _) as [ws|] eqn:Hws; [|done].
  apply tcp_name_bound in Hws as [Hws Hport].
  assert (Hg : gained s ({[Tcp ws]} ∪ s) [Tcp ws]) by (apply (gained_snoc s s []); [apply gained_nil|done]).
  unfold dropping, bind_with. destruct (tcp_bind_name ({[Tcp ws]} ∪ s) _ _) as [grpc|] eqn:Hgrpc;
    [|by apply gained_dropped]. apply tcp_name_bound in Hgrpc as [Hgrpc Hgport].
  apply (gained_snoc _ _ _ _ Hg) in Hgrpc as Hboth. cbn [app] in Hboth. cbn [ws_listener grpc_listener ws_tls grpc_tls_files].
  split.
  - exists ws, grpc. split_and!; try done. intros ->. apply Hgrpc. set_solver.
  - unfold optional_tls in Htls. destruct (g_tls cli); [|by simplify_eq].
    unfold tls_config in Htls. destruct (tls_pem _ _) as [pem|] eqn:Hpem; [|done].
    destruct (pem_certs pem.1) as [certificates|] eqn:Hc; [|done].
    destruct (pem_private_key pem.2) as [[key|]|] eqn:Hk; try done. cbn [ok_or] in Htls.
    destruct (with_single_cert certificates key) as [config|] eqn:Hconf; [|done]. simplify_eq.
    exists pem, certificates, key, config. split_and!; try done. intros later.
    unfold grpc_start, dropping, lift. cbn [grpc_tls_files grpc_listener]. unfold grpc_identity.
    destruct (tls_pem (H:=later) _ _) as [pem'|] eqn:Hpem'; [|by apply gained_second].
    destruct (server_tls_config pem'.1 pem'.2) as [[]|] eqn:Hserver; [|by apply gained_second].
    split; [done|]. exists pem'. split_and!; [done..|]. intros Hsame.
    rewrite tls_pem_unchanged, Hpem in Hpem' by done. by injection Hpem' as <-.
Qed.

(** AppRTC starts with the configuration of its command line, the pages of its web root, no
    error counted, one socket, and TLS when asked; or it fails and holds no socket. *)
Theorem apprtc_starts_whole `{U : UrlLib, UP : !UrlParts, EL : EndpointLib, PF : PageFiles, MJ : MiniJinja}
    {S : Type} cli random (initial : S) s :
  match apprtc_start cli random initial s with
  | (s', Ok service) =>
      (∃ security instance_id t, apprtc_main cli random = Ok (app_config S service, security, instance_id) ∧
        load (c_web_root cli) = Ok t ∧ app_engine S service = loaded_engine t) ∧
      app_server S service = mk_Server 0 initial ∧
      (∃ a, app_listener S service = Tcp a ∧ gained s s' [Tcp a]) ∧
      optional_tls (c_tls cli) (c_certificate cli) (c_private_key cli) = Ok (app_tls S service)
  | (s', Err _) => s' = s
  end.
Proof.
  unfold apprtc_start, st_bind, lift. destruct (init_logging _ _ _); [|done].
  destruct (apprtc_main cli random) as [[[config security] instance_id]|] eqn:Hmain; [|done].
  cbn [fst snd]. unfold new_room_server.
  assert (Hroot : web_root config = c_web_root cli).
  { unfold apprtc_main in Hmain. repeat (case_match; try done). by simplify_eq/=. }
  rewrite Hroot. destruct (load (c_web_root cli)) as [t|] eqn:Ht; [|done].
  destruct (parse_socket_addr _) as [address|]; [|done].
  unfold bind_tcp, bind_with. destruct (tcp_bind s address) as [adr|] eqn:Ha; [|done].
  apply tcp_bound in Ha as [Ha _].
  assert (Hg : gained s ({[Tcp adr]} ∪ s) [Tcp adr]) by (apply (gained_snoc s s []); [apply gained_nil|done]).
  unfold dropping. destruct (optional_tls _ _ _) as [tls|] eqn:Htls; [|by apply gained_dropped].
  cbn [fst snd app_config app_engine app_server app_listener app_tls]. split_and!; try done; eauto 10.
Qed.
End startup.

(** ** Witnesses *)

Definition bind_free (to : SocketAddr → Socket) (s : gset Socket) (a : SocketAddr) : result SocketAddr string :=
  if bool_decide (to a ∈ s) then Err "address in use"
  else if (a.2 =? 0)%N then Err "no ephemeral ports" else Ok a.

Definition localhost : IpAddr := V4 (127 * 2 ^ 24 + 1).

#[local] Instance sample_network : Network := {
  tcp_bind := bind_free Tcp;
  tcp_bind_name s host port := bind_free Tcp s (localhost, port);
  udp_bind := bind_free Udp;
  parse_socket_addr _ := Ok (localhost, 8080%N);
}.

Lemma bind_free_law to s a b : bind_free to s a = Ok b → (to b ∉ s) ∧ b = a.
Proof.
  unfold bind_free. case_bool_decide; [done|]. destruct (a.2 =? 0)%N; [done|]. by intros [= <-].
Qed.

#[local] Instance sample_network_laws : NetworkLaws sample_network.
Proof.
  split.
  - by intros s a b [Hs ->]%bind_free_law.
  - intros s h p b [Hs ->]%bind_free_law. done.
  - by intros s a b [Hs ->]%bind_free_law.
Qed.

#[local] Instance sample_tls : TlsLib := {
  CertificateDer := bytes;
  PrivateKeyDer := bytes;
  ServerConfig := list bytes * bytes;
  pem_certs b := Ok [b];
  pem_private_key b := Ok (match b with [] => None | _ => Some b end);
  with_single_cert cs k := Ok (cs, k);
  server_tls_config _ _ := Ok tt;
}.

#[local] Instance sample_pem : Files := {
  read_file _ := Err "not found";
  bundled_certificate := [Byte.x01];
  bundled_private_key := [Byte.x02];
}.

#[local] Instance sample_log : LogFiles := λ _, Ok tt.

Definition sample_signaling_cli : SignalingCli :=
  mk_SignalingCli "localhost" 8081 50051 true EmptyString EmptyString 2 true Debug EmptyString.

Definition is_ok {A E} (r : result A E) : bool := match r with Ok _ => true | Err _ => false end.

Lemma run_ok {X A E} (r : X * result A E) : is_ok r.2 = true → ∃ s a, r = (s, Ok a).
Proof. destruct r as [s [a|e]]; [by eauto|done]. Qed.

Lemma run_err {X A E} (r : X * result A E) : is_ok r.2 = false → ∃ s e, r = (s, Err e).
Proof. destruct r as [s [a|e]]; [done|by eauto]. Qed.

(** Both ports are bound with TLS; a second process finds one of them taken. *)
Lemma signaling_secured_as_asked_witness :
  (∃ s' services, signaling_main sample_signaling_cli ∅ = (s', Ok services) ∧
     ws_tls services = Some ([[Byte.x01]], [Byte.x02]) ∧
     grpc_start sample_pem services s' = (s', Ok (Some ([Byte.x01], [Byte.x02])))) ∧
  ∃ s' e, signaling_main sample_signaling_cli {[Tcp (localhost, 50051%N)]} = (s', Err e) ∧
    s' = {[Tcp (localhost, 50051%N)]}.
Proof.
  split.
  - pose proof (signaling_secured_as_asked sample_signaling_cli ∅) as Hok.
    destruct (run_ok (signaling_main sample_signaling_cli ∅)) as (s' & services & Hrun);
      [vm_compute; reflexivity|].
    rewrite Hrun in Hok. destruct Hok as [_ (pem & cs & key & config & Hpem & Hcs & Hkey & Hcfg & Hws & Hgrpc)].
    specialize (Hgrpc sample_pem). exists s', services. split; [exact Hrun|]. rewrite Hws. cbn in Hpem. injection Hpem as <-.
    cbn in Hcs, Hkey, Hcfg. injection Hcs as <-. injection Hkey as <-. injection Hcfg as <-. split; [reflexivity|].
    assert (Hfiles : grpc_tls_files services = Some (EmptyString, EmptyString)).
    { assert (Hf : match (signaling_main sample_signaling_cli ∅).2 with Ok x => grpc_tls_files x | Err _ => None end
        = Some (EmptyString, EmptyString)) by (vm_compute; reflexivity). by rewrite Hrun in Hf. }
    assert (Hok : is_ok (grpc_start sample_pem services s').2 = true).
    { unfold grpc_start, dropping, lift. rewrite Hfiles. reflexivity. }
    destruct (run_ok _ Hok) as (s2 & shown & Hstart). rewrite Hstart in Hgrpc |- *.
    destruct Hgrpc as (-> & pem' & _ & _ & -> & Hsame). rewrite Hsame; [reflexivity|]. by split_and!.
  - pose proof (signaling_secured_as_asked sample_signaling_cli {[Tcp (localhost, 50051%N)]}) as Hok.
    destruct (run_err (signaling_main sample_signaling_cli {[Tcp (localhost, 50051%N)]})) as (s' & e & Hrun);
      [vm_compute; reflexivity|].
    rewrite Hrun in Hok. exists s', e. split; [exact Hrun|exact Hok].
Defined.

Definition sample_config : SfuSession.Config :=
  SfuSession.mk_Config localhost localhost 3478 3480 "http://localhost:50051" false 10 100 "sfu-1".

#[local] Instance sample_urls : UrlLib := {
  Url := string; url_parse s := Ok s; query_pairs _ := []; url_query _ := None }.

#[local] Instance sample_parts : UrlParts := {
  url_scheme _ := "http"; host_str _ := None; url_port _ := None; url_path _ := EmptyString;
  url_fragment _ := None; url_text _ := EmptyString }.

#[local] Instance sample_endpoints : EndpointLib := λ _, Ok tt.

(** Three sockets, or none when the last of the ports is taken. *)
Lemma service_starts_whole_witness :
  (∃ s' security sockets, service_start sample_config ∅ = (s', Ok (security, sockets)) ∧ 0 < length sockets) ∧
  ∃ s' e, service_start sample_config {[Udp (localhost, 3480%N)]} = (s', Err e) ∧
    s' = {[Udp (localhost, 3480%N)]}.
Proof.
  split.
  - pose proof (service_starts_whole sample_config ∅) as Hok.
    destruct (run_ok (service_start sample_config ∅)) as (s' & [security sockets] & Hrun); [vm_compute; reflexivity|].
    rewrite Hrun in Hok. exists s', security, sockets. split; [exact Hrun|apply Hok].
  - pose proof (service_starts_whole sample_config {[Udp (localhost, 3480%N)]}) as Hok.
    destruct (run_err (service_start sample_config {[Udp (localhost, 3480%N)]})) as (s' & e & Hrun);
      [vm_compute; reflexivity|].
    rewrite Hrun in Hok. exists s', e. split; [exact Hrun|exact Hok].
Defined.
