(* ===== verification/SfuProcess.v ===== *)
(** * The life of the SFU process ([main] and [run_redirect] of [src/src/bin/sfu.rs])

    [main] spawns the media service and, when a URL is configured, the server that
    redirects every request to it; then it waits for the interrupt or for the
    service to end.  One label per task that moves. *)

From S2P Require Import Prelude.

(** How a spawned task ends, and what [handle.await??] makes of it. *)
Inductive TaskEnd := Returned (r : result unit string) | Panicked.

Definition joined (e : TaskEnd) : result unit string :=
  match e with Returned r => r | Panicked => Err "task panicked" end.

(** The redirect server: binding its port and loading its certificate, answering,
    or over. *)
Inductive Redirect := Starting | Answering | RedirectOver (e : TaskEnd).

(** Where [main] is. *)
Inductive Main := Selecting | AwaitService | AwaitRedirect | Exited (r : result unit string).

(** [stop_sent]: the value of [stop_tx] has been sent.  [service] is how the media
    service ended, [None] while it runs; [redirect] is [None] when no URL was
    given; [answers] are the [Location]s of the answers given. *)
Record SfuProcess := mk_SfuProcess {
  main : Main;
  stop_sent : bool;
  service : option TaskEnd;
  redirect : option Redirect;
  answers : list string;
}.

Definition sfu_process (redirect_url : string) : SfuProcess :=
  mk_SfuProcess Selecting false None (if is_empty redirect_url then None else Some Starting) [].

Inductive Label :=
  | CtrlC (r : result unit string)
  | ServiceEnds (e : TaskEnd)
  | RedirectStarts (r : result unit string)
  | Answers
  | RedirectEnds (e : TaskEnd)
  | MainSees.

Definition with_main (p : SfuProcess) (m : Main) : SfuProcess :=
  mk_SfuProcess m (stop_sent p) (service p) (redirect p) (answers p).

Definition with_redirect (p : SfuProcess) (r : Redirect) : SfuProcess :=
  mk_SfuProcess (main p) (stop_sent p) (service p) (Some r) (answers p).

(** What [main] does once the task it waits for has ended. *)
Definition main_sees (p : SfuProcess) : option Main :=
  match main p with
  | Selecting =>
      match joined <$> service p with
      | Some (Ok _) => Some (Exited (Err "SFU service stopped unexpectedly"))
      | Some (Err e) => Some (Exited (Err e))
      | None => None
      end
  | AwaitService =>
      match joined <$> service p with
      | Some (Ok _) => Some (match redirect p with Some _ => AwaitRedirect | None => Exited (Ok tt) end)
      | Some (Err e) => Some (Exited (Err e))
      | None => None
      end
  | AwaitRedirect =>
      match redirect p with
      | Some (RedirectOver e) => Some (Exited (joined e))
      | _ => None
      end
  | Exited _ => None
  end.

(** The service and the redirect server end without an error only when they are
    told to stop. *)
Definition may_end (p : SfuProcess) (e : TaskEnd) : bool :=
  match e with Returned (Ok _) => stop_sent p | _ => true end.

(** One move; [None] when it is not enabled.  The process ends with its [main]. *)
Definition step (redirect_url : string) (l : Label) (p : SfuProcess) : option SfuProcess :=
  match main p with
  | Exited _ => None
  | _ =>
      match l with
      | CtrlC r =>
          match main p with
          | Selecting =>
              Some (match r with
                    | Ok _ => mk_SfuProcess AwaitService true (service p) (redirect p) (answers p)
                    | Err e => with_main p (Exited (Err e))
                    end)
          | _ => None
          end
      | ServiceEnds e =>
          match service p with
          | None =>
              if may_end p e
              then Some (mk_SfuProcess (main p) (stop_sent p) (Some e) (redirect p) (answers p)) else None
          | Some _ => None
          end
      | RedirectStarts r =>
          match redirect p with
          | Some Starting =>
              Some (with_redirect p (match r with Ok _ => Answering | Err e => RedirectOver (Returned (Err e)) end))
          | _ => None
          end
      | Answers =>
          match redirect p with
          | Some Answering =>
              Some (mk_SfuProcess (main p) (stop_sent p) (service p) (redirect p) (answers p ++ [redirect_url]))
          | _ => None
          end
      | RedirectEnds e =>
          match redirect p with
          | Some Answering => if may_end p e then Some (with_redirect p (RedirectOver e)) else None
          | _ => None
          end
      | MainSees => with_main p <$> main_sees p
      end
  end.

Fixpoint steps (redirect_url : string) (ls : list Label) (p : SfuProcess) : option SfuProcess :=
  match ls with
  | [] => Some p
  | l :: ls' => p' ← step redirect_url l p; steps redirect_url ls' p'
  end.

(** ** The exit status *)

(** The process was interrupted, and what it ran ended without an error. *)
Definition clean (p : SfuProcess) : Prop :=
  stop_sent p = true ∧ service p = Some (Returned (Ok tt)) ∧
  (redirect p = None ∨ redirect p = Some (RedirectOver (Returned (Ok tt)))).

Definition consistent (url : string) (p : SfuProcess) : Prop :=
  (match main p with
   | Selecting => stop_sent p = false
   | AwaitService => stop_sent p = true
   | AwaitRedirect => stop_sent p = true ∧ service p = Some (Returned (Ok tt)) ∧ redirect p ≠ None
   | Exited (Ok _) => clean p
   | Exited (Err _) => ¬ clean p
   end) ∧
  (redirect p = None ↔ url = EmptyString) ∧
  Forall (λ location, location = url) (answers p) ∧
  (redirect p = None ∨ redirect p = Some Starting → answers p = []).

Lemma unit_tt (u : ()) : u = tt.
Proof. by destruct u. Qed.

Lemma joined_ok e u : joined e = Ok u → e = Returned (Ok tt).
Proof. destruct e as [[[]|]|]; naive_solver. Qed.

Lemma start_consistent url : consistent url (sfu_process url).
Proof. by destruct url. Qed.

Lemma main_sees_consistent url p m : consistent url p → main_sees p = Some m → consistent url (with_main p m).
Proof.
  destruct p as [mn st sv rd an]. unfold consistent, main_sees, clean. cbn. intros (Hm & Hr & Ha & Hn) Hs.
  split; [|done]. destruct mn as [| | |r]; cbn in *.
  - destruct sv as [e|]; [|done]. cbn in Hs. destruct (joined e) as [u|m'] eqn:He; simplify_eq/=; naive_solver.
  - destruct sv as [e|]; [|done]. cbn in Hs. destruct (joined e) as [u|m'] eqn:He; simplify_eq/=.
    + apply joined_ok in He as ->. destruct rd; naive_solver.
    + intros (_ & [= ->] & _). done.
  - destruct rd as [[| |e]|]; simplify_eq/=. destruct (joined e) as [u|m'] eqn:He.
    + apply joined_ok in He as ->. naive_solver.
    + intros (_ & _ & [?|[= ->]]); done.
  - done.
Qed.

Lemma step_consistent url l p p' : consistent url p → step url l p = Some p' → consistent url p'.
Proof.
  intros Hc Hs. destruct l; unfold step in Hs.
  6: { destruct (main p) eqn:Hmain; [..|done]; destruct (main_sees p) as [m|] eqn:Hm; try done;
       injection Hs as <-; by apply main_sees_consistent. }
  all: destruct p as [mn st sv rd an]; unfold consistent, clean in *; cbn in *.
  all: destruct Hc as (Hm & Hr & Ha & Hn); destruct mn as [| | |r']; try done.
  all: repeat (case_match; simplify_eq/=); split_and!; try naive_solver.
  all: try (rewrite Forall_app; naive_solver).
Qed.

Lemma steps_consistent url ls p p' : consistent url p → steps url ls p = Some p' → consistent url p'.
Proof.
  revert p. induction ls as [|l ls IH]; intros p Hc Hs; cbn in Hs; [by simplify_eq|].
  destruct (step url l p) as [p1|] eqn:H1; [|done]. cbn in Hs. eauto using step_consistent.
Qed.

(** The moves of the redirect server, told to stop, up to its end. *)
Definition stop_redirect (rd : option Redirect) : list Label :=
  match rd with
  | Some Starting => [RedirectStarts (Ok tt); RedirectEnds (Returned (Ok tt))]
  | Some Answering => [RedirectEnds (Returned (Ok tt))]
  | _ => []
  end.

(** Moves that bring a process which was told to stop to its end. *)
Definition finish (p : SfuProcess) : list Label :=
  match main p, service p with
  | AwaitService, None => ServiceEnds (Returned (Ok tt)) :: MainSees ::
                            stop_redirect (redirect p) ++ (if redirect p is Some _ then [MainSees] else [])
  | AwaitService, Some e =>
      match joined e with
      | Ok _ => MainSees :: stop_redirect (redirect p) ++ (if redirect p is Some _ then [MainSees] else [])
      | Err _ => [MainSees]
      end
  | AwaitRedirect, _ => stop_redirect (redirect p) ++ [MainSees]
  | _, _ => []
  end.

Definition is_exited (m : Main) : bool := match m with Exited _ => true | _ => false end.

Lemma finish_ends url p :
  consistent url p → stop_sent p = true → is_exited (main p) = false →
  ∃ p', steps url (finish p) p = Some p' ∧ is_exited (main p') = true.
Proof.
  destruct p as [mn st sv rd an]. unfold consistent. cbn -[finish steps]. intros (Hm & _) -> Hmn.
  destruct mn as [| | |r]; [done| | |done]; unfold finish; cbn [main service redirect].
  - destruct sv as [e|]; [destruct (joined e) eqn:He|]; destruct rd as [[| |e']|]; cbn;
      unfold main_sees; cbn; rewrite ?He; cbn; by eexists.
  - destruct Hm as (_ & _ & Hrd). destruct rd as [[| |e']|]; [..|done]; cbn; by eexists.
Qed.

(** ** Theorem *)

(** The exit status of [sfu] is success exactly when it was interrupted and its service and, if
    there is one, its redirect server ended without an error: an end of the service by itself is
    an error, and so, but only at the end, is a redirect server that never started.  Every
    redirect leads to the configured URL, and without one there is none.  A process that was
    told to stop can always reach its end. *)
Theorem sfu_exit_status url ls p :
  steps url ls (sfu_process url) = Some p →
  (∀ r, main p = Exited r → (r = Ok tt ↔ clean p)) ∧
  Forall (λ location, location = url) (answers p) ∧ (url = EmptyString → answers p = []) ∧
  (stop_sent p = true → is_exited (main p) = false →
   ∃ p', steps url (finish p) p = Some p' ∧ is_exited (main p') = true).
Proof.
  intros Hrun. assert (Hc : consistent url p) by (eapply steps_consistent; [apply start_consistent|exact Hrun]).
  split_and!.
  - intros r Hr. destruct Hc as [Hm _]. rewrite Hr in Hm. destruct r as [u|e].
    + rewrite (unit_tt u). tauto.
    + split; [done|]. intros Hp. by destruct Hm.
  - apply Hc.
  - intros Hu. apply Hc. left. by apply Hc.
  - intros Hs Hm. by apply finish_ends.
Qed.

(** The redirect server cannot bind its port; the media service runs on until the
    interrupt, and then the exit status tells. *)
Definition sample_run : list Label :=
  [RedirectStarts (Err "address in use"); CtrlC (Ok tt); ServiceEnds (Returned (Ok tt)); MainSees; MainSees].

Lemma sfu_exit_status_witness :
  ∃ p, steps "https://apprtc.example" sample_run (sfu_process "https://apprtc.example") = Some p ∧
    main p = Exited (Err "address in use") ∧ ¬ clean p.
Proof.
  eexists. split; [reflexivity|]. split; [reflexivity|].
  intros Hclean. edestruct (sfu_exit_status "https://apprtc.example" sample_run) as [Hexit _]; [reflexivity|].
  apply (Hexit _ eq_refl) in Hclean. discriminate Hclean.
Defined.
