(* ===== verification/TestSupport.v ===== *)
(** * What the repository's tests run on

    The unit tests under [src/src/] are replayed on the model in Tests.v and
    RoomServerTests.v.  Here are the libraries they use, as concrete functions:
    query strings, JSON text, and a template engine for the constructs that occur
    in the tests' templates. *)

From S2P Require Import Prelude Params Templates.

(** ** Text *)

(** [str::contains]. *)
Fixpoint contains (needle s : string) : bool :=
  match strip_prefix needle s with
  | Some _ => true
  | None => match s with EmptyString => false | String _ s' => contains needle s' end
  end.

(** The text before the first [stop], and what follows it when there is one. *)
Fixpoint split_once (stop : Ascii.ascii) (s : string) : string * option string :=
  match s with
  | EmptyString => (EmptyString, None)
  | String c s' =>
      if Ascii.eqb c stop then (EmptyString, Some s')
      else let '(a, b) := split_once stop s' in (String c a, b)
  end.

(** The pieces between the occurrences of [stop]; [piece] is the one begun. *)
Fixpoint split_on (stop : Ascii.ascii) (s piece : string) : list string :=
  match s with
  | EmptyString => [piece]
  | String c s' =>
      if Ascii.eqb c stop then piece :: split_on stop s' EmptyString
      else split_on stop s' (piece +:+ String c EmptyString)
  end.

(** The text before the first [stop] of any length, and what follows it. *)
Fixpoint split_at (stop s : string) : string * string :=
  match strip_prefix stop s with
  | Some rest => (EmptyString, rest)
  | None =>
      match s with
      | EmptyString => (EmptyString, EmptyString)
      | String c s' => let '(a, b) := split_at stop s' in (String c a, b)
      end
  end.

Definition words (s : string) : list string :=
  filter (λ w, is_empty w = false) (split_on (Ascii.ascii_of_N 32) s EmptyString).

(** ** URLs: the text, with its query decoded *)

Definition hex_value (c : Ascii.ascii) : N :=
  let n := Ascii.N_of_ascii c in if (n <=? 57)%N then n - 48 else if (n <=? 70)%N then n - 55 else n - 87.

(** [%XX] escapes; the tests use no other. *)
Fixpoint percent_decode (s : string) : string :=
  match s with
  | EmptyString => EmptyString
  | String c s' =>
      match s' with
      | String a (String b rest) =>
          if Ascii.eqb c (Ascii.ascii_of_N 37)
          then String (Ascii.ascii_of_N (hex_value a * 16 + hex_value b)) (percent_decode rest)
          else String c (percent_decode s')
      | _ => String c (percent_decode s')
      end
  end.

Definition query_pair (s : string) : string * string :=
  let '(k, v) := split_once (Ascii.ascii_of_N 61) s in
  (percent_decode k, percent_decode (opt_default EmptyString v)).

#[export] Instance test_url : UrlLib := {
  Url := string;
  url_parse s := Ok s;
  url_query u := (split_once (Ascii.ascii_of_N 63) u).2;
  query_pairs u :=
    match (split_once (Ascii.ascii_of_N 63) u).2 with
    | Some q => query_pair <$> split_on (Ascii.ascii_of_N 38) q EmptyString
    | None => []
    end;
}.

(** ** JSON without spaces *)

Fixpoint json_escape (s : string) : string :=
  match s with
  | EmptyString => EmptyString
  | String c s' =>
      if Ascii.eqb c double_quote || Ascii.eqb c (Ascii.ascii_of_N 92)
      then String (Ascii.ascii_of_N 92) (String c (json_escape s'))
      else String c (json_escape s')
  end.

Definition json_string (s : string) : string := quoted (json_escape s).

Fixpoint json_print (v : Value) : string :=
  match v with
  | VNull => "null"
  | VBool b => bool_str b
  | VString s => json_string s
  | VArray items => "[" +:+ String.concat "," (map json_print items) +:+ "]"
  | VObject fields =>
      "{" +:+ String.concat "," (map (λ kv, json_string kv.1 +:+ ":" +:+ json_print kv.2) fields) +:+ "}"
  end.

#[export] Instance test_json : JsonText := json_print.

(** ** Templates

    Text, [{{ x }}], [{{ x | safe }}], [{% if x %} .. {% endif %}] and
    [{% include %}]; a variable that is not in the context is empty. *)

Definition var (context : list (string * string)) (x : string) : string :=
  match list_find (λ kv, kv.1 = x) context with Some (_, (_, v)) => v | None => EmptyString end.

(** The text between the first two double quotes. *)
Definition unquoted (s : string) : string := (split_at dquote (split_at dquote s).2).1.

(** [emit] is false inside an [if] that does not hold. *)
Fixpoint jinja (fuel : nat) (templates : gmap string string) (context : list (string * string))
    (emit : bool) (s : string) : string :=
  match fuel with
  | O => EmptyString
  | S fuel' =>
      match strip_prefix "{{" s, strip_prefix "{%" s with
      | Some rest, _ =>
          let '(inner, after) := split_at "}}" rest in
          (if emit then var context (opt_default EmptyString (head (words inner))) else EmptyString)
          +:+ jinja fuel' templates context emit after
      | _, Some rest =>
          let '(inner, after) := split_at "%}" rest in
          match words inner with
          | ["if"; x] => jinja fuel' templates context (negb (is_empty (var context x))) after
          | ["include"; name] =>
              opt_default EmptyString (templates !! unquoted name)
              +:+ jinja fuel' templates context emit after
          | _ => jinja fuel' templates context true after
          end
      | None, None =>
          match s with
          | EmptyString => EmptyString
          | String c s' =>
              (if emit then String c EmptyString else EmptyString) +:+ jinja fuel' templates context emit s'
          end
      end
  end.

#[export] Instance test_jinja : MiniJinja := {
  Environment := gmap string string;
  Template := gmap string string * string;
  new_environment := ∅;
  set_auto_escape_callback _ env := env;
  add_template_owned name source env := Ok (<[name := source]> env);
  get_template env name :=
    match env !! name with Some source => Ok (env, source) | None => Err "template not found" end;
  render template context := Ok (jinja (S (String.length template.2)) template.1 context true template.2);
  template_source template := template.2;
}.

#[export] Instance test_jinja_laws : MiniJinjaLaws test_jinja.
Proof.
  intros name source env env' [= <-]. change (gmap string string) in env. unfold source_of. cbn.
  split; [by rewrite lookup_insert_eq|]. intros other Hne. rewrite lookup_insert_ne by done.
  by destruct (env !! other).
Qed.

(** The files under a directory. *)
Definition directory (files : gmap string string) : PageFiles := {|
  path_join dir name := dir +:+ "/" +:+ name;
  read_to_string path := match files !! path with Some text => Ok text | None => Err "not found" end;
|}.

(** ** Assertions *)

(** [assert_eq!] and [assert!] in sequence. *)
Definition assert_eq {A} `{EqDecision A} (a b : A) : bool := bool_decide (a = b).

Definition all (assertions : list bool) : bool := forallb id assertions.
