(* ===== verification/Tests.v ===== *)
(** * The unit tests of the repository on the model

    The tests of [src/src/params.rs], [src/src/dashboard.rs],
    [src/src/templates.rs], [src/src/room_id.rs], [src/src/ws_server.rs],
    [src/src/sfu_server.rs] and the test of [src/src/grpc_server.rs] that needs no
    state machine, each under its name: what the model computes passes the
    assertions the code passes.  Where a test draws something at random or reads a
    clock the theorem is for every value. *)

From S2P Require Import Prelude Wire RoomIds GrpcServer SfuShard WsServer Driver Params Templates RoomServer Bodies Samples SfuSamples.
From S2P Require Import TestSupport.
From Stdlib Require Import Strings.Byte.

(** ** [src/src/dashboard.rs] *)

Definition dashboard_ws_count (now : N) : bool :=
  let db := new_dashboard now in
  let r0 := get_report db now 0 in
  let db := incr_ws db in
  let r1 := get_report db now 0 in
  let r2 := get_report db now 1 in
  all [assert_eq (r_open_ws r0) 0%N; assert_eq (r_total_ws r0) 0%N;
       assert_eq (r_open_ws r1) 0%N; assert_eq (r_total_ws r1) 1%N; assert_eq (r_open_ws r2) 1%N].

Definition dashboard_ws_err (now : N) : bool :=
  let db := new_dashboard now in
  let r0 := get_report db now 0 in
  let db := on_ws_err db in
  let r1 := get_report db now 0 in
  all [assert_eq (r_ws_errs r0) 0%N; assert_eq (r_ws_errs r1) 1%N].

Definition dashboard_http_err (now : N) : bool :=
  let db := new_dashboard now in
  let r0 := get_report db now 0 in
  let db := on_http_err db in
  let r1 := get_report db now 0 in
  all [assert_eq (r_http_errs r0) 0%N; assert_eq (r_http_errs r1) 1%N].

(** The tests of the dashboard pass, whatever the clock says. *)
Lemma dashboard_tests_pass now :
  dashboard_ws_count now = true ∧ dashboard_ws_err now = true ∧ dashboard_http_err now = true.
Proof. by split_and!; vm_compute. Qed.

(** ** [src/src/params.rs] *)

(** [Config::default()], with the fields that the tests set. *)
Definition default_config : Config := mk_Config "" "" false "" [] [] "" "" "" false.

Definition self_origin_honors_configured_host_and_tls : bool :=
  let config := mk_Config "" "public.example:8443" true "" [] [] "" "" "" false in
  assert_eq (self_origin config "request.example") ("https", "wss", "public.example:8443").

Definition builds_room_urls_and_preserves_query_string : bool :=
  let params := build_room_parameters default_config "localhost:8080"
                  ("http://localhost/r/x?debug=loopback&tt=relay" : Url) "room/a" "client-α" (Some true) in
  all [assert_eq (room_link params) "http://localhost:8080/r/room/a?debug=loopback&tt=relay";
       assert_eq (p_room_id params) "room/a";
       assert_eq (p_client_id params) "client-α";
       assert_eq (is_initiator params) "true"].

Definition configured_signaling_ws_url_is_returned_without_modification : bool :=
  let config := mk_Config "" "" false "wss://signaling.example/ws" [] [] "" "" "" false in
  let params := build_room_parameters config "apprtc.example" ("https://apprtc.example/params" : Url) "" "" None in
  assert_eq (wss_url params) "wss://signaling.example/ws".

Definition v2_parameters_use_v2_room_links_without_v1_post_fallback : bool :=
  let params := build_v2_room_parameters default_config "localhost:8080"
                  ("http://localhost/v2/r/42?it=relay" : Url) "42" in
  all [assert_eq (signaling_version params) 2%N;
       assert_eq (room_link params) "http://localhost:8080/v2/r/42?it=relay";
       is_empty (wss_post_url params)].

Definition query_options_enable_loopback_and_ice_transport_settings : bool :=
  let params := build_room_parameters default_config "host"
                  ("http://host/?debug=loopback&it=all&tt=relay" : Url) "" "" (Some false) in
  all [assert_eq (is_loopback params) "true";
       assert_eq (ice_server_transports params) "relay";
       contains "iceTransports" (pc_config params);
       contains "loopback.js" (include_loopback_js params);
       assert_eq (is_initiator params) "false"].

Definition ice_server_url_uses_override_base_and_api_key_precedence : bool :=
  let config := mk_Config "" "" false "" [] [] "https://turn.example/api" "secret" "" false in
  let params := build_room_parameters config "host"
                  ("http://host/?ts=https%3A%2F%2Fcustom.example" : Url) "" "" None in
  assert_eq (ice_server_url params) "https://custom.example/v1alpha/iceconfig?key=secret".

(** [value[0]]. *)
Definition first (v : Value) : Value := match v with VArray (x :: _) => x | _ => VNull end.

Definition ice_config_returns_override_or_configured_urls : bool :=
  let configured := mk_Config "" "" false "" [] ["stun:stun.example"] "" "" "" false in
  let override_config := mk_Config "" "" false "" [mk_IceServer ["turn:turn.example"] "u" "p"] [] "" "" "" false in
  all [assert_eq (json_text (field "urls" (first (field "iceServers" (ice_config configured)))))
         (json_text (VArray [VString "stun:stun.example"]));
       assert_eq (json_text (field "username" (first (field "iceServers" (ice_config override_config)))))
         (json_text (VString "u"));
       assert_eq (json_text (ice_config default_config)) (json_text (VObject [("iceServers", VArray [])]))].

Definition random_ids_and_path_trimming_have_expected_shapes (draw : nat → N) : bool :=
  let id := generate_random 32 draw in
  all [assert_eq (String.length id) 32%nat; string_forallb is_ascii_digit id;
       assert_eq (trim_collider_path "//room///client/") ["room"; "client"];
       assert_eq (trim_collider_path "///") []].

(** The tests of the room parameters pass, whatever the random ids. *)
Lemma params_tests_pass draw :
  self_origin_honors_configured_host_and_tls = true ∧
  builds_room_urls_and_preserves_query_string = true ∧
  configured_signaling_ws_url_is_returned_without_modification = true ∧
  v2_parameters_use_v2_room_links_without_v1_post_fallback = true ∧
  query_options_enable_loopback_and_ice_transport_settings = true ∧
  ice_server_url_uses_override_base_and_api_key_precedence = true ∧
  ice_config_returns_override_or_configured_urls = true ∧
  random_ids_and_path_trimming_have_expected_shapes draw = true.
Proof.
  split_and!; [vm_compute; reflexivity..|].
  unfold random_ids_and_path_trimming_have_expected_shapes.
  by destruct (generate_random_shape 32 draw) as [-> ->].
Qed.

(** ** [src/src/templates.rs] *)

(** [RoomParameters::default()] with the fields that the tests set. *)
Definition test_parameters (room_id wss_url is_loopback pc_config include_loopback_js : string)
    (error_messages warning_messages : list string) : RoomParameters :=
  mk_RoomParameters 0 "" room_id "" wss_url "" "" "" "" "" is_loopback pc_config "" "" "" "" ""
    include_loopback_js [] error_messages warning_messages.

Definition default_parameters : RoomParameters := test_parameters "" "" "" "" "" [] [].

(** [t.render_index(&params).unwrap()] and [t.render_full(&params).unwrap()]. *)
Definition rendered_page (name index full : string) (params : RoomParameters) : option string :=
  match from_sources index full with
  | Ok t => result_ok (render_page name t (context_for params))
  | Err _ => None
  end.

Definition out_contains (needle : string) (out : option string) : bool :=
  match out with Some text => contains needle text | None => false end.

Definition escapes_plain_fields_and_injects_safe_fields_raw : bool :=
  let src := "id={{ room_id }} url='{{ wss_url }}' cfg={{ pc_config | safe }} loop={{ is_loopback }}{% if room_id %} has-room{% endif %}" in
  let cfg := "{" +:+ quoted "x" +:+ ":1<2}" in
  let out := rendered_page "index" src src (test_parameters "a<b" "ws://host:9000/ws" "1<2" cfg "" [] []) in
  all [out_contains "id=a&lt;b" out;
       out_contains "url='ws://host:9000/ws'" out;
       out_contains ("cfg=" +:+ cfg) out;
       out_contains "loop=1<2" out;
       out_contains "has-room" out].

Definition empty_message_lists_render_as_js_arrays : bool :=
  let src := "e={{ error_messages }} w={{ warning_messages }}" in
  assert_eq (rendered_page "index" src src default_parameters) (Some "e=[] w=[]").

Definition renders_full_template_and_serializes_message_lists : bool :=
  let script := "<script src=" +:+ quoted "loopback.js" +:+ "></script>" in
  let out := rendered_page "full" "index"
    "{{ room_id }}|{{ error_messages }}|{{ warning_messages }}|{{ include_loopback_js }}"
    (test_parameters "room" "" "" "" script ["bad offer"] ["slow network"]) in
  all [out_contains ("room|[" +:+ quoted "bad offer" +:+ "]|[" +:+ quoted "slow network" +:+ "]") out;
       out_contains script out].

Definition escapes_all_plain_string_delimiters_without_escaping_slashes : bool :=
  let params := test_parameters ("&<>'" +:+ dquote +:+ "/") "" "" "" "" [] [] in
  all [assert_eq (rendered_page "index" "{{ value }}" "full" params) (Some "");
       assert_eq (rendered_page "index" "{{ room_id }}" "full" params) (Some "&amp;&lt;&gt;&#39;&#34;/")].

Definition load_reads_index_and_full_templates_from_web_root (root : string) : bool :=
  let files := directory (list_to_map
    [(root +:+ "/html/index_template.html", "index"); (root +:+ "/html/full_template.html", "full");
     (root +:+ "/html/grid_template.html", "grid")]) in
  match load (PF := files) root with
  | Ok templates =>
      all [assert_eq (result_ok (render_page "index" templates (context_for default_parameters))) (Some "index");
           assert_eq (result_ok (render_page "full" templates (context_for default_parameters))) (Some "full")]
  | Err _ => false
  end.

Definition load_returns_error_when_template_is_missing (root : string) : bool :=
  let files := directory {[ root +:+ "/html/index_template.html" := "index" ]} in
  match load (PF := files) root with Ok _ => false | Err _ => true end.

(** The tests of the templates pass. *)
Lemma templates_tests_pass :
  escapes_plain_fields_and_injects_safe_fields_raw = true ∧
  empty_message_lists_render_as_js_arrays = true ∧
  renders_full_template_and_serializes_message_lists = true ∧
  escapes_all_plain_string_delimiters_without_escaping_slashes = true ∧
  load_reads_index_and_full_templates_from_web_root "/tmp/apprtc-templates-7" = true ∧
  load_returns_error_when_template_is_missing "/tmp/apprtc-missing-7" = true.
Proof. split_and!; vm_compute; reflexivity. Qed.

(** ** [src/src/room_id.rs] *)

Section room_ids.
Context `{L : RoomIdLib} {laws : RoomIdLaws L}.

Definition room_ids_round_trip_through_the_wire_form (room_id : RoomId) : bool :=
  assert_eq (room_id_from_bytes (room_id_to_bytes room_id)) (Some room_id).

(** [other] is a UUID of another version. *)
Definition wire_form_rejects_wrong_length_and_non_v8_uuids (room_id other : RoomId) : bool :=
  let bytes := room_id_to_bytes room_id in
  all [assert_eq (room_id_from_bytes []) None;
       assert_eq (room_id_from_bytes (take 15 bytes)) None;
       assert_eq (room_id_from_bytes (bytes ++ [x00])) None;
       assert_eq (room_id_from_bytes (as_bytes other)) None].

(** The tests of the room ids pass, for every room id and every UUID of another version. *)
Lemma room_id_tests_pass room_id other :
  is_room_uuid room_id = true → is_room_uuid other = false →
  room_ids_round_trip_through_the_wire_form room_id = true ∧
  wire_form_rejects_wrong_length_and_non_v8_uuids room_id other = true.
Proof.
  intros Hr Ho. unfold room_ids_round_trip_through_the_wire_form, wire_form_rejects_wrong_length_and_non_v8_uuids.
  assert (Hlen : length (room_id_to_bytes room_id) = 16) by apply as_bytes_length.
  assert (Hnone : ∀ b r, length b ≠ 16 → room_id_from_bytes b ≠ Some r)
    by (intros b r Hb (? & _)%room_id_from_bytes_Some; done).
  assert (Hother : room_id_from_bytes (as_bytes other) = None).
  { destruct (room_id_from_bytes (as_bytes other)) as [r|] eqn:E; [|done].
    apply room_id_from_bytes_Some in E as (_ & Hv & Hb). rewrite <-(from_as_bytes r), Hb, from_as_bytes in Hv. congruence. }
  assert (Hlen' : ∀ b, length b ≠ 16 → room_id_from_bytes b = None).
  { intros b Hb. destruct (room_id_from_bytes b) eqn:E; [|done]. by apply Hnone in E. }
  unfold assert_eq, all. rewrite room_id_from_to_bytes, Hother by done. rewrite !Hlen'.
  - by rewrite !bool_decide_eq_true_2.
  - rewrite length_app, Hlen. cbn. lia.
  - rewrite length_take, Hlen. lia.
  - done.
Qed.

End room_ids.

(** ** [src/src/ws_server.rs]

    The event loop takes both commands and the browser the close frame, as in the
    test; the clocks and the output channel are anything. *)

Section ws_server.
Context `{C : ColliderLib}.

Definition websocket_session_sends_close_when_stop_signal_fires
    (output : chan_id) (start : N) (end_instant : Instant) : Prop :=
  let '(session, running) := ws_session 42 output start true [EStop true] true end_instant in
  running = false ∧ frames session = [FClose] ∧
  told session = [Connected 42 output; Disconnected 42 end_instant].

(** The test of the WebSocket session passes. *)
Lemma ws_server_tests_pass output start end_instant :
  websocket_session_sends_close_when_stop_signal_fires output start end_instant.
Proof. done. Qed.
End ws_server.

(** ** [src/src/grpc_server.rs]

    Neither request reaches the state machine, so the answers are the same
    whatever it would say. *)

Section grpc_server.
Context `{L : RoomIdLib, P : v2.ProtoEnums, laws : !v2.ProtoEnumsLaws P}.
Context {S : Type} (exec : v2.RequestContext → collider.AuthorityOperation →
                           stateful S GrpcStatus collider.AuthorityResult).

(** [context] of the tests, and the room of [wire_room]. *)
Definition context (request_id : N) : v2.RequestContext :=
  v2.mk_RequestContext (as_i32 v2.Apprtc) "apprtc-test-instance" request_id.

Definition grpc_rejects_invalid_context_and_v2_token (wire_room : bytes) (s : S) : Prop :=
  (∃ error, get_status exec (v2.mk_StatusRequest None) s = (s, Err error) ∧ gs_code error = CodeInvalidArgument) ∧
  (∃ error, remove_v2 exec (v2.mk_RemoveV2Request (Some (context 1)) wire_room 2 EmptyString) s = (s, Err error) ∧
            gs_code error = CodeInvalidArgument).

(** The test of rejected requests passes, whatever the state machine would answer. *)
Lemma grpc_server_tests_pass wire_room s : grpc_rejects_invalid_context_and_v2_token wire_room s.
Proof.
  split; [by eexists|]. eexists. unfold remove_v2, st_bind, lift, app_context. cbn. by rewrite Z.eqb_refl.
Qed.
End grpc_server.

(** ** [src/src/sfu_server.rs]

    For every room, clock and engine that takes the client in and lets it go, and
    for every JSON reader that reads the message of the tests as what it is. *)

Section sfu_server.
Context `{L : RoomIdLib, laws : !RoomIdLaws L, P : v2.ProtoEnums, SL : SdpLib, E : !SfuLib,
          J : !SignalJson, LR : LeaveReasonDebug, HO : HashOrder}.

(** The message [{type: bye}] of the tests. *)
Definition bye_json : string := "{" +:+ quoted "type" +:+ ":" +:+ quoted "bye" +:+ "}".

Definition wire_room (room : RoomId) : bytes := room_id_to_bytes room.

Definition signal_bye (room : RoomId) (request_id lifecycle_id assignment_epoch : N) : v2.SfuCommand :=
  v2.mk_SfuCommand request_id
    (Some (v2.CmdSignal (v2.mk_SfuSignal (wire_room room) 101 lifecycle_id assignment_epoch bye_json None))).

Definition is_ok (accepted : v2.Payload → bool) (r : v2.SfuCommandResult) : bool :=
  match v2.res_result r with Some (v2.ResultOk (v2.mk_SfuCommandOk (Some p))) => accepted p | _ => false end.

Definition join_signal_leave_commands_update_the_worker_projection
    (room : RoomId) (engine : Sfu) (now : Instant) : bool :=
  let shard := mk_Shard engine ∅ in
  let '(shard, joined) := apply_command now shard
    (v2.mk_SfuCommand 10 (Some (v2.CmdJoin (v2.mk_JoinMember (wire_room room) 101 1 1)))) in
  let after_join := projection shard !! (room, 101%N) in
  let '(shard, bye) := apply_command now shard (signal_bye room 11 1 1) in
  let '(shard, gone) := apply_command now shard
    (v2.mk_SfuCommand 12 (Some (v2.CmdLeave (v2.mk_LeaveMember (wire_room room) 101 1 1 (as_i32 v2.ReasonUser))))) in
  all [is_ok (λ p, match p with v2.PMemberJoined _ => true | _ => false end) joined;
       assert_eq after_join (Some (1, 1)%N);
       is_ok (λ _, true) bye;
       is_ok (λ p, match p with v2.PMemberLeft _ => true | _ => false end) gone;
       bool_decide (projection shard = ∅)].

Definition stale_signal_is_rejected_before_it_reaches_the_sfu
    (room : RoomId) (engine : Sfu) (now : Instant) : bool :=
  let '(_, result) := apply_command now (mk_Shard engine {[ (room, 101%N) := (5, 7)%N ]})
                        (signal_bye room 20 4 7) in
  match v2.res_result result with
  | Some (v2.ResultError e) => assert_eq (v2.err_code e) (as_i32 v2.StaleLifecycle)
  | _ => false
  end.

(** The events of the tests. *)
Definition about_member (ev : SFUEvent) : bool :=
  match ev with EvJoin _ _ c | EvLeave _ _ c _ => (c =? 101)%N | _ => false end.

(** The tests of the worker's commands pass, for every room and every engine that takes the
    member in and lets it go. *)
Lemma sfu_server_tests_pass room engine now value envelope :
  is_room_uuid room = true →
  (∀ ev e, about_member ev = true → (sfu_handle_event now ev e).2 = Ok tt) →
  json_from_str bye_json = Some value → json_app_signal value = Some envelope → as_kind envelope = "bye" →
  join_signal_leave_commands_update_the_worker_projection room engine now = true ∧
  stale_signal_is_rejected_before_it_reaches_the_sfu room engine now = true.
Proof.
  intros Hr Hev Hv He Hk.
  assert (Hid : room_id_from_bytes (wire_room room) = Some room) by by apply room_id_from_to_bytes.
  assert (Hsig : ∀ e id l a,
    apply_signal now id room (v2.mk_SfuSignal (wire_room room) 101 l a bye_json None) e = (e, Ok tt)).
  { intros e id l a. unfold apply_signal. cbn -[bye_json]. rewrite Hv. cbn. unfold st_bind at 1. cbn. rewrite He. cbn. rewrite Hk. done. }
  assert (Hstep : ∀ ev fail p e, about_member ev = true → ∃ e', engine_event now ev fail (mk_Shard e p) = (mk_Shard e' p, Ok tt)).
  { intros ev fail p e Hab. unfold engine_event. cbn. specialize (Hev ev e Hab).
    destruct (sfu_handle_event now ev e) as [e' r]. cbn in *. subst r. by exists e'. }
  unfold join_signal_leave_commands_update_the_worker_projection, stale_signal_is_rejected_before_it_reaches_the_sfu,
    apply_command, signal_bye. cbn -[bye_json apply_join apply_leave apply_signal_command].
  unfold st_bind, lift. rewrite Hid. cbn -[bye_json apply_join apply_leave apply_signal_command].
  unfold apply_join, apply_signal_command. cbn -[bye_json apply_leave apply_signal]. split.
  - rewrite lookup_empty. unfold st_bind, update_projection, lift.
    edestruct Hstep as [e1 ->]; [done|]. cbn -[bye_json apply_leave apply_signal].
    rewrite decide_True by apply lookup_insert_eq. rewrite Hsig. unfold apply_leave. cbn -[engine_event].
    rewrite lookup_insert_eq. cbn -[engine_event]. unfold st_bind, update_projection, lift.
    edestruct Hstep as [e2 ->]; [done|]. cbn. unfold assert_eq. rewrite !bool_decide_eq_true_2; [done| |done].
    rewrite delete_insert_eq. apply delete_empty.
  - rewrite decide_False by (rewrite lookup_singleton_eq; congruence). cbn. by apply bool_decide_eq_true_2.
Qed.
End sfu_server.

(** The tests on an engine that keeps its members. *)
#[local] Existing Instance sample_room_id.
#[local] Existing Instance sample_enums.

#[local] Instance bye_only : SignalJson := {
  Json := string;
  json_null := "null";
  json_of_sdp _ := None;
  json_object_insert _ _ _ := None;
  json_object _ := "{}";
  json_to_string j := j;
  json_from_str s := if String.eqb s bye_json then Some s else None;
  json_app_signal s := Some (mk_AppSignal "bye" EmptyString None None None);
  json_sdp s := None;
}.

Example sfu_server_tests_sample :
  join_signal_leave_commands_update_the_worker_projection (sample_room x2a) sample_engine 1 = true ∧
  stale_signal_is_rejected_before_it_reaches_the_sfu (sample_room x2a) sample_engine 1 = true.
Proof.
  eapply sfu_server_tests_pass; try reflexivity. intros [] e Hab; try done. apply N.eqb_eq in Hab. by subst.
Qed.
