(* ===== verification/RoomServerTests.v ===== *)
(** * The tests of [src/src/room_server.rs] on the model

    [MockAuthority] as an implementation of [RoomAuthority], and the nine tests of
    the file: each sends its requests through the route table to the handlers and
    checks the answers as the code's test does, with concrete random draws.  The
    pages are reduced to the lines of [src/web/html/] that the tests look at. *)

From S2P Require Import Prelude Wire GrpcClient Params Templates RoomServer Bodies Router RoomServerSpec Samples.
From S2P Require Import TestSupport.
From Stdlib Require Import Strings.Byte.

#[local] Existing Instance sample_room_id.
#[local] Existing Instance sample_enums.

(** ** [MockAuthority] *)

(** [MockClient] and [MockRooms]; there is one task. *)
Definition MockClient : Type := string * list string.
Definition MockRooms : Type := gmap string (list MockClient).

(** [rooms.entry(roomid).or_default()]. *)
Definition clients_of (rooms : MockRooms) (roomid : string) : list MockClient :=
  opt_default [] ((rooms : gmap string (list MockClient)) !! roomid).

Definition has_client (clientid : string) (clients : list MockClient) : bool :=
  existsb (λ c, String.eqb c.1 clientid) clients.

Definition with_clients (rooms : MockRooms) (roomid : string) (clients : list MockClient) : MockRooms :=
  <[roomid := clients]> (rooms : gmap string (list MockClient)).

Definition mock_admit (roomid clientid : string) : stateful MockRooms string Admission := λ rooms,
  let clients := clients_of rooms roomid in
  if has_client clientid clients then (with_clients rooms roomid clients, Err "DUPLICATE_CLIENT")
  else if (2 <=? length clients)%nat then (with_clients rooms roomid clients, Err "FULL")
  else
    let initiator := bool_decide (clients = []) in
    let messages := opt_default [] (snd <$> head clients) in
    (with_clients rooms roomid (clients ++ [(clientid, [])]), Ok (mk_Admission initiator messages)).

(** [get_mut(&roomid)] and [retain]; the room stays. *)
Definition mock_remove (roomid clientid : string) : stateful MockRooms string unit := λ rooms,
  (alter (filter (λ c : MockClient, String.eqb c.1 clientid = false)) roomid (rooms : gmap string (list MockClient)),
   Ok tt).

Definition mock_occupancy (roomid : string) : stateful MockRooms string N := λ rooms,
  (rooms, Ok (N.of_nat (length (clients_of rooms roomid)))).

(** The queue of the first client of that id gets the message. *)
Fixpoint push_to (clientid msg : string) (clients : list MockClient) : list MockClient :=
  match clients with
  | [] => []
  | (id, queue) :: clients' =>
      if String.eqb id clientid then (id, queue ++ [msg]) :: clients'
      else (id, queue) :: push_to clientid msg clients'
  end.

Definition mock_inject (roomid clientid msg : string) : stateful MockRooms string unit := λ rooms,
  let clients := clients_of rooms roomid in
  (with_clients rooms roomid
     (if has_client clientid clients then push_to clientid msg clients else clients ++ [(clientid, [msg])]),
   Ok tt).

(** [format!("v2:{room_id}")]; the token stands for the UUID's text. *)
Definition v2_key (room_id : RoomId) : string := "v2:" +:+ format_room_token room_id.

Definition mock_admit_v2 (room_id : RoomId) (client_id : N) : stateful MockRooms string V2Admission := λ rooms,
  let clients := clients_of rooms (v2_key room_id) in
  let client_id := show_u64 client_id in
  if has_client client_id clients then (with_clients rooms (v2_key room_id) clients, Err "DUPLICATE_CLIENT")
  else if (2 <=? length clients)%nat then (with_clients rooms (v2_key room_id) clients, Err "NO_SFU_AVAILABLE")
  else
    let is_initiator := bool_decide (clients = []) in
    (with_clients rooms (v2_key room_id) (clients ++ [(client_id, [])]),
     Ok (mk_V2Admission v2.ModeP2p 0 ("token-" +:+ format_room_token room_id +:+ "-" +:+ client_id)
           (Some is_initiator))).

Definition mock_status : stateful MockRooms string StatusSnapshot := λ rooms,
  let rooms' := (rooms : gmap string (list MockClient)) in
  (rooms, Ok (mk_StatusSnapshot (N.of_nat (size rooms'))
                (map_fold (λ _ clients n, N.of_nat (length clients) + n)%N 0%N rooms') 0 0 0)).

#[export] Instance MockAuthority : RoomAuthority MockRooms := {
  admit_room roomid clientid _ := mock_admit roomid clientid;
  remove := mock_remove;
  occupancy := mock_occupancy;
  inject := mock_inject;
  admit_v2 := mock_admit_v2;
  remove_v2 room_id client_id _ := mock_remove (v2_key room_id) (show_u64 client_id);
  occupancy_v2 room_id := mock_occupancy (v2_key room_id);
  authority_status := mock_status;
}.

(** It keeps the promise of an authority, so that [v2_join] never panics on it. *)
#[export] Instance mock_authority_stable : StableAdmissions MockRooms.
Proof.
  intros room_id client_id s s' admission. cbn. unfold mock_admit_v2.
  repeat case_match; intros Heq; simplify_eq/=. by left.
Qed.

(** The mock admits to a room with a free place, and the initiator to an empty one. *)
Lemma mock_admit_capacity roomid clientid rooms rooms' admission :
  mock_admit roomid clientid rooms = (rooms', Ok admission) →
  length (clients_of rooms roomid) < 2 ∧
  length (clients_of rooms' roomid) = S (length (clients_of rooms roomid)) ∧
  (adm_is_initiator admission = true ↔ clients_of rooms roomid = []).
Proof.
  unfold mock_admit. destruct (has_client _ _); [done|].
  destruct (Nat.leb_spec 2 (length (clients_of rooms roomid))); [done|]. intros [= <- <-]. cbn.
  split_and!; [lia| |apply bool_decide_eq_true].
  unfold with_clients, clients_of at 1. rewrite lookup_insert_eq. cbn. rewrite length_app. cbn. lia.
Qed.

(** ** [app] and [request] *)

(** The pages, reduced to the lines that the tests look at. *)
Definition index_template : string :=
  "<input type=" +:+ quoted "checkbox" +:+ " id=" +:+ quoted "signaling-v2-checkbox" +:+ " checked/>"
  +:+ "signalingVersion: {{ signaling_version }},".

Definition full_template : string := "<div>Sorry, this room is full.</div>".

#[local] Instance web_files : PageFiles := directory
  {[ "web/html/index_template.html" := index_template;
     "web/html/full_template.html" := full_template;
     "web/html/grid_template.html" := "<div></div>" ]}.

Definition test_config (force_tls : bool) : Config := mk_Config "web" "" force_tls "" [] [] "" "" "" false.

Record App := mk_App { app_config : Config; engine : TemplateEngine; server : Server (S := MockRooms) }.

Definition app_with (config : Config) : option App :=
  match new_room_server config (∅ : gmap string (list MockClient)) with
  | Ok (e, s) => Some (mk_App config e s)
  | Err _ => None
  end.

(** axum's choice among the patterns, computed. *)
#[local] Instance test_matcher : PathMatcher := λ ps path,
  fst <$> list_find (λ p, matching p path && negb (beaten ps path p) = true) ps.

(** What comes back; the static files are not the router's. *)
Inductive Reply := Answered (r : Response) | StaticFile | NotAllowed | Malformed | Panicked.

(** [request]: [drawn] stands for the generator. *)
Definition request (app : App) (drawn : N) (method : Method) (uri : string) (authorization : option string)
    (body : string) : App * Reply :=
  let path := tail (split_on (Ascii.ascii_of_N 47) (split_once (Ascii.ascii_of_N 63) uri).1 EmptyString) in
  match router (λ s, Some (percent_decode s)) (λ i, drawn + N.of_nat i)%N (λ i, drawn + N.of_nat i)%N 3 body
          method path with
  | Files => (app, StaticFile)
  | MethodNotAllowed => (app, NotAllowed)
  | BadPath => (app, Malformed)
  | Handled route =>
      match handle (T := engine app) (app_config app) route
              (mk_RequestHead (Some "example.test") uri authorization) (server app) with
      | Some (s, r) => (mk_App (app_config app) (engine app) s, Answered r)
      | None => (app, Panicked)
      end
  end.

(** A script over an application: what the requests leave is threaded on. *)
Definition Script (X : Type) : Type := App → X.

Definition send {X} (drawn : N) (method : Method) (uri : string) (body : string) (k : Reply → Script X) : Script X :=
  λ app, let '(app, r) := request app drawn method uri None body in k r app.

Definition send_as {X} (token : string) (method : Method) (uri : string) (k : Reply → Script X) : Script X :=
  λ app, let '(app, r) := request app 0 method uri (Some ("Bearer " +:+ token)) EmptyString in k r app.

Definition check (assertions : list bool) : Script bool := λ _, all assertions.

Definition on_app (config : Config) (s : Script bool) : bool :=
  match app_with config with Some app => s app | None => false end.

(** ** Reading replies *)

Definition status_of (r : Reply) : N :=
  match r with Answered r => rsp_status r | StaticFile => 200 | NotAllowed => 405 | Malformed => 400 | Panicked => 0 end.

Definition cors_of (r : Reply) : option string := match r with Answered r => rsp_cors r | _ => None end.

(** [json_body]. *)
Definition json_body (r : Reply) : Value :=
  match r with Answered r => opt_default VNull (body_value (rsp_body r)) | _ => VNull end.

Definition result_of (r : Reply) : Value := field "result" (json_body r).
Definition params_of (r : Reply) : Value := field "params" (json_body r).

(** [assert_eq!(v, text)] and [assert_eq!(v, flag)]. *)
Definition says (v : Value) (text : string) : bool := match v with VString s => String.eqb s text | _ => false end.
Definition flagged (v : Value) (flag : bool) : bool := match v with VBool b => Bool.eqb b flag | _ => false end.

(** [v.get(key).is_none()]. *)
Definition lacks (key : string) (v : Value) : bool := match get_field key v with None => true | Some _ => false end.

Definition page_of (r : Reply) : option string :=
  match r with Answered (mk_Response _ _ (HtmlBody b)) => Some b | _ => None end.

Definition text_of (r : Reply) : option string :=
  match r with Answered (mk_Response _ _ (TextBody b)) => Some b | _ => None end.

Definition page_contains (needle : string) (r : Reply) : bool :=
  match page_of r with Some b => contains needle b | None => false end.

(** The client id of a join. *)
Definition client_of (r : Reply) : string := text_field "client_id" (params_of r).

(** ** The tests *)

Definition v1_join_message_replay_capacity_and_leave_flow : bool :=
  on_app (test_config false)
    (send 1 POST "/join/room" "" (λ first,
     send 0 POST ("/message/room/" +:+ client_of first) "offer" (λ sent,
     send 2 POST "/join/room" "" (λ second,
     send 3 POST "/join/room" "" (λ full,
     send 0 POST ("/leave/room/" +:+ client_of first) "" (λ left_room,
     send 4 POST "/join/room" "" (λ replacement,
     check [says (result_of first) "SUCCESS";
            says (field "is_initiator" (params_of first)) "true";
            assert_eq (String.length (client_of first)) 8;
            string_forallb is_ascii_digit (client_of first);
            says (result_of sent) "SUCCESS";
            says (result_of second) "SUCCESS";
            says (field "is_initiator" (params_of second)) "false";
            assert_eq (json_text (field "messages" (params_of second))) (json_text (VArray [VString "offer"]));
            says (result_of full) "FULL";
            assert_eq (status_of left_room) 200%N;
            match left_room with Answered (mk_Response _ _ EmptyBody) => true | _ => false end;
            says (result_of replacement) "SUCCESS"]))))))).

(** [room_token]: a version-8 UUID whose last bytes are given. *)
Definition test_uuid (version b1 b2 b3 : Byte.byte) : uuid :=
  ([x00; x00; x00; x00; x00; x00; version; x00; x80; x00; x00; x00; x00; b1; b2; b3] : bytes) ↾ eq_refl.

Definition room_token_42 : string := uuid_token (test_uuid x80 x00 x00 x2a).
Definition room_token_99 : string := uuid_token (test_uuid x80 x00 x00 x63).
Definition room_token_424242 : string := uuid_token (test_uuid x80 x06 x79 x32).

Definition v2_join_uses_numeric_ids_token_epoch_and_authenticated_leave : bool :=
  on_app (test_config false)
    (send 7 POST ("/v2/join/" +:+ room_token_42) "" (λ first,
     let leave_uri := "/v2/leave/" +:+ room_token_42 +:+ "/" +:+ client_of first in
     let token := text_field "admission_token" (params_of first) in
     send 0 POST leave_uri "" (λ unauthorized,
     send_as token POST leave_uri (λ leave,
     check [says (result_of first) "SUCCESS";
            says (field "room_id" (params_of first)) room_token_42;
            says (field "room_link" (params_of first)) ("http://example.test/v2/r/" +:+ room_token_42);
            says (field "mode" (params_of first)) "p2p";
            says (field "epoch" (params_of first)) "0";
            flagged (field "is_initiator" (params_of first)) true;
            negb (is_empty token);
            bool_decide (is_Some (canonical_u64 (client_of first)));
            says (result_of unauthorized) "UNAUTHORIZED";
            says (result_of leave) "SUCCESS"])))).

(** Room tokens that are wrong: too short, too long, and a UUID of version 4. *)
Definition invalid_tokens : list string :=
  ["01"; "not-a-token"; String.substring 0 (String.length room_token_42 - 1) room_token_42; room_token_42 +:+ "A";
   uuid_token (test_uuid x40 x00 x00 x2a)].

Definition v2_routes_reject_noncanonical_ids_and_expose_v2_page_configuration : bool :=
  on_app (test_config false) (λ app,
    forallb (λ room_id, send 1 POST ("/v2/join/" +:+ room_id) "" (λ response,
               check [says (result_of response) "INVALID_ROOM_ID"]) app) invalid_tokens &&
    send 0 GET ("/v2/r/" +:+ room_token_42) "" (λ page,
    send 0 GET "/v2/params" "" (λ params,
    check [assert_eq (status_of page) 200%N;
           page_contains "signalingVersion: 2" page;
           page_contains ("id=" +:+ quoted "signaling-v2-checkbox") page;
           page_contains ("id=" +:+ quoted "signaling-v2-checkbox" +:+ " checked") page;
           lacks "wss_post_url" (json_body params)])) app).

Definition v2_third_join_reports_no_sfu_available_without_affecting_v1 : bool :=
  let join := "/v2/join/" +:+ room_token_99 in
  on_app (test_config false)
    (send 1 POST join "" (λ first,
     send 2 POST join "" (λ second,
     send 3 POST join "" (λ third,
     send 4 POST "/join/99" "" (λ v1,
     check [says (result_of first) "SUCCESS";
            flagged (field "is_initiator" (params_of first)) true;
            says (result_of second) "SUCCESS";
            flagged (field "is_initiator" (params_of second)) false;
            says (result_of third) "NO_SFU_AVAILABLE";
            lacks "params" (json_body third);
            says (result_of v1) "SUCCESS";
            says (field "is_initiator" (params_of v1)) "true"]))))).

Definition status_has (keys : list string) (r : Reply) : bool :=
  match r with
  | Answered (mk_Response _ _ (StatusBody report)) =>
      forallb (λ key, existsb (λ kv, String.eqb kv.1 key) (status_report_fields report)) keys
  | _ => false
  end.

Definition v1_pages_static_assets_bridge_and_status_are_served : bool :=
  on_app (test_config false)
    (send 0 GET "/" "" (λ root,
     send 0 GET "/js/call.js" "" (λ script,
     send 0 POST "/room/client" "candidate" (λ bridge,
     send 0 DELETE "/_internal/room/client" "" (λ internal,
     send 0 GET "/status" "" (λ status,
     check [assert_eq (status_of root) 200%N;
            page_contains "signalingVersion: 1" root;
            page_contains ("id=" +:+ quoted "signaling-v2-checkbox") root;
            page_contains ("id=" +:+ quoted "signaling-v2-checkbox" +:+ " checked") root;
            match script with StaticFile => true | _ => false end;
            assert_eq (status_of bridge) 200%N;
            assert_eq (text_of bridge) (Some ("OK" +:+ String (Ascii.ascii_of_N 10) EmptyString));
            assert_eq (status_of internal) 200%N;
            assert_eq (status_of status) 200%N;
            match cors_of status with Some _ => true | None => false end;
            status_has ["upsec"; "openws"; "totalws"; "wserrors"; "httperrors"] status])))))).

Definition bridge_validates_empty_body_and_sets_cors_headers : bool :=
  on_app (test_config false)
    (send 0 POST "/room/client" "" (λ empty,
     send 0 GET "/room/client" "" (λ invalid,
     check [assert_eq (status_of empty) 500%N;
            assert_eq (cors_of empty) (Some "POST, DELETE");
            assert_eq (status_of invalid) 405%N]))).

Definition params_honor_query_options_and_request_host : bool :=
  on_app (test_config true)
    (send 0 GET "/params?debug=loopback&it=relay&tt=relay" "" (λ response,
     check [assert_eq (status_of response) 200%N;
            says (field "wss_url" (json_body response)) "wss://example.test/ws";
            says (field "is_loopback" (json_body response)) "true";
            says (field "ice_server_transports" (json_body response)) "relay"])).

Definition room_page_switches_to_full_template_at_capacity : bool :=
  on_app (test_config false)
    (send 1 POST "/join/full-room" "" (λ first,
     send 2 POST "/join/full-room" "" (λ second,
     send 0 GET "/r/full-room" "" (λ page,
     send 0 POST ("/leave/full-room/" +:+ client_of first) "" (λ _,
     send 0 POST ("/leave/full-room/" +:+ client_of second) "" (λ _,
     check [assert_eq (status_of page) 200%N; page_contains "this room is full" page])))))).

Definition v2_room_page_never_shows_full_so_the_third_join_can_upgrade : bool :=
  on_app (test_config false)
    (send 1 POST ("/v2/join/" +:+ room_token_424242) "" (λ first,
     send 2 POST ("/v2/join/" +:+ room_token_424242) "" (λ second,
     send 0 GET ("/v2/r/" +:+ room_token_424242) "" (λ page,
     check [says (result_of first) "SUCCESS";
            says (result_of second) "SUCCESS";
            assert_eq (status_of page) 200%N;
            negb (page_contains "this room is full" page);
            page_contains "signalingVersion: 2" page])))).

(** The tests of the V1 endpoints pass. *)
Lemma room_server_v1_tests_pass :
  v1_join_message_replay_capacity_and_leave_flow = true ∧
  v1_pages_static_assets_bridge_and_status_are_served = true ∧
  bridge_validates_empty_body_and_sets_cors_headers = true ∧
  params_honor_query_options_and_request_host = true ∧
  room_page_switches_to_full_template_at_capacity = true.
Proof. split_and!; vm_compute; reflexivity. Qed.

(** The tests of the V2 endpoints pass. *)
Lemma room_server_v2_tests_pass :
  v2_join_uses_numeric_ids_token_epoch_and_authenticated_leave = true ∧
  v2_routes_reject_noncanonical_ids_and_expose_v2_page_configuration = true ∧
  v2_third_join_reports_no_sfu_available_without_affecting_v1 = true ∧
  v2_room_page_never_shows_full_so_the_third_join_can_upgrade = true.
Proof. split_and!; vm_compute; reflexivity. Qed.
